(* ===== verification/_CoqProject ===== *)
-Q . S2P
Prelude.v
Printf.v
Cheri.v
TagMem.v
Perms.v
Harness.v
Runner.v
Toy.v
StringTests.v
Registers.v
Bounds.v
RunnerFacts.v
Faults.v
Main.v
Spawn.v
AddrGap.v
Kernel.v
VmTags.v
MmapPerms.v
Argv.v
Mappings.v
Reservations.v
Judge.v
Aliasing.v
Revocation.v
Sealing.v
Traps.v
Signals.v
Formats.v
Ptrace.v
Contexts.v
Malloc.v
Buffers.v
Subobject.v
Paths.v
VmPages.v
PageType.v
Knotes.v
Quarantine.v
Loadside.v
Channels.v
Syscalls.v
