(* ===== verification/Prelude.v ===== *)
(** * cheri-os-test: a verification development of the CHERI OS test-suite

    The program (src/cheriostest/) runs some hundreds of small tests of a CHERI
    operating system.  Each test is a C function registered in a linker set; the
    controller forks a child for it, gives it a page of shared memory, a pipe as
    standard input and one as standard output, installs signal handlers, runs the
    body, and judges from the page, the wait status and the output whether the
    test passed, failed, or failed as expected.  A body ends by declaring a
    verdict in the page and leaving the process, or by a fault that the
    handler records.

    ** Parts and files

    - [Prelude] (this file): machine integers with their wrap-around, the effect
      [eff] (state with exit, fault and undefined access as outcomes), its
      weakest precondition [wpx] (total [wp], partial [wlp]), C strings.
    - [Printf]: the printf(3) conversions that the messages use.
    - [Cheri]: the build configuration [config] (the #ifdefs), the interface
      [Cheri] of cheriintrin.h with the laws [CheriLaws], and a machine with
      uncompressed bounds, [scap], on which concrete runs are evaluated.
    - [TagMem]: tagged memory, and the copy that memcpy(3) promises.
    - [Perms]: the permission masks of cheri/cherireg.h.
    - [Harness]: cheriostest.h and cheriostest_util.c: the shared page, the
      description of a test, the functions that end a test, the check macros.
      The type class [Checks] computes from a body the list of conditions it
      checks; [succeeds_checks] turns "the body declares success" into "the
      conditions hold".
    - [Runner]: cheriostest_run_test of cheriostest.c, cut at its labels: the
      child ([child_main], [end_of_process]), the analysis ([analyse_status],
      [output_mismatch]), [pass_label], [fail_label], [do_return], the counters
      ([tally]), the libxo report as a trace; then the abstract specification
      [accepted].
    - [Toy]: a concrete platform for the witnesses.
    - [StringTests]: cheriostest_string.c.  [Registers]:
      cheriostest_registers.c.  [Bounds]: cheriostest_bounds_stack.c, _heap.c,
      _globals.c and _globals_x.c.  The C library, the kernel, the compiler and
      the linker that these test are parameters of the definitions.
    - [RunnerFacts]: the theorems about the controller.  [Faults]: tests that
      must fault, and cheriostest_bounds_varargs.c.
    - [Main]: main of cheriostest.c: options, choice of tests, listing, summary,
      and the entry of a child that was started again.
    - [Spawn]: the argument vector of such a child, the ways to start it, the
      paths of the helper programs, cheriostest_internal.c.
    - [AddrGap]: cheriostest_util_vm.c, the search for free address space, with
      sscanf's "%llx-%llx".
    - [Kernel]: the system calls of the memory tests as a type class, and the
      lemmas on checked calls ([check_iff], [call_error_iff]) that the following
      files share.
    - [VmTags]: cheriostest_vm.c, the names of shared objects, temporary files,
      tags in mappings and refused protections.  [Reservations]: the tests of
      reservations of that file, and the skip functions of cheriostest_util.c.
    - [MmapPerms], [Argv], [Mappings]: cheriostest_cheriabi.c: permissions and
      lengths of mappings; argument and environment vectors; the arguments of
      munmap, mprotect, minherit, shmdt and mincore.
    - [Judge]: a logic of test bodies over an abstract machine: what a part of a
      body does to the machine ([steps]), checks ([decides]), and when the whole
      succeeds ([judged]) or exits ([exits]); fork and the wait for a child; and
      for tests that expect a signal, how a body ends ([ends]) and that one which
      declares no failure leaves the page as it was ([plain]).
      [Aliasing]: shared and copy-on-write pages, read and write, descriptors and
      capabilities handed to another process (cheriostest_vm.c).  [Revocation]:
      the sweeps of memory of that file: libcheri_caprevoke in one process,
      across fork and in spawned programs, and asynchronous revocation.
    - [Sealing]: cheriostest_sealcap.c, cheriostest_cidcap.c,
      cheriostest_sentries.c, and the refused operations of cheriostest_fault.c.
    - [Traps]: the accesses of cheriostest_fault.c that must fault or must not,
      and the unmapped addresses of cheriostest_signal.c.  [Signals]: the
      handlers that cheriostest_signal.c installs for a signal that it sends to
      itself, as deliveries that act on the statics of the file.
    - [Formats]: cheriostest_strfcap.c and cheriostest_printf.c, with the scanner
      that sscanf(3) is for their formats.
    - [Ptrace]: cheriostest_ptrace.c: a child stopped under its parent.
      [Contexts]: cheriostest_context.c and cheriostest_longjmp.c.
    - [Malloc]: cheriostest_malloc.c and the two helper programs that it starts.
      [Buffers]: cheriostest_kbounce.c and cheriostest_zlib.c, with a decoder of
      RFC 1950 and 1951.  [Subobject]: cheriostest_bounds_subobject.c.
      [Paths]: cheriostest_cheriabi_open.c and cheriostest_cheriabi_libc.c.
    - [Channels]: cheriostest_fs.c and cheriostest_ipc.c: files and pipes carry no
      tags, and a write that is interrupted.  [Syscalls]: cheriostest_syscall.c:
      suspended children under SIG_DFL and SIG_IGN, the value of an asynchronous
      request, and a traced child.
    - [VmPages]: large pages and stack mappings of cheriostest_vm.c.  [Knotes]:
      the capabilities that the kernel holds, under revocation, of that file.
      [Quarantine]: its quarantined reservations.  [Loadside]: its tests of dirty
      bits and of the load-side revoker, with pages as automata.
    - [PageType]: the type of the shared page and the bodies that keep it.

    ** What the theorems show

    - The controller (C1 to C3, C5, [disallowed_name_reads_unset_local]): [judge] files a pass exactly when [accepted]
      holds; every run files one result and keeps the counters equal to the
      lists; the report is well nested but for one early return; one path reads
      a local that is not set; and a run reaches the body in a clean state and
      files what its specification assigns to what the body left.
    - The type of the page (C26): every call of the harness keeps what the
      controller relies on when it reads the page, through the whole child.
    - The command line (C6, lemmas [summarise_exit_status],
      [set_opts_spec] and [validate_spec]): a run
      files one result per selected test; the exit status says whether a test
      failed; the option loop and the checks after it do what their tables say.
    - Re-execution (C10, C11, [spawned_child_runs]): the bounds of the argument
      vector, its round trip through the option parser, and the child function
      that it reaches.
    - Traced children (C12): which reports of memory and registers each test
      accepts, and the one that accepts all.
    - The tests themselves (C13, C14, C16, C21, C30, [bounds_stack_verdict]): which copy
      functions, registers, compilers, linkers and calling conventions each group
      of tests accepts, and which defects it cannot see.
    - The allocator (C9), copies through the kernel (C15), compression (C25),
      paths (C17), files and pipes (C18) and the calls on other processes (C4):
      which implementations pass, the decoder's reading of the constant of the
      file included.
    - Free address space (C22, C23): what both versions of the search return,
      and that they give up only when there is no hole.
    - Memory tests (C7, C8, C19, C24, C27 to C29, C31 to C36): over a kernel that is described by a table of
      its answers, or as an implementation of a reference machine, each test
      passes exactly when the table has the answers that the test is there to
      check, which for the tests that expect a signal is what the controller
      files (C34); the loops of these tests end.
    - Sealing (C37): which capabilities of the system the tests of seal and
      unseal accept, and what the refused ones do not see.
    - Traps and signals (C38, C39): the fault of a refused access through the
      handler of the harness and the analysis of the controller to the result
      that is filed; which deliveries of a signal the tests of handlers accept.
    - Text (C20, C40): the text of a capability is read back as what it says, and
      which C libraries pass the tests of formats.

    ** Conventions

    The operating system, the C library, the compiler and the machine are type
    classes ([Libc], [RunnerOS], [SpawnOS], [Cheri], [CapMem], [Perms],
    [Compiler], [Varargs], ...) whose state is a type [W] that the definitions
    thread; what a theorem needs of them is a class of laws ([CheriLaws],
    [RunnerOSLaws], [CapMemLaws], [PermLaws]) with a concrete instance.  An
    undefined access (a null page, a store out of bounds) is the outcome [Undef].
    A kernel is described to a theorem by a class that relates its calls to a
    table: [TagPolicy] with [TagLaws] (which mappings keep tags), [MmapPolicy]
    (permissions of a mapping), [MapRules] (which calls a mapping admits),
    [ResvRules] (hints and reservations), [ArgOS] (the vectors of a program); or
    by a class that relates it to a machine: [VmRefines] (objects, views and two
    processes, with the tag effects [Sharing]), [RevRules] (slots, painted
    granules and a revoker [RevPolicy]), [AsyncRules] (passes in the
    background), [TrapRules] (the checks of an access, [byte_check]) 
    [SigRules] (the action of a signal and the alternate stack), [TraceRules] (a
    stopped child), [ControlRules] (where jumps and contexts go), [AllocRules]
    (blocks, quarantine and revocation of an allocator), [BounceRules] and
    [ZlibOS] (what a copy or a stream gives), [SubRules] (the range of a pointer
    to a member), [PathRules] (bytes in reach of a path), [PagesRules] (sizes and
    slots of large pages), [QueueRules] (the queue of kevent(2)), [QuarRules]
    (memory maps before and after a pass), [SideRules] (the automaton of a
    page), [ChannelRules] (a capability on its way through a file or a pipe) and
    [SyscallRules] (suspended and traced children).  A forked
    child ([ForkOS]) runs when its parent waits for it.

    Loops of the program are over finite lists but for these.  [Printf.digits]
    runs with 64, enough for the digits of a 64-bit number in any base from 2 on
    ([strtou_utoa]).  [create_loop] runs with 10: the code gives up at the tenth
    attempt ([create_named_shm_obj_ends]).  [shortest_unrepresentable] runs with 32: the shift leaves the
    range of int before that, which is undefined (C29).  [string_loop] walks an
    array up to its length, past which the access is undefined.  [lib_loop] runs
    with one round more than the block has slots: each chunk has at least one
    ([decides_loop]).  [async_wait] has its bound as an argument: C36 says which
    bounds are enough.  [after_setjmp] has one too: two are enough
    ([after_setjmp_fuel]).  The decoder of [Buffers] runs with a bound on its
    input, and decodes the constant of the file within it.  [read_sizes] follows
    the names of a directory and stops having a meaning behind the array.

    ** Not modelled

    Memory exhaustion (malloc, calloc, asprintf), the buffering of stdio, the
    text of err(3) on standard error beyond its message, and the interleaving of
    the controller with a running child: the controller waits for the child
    before it looks at anything the child writes.

    Of cheriostest_vm.c, copy-on-write and capabilities hoarded in shared
    memory under revocation, and forks while the revoker runs in the background.
    The tests of threads, thread-local storage, lazy binding and
    compartments check what the dynamic linker and the thread library do, code
    that is not in the repository.  The note tool is a C++ program on ELF files. *)

From Stdlib Require Export ZArith Lia.
From Stdlib Require Export Ascii String.
From stdpp Require Export base decidable list gmap strings.

#[global] Open Scope Z_scope.

Declare Scope c_scope.
Delimit Scope c_scope with C.

(** Facts about the harness that close the goals of the test components. *)
Create HintDb harness.

(** ** Machine integers *)

(** Wrap-around of an unsigned [w]-bit integer. *)
Definition wrapu (w z : Z) : Z := z mod 2 ^ w.

(** Wrap-around of a signed (two's complement) [w]-bit integer. *)
Definition wraps (w z : Z) : Z := (z + 2 ^ (w - 1)) mod 2 ^ w - 2 ^ (w - 1).

Abbreviation u32 := (wrapu 32).
Abbreviation u64 := (wrapu 64).
Abbreviation i32 := (wraps 32).

(** [__builtin_align_down] and [__builtin_align_up] on 64-bit addresses. *)
Definition builtin_align_down (x a : Z) : Z := Z.land x (Z.lnot (a - 1)).
Definition builtin_align_up (x a : Z) : Z :=
  Z.land (u64 (x + (a - 1))) (Z.lnot (a - 1)).
Definition builtin_is_aligned (x a : Z) : bool := Z.land x (a - 1) =? 0.

Notation "a '&' b" := (Z.land a b) (at level 36, left associativity) : c_scope.
Notation "a '.|' b" := (Z.lor a b) (at level 38, left associativity) : c_scope.
Notation "~. a" := (Z.lnot a) (at level 35, right associativity) : c_scope.

(** A C flag word has bit [f] set: [(w & f) != 0]. *)
Definition flag_set (w f : Z) : bool := negb (Z.land w f =? 0).

Lemma wrapu_range (w z : Z) : 0 <= w -> 0 <= wrapu w z < 2 ^ w.
Proof. intros Hw. apply Z.mod_pos_bound. by apply Z.pow_pos_nonneg. Qed.

Lemma wrapu_small (w z : Z) : 0 <= z < 2 ^ w -> wrapu w z = z.
Proof. apply Z.mod_small. Qed.

Lemma wrapu_idemp (w z : Z) : 0 <= w -> wrapu w (wrapu w z) = wrapu w z.
Proof. intros Hw. apply wrapu_small. by apply wrapu_range. Qed.

Lemma wraps_small (w z : Z) :
  0 < w -> - 2 ^ (w - 1) <= z < 2 ^ (w - 1) -> wraps w z = z.
Proof.
  intros Hw Hz. unfold wraps.
  assert (2 ^ w = 2 * 2 ^ (w - 1)) as Hp.
  { rewrite <- Z.pow_succ_r by lia. f_equal. lia. }
  rewrite Z.mod_small; lia.
Qed.

(** Clearing the low [k] bits is rounding down to a multiple of [2^k]. *)
Lemma land_lnot_ones (x k : Z) :
  0 <= k -> Z.land x (Z.lnot (2 ^ k - 1)) = x - x mod 2 ^ k.
Proof.
  intros Hk. rewrite <- Z.ldiff_land.
  replace (2 ^ k - 1) with (Z.ones k) by (rewrite Z.ones_equiv; lia).
  rewrite Z.ldiff_ones_r by done.
  rewrite Z.shiftr_div_pow2, Z.shiftl_mul_pow2 by done.
  pose proof (Z.div_mod x (2 ^ k)) as Hdm.
  assert (2 ^ k <> 0) by (apply Z.pow_nonzero; lia). lia.
Qed.

Lemma builtin_align_down_spec (x k : Z) :
  0 <= k -> builtin_align_down x (2 ^ k) = x - x mod 2 ^ k.
Proof. apply land_lnot_ones. Qed.

(** Rounding up is the least multiple of the alignment above the address, as
    long as the sum does not leave the address space. *)
Lemma builtin_align_up_spec (x k : Z) :
  0 <= k -> 0 <= x -> x + (2 ^ k - 1) < 2 ^ 64 ->
  let y := builtin_align_up x (2 ^ k) in
  x <= y < x + 2 ^ k /\ y mod 2 ^ k = 0.
Proof.
  intros Hk Hx Hfit y. unfold y, builtin_align_up.
  assert (0 < 2 ^ k) by (apply Z.pow_pos_nonneg; lia).
  rewrite wrapu_small by lia. rewrite land_lnot_ones by done.
  set (n := x + (2 ^ k - 1)).
  pose proof (Z.mod_pos_bound n (2 ^ k) ltac:(done)).
  split; [unfold n in *; lia|].
  rewrite Zminus_mod_idemp_r, Z.sub_diag. apply Z.mod_0_l. lia.
Qed.

(** ** Effects

    C code that reads and writes a state [S] and may leave the process early.
    [Exited] is a call of exit(3) or _exit(2), [Raised] a synchronous fault
    that the kernel turns into a signal, [Undef] an access that C leaves
    undefined (a null dereference, an index out of bounds). *)

Record siginfo (C : Type) := Siginfo {
  si_signo : Z;
  si_code : Z;
  si_trapno : Z;
  si_addr : C;
}.
Arguments Siginfo {C} _ _ _ _.
Arguments si_signo {C} _.
Arguments si_code {C} _.
Arguments si_trapno {C} _.
Arguments si_addr {C} _.

Inductive outcome (C A : Type) :=
  | Val (a : A)
  | Exited (code : Z)
  | Raised (si : siginfo C)
  | Undef.
Arguments Val {C A} a.
Arguments Exited {C A} code.
Arguments Raised {C A} si.
Arguments Undef {C A}.

Definition eff (C S A : Type) : Type := S -> outcome C A * S.

#[global] Instance eff_ret {C S} : MRet (eff C S) := fun A a s => (Val a, s).

#[global] Instance eff_bind {C S} : MBind (eff C S) := fun A B f m s =>
  match m s with
  | (Val a, s') => f a s'
  | (Exited c, s') => (Exited c, s')
  | (Raised si, s') => (Raised si, s')
  | (Undef, s') => (Undef, s')
  end.

Section Eff.
Context {C S : Type}.

Definition exit {A} (code : Z) : eff C S A := fun s => (Exited code, s).
Definition raise_fault {A} (si : siginfo C) : eff C S A :=
  fun s => (Raised si, s).
Definition undef {A} : eff C S A := fun s => (Undef, s).
Definition gets {A} (f : S -> A) : eff C S A := fun s => (Val (f s), s).
Definition modify (f : S -> S) : eff C S unit := fun s => (Val tt, f s).

(** [when c m] is [if (c) m;]. *)
Definition when (c : bool) (m : eff C S unit) : eff C S unit :=
  if c then m else mret tt.

(** [for (x in l) f(x);] *)
Fixpoint foreach {A} (l : list A) (f : A -> eff C S unit) : eff C S unit :=
  match l with
  | [] => mret tt
  | x :: l' => f x ;; foreach l' f
  end.

Lemma bind_val {A B} (m : eff C S A) (f : A -> eff C S B) s a s' :
  m s = (Val a, s') -> (m ≫= f) s = f a s'.
Proof. intros H. unfold mbind, eff_bind. by rewrite H. Qed.

Lemma bind_exited {A B} (m : eff C S A) (f : A -> eff C S B) s c s' :
  m s = (Exited c, s') -> (m ≫= f) s = (Exited c, s').
Proof. intros H. unfold mbind, eff_bind. by rewrite H. Qed.

Lemma bind_ret_l {A B} (a : A) (f : A -> eff C S B) s :
  (mret a ≫= f) s = f a s.
Proof. done. Qed.

Lemma bind_assoc {A B D} (m : eff C S A) (f : A -> eff C S B)
    (g : B -> eff C S D) s :
  ((m ≫= f) ≫= g) s = (m ≫= (fun a => f a ≫= g)) s.
Proof. unfold mbind, eff_bind. by destruct (m s) as [[] ?]. Qed.

Lemma bind_val_inv {A B} (m : eff C S A) (f : A -> eff C S B) s b s' :
  (m ≫= f) s = (Val b, s') ->
  exists a s1, m s = (Val a, s1) /\ f a s1 = (Val b, s').
Proof.
  unfold mbind, eff_bind. destruct (m s) as [[] s1]; intros; simplify_eq.
  eauto.
Qed.

Lemma foreach_app {A} (l1 l2 : list A) (f : A -> eff C S unit) s :
  foreach (l1 ++ l2) f s = (foreach l1 f ;; foreach l2 f) s.
Proof.
  revert s. induction l1 as [|x l1 IH]; intros s; [done|].
  simpl. rewrite bind_assoc. unfold mbind, eff_bind.
  by destruct (f x s) as [[] s1].
Qed.

(** A loop body that always returns and preserves [P] keeps [P]. *)
Lemma foreach_inv {A} (P : S -> Prop) (f : A -> eff C S unit) (l : list A) s :
  (forall x s, x ∈ l -> P s -> exists s', f x s = (Val tt, s') /\ P s') ->
  P s -> exists s', foreach l f s = (Val tt, s') /\ P s'.
Proof.
  revert s. induction l as [|x l IH]; intros s Hf HP; simpl.
  { by exists s. }
  destruct (Hf x s ltac:(left) HP) as (s1 & Hx & HP1).
  rewrite (bind_val _ _ _ _ _ Hx). apply IH; [|done].
  intros y s' Hy. apply Hf. by right.
Qed.
End Eff.

#[global] Arguments foreach {C S A} !l f / s.

(** *** Weakest preconditions

    [wpx E m Q s]: if [m] returns from the state [s], [Q] holds of what it
    returns, and otherwise [E].  [wp] is the total reading ([m] returns) and
    [wlp] the partial one.  The rules compute them along the text of a program
    ([wp_simpl]); a proof then only has to look at the branches. *)
Definition wpx {C S A} (E : Prop) (m : eff C S A) (Q : A -> S -> Prop) (s : S)
    : Prop :=
  match m s with (Val a, s') => Q a s' | _ => E end.

Abbreviation wp := (wpx False).
Abbreviation wlp := (wpx True).

Section Wp.
Context {C S : Type} (E : Prop).

Lemma wpx_elim {A} (m : eff C S A) (Q : A -> S -> Prop) s a s' :
  wpx E m Q s -> m s = (Val a, s') -> Q a s'.
Proof. unfold wpx. intros H Hm. by rewrite Hm in H. Qed.

Lemma wpx_bind {A B} (m : eff C S A) (f : A -> eff C S B) Q s :
  wpx E (m ≫= f) Q s <-> wpx E m (fun a => wpx E (f a) Q) s.
Proof. unfold wpx, mbind, eff_bind. by destruct (m s) as [[] ?]. Qed.

Lemma wpx_ret {A} (a : A) Q (s : S) :
  wpx E (mret a : eff C S A) Q s <-> Q a s.
Proof. done. Qed.

Lemma wpx_gets {A} (f : S -> A) Q s :
  wpx E (gets f : eff C S A) Q s <-> Q (f s) s.
Proof. done. Qed.

Lemma wpx_modify (f : S -> S) Q s :
  wpx E (modify f : eff C S unit) Q s <-> Q tt (f s).
Proof. done. Qed.

Lemma wpx_exit {A} c (Q : A -> S -> Prop) s :
  wpx E (exit c : eff C S A) Q s <-> E.
Proof. done. Qed.

Lemma wpx_undef {A} (Q : A -> S -> Prop) s :
  wpx E (undef : eff C S A) Q s <-> E.
Proof. done. Qed.

Lemma wpx_when b m Q s :
  wpx E (when b m : eff C S unit) Q s <-> if b then wpx E m Q s else Q tt s.
Proof. by destruct b. Qed.

Lemma wpx_mono {A} (m : eff C S A) (P Q : A -> S -> Prop) s :
  (forall a s', P a s' -> Q a s') -> wpx E m P s -> wpx E m Q s.
Proof. unfold wpx. destruct (m s) as [[] ?]; auto. Qed.

(** Loops: an invariant of the state that the body keeps. *)
Lemma wpx_foreach {A} (I : S -> Prop) (f : A -> eff C S unit) (l : list A)
    (Q : unit -> S -> Prop) s :
  I s -> (forall x s, x ∈ l -> I s -> wpx E (f x) (fun _ => I) s) ->
  (forall s, I s -> Q tt s) -> wpx E (foreach l f) Q s.
Proof.
  intros HI Hf HQ. revert s HI. induction l as [|x l IH]; intros s HI; simpl.
  { apply HQ, HI. }
  apply wpx_bind. eapply wpx_mono; [|apply Hf; [by left|done]].
  intros [] s' HI'. apply IH; [|done]. intros y s'' Hy. apply Hf. by right.
Qed.
End Wp.

Lemma wp_returns {C S A} (m : eff C S A) (Q : A -> S -> Prop) s :
  wp m Q s <-> exists a s', m s = (Val a, s') /\ Q a s'.
Proof.
  unfold wpx. destruct (m s) as [[a|c|si|] s'].
  - split; [eauto|by intros (? & ? & ? & HQ); simplify_eq].
  - by split; [|intros (? & ? & ? & _)].
  - by split; [|intros (? & ? & ? & _)].
  - by split; [|intros (? & ? & ? & _)].
Qed.

Lemma wp_wlp {C S A} (m : eff C S A) (Q : A -> S -> Prop) s :
  wp m Q s -> wlp m Q s.
Proof. unfold wpx. by destruct (m s) as [[] ?]. Qed.

Create Rewrite HintDb wp.
#[export] Hint Rewrite @wpx_bind @wpx_ret @wpx_gets @wpx_modify @wpx_exit
  @wpx_undef @wpx_when : wp.

(** Compute a [wpx] along the program, one operation at a time. *)
Ltac wp_simpl := autorewrite with wp; simpl.

(** ** C strings and character buffers *)

Abbreviation bytes := (list ascii).

Definition NUL : ascii := Ascii.zero.

(** The string a [char] buffer holds: its bytes up to the first NUL. *)
Fixpoint cstr (b : bytes) : string :=
  match b with
  | [] => EmptyString
  | c :: b' => if Ascii.eqb c NUL then EmptyString else String c (cstr b')
  end.

(** The bytes of a string, without the terminator. *)
Fixpoint bytes_of (s : string) : bytes :=
  match s with
  | EmptyString => []
  | String c s' => c :: bytes_of s'
  end.

(** Overwrite [buf] from index [i] with [bs]; the caller keeps it in bounds. *)
Definition splice (buf : bytes) (i : nat) (bs : bytes) : bytes :=
  take i buf ++ bs ++ drop (i + length bs) buf.

(** [snprintf(buf + off, size, ...)] of an already formatted text: at most
    [size - 1] bytes and a terminator. *)
Definition snprintf_at (buf : bytes) (off size : nat) (text : string) : bytes :=
  if decide (size = 0)%nat then buf
  else splice buf off (take (size - 1) (bytes_of text) ++ [NUL]).

Definition no_nul (s : string) : Prop := Forall (fun c => c ≠ NUL) (bytes_of s).

Lemma length_bytes_of (s : string) : length (bytes_of s) = String.length s.
Proof. induction s as [|c s IH]; simpl; [done|by rewrite IH]. Qed.

Lemma bytes_of_app (s t : string) : bytes_of (s +:+ t) = bytes_of s ++ bytes_of t.
Proof. induction s as [|c s IH]; simpl; [done|by rewrite IH]. Qed.

Lemma cstr_cons_ne (c : ascii) (b : bytes) :
  c ≠ NUL -> cstr (c :: b) = String c (cstr b).
Proof. intros Hc. simpl. by apply Ascii.eqb_neq in Hc as ->. Qed.

Lemma cstr_bytes_nul (bs rest : bytes) :
  Forall (fun c => c ≠ NUL) bs -> bytes_of (cstr (bs ++ NUL :: rest)) = bs.
Proof.
  induction 1 as [|c bs Hc _ IH]; [done|].
  cbn [app]. rewrite cstr_cons_ne by done. simpl. by rewrite IH.
Qed.

Lemma bytes_of_inj (s t : string) : bytes_of s = bytes_of t -> s = t.
Proof.
  revert t. induction s as [|c s IH]; intros [|d t]; simpl; intros; simplify_eq.
  - done.
  - f_equal. by apply IH.
Qed.

Lemma length_splice (buf bs : bytes) (i : nat) :
  (i + length bs <= length buf)%nat -> length (splice buf i bs) = length buf.
Proof.
  intros H. unfold splice. rewrite !length_app, length_take, length_drop. lia.
Qed.

Lemma length_snprintf_at (buf : bytes) (off size : nat) (text : string) :
  (off + size <= length buf)%nat ->
  length (snprintf_at buf off size text) = length buf.
Proof.
  intros H. unfold snprintf_at. case_decide; [done|].
  apply length_splice. rewrite length_app, length_take. simpl. lia.
Qed.

(** What [snprintf] leaves in a buffer is the text cut to the buffer. *)
Lemma cstr_snprintf (buf : bytes) (size : nat) (text : string) :
  no_nul text -> (0 < size)%nat ->
  bytes_of (cstr (snprintf_at buf 0 size text)) = take (size - 1) (bytes_of text).
Proof.
  intros Ht Hs. unfold snprintf_at, splice. case_decide; [lia|].
  rewrite take_0. cbn [app]. rewrite <- app_assoc. cbn [app].
  apply cstr_bytes_nul. by apply Forall_take.
Qed.

(** [strncmp(name, p, strlen(p)) == 0]: [p] is a prefix of [name]. *)
Fixpoint has_prefix (p s : string) : bool :=
  match p, s with
  | EmptyString, _ => true
  | String a p', String b s' => Ascii.eqb a b && has_prefix p' s'
  | String _ _, EmptyString => false
  end.

(** [strstr(s, p) != NULL]. *)
Fixpoint strstr (s p : string) : bool :=
  has_prefix p s || match s with
                    | EmptyString => false
                    | String _ s' => strstr s' p
                    end.

(** [strrchr(s, c)]: the text before the last occurrence of [c], if any. *)
Fixpoint before_last (c : ascii) (s : string) : option string :=
  match s with
  | EmptyString => None
  | String d s' =>
      match before_last c s' with
      | Some p => Some (String d p)
      | None => if Ascii.eqb c d then Some EmptyString else None
      end
  end.

Lemma has_prefix_app (p s : string) : has_prefix p (p +:+ s) = true.
Proof. induction p; simpl; [done|]. by rewrite Ascii.eqb_refl. Qed.

Lemma has_prefix_spec (p s : string) :
  has_prefix p s = true <-> exists t, s = p +:+ t.
Proof.
  split; [|intros [t ->]; apply has_prefix_app].
  revert s. induction p as [|a p IH]; intros [|b s]; simpl; try done; eauto.
  rewrite andb_true_iff. intros [Hab Hp]. apply Ascii.eqb_eq in Hab as ->.
  destruct (IH _ Hp) as [t ->]. by exists t.
Qed.
