(* ===== verification/Printf.v ===== *)
(** * Printf: the part of printf(3) that the test programs rely on

    A format string is interpreted by [vformat], one character at a time, with
    the flags [#], [-] and [0], a width, a precision, the length modifiers
    [hh h l ll j z t] and the conversions [d i u x X c s p] and [%].  Every
    failure message and every expected string of the strfcap(3) and printf(3)
    tests goes through it.  The rendering of a capability ([%p], [%#lp]) is
    chosen by the C library and is the parameter [fmt_ptr]. *)

From S2P Require Import Prelude.

(** ** Numerals *)

Section Digits.
Definition digit (upper : bool) (d : Z) : ascii :=
  let c := if d <? 10 then 48 + d
           else if upper then 55 + d else 87 + d in
  Ascii.ascii_of_N (Z.to_N c).

(** The digits of [n] in base [b], most significant first; [fuel] digits at
    most ([utoa] asks for 64: enough for a 64-bit number). *)
Fixpoint digits (upper : bool) (b : Z) (fuel : nat) (n : Z) (acc : string)
    : string :=
  match fuel with
  | O => acc
  | S k =>
      let acc' := String (digit upper (n mod b)) acc in
      if n / b =? 0 then acc' else digits upper b k (n / b) acc'
  end.

Definition utoa (upper : bool) (b n : Z) : string :=
  digits upper b 64 n EmptyString.

(** The value of a digit and of a digit string, as strtoul(3) reads them. *)
Definition digit_val (c : ascii) : option Z :=
  let z := Z.of_N (Ascii.N_of_ascii c) in
  if (48 <=? z) && (z <=? 57) then Some (z - 48)
  else if (97 <=? z) && (z <=? 102) then Some (z - 87)
  else if (65 <=? z) && (z <=? 70) then Some (z - 55)
  else None.

Fixpoint strtou (b acc : Z) (s : string) : Z * string :=
  match s with
  | EmptyString => (acc, EmptyString)
  | String c s' =>
      match digit_val c with
      | Some d => if d <? b then strtou b (acc * b + d) s' else (acc, s)
      | None => (acc, s)
      end
  end.
End Digits.

(** ** Conversion specifications *)

Inductive lenmod := LHH | LH | LNone | LL.

Record fspec := FSpec {
  f_alt : bool;
  f_left : bool;
  f_zero : bool;
  f_width : nat;
  f_prec : option nat;
  f_len : lenmod;
}.

Definition fspec0 : fspec := FSpec false false false 0 None LNone.

Definition len_bits (l : lenmod) : Z :=
  match l with LHH => 8 | LH => 16 | LNone => 32 | LL => 64 end.

Fixpoint replicate_str (n : nat) (c : ascii) : string :=
  match n with O => EmptyString | S k => String c (replicate_str k c) end.

Definition pad (f : fspec) (s : string) : string :=
  let fill := replicate_str (f_width f - String.length s) " "%char in
  if f_left f then s +:+ fill else fill +:+ s.

(** Precision: at least that many digits. *)
Definition prec_digits (f : fspec) (s : string) : string :=
  match f_prec f with
  | None => s
  | Some p => replicate_str (p - String.length s) "0"%char +:+ s
  end.

(** The [0] flag fills the width with zeros after sign or prefix, unless [-]
    or a precision is given. *)
Definition zero_fill (f : fspec) (prefix s : string) : string :=
  match f_prec f with
  | None =>
      if f_zero f && negb (f_left f)
      then replicate_str (f_width f - String.length prefix - String.length s)
             "0"%char +:+ s
      else s
  | Some _ => s
  end.

Definition fmt_signed (f : fspec) (z : Z) : string :=
  let v := wraps (len_bits (f_len f)) z in
  let sign := if v <? 0 then "-"%string else EmptyString in
  let body := prec_digits f (utoa false 10 (Z.abs v)) in
  pad f (sign +:+ zero_fill f sign body).

Definition fmt_unsigned (f : fspec) (upper : bool) (b z : Z) : string :=
  let v := wrapu (len_bits (f_len f)) z in
  let prefix := if f_alt f && (b =? 16) && negb (v =? 0)
                then (if upper then "0X" else "0x")%string else EmptyString in
  let body := prec_digits f (utoa upper b v) in
  pad f (prefix +:+ zero_fill f prefix body).

Definition fmt_string (f : fspec) (s : string) : string :=
  pad f (match f_prec f with None => s | Some p => String.substring 0 p s end).

(** ** The interpreter *)

Inductive arg (C : Type) :=
  | AInt (z : Z)
  | AStr (s : string)
  | APtr (p : C).
Arguments AInt {C} z.
Arguments AStr {C} s.
Arguments APtr {C} p.

Section Format.
Context {C : Type} (fmt_ptr : fspec -> C -> string).

Definition arg_int (a : option (arg C)) : Z :=
  match a with Some (AInt z) => z | _ => 0 end.
Definition arg_str (a : option (arg C)) : string :=
  match a with Some (AStr s) => s | _ => EmptyString end.

(** The text of one conversion, or [None] for an unknown character. *)
Definition convert (f : fspec) (conv : ascii) (a : option (arg C))
    : option string :=
  if Ascii.eqb conv "d" || Ascii.eqb conv "i" then Some (fmt_signed f (arg_int a))
  else if Ascii.eqb conv "u" then Some (fmt_unsigned f false 10 (arg_int a))
  else if Ascii.eqb conv "x" then Some (fmt_unsigned f false 16 (arg_int a))
  else if Ascii.eqb conv "X" then Some (fmt_unsigned f true 16 (arg_int a))
  else if Ascii.eqb conv "c" then
    Some (pad f (String (Ascii.ascii_of_N (Z.to_N (wrapu 8 (arg_int a)))) ""))
  else if Ascii.eqb conv "s" then Some (fmt_string f (arg_str a))
  else if Ascii.eqb conv "p" then
    Some (match a with Some (APtr p) => fmt_ptr f p | _ => EmptyString end)
  else None.

Definition set_digit (f : fspec) (d : nat) : fspec :=
  match f_prec f with
  | Some p => FSpec (f_alt f) (f_left f) (f_zero f) (f_width f)
                (Some (10 * p + d)%nat) (f_len f)
  | None => FSpec (f_alt f) (f_left f) (f_zero f)
              (10 * f_width f + d)%nat None (f_len f)
  end.

(** One character of a conversion specification: a longer specification, or
    the end of it. *)
Definition spec_step (f : fspec) (c : ascii) : option fspec :=
  let z := Z.of_N (Ascii.N_of_ascii c) in
  if Ascii.eqb c "#" then
    Some (FSpec true (f_left f) (f_zero f) (f_width f) (f_prec f) (f_len f))
  else if Ascii.eqb c "-" then
    Some (FSpec (f_alt f) true (f_zero f) (f_width f) (f_prec f) (f_len f))
  else if Ascii.eqb c "0" && (f_width f =? 0)%nat
       && match f_prec f with None => true | _ => false end then
    Some (FSpec (f_alt f) (f_left f) true (f_width f) (f_prec f) (f_len f))
  else if (48 <=? z) && (z <=? 57) then Some (set_digit f (Z.to_nat (z - 48)))
  else if Ascii.eqb c "." then
    Some (FSpec (f_alt f) (f_left f) (f_zero f) (f_width f) (Some 0%nat) (f_len f))
  else if Ascii.eqb c "l" || Ascii.eqb c "j" || Ascii.eqb c "z" || Ascii.eqb c "t"
  then Some (FSpec (f_alt f) (f_left f) (f_zero f) (f_width f) (f_prec f) LL)
  else if Ascii.eqb c "h" then
    Some (FSpec (f_alt f) (f_left f) (f_zero f) (f_width f) (f_prec f)
            match f_len f with LH => LHH | _ => LH end)
  else None.

Fixpoint vformat_from (st : option fspec) (fmt : string) (args : list (arg C))
    : string :=
  match fmt with
  | EmptyString => EmptyString
  | String c fmt' =>
      match st with
      | None =>
          if Ascii.eqb c "%" then vformat_from (Some fspec0) fmt' args
          else String c (vformat_from None fmt' args)
      | Some f =>
          if Ascii.eqb c "%" then String c (vformat_from None fmt' args)
          else match spec_step f c with
               | Some f' => vformat_from (Some f') fmt' args
               | None =>
                   match convert f c (head args) with
                   | Some t => t +:+ vformat_from None fmt' (tail args)
                   | None => vformat_from None fmt' args
                   end
               end
      end
  end.

Definition vformat : string -> list (arg C) -> string := vformat_from None.
End Format.

Example vformat_ex1 :
  vformat (fun _ (_ : unit) => EmptyString) "perms %jx (expected %#jx)"
    [AInt 255; AInt 16] = "perms ff (expected 0x10)"%string.
Proof. reflexivity. Qed.

Example vformat_ex2 :
  vformat (fun _ (_ : unit) => EmptyString) "[%#8.4lx|%-6d|%02hhx|%s]%%"
    [AInt 4; AInt (-5); AInt 266; AStr "ok"] = "[  0x0004|-5    |0a|ok]%"%string.
Proof. reflexivity. Qed.

(** ** Numerals read back *)

Lemma digit_val_digit (upper : bool) (d : Z) :
  0 <= d < 16 -> digit_val (digit upper d) = Some d.
Proof.
  intros Hd. assert (d ∈ seqZ 0 16) as Hin by (apply elem_of_seqZ; lia).
  revert d Hin Hd. destruct upper; cbn -[digit_val digit];
    intros d Hin _; repeat (apply elem_of_cons in Hin as [->|Hin]; [reflexivity|]);
    by apply not_elem_of_nil in Hin.
Qed.

Lemma strtou_digits (upper : bool) (b : Z) (fuel : nat) (n acc : Z) (tl : string) :
  1 < b <= 16 -> 0 <= n < b ^ Z.of_nat fuel ->
  exists k, 0 <= k /\
    strtou b acc (digits upper b fuel n tl) = strtou b (acc * b ^ k + n) tl.
Proof.
  intros Hb. revert n tl. induction fuel as [|fuel IH]; intros n tl Hn.
  { exists 0. split; [lia|]. cbn in Hn. simpl. f_equal. lia. }
  assert (0 <= n mod b < b) as Hm by (apply Z.mod_pos_bound; lia).
  assert (n = b * (n / b) + n mod b) as Hdm by (apply Z.div_mod; lia).
  assert (forall t a, strtou b a (String (digit upper (n mod b)) t)
            = strtou b (a * b + n mod b) t) as Hd.
  { intros t a. cbn [strtou]. rewrite digit_val_digit by lia.
    by rewrite (proj2 (Z.ltb_lt _ _)) by lia. }
  cbn [digits]. case_match eqn:Hz.
  - apply Z.eqb_eq in Hz. exists 1. split; [lia|]. rewrite Hd.
    f_equal. rewrite Z.pow_1_r. lia.
  - destruct (IH (n / b) (String (digit upper (n mod b)) tl)) as (k & Hk & ->).
    + split; [apply Z.div_pos; lia|].
      apply Z.div_lt_upper_bound; [lia|].
      rewrite Nat2Z.inj_succ, Z.pow_succ_r in Hn by lia. lia.
    + exists (k + 1). split; [lia|]. rewrite Hd. f_equal.
      rewrite Z.pow_add_r, Z.pow_1_r by lia. nia.
Qed.

Lemma digits_app (upper : bool) (b : Z) (fuel : nat) (n : Z) (s t : string) :
  digits upper b fuel n (s +:+ t) = digits upper b fuel n s +:+ t.
Proof.
  revert n s. induction fuel as [|fuel IH]; intros n s; simpl; [done|].
  case_match; [done|]. by rewrite <- IH.
Qed.

(** strtoul(3) reads back what [%lu], [%lx] or [%lX] printed. *)
Lemma strtou_utoa (upper : bool) (b n : Z) (tl : string) :
  1 < b <= 16 -> 0 <= n < 2 ^ 64 ->
  strtou b 0 (utoa upper b n +:+ tl) = strtou b n tl.
Proof.
  intros Hb Hn. unfold utoa. rewrite <- digits_app.
  change (EmptyString +:+ tl) with tl.
  destruct (strtou_digits upper b 64 n 0 tl) as (k & _ & Hk); [done| |].
  - split; [apply Hn|]. eapply Z.lt_le_trans; [apply Hn|].
    apply Z.pow_le_mono_l. lia.
  - rewrite Hk. by rewrite Z.mul_0_l, Z.add_0_l.
Qed.
