(* ===== verification/Cheri.v ===== *)
(** * Cheri: the platform the test programs are compiled for

    The build configuration ([#ifdef]s of the sources), and the interface of
    the capability machine: the [cheri_*] operations of cheriintrin.h and the
    permission bits.  Neither is defined under src/; the sources use them
    through the documented behaviour that [CheriLaws] states.  [scap] is a
    machine with uncompressed bounds on which concrete runs are evaluated. *)

From S2P Require Import Prelude.

(** ** Build configuration *)

Inductive os := FreeBSD | Linux.
Inductive arch := Aarch64 | RiscvXcheri | RiscvZcheripurecap.

Record config := Config {
  cfg_os : os;
  cfg_arch : arch;
  cfg_purecap : bool;          (* __CHERI_PURE_CAPABILITY__ *)
  cfg_c18n : bool;             (* CHERIOSTEST_C18N_TESTS *)
  cfg_benchmark_abi : bool;    (* __ARM_MORELLO_PURECAP_BENCHMARK_ABI *)
  cfg_prot_cap : bool;         (* PROT_CAP and PROT_NO_CAP are defined *)
  cfg_prog : string;           (* PROG *)
  cfg_prog_suffix : string;    (* PROG_SUFFIX *)
  cfg_helper_reldir : string;  (* CHERIOSTEST_HELPER_RELDIR *)
}.

#[export] Instance os_eq_dec : EqDecision os.
Proof. solve_decision. Defined.
#[export] Instance arch_eq_dec : EqDecision arch.
Proof. solve_decision. Defined.

Definition is_linux (g : config) : bool := bool_decide (cfg_os g = Linux).
Definition is_freebsd (g : config) : bool := bool_decide (cfg_os g = FreeBSD).
Definition is_aarch64 (g : config) : bool := bool_decide (cfg_arch g = Aarch64).
Definition is_zcheri (g : config) : bool :=
  bool_decide (cfg_arch g = RiscvZcheripurecap).

(** ** Capabilities *)

(** The operations of cheriintrin.h.  [cap] is the type of [void *]: a
    capability in a pure-capability build. *)
Class Cheri (cap : Type) := {
  cheri_tag_get : cap -> bool;
  cheri_address_get : cap -> Z;
  cheri_base_get : cap -> Z;
  cheri_length_get : cap -> Z;
  cheri_offset_get : cap -> Z;
  cheri_perms_get : cap -> Z;
  cheri_type_get : cap -> Z;
  cheri_flags_get : cap -> Z;
  cheri_is_sealed : cap -> bool;
  cheri_is_equal_exact : cap -> cap -> bool;
  cap_of_int : Z -> cap;                   (* the cast of an integer to a pointer *)
  cheri_tag_clear : cap -> cap;
  cheri_address_set : cap -> Z -> cap;
  cheri_offset_set : cap -> Z -> cap;
  cheri_bounds_set : cap -> Z -> cap;
  cheri_perms_and : cap -> Z -> cap;
  cheri_seal : cap -> cap -> cap;
  cheri_unseal : cap -> cap -> cap;
  cheri_representable_length : Z -> Z;
  cheri_representable_alignment_mask : Z -> Z;
  CHERI_OTYPE_UNSEALED : Z;
  CHERI_OTYPE_SENTRY : Z;
}.

(** [NULL]. *)
Definition cap_null {cap} `{Cheri cap} : cap := cap_of_int 0.

(** Addresses, bounds and types seen through the accessors.  The laws are the
    ones of the CHERI ISA that hold on every implementation, compressed bounds
    included. *)
Class CheriLaws (cap : Type) `{!Cheri cap} := {
  address_range (c : cap) : 0 <= cheri_address_get c < 2 ^ 64;
  base_range (c : cap) : 0 <= cheri_base_get c < 2 ^ 64;
  length_range (c : cap) : 0 <= cheri_length_get c < 2 ^ 64;
  perms_range (c : cap) : 0 <= cheri_perms_get c < 2 ^ 64;
  offset_spec (c : cap) :
    cheri_offset_get c = u64 (cheri_address_get c - cheri_base_get c);
  equal_exact_refl (c : cap) : cheri_is_equal_exact c c = true;
  equal_exact_eq (c d : cap) : cheri_is_equal_exact c d = true -> c = d;
  of_int_tag (z : Z) : cheri_tag_get (cap_of_int z) = false;
  of_int_address (z : Z) : cheri_address_get (cap_of_int z) = u64 z;
  tag_clear_tag (c : cap) : cheri_tag_get (cheri_tag_clear c) = false;
  tag_clear_address (c : cap) :
    cheri_address_get (cheri_tag_clear c) = cheri_address_get c;
  tag_clear_idemp (c : cap) :
    cheri_tag_get c = false -> cheri_tag_clear c = c;
  offset_set_tag (c : cap) (o : Z) :
    cheri_tag_get c = false -> cheri_tag_get (cheri_offset_set c o) = false;
  address_set_address (c : cap) (a : Z) :
    cheri_address_get (cheri_address_set c a) = u64 a;
  address_set_bounds (c : cap) (a : Z) :
    cheri_tag_get (cheri_address_set c a) = true ->
    cheri_base_get (cheri_address_set c a) = cheri_base_get c /\
    cheri_length_get (cheri_address_set c a) = cheri_length_get c;
}.

(** A capability machine without bounds compression. *)
Record scap := SCap {
  sc_tag : bool;
  sc_addr : Z;
  sc_base : Z;
  sc_len : Z;
  sc_perms : Z;
  sc_type : Z;
}.

#[export] Instance scap_eq_dec : EqDecision scap.
Proof. solve_decision. Defined.

(** [otype] -1 is unsealed and -2 a sentry, as in CHERI-RISC-V. *)
#[export] Instance scap_cheri : Cheri scap := {|
  cheri_tag_get := sc_tag;
  cheri_address_get c := u64 (sc_addr c);
  cheri_base_get c := u64 (sc_base c);
  cheri_length_get c := u64 (sc_len c);
  cheri_offset_get c := u64 (u64 (sc_addr c) - u64 (sc_base c));
  cheri_perms_get c := u64 (sc_perms c);
  cheri_type_get := sc_type;
  cheri_flags_get _ := 0;
  cheri_is_sealed c := negb (sc_type c =? -1);
  cheri_is_equal_exact c d := bool_decide (c = d);
  cap_of_int z := SCap false (u64 z) 0 (2 ^ 64 - 1) 0 (-1);
  cheri_tag_clear c :=
    SCap false (sc_addr c) (sc_base c) (sc_len c) (sc_perms c) (sc_type c);
  cheri_address_set c a :=
    SCap (sc_tag c) (u64 a) (sc_base c) (sc_len c) (sc_perms c) (sc_type c);
  cheri_offset_set c o :=
    SCap (sc_tag c) (u64 (sc_base c + o)) (sc_base c) (sc_len c) (sc_perms c)
      (sc_type c);
  cheri_bounds_set c l :=
    SCap (sc_tag c && (u64 (sc_base c) <=? u64 (sc_addr c)) &&
          (u64 (sc_addr c) + l <=? u64 (sc_base c) + u64 (sc_len c)))
      (sc_addr c) (sc_addr c) l (sc_perms c) (sc_type c);
  cheri_perms_and c p :=
    SCap (sc_tag c) (sc_addr c) (sc_base c) (sc_len c)
      (Z.land (sc_perms c) p) (sc_type c);
  cheri_seal c s :=
    SCap (sc_tag c && sc_tag s) (sc_addr c) (sc_base c) (sc_len c) (sc_perms c)
      (sc_addr s);
  cheri_unseal c s :=
    SCap (sc_tag c && sc_tag s && (sc_type c =? sc_addr s))
      (sc_addr c) (sc_base c) (sc_len c) (sc_perms c) (-1);
  cheri_representable_length l := l;
  cheri_representable_alignment_mask _ := 2 ^ 64 - 1;
  CHERI_OTYPE_UNSEALED := -1;
  CHERI_OTYPE_SENTRY := -2;
|}.

#[export] Instance scap_laws : CheriLaws scap.
Proof.
  split; intros; simpl in *; try (by apply wrapu_range); try done.
  - by apply bool_decide_eq_true_2.
  - by eapply bool_decide_eq_true_1.
  - by rewrite wrapu_idemp.
  - destruct c. simpl in *. by subst.
  - by rewrite wrapu_idemp.
Qed.
