(* ===== verification/TagMem.v ===== *)
(** * TagMem: tagged memory

    A region is a list of bytes and one tag for each granule of 16 bytes, the
    size of a capability; a region starts at an aligned address.  A byte store
    clears the tag of its granule; a capability store writes the 16 bytes of
    the capability and its tag.  [tagged_copy] is what CHERI's memcpy(3)
    and memmove(3) promise: the bytes are copied, and the tag of a granule
    survives when the whole granule is copied to a granule. *)

From S2P Require Import Prelude Cheri.

(** The representation of a capability in memory. *)
Class CapMem (cap : Type) := {
  cap_bytes : cap -> list Z;
  cap_of_bytes : bool -> list Z -> cap;
}.

Class CapMemLaws (cap : Type) `{!Cheri cap, !CapMem cap} := {
  length_cap_bytes (c : cap) : length (cap_bytes c) = 16%nat;
  cap_of_cap_bytes (c : cap) : cap_of_bytes (cheri_tag_get c) (cap_bytes c) = c;
  tag_cap_of_bytes (t : bool) (bs : list Z) : cheri_tag_get (cap_of_bytes t bs) = t;
}.

Definition CAPSIZE : nat := 16.

Record tmem := TMem { tm_bytes : list Z; tm_tags : list bool }.

(** The granule of an offset. *)
Definition granule (i : nat) : nat := Nat.div i CAPSIZE.

Definition load_byte (m : tmem) (i : nat) : Z := default 0 (tm_bytes m !! i).
Definition load_tag (m : tmem) (k : nat) : bool := default false (tm_tags m !! k).

Definition store_byte (i : nat) (v : Z) (m : tmem) : tmem :=
  TMem (<[i := v]> (tm_bytes m)) (<[granule i := false]> (tm_tags m)).

(** [m[d .. d + n)] overwritten with [bs], [n] the length of [bs]. *)
Definition overwrite {A} (d : nat) (bs l : list A) : list A :=
  take d l ++ bs ++ drop (d + length bs) l.

(** The tag of granule [k] after [n] bytes were copied from offset [s] of a
    region with the tags [st] to the offset [d]. *)
Definition copied_tag (d s n : nat) (st : list bool) (k : nat) (old : bool) : bool :=
  let lo := Nat.mul k CAPSIZE in
  let hi := Nat.add lo CAPSIZE in
  if ((hi <=? d) || (d + n <=? lo))%nat then old
  else if (Nat.modulo d CAPSIZE =? Nat.modulo s CAPSIZE)%nat
          && (d <=? lo)%nat && (hi <=? d + n)%nat
  then default false (st !! granule (lo + s - d)%nat)
  else false.

Definition tagged_copy (d s n : nat) (src dst : tmem) : tmem :=
  TMem (overwrite d (take n (drop s (tm_bytes src))) (tm_bytes dst))
       (imap (copied_tag d s n (tm_tags src)) (tm_tags dst)).

Section Caps.
Context {cap : Type} {CH : Cheri cap} {CM : CapMem cap}.

Definition load_cap (m : tmem) (i : nat) : cap :=
  cap_of_bytes (load_tag m (granule i)) (take CAPSIZE (drop i (tm_bytes m))).

Definition store_cap (i : nat) (c : cap) (m : tmem) : tmem :=
  TMem (overwrite i (cap_bytes c) (tm_bytes m))
       (<[granule i := cheri_tag_get c]> (tm_tags m)).
End Caps.

(** ** Facts *)

(** A region of [n] bytes has a tag for each granule it touches. *)
Definition region (n : nat) (m : tmem) : Prop :=
  length (tm_bytes m) = n /\ length (tm_tags m) = granule (n + CAPSIZE - 1).

Lemma length_overwrite {A} d (bs l : list A) :
  (d + length bs <= length l)%nat -> length (overwrite d bs l) = length l.
Proof.
  intros H. unfold overwrite. rewrite !length_app, length_take, length_drop. lia.
Qed.

Lemma lookup_overwrite_in {A} d (bs l : list A) i :
  (d + length bs <= length l)%nat -> (d <= i < d + length bs)%nat ->
  overwrite d bs l !! i = bs !! (i - d)%nat.
Proof.
  intros Hl Hi. unfold overwrite.
  rewrite lookup_app_r by (rewrite length_take; lia).
  rewrite length_take, lookup_app_l by lia. f_equal. lia.
Qed.

Lemma lookup_overwrite_out {A} d (bs l : list A) i :
  (d + length bs <= length l)%nat -> (i < d \/ d + length bs <= i)%nat ->
  overwrite d bs l !! i = l !! i.
Proof.
  intros Hl Hi. unfold overwrite. destruct (decide (i < d)%nat).
  - rewrite lookup_app_l by (rewrite length_take; lia). apply lookup_take_lt. lia.
  - rewrite lookup_app_r by (rewrite length_take; lia).
    rewrite length_take, lookup_app_r, lookup_drop by lia. f_equal. lia.
Qed.

Lemma region_store_byte n i v m : region n m -> region n (store_byte i v m).
Proof. intros [H1 H2]. split; simpl; by rewrite length_insert. Qed.

Lemma load_store_byte n i j v m :
  region n m -> (j < n)%nat ->
  load_byte (store_byte i v m) j = if decide (i = j) then v else load_byte m j.
Proof.
  intros [H1 _] Hj. unfold load_byte; simpl. case_decide as E.
  - subst. by rewrite list_lookup_insert_eq by lia.
  - by rewrite list_lookup_insert_ne.
Qed.

Lemma load_tag_store_byte i v m k :
  load_tag (store_byte i v m) k
  = if decide (granule i = k) then false else load_tag m k.
Proof.
  unfold load_tag; simpl. case_decide as E; [subst|by rewrite list_lookup_insert_ne].
  destruct (decide (granule i < length (tm_tags m))%nat).
  - by rewrite list_lookup_insert_eq.
  - by rewrite list_insert_ge, lookup_ge_None_2 by lia.
Qed.

Section CapFacts.
Context {cap : Type} `{!Cheri cap, !CapMem cap, !CapMemLaws cap}.

Lemma region_store_cap n i (c : cap) m :
  (i + 16 <= n)%nat -> region n m -> region n (store_cap i c m).
Proof.
  intros Hi [H1 H2]. split; simpl.
  - rewrite length_overwrite; [done|]. rewrite length_cap_bytes. lia.
  - by rewrite length_insert.
Qed.

Lemma load_store_cap n i (c : cap) m :
  region n m -> (i + 16 <= n)%nat -> load_cap (store_cap i c m) i = c.
Proof.
  intros [H1 H2] Hi. unfold load_cap, load_tag. simpl.
  assert (granule i < granule (n + CAPSIZE - 1))%nat as Hg.
  { unfold granule, CAPSIZE. apply Nat.Div0.div_lt_upper_bound.
    pose proof (Nat.div_mod_eq (n + 16 - 1) 16).
    pose proof (Nat.mod_upper_bound (n + 16 - 1) 16). lia. }
  rewrite list_lookup_insert_eq by lia. simpl default.
  unfold overwrite. rewrite drop_app_length' by (rewrite length_take; lia).
  rewrite take_app_length' by (by rewrite length_cap_bytes).
  apply cap_of_cap_bytes.
Qed.
End CapFacts.

(** *** The reference copy *)

Lemma region_tagged_copy nd d s n src dst :
  region nd dst -> (s + n <= length (tm_bytes src))%nat -> (d + n <= nd)%nat ->
  region nd (tagged_copy d s n src dst).
Proof.
  intros [H1 H2] Hs Hd. split; simpl; [|by rewrite length_imap].
  rewrite length_overwrite; [done|]. rewrite length_take, length_drop. lia.
Qed.

Lemma lookup_tagged_copy nd d s n src dst i :
  region nd dst -> (s + n <= length (tm_bytes src))%nat -> (d + n <= nd)%nat ->
  (d <= i < d + n)%nat ->
  tm_bytes (tagged_copy d s n src dst) !! i = tm_bytes src !! (s + (i - d))%nat.
Proof.
  intros [H1 H2] Hs Hd Hi. simpl.
  assert (length (take n (drop s (tm_bytes src))) = n) as Hn
    by (rewrite length_take, length_drop; lia).
  rewrite lookup_overwrite_in by (rewrite Hn; lia).
  rewrite lookup_take_lt by lia. by rewrite lookup_drop.
Qed.

Lemma load_byte_tagged_copy nd d s n src dst i :
  region nd dst -> (s + n <= length (tm_bytes src))%nat -> (d + n <= nd)%nat ->
  (d <= i < d + n)%nat ->
  load_byte (tagged_copy d s n src dst) i = load_byte src (s + (i - d)).
Proof. intros. unfold load_byte. by erewrite lookup_tagged_copy by eauto. Qed.

Lemma load_tag_tagged_copy nd d s n src dst k :
  region nd dst -> (Nat.mul k CAPSIZE < nd)%nat ->
  load_tag (tagged_copy d s n src dst) k
  = copied_tag d s n (tm_tags src) k (load_tag dst k).
Proof.
  intros [H1 H2] Hk. unfold load_tag; simpl. rewrite list_lookup_imap.
  destruct (lookup_lt_is_Some_2 (tm_tags dst) k) as [t ->]; [|done].
  rewrite H2. unfold granule, CAPSIZE in *.
  apply Nat.div_le_lower_bound; lia.
Qed.

(** Capabilities survive a copy that keeps them aligned, and lose their tag in
    one that does not. *)
Lemma load_cap_tagged_copy `{!Cheri cap, !CapMem cap} nd d s n src dst k :
  region nd dst -> (s + n <= length (tm_bytes src))%nat -> (d + n <= nd)%nat ->
  Nat.modulo d CAPSIZE = Nat.modulo s CAPSIZE ->
  (d <= Nat.mul k CAPSIZE)%nat -> (Nat.mul k CAPSIZE + CAPSIZE <= d + n)%nat ->
  load_cap (cap := cap) (tagged_copy d s n src dst) (Nat.mul k CAPSIZE)
  = load_cap src (Nat.mul k CAPSIZE + s - d).
Proof.
  intros Hr Hs Hd Hm H1 H2. unfold load_cap. f_equal.
  - unfold granule at 1. rewrite Nat.div_mul by done.
    rewrite (load_tag_tagged_copy nd) by (done || unfold CAPSIZE in *; lia).
    unfold copied_tag. rewrite (proj2 (Nat.eqb_eq _ _) Hm).
    rewrite (proj2 (Nat.leb_gt (k * CAPSIZE + CAPSIZE)%nat d)),
      (proj2 (Nat.leb_gt (d + n)%nat (k * CAPSIZE)%nat)),
      (proj2 (Nat.leb_le d (k * CAPSIZE)%nat)),
      (proj2 (Nat.leb_le (k * CAPSIZE + CAPSIZE)%nat (d + n)%nat))
      by (unfold CAPSIZE in *; lia). done.
  - apply list_eq. intros i. destruct (decide (i < CAPSIZE)%nat).
    + rewrite !lookup_take_lt, !lookup_drop by done.
      erewrite lookup_tagged_copy by (eauto; lia). f_equal. lia.
    + by rewrite !lookup_take_ge by lia.
Qed.

Lemma misaligned_copy_tag nd d s n src dst k :
  region nd dst -> (Nat.mul k CAPSIZE < nd)%nat ->
  Nat.modulo d CAPSIZE <> Nat.modulo s CAPSIZE ->
  (d < Nat.mul k CAPSIZE + CAPSIZE)%nat -> (Nat.mul k CAPSIZE < d + n)%nat ->
  load_tag (tagged_copy d s n src dst) k = false.
Proof.
  intros Hr Hk Hm H1 H2. rewrite (load_tag_tagged_copy nd) by done.
  unfold copied_tag. rewrite (proj2 (Nat.eqb_neq _ _) Hm).
  by rewrite (proj2 (Nat.leb_gt _ _)), (proj2 (Nat.leb_gt _ _)) by lia.
Qed.
