(* ===== verification/Perms.v ===== *)
(** * Perms: permission bits (cheri/cherireg.h, cheriostest_md.h)

    The bit of each architectural permission comes from the compiler's and the
    kernel's headers and is a parameter; cherireg.h builds from them the masks
    that the tests compare with.  Every permission is one bit, and two
    permissions are two bits: [PermLaws]. *)

From S2P Require Import Prelude Cheri.

(** The software-defined permissions. *)
Inductive sw := SW0 | SW1 | SW2 | SW3.

#[export] Instance sw_eq_dec : EqDecision sw.
Proof. solve_decision. Defined.

Definition sw_index (i : sw) : Z :=
  match i with SW0 => 0 | SW1 => 1 | SW2 => 2 | SW3 => 3 end.

Inductive perm :=
  PGlobal | PExecute | PLoad | PStore | PLoadCap | PStoreCap | PStoreLocalCap
| PCap | PLoadMutable | PSeal | PUnseal | PInvoke | PSystemRegs | PExecutive
| PSw (i : sw).

#[export] Instance perm_eq_dec : EqDecision perm.
Proof. solve_decision. Defined.

Class Perms := {
  bit : perm -> Z;
  sw_vmem : sw;                   (* the software bit of CHERI_PERM_SW_VMEM *)
  sw_syscall : option sw;         (* of CHERI_PERM_SYSCALL, where it is defined *)
  CHERI_PERMS_USERSPACE_CODE : Z;  (* masks of CheriBSD's own cherireg.h, *)
  CHERI_PERMS_USERSPACE_DATA : Z;  (* used for CHERI-RISC-V only *)
  CHERI_PERMS_USERSPACE_SEALCAP : Z;
  CHERI_OTYPE_BITS : Z;
  CHERI_OTYPE_USER_MIN : Z;
  CHERI_OTYPE_USER_MAX : Z;
}.

Definition mask `{Perms} (p : perm) : Z := Z.shiftl 1 (bit p).

Class PermLaws `{Perms} := {
  bit_range (p : perm) : 0 <= bit p < 64;
  bit_inj (p q : perm) : bit p = bit q -> p = q;
  sw_syscall_not_vmem : sw_syscall <> Some sw_vmem;
}.

Section Masks.
Context {HP : Perms} (g : config).

(** The feature macros of the two cheriostest_md.h. *)
Definition HAS_CHERI_PERM_LOAD_STORE_CAP : bool := negb (is_zcheri g).
Definition HAS_CHERI_PERM_SEAL : bool := negb (is_zcheri g).
Definition HAS_CHERI_PERM_LOAD_MUTABLE : bool := is_aarch64 g || is_zcheri g.
Definition HAS_CHERI_PERM_CAP : bool := is_zcheri g.

(** The software permissions: fixed bits on Morello and on RVY. *)
Definition CHERITEST_CHERI_PERM_SW (i : sw) : Z :=
  if is_aarch64 g then Z.shiftl 1 (2 + sw_index i)
  else if is_zcheri g then Z.shiftl 1 (6 + sw_index i)
  else mask (PSw i).

Definition CHERITEST_CHERI_PERMS_SWALL : Z :=
  Z.lor (Z.lor (CHERITEST_CHERI_PERM_SW SW0) (CHERITEST_CHERI_PERM_SW SW1))
        (Z.lor (CHERITEST_CHERI_PERM_SW SW2) (CHERITEST_CHERI_PERM_SW SW3)).

Definition CHERI_PERM_SW_VMEM : Z := mask (PSw sw_vmem).
Definition CHERI_PERM_SYSCALL : option Z :=
  match sw_syscall with Some i => Some (mask (PSw i)) | None => None end.

Definition CHERITEST_CHERI_PERMS_SW_USERSPACE : Z :=
  match CHERI_PERM_SYSCALL with
  | Some syscall =>
      Z.land CHERITEST_CHERI_PERMS_SWALL (Z.lnot (Z.lor CHERI_PERM_SW_VMEM syscall))
  | None => Z.land CHERITEST_CHERI_PERMS_SWALL (Z.lnot CHERI_PERM_SW_VMEM)
  end.

Definition CHERITEST_CHERI_PERMS_SW_USERSPACE_CODE : Z :=
  match CHERI_PERM_SYSCALL with
  | Some syscall => Z.lor CHERITEST_CHERI_PERMS_SW_USERSPACE syscall
  | None => CHERITEST_CHERI_PERMS_SW_USERSPACE
  end.

Definition ors (l : list Z) : Z := foldr Z.lor 0 l.

(** Morello. *)
Definition CHERITEST_CHERI_PERMS_USERSPACE : Z :=
  ors [mask PGlobal; mask PLoad; mask PLoadCap; mask PInvoke;
       CHERITEST_CHERI_PERMS_SW_USERSPACE].

Definition CHERITEST_CHERI_PERMS_FIRST_RESERVED_BLOCK : Z :=
  if is_zcheri g then ors [Z.shiftl 1 2; Z.shiftl 1 3; Z.shiftl 1 4] else 0.

Definition CHERITEST_CHERI_PERMS_USERSPACE_CODE : Z :=
  if is_aarch64 g then
    ors [CHERITEST_CHERI_PERMS_USERSPACE; mask PExecute; mask PExecutive;
         mask PLoadMutable; CHERITEST_CHERI_PERMS_SW_USERSPACE_CODE]
  else if is_zcheri g then
    ors [mask PGlobal; mask PLoad; mask PExecute; mask PCap; mask PLoadMutable]
  else CHERI_PERMS_USERSPACE_CODE.

Definition CHERITEST_CHERI_CAP_USER_DATA_PERMS : Z :=
  if is_aarch64 g then
    ors [CHERITEST_CHERI_PERMS_USERSPACE; mask PStore; mask PStoreCap;
         mask PStoreLocalCap; mask PLoadMutable]
  else if is_zcheri g then
    ors [mask PStore; mask PLoad; mask PCap; mask PLoadMutable;
         CHERITEST_CHERI_PERMS_FIRST_RESERVED_BLOCK]
  else CHERI_PERMS_USERSPACE_DATA.

Definition CHERITEST_CHERI_PERMS_USERSPACE_SEALCAP : Z :=
  if is_aarch64 g then ors [mask PGlobal; mask PSeal; mask PUnseal]
  else CHERI_PERMS_USERSPACE_SEALCAP.

Definition CHERITEST_CHERI_OTYPE_BITS : Z :=
  if is_aarch64 g then 14 else CHERI_OTYPE_BITS.
Definition CHERITEST_CHERI_OTYPE_USER_MIN : Z :=
  if is_aarch64 g then 4 else CHERI_OTYPE_USER_MIN.
Definition CHERITEST_CHERI_OTYPE_USER_MAX : Z :=
  if is_aarch64 g then Z.shiftl 1 (CHERITEST_CHERI_OTYPE_BITS - 1) - 1
  else CHERI_OTYPE_USER_MAX.

Definition CHERITEST_CHERI_SEALCAP_USERSPACE_PERMS : Z :=
  CHERITEST_CHERI_PERMS_USERSPACE_SEALCAP.
Definition CHERITEST_CHERI_SEALCAP_USERSPACE_BASE : Z := CHERITEST_CHERI_OTYPE_USER_MIN.
Definition CHERITEST_CHERI_SEALCAP_USERSPACE_LENGTH : Z :=
  CHERITEST_CHERI_OTYPE_USER_MAX - CHERITEST_CHERI_OTYPE_USER_MIN + 1.
Definition CHERITEST_CHERI_SEALCAP_USERSPACE_OFFSET : Z := 0.
End Masks.

(** ** Facts *)

Lemma testbit_shiftl_1 i j :
  0 <= i -> 0 <= j -> Z.testbit (Z.shiftl 1 i) j = (i =? j).
Proof.
  intros Hi Hj. rewrite Z.shiftl_1_l. destruct (Z.eqb_spec i j) as [->|Hne].
  - by rewrite Z.pow2_bits_true.
  - by rewrite Z.pow2_bits_false.
Qed.

(** [(v & mask) == 0] reads one bit. *)
Lemma land_shiftl_1 v i :
  0 <= i -> (Z.land v (Z.shiftl 1 i) =? 0) = negb (Z.testbit v i).
Proof.
  intros Hi. destruct (Z.testbit v i) eqn:E; simpl.
  - apply Z.eqb_neq. intros H.
    assert (Z.testbit (Z.land v (Z.shiftl 1 i)) i = true) as H'
      by (by rewrite Z.land_spec, E, testbit_shiftl_1, Z.eqb_refl).
    rewrite H, Z.bits_0 in H'. done.
  - apply Z.eqb_eq, Z.bits_inj'. intros n Hn.
    rewrite Z.land_spec, Z.bits_0, testbit_shiftl_1 by done.
    destruct (Z.eqb_spec i n) as [<-|]; [by rewrite E|apply andb_false_r].
Qed.

Section Laws.
Context `{PL : PermLaws}.

Lemma testbit_mask p q : Z.testbit (mask p) (bit q) = bool_decide (p = q).
Proof.
  unfold mask. pose proof (bit_range p). pose proof (bit_range q).
  rewrite testbit_shiftl_1 by lia. destruct (Z.eqb_spec (bit p) (bit q)) as [E|Hne].
  - symmetry. by apply bool_decide_eq_true_2, bit_inj.
  - symmetry. apply bool_decide_eq_false_2. by intros ->.
Qed.

Lemma land_mask v p : (Z.land v (mask p) =? 0) = negb (Z.testbit v (bit p)).
Proof. apply land_shiftl_1. pose proof (bit_range p). lia. Qed.

Lemma testbit_ors l p :
  Z.testbit (ors l) (bit p) = existsb (fun z => Z.testbit z (bit p)) l.
Proof.
  induction l as [|x l IH]; simpl; [apply Z.bits_0|]. by rewrite Z.lor_spec, IH.
Qed.

(** The headers agree on the software bits. *)
Definition sw_bits_agree (g : config) : Prop :=
  forall i, CHERITEST_CHERI_PERM_SW g i = mask (PSw i).

(** [p] is a software permission of the four. *)
Definition is_sw (p : perm) : bool :=
  match p with PSw _ => true | _ => false end.

Lemma testbit_swall g p :
  sw_bits_agree g -> Z.testbit (CHERITEST_CHERI_PERMS_SWALL g) (bit p) = is_sw p.
Proof.
  intros Hg. unfold CHERITEST_CHERI_PERMS_SWALL. rewrite !Hg.
  rewrite !Z.lor_spec, !testbit_mask.
  destruct p; try done. by destruct i.
Qed.

Lemma swall_bits g v j :
  sw_bits_agree g -> 0 <= j ->
  Z.testbit (Z.land v (CHERITEST_CHERI_PERMS_SWALL g)) j = true ->
  exists i, j = bit (PSw i).
Proof.
  intros Hg Hj. unfold CHERITEST_CHERI_PERMS_SWALL. rewrite !Hg.
  rewrite Z.land_spec, !Z.lor_spec. unfold mask.
  rewrite !testbit_shiftl_1 by (done || apply bit_range).
  intros [_ Hsw]%andb_true_iff. rewrite !orb_true_iff, !Z.eqb_eq in Hsw.
  destruct Hsw as [[Hsw|Hsw]|[Hsw|Hsw]]; subst j;
    [exists SW0|exists SW1|exists SW2|exists SW3]; done.
Qed.

(** Two masks of software permissions are equal when their four bits are. *)
Lemma swall_ext g v w :
  sw_bits_agree g ->
  (forall i, Z.testbit v (bit (PSw i)) = Z.testbit w (bit (PSw i))) ->
  Z.land v (CHERITEST_CHERI_PERMS_SWALL g) = Z.land w (CHERITEST_CHERI_PERMS_SWALL g).
Proof.
  intros Hg Hvw. apply Z.bits_inj'. intros j Hj.
  destruct (Z.testbit (Z.land v _) j) eqn:E1, (Z.testbit (Z.land w _) j) eqn:E2;
    try done; exfalso;
    [destruct (swall_bits g v j Hg Hj E1) as (i & ->)
    |destruct (swall_bits g w j Hg Hj E2) as (i & ->)];
    rewrite !Z.land_spec, !testbit_swall, (Hvw i) in * by done;
    by rewrite E1 in E2.
Qed.
End Laws.
