(* ===== verification/Harness.v ===== *)
(** * Harness: cheriostest.h and cheriostest_util.c

    The page shared between the controller and the test process
    ([child_state], struct cheriostest_child_state), the description of a test
    ([cheri_test]), the reporting calls of cheriostest_util.c and the checking
    macros of cheriostest.h.  A test body is a program of type [test unit]: it
    reads and writes the state [proc] of its process and leaves it by exit(3),
    by a fault or by returning.

    [verdict] is the abstract reading of what a body left behind, and the
    lemmas of section Verdicts reduce the verdict of a body check by check;
    the files of the test components prove their theorems with them. *)

From S2P Require Import Prelude Printf Cheri.

(** ** Constants of sysexits.h and cheriostest.h *)

Definition EX_OK : Z := 0.
Definition EX_USAGE : Z := 64.
Definition EX_SOFTWARE : Z := 70.
Definition EX_OSERR : Z := 71.

Definition TESTRESULT_STR_LEN : nat := 1024.
Definition TESTRESULT_UNKNOWN : Z := 0.
Definition TESTRESULT_SUCCESS : Z := 1.
Definition TESTRESULT_FAILURE : Z := 2.

Definition CT_FLAG_SIGNAL : Z := 0x1.
Definition CT_FLAG_SI_TRAPNO : Z := 0x2.
Definition CT_FLAG_STDOUT_STRING : Z := 0x8.
Definition CT_FLAG_STDIN_STRING : Z := 0x10.
Definition CT_FLAG_STDOUT_IGNORE : Z := 0x20.
Definition CT_FLAG_SLOW : Z := 0x40.
Definition CT_FLAG_SI_CODE : Z := 0x200.
Definition CT_FLAG_SIGEXIT : Z := 0x400.
Definition CT_FLAG_SI_ADDR : Z := 0x800.

(** What the C library and the kernel decide: the text of an error number, the
    rendering of a capability, the success of sigaction(2) ([None], or the
    error number), and the numbers of signal.h. *)
Class Libc (cap W : Type) := {
  strerror : Z -> string;
  fmt_ptr : fspec -> cap -> string;
  os_sigaction : Z -> W -> option Z;
  SIGALRM : Z;
  SIGPROT : Z;
  SIGSEGV : Z;
  SIGBUS : Z;
  SIGEMT : Z;
  SIGTRAP : Z;
}.

(** ** The state of a test process *)

Section State.
Context {cap W : Type}.

(** struct cheriostest_child_state *)
Record child_state := ChildState {
  ccs_signum : Z;
  ccs_si_code : Z;
  ccs_si_trapno : Z;
  ccs_si_addr : cap;
  ccs_si_addr_tag : bool;
  ccs_testresult : Z;
  ccs_testresult_str : bytes;
  ccs_si_addr_expected : cap;
  ccs_si_addr_expected_tag : bool;
  ccs_warn : bool;
}.

(** [bzero(ccsp, sizeof( *ccsp))] *)
Definition child_state_zero `{Cheri cap} : child_state :=
  ChildState 0 0 0 cap_null false 0 (replicate TESTRESULT_STR_LEN NUL)
    cap_null false false.

Definition set_result (r : Z) (str : bytes) (warn : bool) (c : child_state) :=
  ChildState (ccs_signum c) (ccs_si_code c) (ccs_si_trapno c) (ccs_si_addr c)
    (ccs_si_addr_tag c) r str (ccs_si_addr_expected c)
    (ccs_si_addr_expected_tag c) warn.

Definition set_signal (sig code trapno : Z) (addr : cap) (tag : bool)
    (c : child_state) :=
  ChildState sig code trapno addr tag (ccs_testresult c) (ccs_testresult_str c)
    (ccs_si_addr_expected c) (ccs_si_addr_expected_tag c) (ccs_warn c).

Definition set_expected (addr : cap) (tag : bool) (c : child_state) :=
  ChildState (ccs_signum c) (ccs_si_code c) (ccs_si_trapno c) (ccs_si_addr c)
    (ccs_si_addr_tag c) (ccs_testresult c) (ccs_testresult_str c) addr tag
    (ccs_warn c).

(** A process: the shared page (null in a child started with [-E]), errno,
    the signals whose disposition is [signal_handler], its output, the
    [verbose] option, and the rest of the world. *)
Record proc := Proc {
  p_ccsp : option child_state;
  p_errno : Z;
  p_handlers : gset Z;
  p_stdout : string;
  p_stderr : string;
  p_verbose : Z;
  p_world : W;
}.

Definition set_ccsp (c : option child_state) (s : proc) : proc :=
  Proc c (p_errno s) (p_handlers s) (p_stdout s) (p_stderr s) (p_verbose s)
    (p_world s).
Definition set_errno (e : Z) (s : proc) : proc :=
  Proc (p_ccsp s) e (p_handlers s) (p_stdout s) (p_stderr s) (p_verbose s)
    (p_world s).
Definition set_handlers (h : gset Z) (s : proc) : proc :=
  Proc (p_ccsp s) (p_errno s) h (p_stdout s) (p_stderr s) (p_verbose s)
    (p_world s).
Definition set_stdout (o : string) (s : proc) : proc :=
  Proc (p_ccsp s) (p_errno s) (p_handlers s) o (p_stderr s) (p_verbose s)
    (p_world s).
Definition set_stderr (o : string) (s : proc) : proc :=
  Proc (p_ccsp s) (p_errno s) (p_handlers s) (p_stdout s) o (p_verbose s)
    (p_world s).
Definition set_world (w : W) (s : proc) : proc :=
  Proc (p_ccsp s) (p_errno s) (p_handlers s) (p_stdout s) (p_stderr s)
    (p_verbose s) w.

Definition test (A : Type) : Type := eff cap proc A.

(** struct cheri_test.  A skip function is given the name of the test, the
    only member that one of them reads. *)
Record cheri_test := CheriTest {
  ct_name : string;
  ct_desc : string;
  ct_func : test unit;
  ct_child_func : option (test unit);
  ct_check_skip : option (string -> W -> option string * W);
  ct_check_xfail : option (string -> option string);
  ct_flags : Z;
  ct_signum : Z;
  ct_si_code : Z;
  ct_si_trapno : Z;
  ct_stdin_string : string;
  ct_stdout_string : string;
  ct_xfail_reason : option string;
  ct_flaky_reason : option string;
}.

(** [CHERIOSTEST(func, desc)]: the other members are zero. *)
Definition CHERIOSTEST (func desc : string) (body : test unit) : cheri_test :=
  CheriTest func desc body None None None 0 0 0 0 "" "" None None.

(** [.ct_flags], [.ct_signum], [.ct_si_code] and [.ct_si_trapno]. *)
Definition with_signal (flags signum code trapno : Z) (t : cheri_test) :=
  CheriTest (ct_name t) (ct_desc t) (ct_func t) (ct_child_func t)
    (ct_check_skip t) (ct_check_xfail t) flags signum code trapno
    (ct_stdin_string t) (ct_stdout_string t) (ct_xfail_reason t)
    (ct_flaky_reason t).
Definition with_xfail (reason : option string) (t : cheri_test) :=
  CheriTest (ct_name t) (ct_desc t) (ct_func t) (ct_child_func t)
    (ct_check_skip t) (ct_check_xfail t) (ct_flags t) (ct_signum t)
    (ct_si_code t) (ct_si_trapno t) (ct_stdin_string t) (ct_stdout_string t)
    reason (ct_flaky_reason t).
Definition with_child (f : test unit) (t : cheri_test) :=
  CheriTest (ct_name t) (ct_desc t) (ct_func t) (Some f)
    (ct_check_skip t) (ct_check_xfail t) (ct_flags t) (ct_signum t)
    (ct_si_code t) (ct_si_trapno t) (ct_stdin_string t) (ct_stdout_string t)
    (ct_xfail_reason t) (ct_flaky_reason t).
Definition with_skip (f : string -> W -> option string * W) (t : cheri_test) :=
  CheriTest (ct_name t) (ct_desc t) (ct_func t) (ct_child_func t)
    (Some f) (ct_check_xfail t) (ct_flags t) (ct_signum t)
    (ct_si_code t) (ct_si_trapno t) (ct_stdin_string t) (ct_stdout_string t)
    (ct_xfail_reason t) (ct_flaky_reason t).
End State.
Arguments child_state : clear implicits.
Arguments proc : clear implicits.
Arguments test : clear implicits.
Arguments cheri_test : clear implicits.

(** ** cheriostest_util.c: reporting the result of a test *)

Section Util.
Context {cap W : Type} {CH : Cheri cap} {LC : Libc cap W} (g : config).

(* The C library in scope is [LC]. *)
Definition format (msg : string) (ap : list (arg cap)) : string :=
  vformat (@fmt_ptr cap W LC) msg ap.

(** [ccsp->field = ...]: undefined when [ccsp] is null. *)
Definition with_ccsp (f : child_state cap -> child_state cap) : test cap W unit :=
  fun s => match p_ccsp s with
           | None => (Undef, s)
           | Some c => (Val tt, set_ccsp (Some (f c)) s)
           end.

Definition report_on_stderr (msg : string) (ap : list (arg cap))
    : test cap W unit :=
  modify (fun s => set_stderr (p_stderr s +:+ format msg ap +:+ "
") s).

Definition vcheriostest_failure_errx (msg : string) (ap : list (arg cap))
    : test cap W unit :=
  fun s =>
    match p_ccsp s with
    | None => report_on_stderr msg ap s
    | Some c =>
        let buf := snprintf_at (ccs_testresult_str c) 0 TESTRESULT_STR_LEN
                     (format msg ap) in
        (Val tt, set_ccsp (Some (set_result TESTRESULT_FAILURE buf false c)) s)
    end.

(** The text of the error number is appended when there is room left. *)
Definition vcheriostest_failure_errc (code : Z) (msg : string)
    (ap : list (arg cap)) : test cap W unit :=
  fun s =>
    match p_ccsp s with
    | None => report_on_stderr msg ap s
    | Some c =>
        let buflen := TESTRESULT_STR_LEN in
        let text := format msg ap in
        let len := String.length text in
        let buf := snprintf_at (ccs_testresult_str c) 0 buflen text in
        let buf' := if (buflen <=? len)%nat then buf
                    else snprintf_at buf len (buflen - len)
                           (": " +:+ strerror code) in
        (Val tt, set_ccsp (Some (set_result TESTRESULT_FAILURE buf' false c)) s)
    end.

Definition cheriostest_failure_errx {A} (msg : string) (ap : list (arg cap))
    : test cap W A :=
  vcheriostest_failure_errx msg ap ;; exit EX_SOFTWARE.

Definition cheriostest_failure_errc {A} (code : Z) (msg : string)
    (ap : list (arg cap)) : test cap W A :=
  vcheriostest_failure_errc code msg ap ;; exit EX_SOFTWARE.

Definition cheriostest_failure_err {A} (msg : string) (ap : list (arg cap))
    : test cap W A :=
  errno ← gets p_errno;
  vcheriostest_failure_errc errno msg ap ;; exit EX_SOFTWARE.

Definition cheriostest_success {A} : test cap W A :=
  with_ccsp (fun c => set_result TESTRESULT_SUCCESS (ccs_testresult_str c)
                        false c) ;;
  exit 0.

(** [strncpy(dst, src, n)]: cut or padded with NULs to exactly [n] bytes. *)
Definition strncpy (src : string) (n : nat) : bytes :=
  let b := take n (bytes_of src) in b ++ replicate (n - length b) NUL.

Definition cheriostest_success_with_warn {A} (msg : string) : test cap W A :=
  with_ccsp (fun c =>
    let b := strncpy msg TESTRESULT_STR_LEN in
    set_result TESTRESULT_SUCCESS (<[(TESTRESULT_STR_LEN - 1)%nat := NUL]> b)
      true c) ;;
  exit 0.

Definition cheriostest_set_expected_si_addr (addr : cap) : test cap W unit :=
  with_ccsp (fun c =>
    if cfg_purecap g
    then set_expected (cheri_tag_clear addr) (cheri_tag_get addr) c
    else set_expected addr false c).

(** [NULL_DERIVED_VOIDP(x)] *)
Definition NULL_DERIVED_VOIDP (x : cap) : cap := cap_of_int (cheri_address_get x).

(** cheriostest.c: the handler that the controller installs in the test
    process. *)
Definition signal_handler (signum : Z) (info : siginfo cap) {A} : test cap W A :=
  with_ccsp (fun c =>
    set_signal signum (si_code info)
      (if is_freebsd g then si_trapno info else ccs_si_trapno c)
      (if cfg_purecap g then cheri_tag_clear (si_addr info) else si_addr info)
      (if cfg_purecap g then cheri_tag_get (si_addr info) else false) c) ;;
  exit EX_SOFTWARE.

Definition signal_handler_clear (sig : Z) : test cap W unit :=
  w ← gets p_world;
  match os_sigaction sig w with
  | Some e =>
      modify (set_errno e) ;;
      cheriostest_failure_err "clearing handler for sig %d" [AInt sig]
  | None => modify (fun s => set_handlers (p_handlers s ∖ {[sig]}) s)
  end.

(** ** The checking macros of cheriostest.h *)

Definition CHERIOSTEST_VERIFY2 (cond : bool) (msg : string)
    (ap : list (arg cap)) : test cap W unit :=
  if cond then mret tt else cheriostest_failure_errx msg ap.

Definition CHERIOSTEST_VERIFY (cond : bool) (text : string) : test cap W unit :=
  CHERIOSTEST_VERIFY2 cond "%s" [AStr ("'" +:+ text +:+ "' is FALSE!")].

(** [if (cond) cheriostest_failure_errx(...);] *)
Definition fail_if (cond : bool) (msg : string) (ap : list (arg cap))
    : test cap W unit :=
  if cond then cheriostest_failure_errx msg ap else mret tt.

Definition check_cap_attr (accessor : cap -> Z) (name fmt : string)
    (a b : cap) (a_str b_str : string) : test cap W unit :=
  CHERIOSTEST_VERIFY2 (accessor a =? accessor b)
    (name +:+ "(%s) (" +:+ fmt +:+ ") == " +:+ name +:+ "(%s) (" +:+ fmt
     +:+ ") failed!")
    [AStr a_str; AInt (accessor a); AStr b_str; AInt (accessor b)].

(** [CHERIOSTEST_CHECK_EQ(type, fmt, a, b, a_str, b_str)], on integers. *)
Definition CHERIOSTEST_CHECK_EQ (fmt : string) (a b : Z) (a_str b_str : string)
    : test cap W unit :=
  CHERIOSTEST_VERIFY2 (a =? b)
    ("%s (" +:+ fmt +:+ ") == %s (" +:+ fmt +:+ ") failed!")
    [AStr a_str; AInt a; AStr b_str; AInt b].

Definition CHERIOSTEST_CHECK_EQ_LONG := CHERIOSTEST_CHECK_EQ "0x%lx".

Definition tag_int (c : cap) : Z := if cheri_tag_get c then 1 else 0.

Definition cheriostest_check_cap_eq (a b : cap) (a_str b_str : string)
    : test cap W unit :=
  check_cap_attr cheri_address_get "cheri_address_get" "0x%lx" a b a_str b_str ;;
  check_cap_attr tag_int "cheri_tag_get" "%d" a b a_str b_str ;;
  check_cap_attr cheri_offset_get "cheri_offset_get" "0x%lx" a b a_str b_str ;;
  check_cap_attr cheri_length_get "cheri_length_get" "0x%lx" a b a_str b_str ;;
  check_cap_attr cheri_perms_get "cheri_perms_get" "0x%x" a b a_str b_str ;;
  check_cap_attr cheri_type_get "cheri_type_get" "%ld" a b a_str b_str ;;
  check_cap_attr cheri_flags_get "cheri_flags_get" "0x%lx" a b a_str b_str.

Definition cheriostest_check_cap_bounds_precise (c : cap) (expected_len : Z)
    : test cap W unit :=
  let offset := cheri_offset_get c in
  let len := cheri_length_get c in
  CHERIOSTEST_VERIFY2 (offset =? 0) "offset (%jd) not zero: %#lp"
    [AInt offset; APtr c] ;;
  CHERIOSTEST_VERIFY2 (len =? expected_len)
    "length (%jd) not expected %jd: %#lp"
    [AInt len; AInt expected_len; APtr c].

(** The result of a system call: a value, or the error number that the call
    leaves in errno when it returns -1. *)
Definition CHERIOSTEST_CHECK_SYSCALL2 {A} (call : test cap W (A + Z))
    (msg : string) (ap : list (arg cap)) : test cap W A :=
  r ← call;
  match r with
  | inl a => mret a
  | inr e => modify (set_errno e) ;; cheriostest_failure_err msg ap
  end.

Definition CHERIOSTEST_CHECK_SYSCALL {A} (call : test cap W (A + Z))
    (text : string) : test cap W A :=
  CHERIOSTEST_CHECK_SYSCALL2 call ("Call '" +:+ text +:+ "' failed") [].

(** strerror_r(3) succeeds on every error number that it is given here. *)
Definition cheriostest_check_errno (context : string) (actual expected : Z)
    : test cap W unit :=
  if expected =? actual then mret tt
  else cheriostest_failure_errx "%s errno %d (%s) != expected errno %d (%s)"
         [AStr context; AInt actual; AStr (strerror actual);
          AInt expected; AStr (strerror expected)].

(** The call must fail with [expected_errno]; a call that succeeds with the
    value [A] is reported, whatever it returned. *)
Definition CHERIOSTEST_CHECK_CALL_ERROR {A} (call : test cap W (A + Z))
    (text : string) (show : A -> string * arg cap) (expected_errno : Z)
    : test cap W unit :=
  modify (set_errno 0) ;;
  r ← call;
  match r with
  | inl a => cheriostest_failure_errx
               (text +:+ " unexpectedly returned " +:+ (show a).1) [(show a).2]
  | inr e => modify (set_errno e) ;;
             cheriostest_check_errno text e expected_errno
  end.

(** [cheri_ptr] and [cheri_ptrperm] *)
Definition cheri_ptr (ptr : cap) (len : Z) : cap := cheri_bounds_set ptr len.

Definition cheri_ptr_equal_exact (x y : cap) : bool :=
  if cfg_purecap g then cheri_is_equal_exact x y
  else cheri_address_get x =? cheri_address_get y.

(** cheriostest_compat.h *)
Definition CHERITEST_PAGE_SHIFT (pagesize : Z) : Z := Z.log2 (Z.land pagesize (- pagesize)).
Definition cheritest_trunc_page (pagesize x : Z) : Z := builtin_align_down x pagesize.
Definition cheritest_round_page (pagesize x : Z) : Z := builtin_align_up x pagesize.

(** cheri/cheric.h *)
Definition CHERITEST_CHERI_REPRESENTABLE_ALIGNMENT (len : Z) : Z :=
  u64 (u64 (Z.lnot (cheri_representable_alignment_mask len)) + 1).
Definition CHERITEST_CHERI_ALIGN_MASK (len : Z) : Z :=
  u64 (Z.lnot (cheri_representable_alignment_mask len)).
Definition cheritest_cheri_is_address_inbounds (c : cap) (addr : Z) : bool :=
  (cheri_base_get c <=? addr) &&
  (addr <? u64 (cheri_base_get c + cheri_length_get c)).
End Util.

(** ** Verdicts: what a test body leaves for the controller *)

Inductive verdict := Passed (warn : bool) | Failed (reason : string) | NoVerdict.

Section Verdicts.
Context {cap W : Type} {CH : Cheri cap} {LC : Libc cap W}.

Definition verdict_of {A} (r : outcome cap A * proc cap W) : verdict :=
  match r.1, p_ccsp r.2 with
  | Exited code, Some c =>
      if (code =? 0) && (ccs_testresult c =? TESTRESULT_SUCCESS)
      then Passed (ccs_warn c)
      else if (code =? EX_SOFTWARE) && (ccs_testresult c =? TESTRESULT_FAILURE)
      then Failed (cstr (ccs_testresult_str c))
      else NoVerdict
  | _, _ => NoVerdict
  end.

(** The body ends by declaring success. *)
Definition succeeds {A} (m : test cap W A) (s : proc cap W) : Prop :=
  exists w, verdict_of (m s) = Passed w.

(** The process has its shared page. *)
Definition shared (s : proc cap W) : Prop :=
  exists c, p_ccsp s = Some c /\
    length (ccs_testresult_str c) = TESTRESULT_STR_LEN.

(** The text that fits the report: 1023 bytes of it. *)
Definition report (msg : string) (ap : list (arg cap)) : string :=
  cstr (take (TESTRESULT_STR_LEN - 1) (bytes_of (format (LC := LC) msg ap))).

Lemma cstr_app_nul (l rest : bytes) : cstr (l ++ NUL :: rest) = cstr l.
Proof.
  induction l as [|c l IH]; [done|]. simpl. case_match; [done|]. by rewrite IH.
Qed.

Lemma verdict_failure_errx {A} (msg : string) (ap : list (arg cap)) s :
  shared s ->
  verdict_of (cheriostest_failure_errx (A := A) msg ap s)
  = Failed (report msg ap).
Proof.
  intros (c & Hc & _). unfold cheriostest_failure_errx, mbind, eff_bind,
    vcheriostest_failure_errx. rewrite Hc. unfold verdict_of. simpl.
  f_equal. unfold snprintf_at, splice. case_decide; [done|].
  rewrite take_0. cbn [app]. rewrite <- app_assoc. cbn [app].
  by rewrite cstr_app_nul.
Qed.

Lemma not_succeeds_failure_errx {A} (msg : string) (ap : list (arg cap)) s :
  ~ succeeds (cheriostest_failure_errx (A := A) msg ap) s.
Proof.
  intros [w Hw]. revert Hw. unfold cheriostest_failure_errx, mbind, eff_bind,
    vcheriostest_failure_errx, report_on_stderr, verdict_of.
  destruct (p_ccsp s) eqn:Hc; simpl; [done|]. by rewrite Hc.
Qed.

Lemma not_succeeds_failure_err {A} (msg : string) (ap : list (arg cap)) s :
  ~ succeeds (cheriostest_failure_err (A := A) msg ap) s.
Proof.
  intros [w Hw]. revert Hw. unfold cheriostest_failure_err, gets, mbind, eff_bind,
    vcheriostest_failure_errc, report_on_stderr, verdict_of.
  destruct (p_ccsp s) eqn:Hc; simpl; [done|]. by rewrite Hc.
Qed.

Lemma verdict_success {A} s :
  shared s -> verdict_of (cheriostest_success (A := A) s) = Passed false.
Proof.
  intros (c & Hc & _). unfold cheriostest_success, with_ccsp, mbind, eff_bind.
  by rewrite Hc.
Qed.

Lemma verdict_success_with_warn {A} (msg : string) s :
  shared s ->
  verdict_of (cheriostest_success_with_warn (A := A) msg s) = Passed true.
Proof.
  intros (c & Hc & _).
  unfold cheriostest_success_with_warn, with_ccsp, mbind, eff_bind. by rewrite Hc.
Qed.

(** *** Reflecting a sequence of checks

    [Checks m l]: the body [m] does nothing but the checks [l], in order.
    The instances below compute [l] from the text of [m]. *)
Record probe := Check { chk_ok : bool; chk_msg : string; chk_args : list (arg cap) }.

Definition run_checks (l : list probe) : test cap W unit :=
  foreach l (fun k => CHERIOSTEST_VERIFY2 (chk_ok k) (chk_msg k) (chk_args k)).

Fixpoint first_failure (l : list probe) : option probe :=
  match l with
  | [] => None
  | k :: l' => if chk_ok k then first_failure l' else Some k
  end.

Class Checks (m : test cap W unit) (l : list probe) :=
  checks_run : forall s, m s = run_checks l s.

#[export] Instance checks_ret : Checks (mret tt) [].
Proof. done. Qed.

#[export] Instance checks_verify2 b msg ap :
  Checks (CHERIOSTEST_VERIFY2 b msg ap) [Check b msg ap].
Proof.
  intros s. unfold run_checks. simpl. unfold CHERIOSTEST_VERIFY2.
  destruct b; [done|]. unfold mbind at 1, eff_bind.
  unfold cheriostest_failure_errx, mbind, eff_bind.
  by destruct (vcheriostest_failure_errx msg ap s) as [[] ?].
Qed.

#[export] Instance checks_verify b text :
  Checks (CHERIOSTEST_VERIFY b text)
    [Check b "%s" [AStr ("'" +:+ text +:+ "' is FALSE!")]].
Proof. apply checks_verify2. Qed.

#[export] Instance checks_fail_if b msg ap :
  Checks (fail_if b msg ap) [Check (negb b) msg ap].
Proof.
  intros s. rewrite <- (checks_verify2 (negb b) msg ap s).
  unfold fail_if, CHERIOSTEST_VERIFY2. by destruct b.
Qed.

#[export] Instance checks_seq m1 m2 l1 l2 :
  Checks m1 l1 -> Checks m2 l2 -> Checks (m1 ;; m2) (l1 ++ l2).
Proof.
  intros H1 H2 s. unfold run_checks. rewrite foreach_app.
  unfold mbind, eff_bind. rewrite H1. fold (run_checks l1).
  by destruct (run_checks l1 s) as [[] s1].
Qed.

#[export] Instance checks_when b m l :
  Checks m l -> Checks (when b m) (if b then l else []).
Proof. intros Hm s. by destruct b; [apply Hm|]. Qed.

#[export] Instance checks_if (b : bool) m1 m2 l1 l2 :
  Checks m1 l1 -> Checks m2 l2 ->
  Checks (if b then m1 else m2) (if b then l1 else l2).
Proof. intros H1 H2. by destruct b. Qed.

#[export] Instance checks_foreach {A} (f : A -> test cap W unit)
    (g : A -> list probe) (l : list A) :
  (forall x, Checks (f x) (g x)) -> Checks (foreach l f) (concat (map g l)).
Proof.
  intros Hf. induction l as [|x l IH]; simpl; [apply checks_ret|].
  by apply checks_seq.
Qed.

#[export] Instance checks_cap_attr accessor name fmt a b a_str b_str :
  Checks (check_cap_attr accessor name fmt a b a_str b_str) _ :=
  checks_verify2 _ _ _.

Lemma forallb_concat_map {A} (g : A -> list probe) (l : list A) :
  forallb chk_ok (concat (map g l)) = true
  <-> Forall (fun x => forallb chk_ok (g x) = true) l.
Proof.
  induction l as [|x l IH]; simpl; [by split|].
  by rewrite forallb_app, andb_true_iff, IH, Forall_cons.
Qed.

Lemma first_failure_app l1 l2 :
  first_failure (l1 ++ l2) =
  match first_failure l1 with None => first_failure l2 | Some k => Some k end.
Proof. induction l1 as [|k l1 IH]; simpl; [done|]. by destruct (chk_ok k). Qed.

Lemma first_failure_None l : first_failure l = None <-> forallb chk_ok l = true.
Proof. induction l as [|k l IH]; simpl; [done|]. by destruct (chk_ok k). Qed.

Lemma run_checks_pass l s :
  first_failure l = None -> run_checks l s = (Val tt, s).
Proof.
  induction l as [|k l IH]; [done|]. unfold run_checks in *. simpl.
  destruct (chk_ok k); [|done]. apply IH.
Qed.

Lemma run_checks_fail {B} l k (next : test cap W B) s :
  first_failure l = Some k ->
  (run_checks l ;; next) s
  = cheriostest_failure_errx (chk_msg k) (chk_args k) s.
Proof.
  induction l as [|k' l IH]; [done|]. unfold run_checks in *. simpl.
  destruct (chk_ok k') eqn:Hk; intros Hf.
  - by rewrite <- IH.
  - simplify_eq. unfold mbind, eff_bind, cheriostest_failure_errx.
    unfold CHERIOSTEST_VERIFY2, cheriostest_failure_errx, mbind, eff_bind.
    by destruct (vcheriostest_failure_errx (chk_msg k) (chk_args k) s) as [[] ?].
Qed.

(** The verdict of a sequence of checks that ends in [next]: that of [next]
    when all of them hold, and otherwise a failure that reports the first
    one that does not. *)
Lemma verdict_checks {B} m l (next : test cap W B) s :
  Checks m l -> shared s ->
  verdict_of ((m ;; next) s) =
  match first_failure l with
  | None => verdict_of (next s)
  | Some k => Failed (report (chk_msg k) (chk_args k))
  end.
Proof.
  intros Hm Hs.
  assert ((m ;; next) s = (run_checks l ;; next) s) as ->.
  { unfold mbind, eff_bind. by rewrite (Hm s). }
  destruct (first_failure l) as [k|] eqn:Hf.
  - rewrite (run_checks_fail _ _ _ _ Hf). by apply verdict_failure_errx.
  - unfold mbind, eff_bind. by rewrite (run_checks_pass _ _ Hf).
Qed.

(** A body that is a sequence of checks followed by [cheriostest_success]
    succeeds exactly when every check holds. *)
Lemma succeeds_checks {B} m l (next : test cap W B) s :
  Checks m l -> shared s ->
  (succeeds (m ;; next) s <-> forallb chk_ok l = true /\ succeeds next s).
Proof.
  intros Hm Hs. unfold succeeds. rewrite (verdict_checks m l) by done.
  rewrite <- first_failure_None. destruct (first_failure l).
  - split; [by intros [? ?]|by intros [? _]].
  - split; [intros [w Hw]; split; [done|by exists w]|by intros [_ [w Hw]]; exists w].
Qed.

(** [bind_val] at the type of tests. *)
Lemma test_bind {A B} (m : test cap W A) (f : A -> test cap W B) s a s' :
  m s = (Val a, s') -> (m ≫= f) s = f a s'.
Proof. intros H. unfold mbind, eff_bind. by rewrite H. Qed.

Lemma test_assoc {A B D} (m : test cap W A) (f : A -> test cap W B)
    (k : B -> test cap W D) s :
  ((m ≫= f) ≫= k) s = (m ≫= (fun a => f a ≫= k)) s.
Proof. unfold mbind, eff_bind. by destruct (m s) as [[] ?]. Qed.

Lemma succeeds_bind {A B} (m : test cap W A) (f : A -> test cap W B) s a s' :
  m s = (Val a, s') -> (succeeds (m ≫= f) s <-> succeeds (f a) s').
Proof. intros H. unfold succeeds, mbind, eff_bind. by rewrite H. Qed.

Lemma succeeds_assoc {A B D} (m : test cap W A) (f : A -> test cap W B)
    (k : B -> test cap W D) s :
  succeeds ((m ≫= f) ≫= k) s <-> succeeds (m ≫= (fun a => f a ≫= k)) s.
Proof. unfold succeeds. by rewrite test_assoc. Qed.

Lemma succeeds_ret {A B} (a : A) (k : A -> test cap W B) s :
  succeeds (mret a ≫= k) s <-> succeeds (k a) s.
Proof. done. Qed.

Lemma succeeds_success {A} s : shared s -> succeeds (cheriostest_success (A := A)) s.
Proof. intros Hs. exists false. by apply verdict_success. Qed.

Lemma succeeds_success_with_warn {A} msg s :
  shared s -> succeeds (cheriostest_success_with_warn (A := A) msg) s.
Proof. intros Hs. exists true. by apply verdict_success_with_warn. Qed.
End Verdicts.

#[global] Arguments probe : clear implicits.

(** The instances of [Checks] are found by the head of the body. *)
#[global] Typeclasses Opaque CHERIOSTEST_VERIFY2 CHERIOSTEST_VERIFY fail_if
  check_cap_attr cheriostest_failure_errx when foreach eff_bind eff_ret.
#[export] Hint Resolve succeeds_success succeeds_success_with_warn
  not_succeeds_failure_errx not_succeeds_failure_err : harness.
