(* ===== verification/Runner.v ===== *)
(** * Runner: running one test (cheriostest.c, cheriostest_run_test)

    The controller forks a child for each test, waits for it, reads the shared
    page and the child's standard output, and files the result under one of
    its counters.  [analyse_status] is the examination of the page and of the
    wait status, [check_output] that of the output; the labels [pass], [fail]
    and [do_return] of the C function are the definitions [pass_label],
    [fail_label] and [do_return].

    Two locals of the C function are read before they are set when the name of
    the test has a disallowed prefix: [indet_flaky] and [indet_fd] stand for
    whatever they then hold. *)

From S2P Require Import Prelude Printf Cheri Harness.

(** ** Options and state of the controller *)

Record options := Options {
  o_is_execed_child : bool;
  o_execed_child_has_extra_argv : bool;
  o_list : bool;
  o_run_all : bool;
  o_glob : bool;
  o_fast_tests_only : bool;
  o_qtrace : bool;
  o_qtrace_user_mode_only : bool;
  o_sleep_after_test : bool;
  o_coredump_enabled : bool;
  o_debugger_enabled : bool;
  o_verbose : Z;
  o_xml : bool;                (* xo_get_style(NULL) == XO_STYLE_XML *)
}.

Definition options0 : options :=
  Options false false false false false false false false false false false 0 false.

(** The calls of libxo, as a trace: the structure of the report. *)
Inductive xo_kind := XoContainer | XoList | XoInstance.
Inductive xo :=
  | XoAttr (name value : string)
  | XoOpen (k : xo_kind) (name : string)
  | XoClose (k : xo_kind) (name : string)
  | XoEmit (fmt : string) (args : list string)
  | XoFlush
  | XoFinish.

(** The calls that neither open nor close an element. *)
Definition xo_flat (e : xo) : bool :=
  match e with XoOpen _ _ | XoClose _ _ => false | _ => true end.

Definition close_testcase : list xo := [XoClose XoInstance "testcase"; XoFlush].

(** The counters and the string lists of the controller. *)
Record tally := Tally {
  tests_run : Z;
  tests_skipped : Z;
  tests_failed : Z;
  tests_passed : Z;
  tests_xfailed : Z;
  tests_xpassed : Z;
  expected_failures : Z;
  cheri_skipped_tests : list string;
  cheri_failed_tests : list string;
  cheri_xfailed_tests : list string;
  cheri_xpassed_tests : list string;
  cheri_test_warnings : list string;
}.

Definition tally0 : tally := Tally 0 0 0 0 0 0 0 [] [] [] [] [].

Definition count_run (t : tally) : tally :=
  Tally (tests_run t + 1) (tests_skipped t) (tests_failed t) (tests_passed t)
    (tests_xfailed t) (tests_xpassed t) (expected_failures t)
    (cheri_skipped_tests t) (cheri_failed_tests t) (cheri_xfailed_tests t)
    (cheri_xpassed_tests t) (cheri_test_warnings t).
Definition count_expected (t : tally) : tally :=
  Tally (tests_run t) (tests_skipped t) (tests_failed t) (tests_passed t)
    (tests_xfailed t) (tests_xpassed t) (expected_failures t + 1)
    (cheri_skipped_tests t) (cheri_failed_tests t) (cheri_xfailed_tests t)
    (cheri_xpassed_tests t) (cheri_test_warnings t).
Definition count_skipped (m : string) (t : tally) : tally :=
  Tally (tests_run t) (tests_skipped t + 1) (tests_failed t) (tests_passed t)
    (tests_xfailed t) (tests_xpassed t) (expected_failures t)
    (cheri_skipped_tests t ++ [m]) (cheri_failed_tests t) (cheri_xfailed_tests t)
    (cheri_xpassed_tests t) (cheri_test_warnings t).
Definition count_failed (m : string) (t : tally) : tally :=
  Tally (tests_run t) (tests_skipped t) (tests_failed t + 1) (tests_passed t)
    (tests_xfailed t) (tests_xpassed t) (expected_failures t)
    (cheri_skipped_tests t) (cheri_failed_tests t ++ [m]) (cheri_xfailed_tests t)
    (cheri_xpassed_tests t) (cheri_test_warnings t).
Definition count_passed (t : tally) : tally :=
  Tally (tests_run t) (tests_skipped t) (tests_failed t) (tests_passed t + 1)
    (tests_xfailed t) (tests_xpassed t) (expected_failures t)
    (cheri_skipped_tests t) (cheri_failed_tests t) (cheri_xfailed_tests t)
    (cheri_xpassed_tests t) (cheri_test_warnings t).
Definition count_xfailed (m : string) (t : tally) : tally :=
  Tally (tests_run t) (tests_skipped t) (tests_failed t) (tests_passed t)
    (tests_xfailed t + 1) (tests_xpassed t) (expected_failures t)
    (cheri_skipped_tests t) (cheri_failed_tests t) (cheri_xfailed_tests t ++ [m])
    (cheri_xpassed_tests t) (cheri_test_warnings t).
Definition count_xpassed (m : string) (t : tally) : tally :=
  Tally (tests_run t) (tests_skipped t) (tests_failed t) (tests_passed t)
    (tests_xfailed t) (tests_xpassed t + 1) (expected_failures t)
    (cheri_skipped_tests t) (cheri_failed_tests t) (cheri_xfailed_tests t)
    (cheri_xpassed_tests t ++ [m]) (cheri_test_warnings t).
Definition add_warning (m : string) (t : tally) : tally :=
  Tally (tests_run t) (tests_skipped t) (tests_failed t) (tests_passed t)
    (tests_xfailed t) (tests_xpassed t) (expected_failures t)
    (cheri_skipped_tests t) (cheri_failed_tests t) (cheri_xfailed_tests t)
    (cheri_xpassed_tests t) (cheri_test_warnings t ++ [m]).

(** How a child ended, as waitpid(2) reports it. *)
Inductive wstatus := WExited (code : Z) | WSignaled (sig : Z) | WOther.

Section State.
Context {cap W : Type}.

Record driver := Driver {
  d_tally : tally;
  d_ccs : child_state cap;      (* the page that ccsp points to *)
  d_xo : list xo;               (* the calls of libxo, in order *)
  d_errno : Z;
  d_world : W;
}.

Definition on_tally (f : tally -> tally) (d : driver) : driver :=
  Driver (f (d_tally d)) (d_ccs d) (d_xo d) (d_errno d) (d_world d).
Definition set_ccs (c : child_state cap) (d : driver) : driver :=
  Driver (d_tally d) c (d_xo d) (d_errno d) (d_world d).
Definition log_xo (l : list xo) (d : driver) : driver :=
  Driver (d_tally d) (d_ccs d) (d_xo d ++ l) (d_errno d) (d_world d).
Definition set_derrno (e : Z) (d : driver) : driver :=
  Driver (d_tally d) (d_ccs d) (d_xo d) e (d_world d).
Definition set_dworld (w : W) (d : driver) : driver :=
  Driver (d_tally d) (d_ccs d) (d_xo d) (d_errno d) w.

Lemma log_xo_log_xo l1 l2 d : log_xo l2 (log_xo l1 d) = log_xo (l1 ++ l2) d.
Proof. unfold log_xo. simpl. by rewrite (assoc_L (++)). Qed.

Lemma on_tally_log_xo f l d : on_tally f (log_xo l d) = log_xo l (on_tally f d).
Proof. done. Qed.

Lemma on_tally_on_tally f h d :
  on_tally h (on_tally f d) = on_tally (fun t => h (f t)) d.
Proof. done. Qed.
End State.
Arguments driver : clear implicits.

(** The system calls of the controller.  A call that can fail gives [Some e]
    for the error number [e]; [os_read] is given what the child wrote to its
    standard output, and [strnvis] is vis(3). *)
Class RunnerOS (W : Type) := {
  os_pipe : W -> (Z * Z + Z) * W;
  os_write : Z -> string -> W -> (Z + Z) * W;
  os_read : Z -> string -> Z -> W -> (string + Z) * W;
  os_close : Z -> W -> W;
  os_dup2 : Z -> Z -> W -> option Z * W;
  os_set_nonblock : Z -> W -> option Z * W;
  os_fork : W -> (Z + Z) * W;
  os_system : string -> W -> W;
  os_stop_self : W -> W;
  os_sleep : Z -> W -> W;
  os_set_qtrace : option (bool -> W -> option Z * W); (* CHERI_START_TRACE *)
  strnvis : string -> string;
}.

(** ** The child process *)

Section Child.
Context {cap W : Type} {CH : Cheri cap} {LC : Libc cap W} {RO : RunnerOS W}.
Context (g : config) (o : options).

Definition world_op {A} (f : W -> A * W) : test cap W A :=
  fun s => let '(a, w) := f (p_world s) in (Val a, set_world w s).

(** err(3): a message on standard error, then exit. *)
Definition child_err {A} (code : Z) (msg : string) : test cap W A :=
  modify (fun s => set_stderr (p_stderr s +:+ msg) s) ;; exit code.

(** [if (call < 0) err(EX_OSERR, msg);] *)
Definition child_try (call : W -> option Z * W) (msg : string) : test cap W unit :=
  r ← world_op call;
  match r with
  | Some e => modify (set_errno e) ;; child_err EX_OSERR msg
  | None => mret tt
  end.

(** The signals that the child handles, with the text of the failure. *)
Definition child_signals : list (Z * string) :=
  [(SIGALRM, "sigaction(SIGALRM)")] ++
  (if is_freebsd g then [(SIGPROT, "sigaction(SIGPROT)")] else []) ++
  [(SIGSEGV, "sigaction(SIGSEGV)"); (SIGBUS, "sigaction(SIGBUS")] ++
  (if is_freebsd g then [(SIGEMT, "sigaction(SIGEMT)")] else []) ++
  [(SIGTRAP, "sigaction(SIGEMT)")].

Definition install_handler (sig : Z * string) : test cap W unit :=
  w ← gets p_world;
  match os_sigaction sig.1 w with
  | Some e => modify (set_errno e) ;; child_err EX_OSERR sig.2
  | None => modify (fun s => set_handlers ({[sig.1]} ∪ p_handlers s) s)
  end.

Definition set_thread_tracing : test cap W unit :=
  match os_set_qtrace with
  | Some set_qtrace =>
      child_try (set_qtrace (o_qtrace_user_mode_only o)) "QEMU_SET_QTRACE"
  | None => child_err EX_OSERR "set_thread_tracing"
  end.

Definition child_main (ctp : cheri_test cap W) (fd_in fd_out : Z * Z)
    : test cap W unit :=
  foreach child_signals install_handler ;;
  child_try (os_dup2 fd_in.1 0) "dup2(STDIN_FILENO)" ;;
  child_try (os_dup2 fd_out.2 1) "dup2(STDOUT_FILENO)" ;;
  world_op (fun w => (tt, os_close fd_out.2 (os_close fd_out.1
                            (os_close fd_in.2 (os_close fd_in.1 w))))) ;;
  when (o_qtrace o) set_thread_tracing ;;
  when (o_debugger_enabled o)
    (when (negb (o_verbose o =? 0))
       (modify (fun s => set_stderr (p_stderr s +:+ "Waiting for GDB to attach") s)) ;;
     world_op (fun w => (tt, os_stop_self w))) ;;
  ct_func ctp ;;
  exit 0.

(** What the kernel makes of the outcome of a process: a fault whose signal
    is handled runs [signal_handler]; otherwise it kills the process.  An
    undefined access has no status. *)
Definition end_of_process (r : outcome cap unit * proc cap W)
    : option (wstatus * proc cap W) :=
  match r with
  | (Val _, s) => Some (WExited 0, s)
  | (Exited code, s) => Some (WExited (code mod 256), s)
  | (Raised si, s) =>
      if decide (si_signo si ∈ p_handlers s) then
        match signal_handler g (si_signo si) si (A := unit) s with
        | (Exited code, s') => Some (WExited (code mod 256), s')
        | _ => None
        end
      else Some (WSignaled (si_signo si), s)
  | (Undef, s) => None
  end.

Definition fork_state (d : driver cap W) : proc cap W :=
  Proc (Some (d_ccs d)) (d_errno d) ∅ EmptyString EmptyString (o_verbose o)
    (d_world d).

(** The life of the child, from fork(2) to its end: its wait status and what
    it wrote to its standard output. *)
Definition run_child (ctp : cheri_test cap W) (fd_in fd_out : Z * Z)
    : eff cap (driver cap W) (wstatus * string) := fun d =>
  match end_of_process (child_main ctp fd_in fd_out (fork_state d)) with
  | Some (st, s) =>
      match p_ccsp s with
      | Some c => (Val (st, p_stdout s), set_dworld (p_world s) (set_ccs c d))
      | None => (Undef, d)
      end
  | None => (Undef, d)
  end.
End Child.

(** ** The controller *)

(** What the examination of the shared page and of the wait status decides:
    fail with a reason ([fatal]: whatever the test expects), pass at once, or
    go on to the output. *)
Inductive analysis := AFail (reason : string) (fatal : bool) | APass | AOutput.

Section Parent.
Context {cap W : Type} {CH : Cheri cap} {LC : Libc cap W} {RO : RunnerOS W}.
Context (g : config) (o : options).
Context (indet_flaky : option string) (indet_fd : Z).

Definition TEST_BUFFER_LEN : nat := 1024.
Definition REASON_LEN : nat := 2048.  (* TESTRESULT_STR_LEN * 2 *)
Definition VIS_LEN : nat := Nat.mul 4 REASON_LEN.  (* sizeof(reason) * 4 *)

Definition cut (n : nat) (s : string) : string :=
  cstr (take (n - 1) (bytes_of s)).

(** [snprintf(reason, sizeof(reason), msg, ap)] *)
Definition reasonf (msg : string) (ap : list (arg cap)) : string :=
  cut REASON_LEN (format (LC := LC) msg ap).

Definition emit (l : list xo) : eff cap (driver cap W) unit := modify (log_xo l).
Definition tallyup (f : tally -> tally) : eff cap (driver cap W) unit :=
  modify (on_tally f).
Definition dworld {A} (f : W -> A * W) : eff cap (driver cap W) A :=
  fun d => let '(a, w) := f (d_world d) in (Val a, set_dworld w d).

(** [if (call < 0) err(EX_OSERR, ...);] in the controller. *)
Definition dtry {A} (call : W -> (A + Z) * W) : eff cap (driver cap W) A :=
  r ← dworld call;
  match r with
  | inl a => mret a
  | inr e => modify (set_derrno e) ;; exit EX_OSERR
  end.

Definition disallowed_prefixes : list string := ["cheriostest_"; "test_"].

Definition disallowed_prefix (name : string) : option string :=
  find (fun p => has_prefix p name) disallowed_prefixes.

(** *** The label [do_return] *)
Definition do_return (fd_in1 fd_out0 : Z) : eff cap (driver cap W) unit :=
  emit close_testcase ;;
  dworld (fun w => (tt, os_close fd_out0 (os_close fd_in1 w))) ;;
  when (o_sleep_after_test o) (dworld (fun w => (tt, os_sleep 1 w))).

Definition message (name text : string) : string := name +:+ ": " +:+ text.

(** *** The label [pass] *)
Definition pass_label (ctp : cheri_test cap W) (fd_in1 fd_out0 : Z)
    (xfail_reason : option string) : eff cap (driver cap W) unit :=
  match xfail_reason with
  | Some r =>
      emit [XoEmit "XPASS: {d:name/%s} (Expected failure due to {d:reason/%s}) {e:failure/XPASS: %s}
" [ct_name ctp; r; r]] ;;
      tallyup (count_xpassed (message (ct_name ctp) r))
  | None =>
      emit [XoEmit "{d:status/%s}: {d:name/%s}
" ["PASS"; ct_name ctp]] ;;
      tallyup count_passed
  end ;;
  c ← gets d_ccs;
  when (ccs_warn c)
    (let visreason := cut VIS_LEN (strnvis (cstr (ccs_testresult_str c))) in
     emit [XoEmit "WARN: {d:name/%s}: {:warn/%s}
" [ct_name ctp; visreason]] ;;
     tallyup (add_warning (message (ct_name ctp) visreason))) ;;
  do_return fd_in1 fd_out0.

(** *** The label [fail] *)
Definition fail_label (ctp : cheri_test cap W) (fd_in1 fd_out0 : Z)
    (reason : string) (xfail_reason flaky_reason : option string)
    : eff cap (driver cap W) unit :=
  let visreason := cut VIS_LEN (strnvis reason) in
  let failure_message := message (ct_name ctp) visreason in
  match xfail_reason, flaky_reason with
  | None, None =>
      emit [XoEmit "FAIL: {d:name/%s}: {:failure/%s}
" [ct_name ctp; visreason]] ;;
      tallyup (count_failed failure_message)
  | _, _ =>
      when (bool_decide (xfail_reason = None)) (tallyup count_expected) ;;
      let shown := default EmptyString
        (match flaky_reason with Some _ => flaky_reason | None => xfail_reason end) in
      (if o_xml o
       then emit [XoAttr "message" shown; XoEmit "{e:skipped/%s}" [EmptyString]]
       else emit [XoEmit "{d:status/%s}: {d:name/%s}: {:failure-reason/%s} ({d:expected-failure-reason/%s})
" ["XFAIL"; ct_name ctp; visreason; shown]]) ;;
      tallyup (count_xfailed failure_message)
  end ;;
  do_return fd_in1 fd_out0.

(** *** The shared page and the wait status *)

(** The checks that precede the ones on the test's own result. *)
Definition signal_mismatch (ctp : cheri_test cap W) (c : child_state cap)
    : option string :=
  if ccs_signum c <? 0 then
    Some (reasonf "Child returned negative signal %d" [AInt (ccs_signum c)])
  else if flag_set (ct_flags ctp) CT_FLAG_SIGNAL
       && negb (ccs_signum c =? ct_signum ctp) then
    Some (reasonf "Expected signal %d, got %d"
            [AInt (ct_signum ctp); AInt (ccs_signum c)])
  else if flag_set (ct_flags ctp) CT_FLAG_SI_CODE
       && negb (ccs_si_code c =? ct_si_code ctp) then
    Some (reasonf "Expected si_code %d, got %d"
            [AInt (ct_si_code ctp); AInt (ccs_si_code c)])
  else if is_freebsd g && flag_set (ct_flags ctp) CT_FLAG_SI_TRAPNO
       && negb (ccs_si_trapno c =? ct_si_trapno ctp) then
    Some (reasonf "Expected si_trapno %d, got %d"
            [AInt (ct_si_trapno ctp); AInt (ccs_si_trapno c)])
  else if flag_set (ct_flags ctp) CT_FLAG_SI_ADDR
       && (negb (cheri_ptr_equal_exact g (ccs_si_addr_expected c) (ccs_si_addr c))
           || negb (Bool.eqb (ccs_si_addr_expected_tag c) (ccs_si_addr_tag c))) then
    Some (reasonf "Expected si_addr %#p with tag = %d, got %#p with tag = %d"
            [APtr (ccs_si_addr_expected c);
             AInt (Z.b2z (ccs_si_addr_expected_tag c));
             APtr (ccs_si_addr c); AInt (Z.b2z (ccs_si_addr_tag c))])
  else None.

(** [ccsp->ccs_testresult_str[sizeof - 1] = '\0'] *)
Definition terminate_report (c : child_state cap) : child_state cap :=
  set_result (ccs_testresult c)
    (<[(TESTRESULT_STR_LEN - 1)%nat := NUL]> (ccs_testresult_str c))
    (ccs_warn c) c.

Definition analyse_status (ctp : cheri_test cap W) (status : wstatus)
    (c : child_state cap) : analysis :=
  if ccs_testresult c =? TESTRESULT_FAILURE then
    AFail (cstr (ccs_testresult_str (terminate_report c))) false
  else if flag_set (ct_flags ctp) CT_FLAG_SIGEXIT then
    match status with
    | WSignaled sig =>
        if negb (sig =? ct_signum ctp) then
          AFail (reasonf "Expected child termination with signal %d; got %d"
                   [AInt (ct_signum ctp); AInt sig]) false
        else APass
    | _ => AFail (reasonf "Expected child termination with signal %d"
                    [AInt (ct_signum ctp)]) false
    end
  else
    match status with
    | WSignaled sig => AFail (reasonf "Child exited with signal %d" [AInt sig]) false
    | WOther => AFail (reasonf "Child exited abnormally" []) false
    | WExited code =>
        if negb (code =? 0) && negb (code =? EX_SOFTWARE) then
          AFail (reasonf "Child status %d" [AInt code]) false
        else
          match signal_mismatch ctp c with
          | Some r => AFail r false
          | None =>
              if negb (flag_set (ct_flags ctp) CT_FLAG_SIGNAL) then
                if negb (ccs_signum c =? 0) then
                  AFail (reasonf "Test received unexpected signal %d"
                           [AInt (ccs_signum c)]) false
                else if ccs_testresult c =? TESTRESULT_UNKNOWN then
                  AFail (reasonf "Test failed to set a success/failure status" [])
                    true
                else if negb (ccs_testresult c =? TESTRESULT_SUCCESS) then
                  AFail (reasonf "Test returned unexpected result (%d)"
                           [AInt (ccs_testresult c)]) true
                else AOutput
              else AOutput
          end
    end.

(** *** The output of the test *)

(** The reason to fail that the output gives, from what read(2) returned: a
    buffer of at most 1023 bytes, or an error number. *)
Definition output_mismatch (ctp : cheri_test cap W) (r : string + Z)
    : option string :=
  if flag_set (ct_flags ctp) CT_FLAG_STDOUT_STRING then
    match r with
    | inr e => Some (reasonf "read() on test stdout failed with -1 (%d)" [AInt e])
    | inl buf =>
        let buffer := cstr (bytes_of buf) in
        if negb (String.eqb buffer (ct_stdout_string ctp)) then
          Some (if negb (o_verbose o =? 0)
                then reasonf "read() on test stdout expected '%s' but got '%s'"
                       [AStr (ct_stdout_string ctp); AStr buffer]
                else reasonf "read() on test stdout did not match" [])
        else None
    end
  else if negb (flag_set (ct_flags ctp) CT_FLAG_STDOUT_IGNORE) then
    match r with
    | inl buf =>
        if (0 <? String.length buf)%nat then
          Some (if negb (o_verbose o =? 0)
                then reasonf "read() on test stdout produced unexpected output '%s'"
                       [AStr (cstr (bytes_of buf))]
                else reasonf "read() on test stdout produced unexpected output" [])
        else None
    | inr _ => None
    end
  else None.

Definition show_output (ctp : cheri_test cap W) (r : string + Z) : list xo :=
  match r with
  | inr e => [XoAttr "message" (strerror e);
              XoAttr "type" (format (LC := LC) "%d" [AInt e]);
              XoEmit "{e:error/%s}" ["read() failed"]]
  | inl buf =>
      if (0 <? String.length buf)%nat then
        (if flag_set (ct_flags ctp) CT_FLAG_STDOUT_IGNORE
         then [XoAttr "ignored" "true"] else []) ++
        [XoEmit "{e:system-out/%s}" [cstr (bytes_of buf)]]
      else []
  end.
End Parent.

Section RunTest.
Context {cap W : Type} {CH : Cheri cap} {LC : Libc cap W} {RO : RunnerOS W}.
Context (g : config) (o : options).
Context (indet_flaky : option string) (indet_fd : Z).

Abbreviation eff_driver := (eff cap (driver cap W)).

(** The prologue: report the test and clear the shared page. *)
Definition announce (ctp : cheri_test cap W) : eff_driver unit :=
  emit [XoAttr "classname" (cfg_prog g +:+ "." +:+ ct_name ctp);
        XoAttr "name" (ct_desc ctp); XoOpen XoInstance "testcase"] ;;
  modify (set_ccs child_state_zero) ;;
  emit [XoEmit "TEST: {d:name/%s}: {d:description/%s}
" [ct_name ctp; ct_desc ctp]].

Definition skip_test (ctp : cheri_test cap W) (skip_reason : string)
    : eff_driver unit :=
  (if o_xml o
   then emit [XoAttr "message" skip_reason; XoEmit "{e:skipped/%s}" [EmptyString]]
   else emit [XoEmit "{d:status/%s}: {d:name/%s}: {d:skip-reason/%s}
" ["SKIP"; ct_name ctp; skip_reason]]) ;;
  tallyup (count_skipped (message (ct_name ctp) skip_reason)) ;;
  emit close_testcase.

Definition xfail_reason_of (ctp : cheri_test cap W) : option string :=
  match ct_check_xfail ctp with
  | Some f => f (ct_name ctp)
  | None => ct_xfail_reason ctp
  end.

(** Fill the pipe that becomes the standard input of the test; a reason to
    fail when that does not work. *)
Definition fill_stdin (ctp : cheri_test cap W) (fd : Z) : eff_driver (option string) :=
  if flag_set (ct_flags ctp) CT_FLAG_STDIN_STRING then
    let n := Z.of_nat (String.length (ct_stdin_string ctp)) in
    r ← dworld (os_write fd (ct_stdin_string ctp));
    match r with
    | inr e =>
        modify (set_derrno e) ;;
        mret (Some (reasonf (LC := LC) "write() on test stdin failed with -1 (%d)"
                      [AInt e]))
    | inl len =>
        if negb (len =? n) then
          mret (Some (reasonf (LC := LC)
                        "write() on test stdin expected %lu but got %ld"
                        [AInt n; AInt len]))
        else mret None
    end
  else mret None.

(** From fork(2) to waitpid(2): the child's status and its output. *)
Definition execute_child (ctp : cheri_test cap W) (fd_in fd_out : Z * Z)
    : eff_driver (wstatus * string) :=
  childpid ← dtry os_fork;
  st ← run_child g o ctp fd_in fd_out;
  dworld (fun w => (tt, os_close fd_out.2 (os_close fd_in.1 w))) ;;
  dtry (fun w => let '(r, w') := os_set_nonblock fd_out.1 w in
                 (match r with Some e => inr e | None => inl tt end, w')) ;;
  tallyup count_run ;;
  when (o_debugger_enabled o)
    (dworld (fun w => (tt, os_system
       (cut 256 (format (LC := LC) "gdb --pid=%d" [AInt childpid])) w))) ;;
  mret st.

(** The checks on the page [c], the status and the output, up to the label
    that they lead to. *)
Definition conclude (ctp : cheri_test cap W) (st : wstatus * string)
    (c : child_state cap) (fd_in1 fd_out0 : Z)
    (xfail_reason flaky_reason : option string) : eff_driver unit :=
  match analyse_status (LC := LC) g ctp st.1 c with
  | AFail reason true => fail_label o ctp fd_in1 fd_out0 reason None None
  | AFail reason false =>
      fail_label o ctp fd_in1 fd_out0 reason xfail_reason flaky_reason
  | APass => pass_label o ctp fd_in1 fd_out0 xfail_reason
  | AOutput =>
      r ← dworld (os_read fd_out0 st.2 (Z.of_nat TEST_BUFFER_LEN - 1));
      emit (show_output (LC := LC) ctp r) ;;
      match output_mismatch (LC := LC) o ctp r with
      | Some reason =>
          fail_label o ctp fd_in1 fd_out0 reason xfail_reason flaky_reason
      | None => pass_label o ctp fd_in1 fd_out0 xfail_reason
      end
  end.

(** Judge a child that has ended; the text of a declared failure is
    terminated first. *)
Definition judge (ctp : cheri_test cap W) (st : wstatus * string)
    (fd_in1 fd_out0 : Z) (xfail_reason flaky_reason : option string)
    : eff_driver unit :=
  c ← gets d_ccs;
  when (ccs_testresult c =? TESTRESULT_FAILURE)
    (modify (set_ccs (terminate_report c))) ;;
  conclude ctp st c fd_in1 fd_out0 xfail_reason flaky_reason.

(** The part of the function below the check for a skip. *)
Definition run_unskipped (ctp : cheri_test cap W) : eff_driver unit :=
  let xfail_reason := xfail_reason_of ctp in
  let flaky_reason := ct_flaky_reason ctp in
  when (bool_decide (is_Some xfail_reason)) (tallyup count_expected) ;;
  fd_in ← dtry os_pipe;
  fd_out ← dtry os_pipe;
  bad_stdin ← fill_stdin ctp fd_in.2;
  match bad_stdin with
  | Some reason =>
      fail_label o ctp fd_in.2 fd_out.1 reason xfail_reason flaky_reason
  | None =>
      st ← execute_child ctp fd_in fd_out;
      judge ctp st fd_in.2 fd_out.1 xfail_reason flaky_reason
  end.

Definition cheriostest_run_test (ctp : cheri_test cap W) : eff_driver unit :=
  announce ctp ;;
  match disallowed_prefix (ct_name ctp) with
  | Some p =>
      fail_label o ctp indet_fd indet_fd
        (reasonf (LC := LC) "test name begins with disallowed prefix '%s'" [AStr p])
        None indet_flaky
  | None =>
      if o_fast_tests_only o && flag_set (ct_flags ctp) CT_FLAG_SLOW
      then mret tt
      else
        skip ← match ct_check_skip ctp with
               | Some f => dworld (f (ct_name ctp))
               | None => mret None
               end;
        match skip with
        | Some skip_reason => skip_test ctp skip_reason
        | None => run_unskipped ctp
        end
  end.
End RunTest.

(** ** Specification: when a test counts as passed *)

Section Spec.
Context {cap W : Type} {CH : Cheri cap} {LC : Libc cap W} {RO : RunnerOS W}.
Context (g : config) (o : options).

Definition signal_as_expected (ctp : cheri_test cap W) (c : child_state cap)
    : Prop :=
  0 <= ccs_signum c /\
  (flag_set (ct_flags ctp) CT_FLAG_SIGNAL = true -> ccs_signum c = ct_signum ctp) /\
  (flag_set (ct_flags ctp) CT_FLAG_SI_CODE = true -> ccs_si_code c = ct_si_code ctp) /\
  (is_freebsd g = true -> flag_set (ct_flags ctp) CT_FLAG_SI_TRAPNO = true ->
   ccs_si_trapno c = ct_si_trapno ctp) /\
  (flag_set (ct_flags ctp) CT_FLAG_SI_ADDR = true ->
   cheri_ptr_equal_exact g (ccs_si_addr_expected c) (ccs_si_addr c) = true /\
   ccs_si_addr_expected_tag c = ccs_si_addr_tag c).

(** The child ended the way the test describes. *)
Definition status_accepted (ctp : cheri_test cap W) (st : wstatus)
    (c : child_state cap) : Prop :=
  ccs_testresult c <> TESTRESULT_FAILURE /\
  if flag_set (ct_flags ctp) CT_FLAG_SIGEXIT then st = WSignaled (ct_signum ctp)
  else
    (st = WExited 0 \/ st = WExited EX_SOFTWARE) /\
    signal_as_expected ctp c /\
    (flag_set (ct_flags ctp) CT_FLAG_SIGNAL = false ->
     ccs_signum c = 0 /\ ccs_testresult c = TESTRESULT_SUCCESS).

Definition output_accepted (ctp : cheri_test cap W) (r : string + Z) : Prop :=
  if flag_set (ct_flags ctp) CT_FLAG_STDOUT_STRING then
    exists buf, r = inl buf /\ cstr (bytes_of buf) = ct_stdout_string ctp
  else flag_set (ct_flags ctp) CT_FLAG_STDOUT_IGNORE = true \/
       forall buf, r = inl buf -> buf = EmptyString.

Definition accepted (ctp : cheri_test cap W) (st : wstatus) (c : child_state cap)
    (r : string + Z) : Prop :=
  status_accepted ctp st c /\
  (flag_set (ct_flags ctp) CT_FLAG_SIGEXIT = false -> output_accepted ctp r).

(** An error of the harness: the test body ended without a result. *)
Definition no_result (ctp : cheri_test cap W) (st : wstatus) (c : child_state cap)
    : Prop :=
  flag_set (ct_flags ctp) CT_FLAG_SIGEXIT = false /\
  flag_set (ct_flags ctp) CT_FLAG_SIGNAL = false /\
  (st = WExited 0 \/ st = WExited EX_SOFTWARE) /\
  signal_as_expected ctp c /\ ccs_signum c = 0 /\
  ccs_testresult c <> TESTRESULT_SUCCESS /\ ccs_testresult c <> TESTRESULT_FAILURE.

(** How the tally changes. *)
Definition file_pass (name : string) (xfail : option string)
    (warn : option string) (t : tally) : tally :=
  let t1 := match xfail with
            | Some r => count_xpassed (message name r) t
            | None => count_passed t
            end in
  match warn with Some m => add_warning (message name m) t1 | None => t1 end.

Definition file_fail (name reason : string) (xfail flaky : option string)
    (t : tally) : tally :=
  match xfail, flaky with
  | None, None => count_failed (message name reason) t
  | None, Some _ => count_xfailed (message name reason) (count_expected t)
  | Some _, _ => count_xfailed (message name reason) t
  end.

Definition warning_of (c : child_state cap) : option string :=
  if ccs_warn c
  then Some (cut VIS_LEN (strnvis (cstr (ccs_testresult_str c))))
  else None.

Lemma wpx_emit E l (Q : unit -> driver cap W -> Prop) d :
  wpx E (emit l) Q d <-> Q tt (log_xo l d).
Proof. done. Qed.

Lemma wpx_tallyup E f (Q : unit -> driver cap W -> Prop) d :
  wpx E (tallyup f) Q d <-> Q tt (on_tally f d).
Proof. done. Qed.

Lemma wpx_dworld E {A} (f : W -> A * W) (Q : A -> driver cap W -> Prop) d :
  wpx E (dworld f) Q d <-> Q (f (d_world d)).1 (set_dworld (f (d_world d)).2 d).
Proof. unfold wpx, dworld. by destruct (f (d_world d)). Qed.

Hint Rewrite @wpx_emit @wpx_tallyup @wpx_dworld : wp.

(** The three labels always return; [Q] below may look at everything they
    leave but the world. *)
Lemma wp_do_return (a b : Z) (Q : unit -> driver cap W -> Prop) d :
  (forall w, Q tt (set_dworld w (log_xo close_testcase d))) ->
  wp (do_return o a b) Q d.
Proof.
  intros HQ. unfold do_return. wp_simpl. case_match; wp_simpl; apply HQ.
Qed.

Lemma wp_pass_label ctp (a b : Z) (x : option string)
    (Q : unit -> driver cap W -> Prop) d :
  (forall w l, forallb xo_flat l = true ->
     Q tt (set_dworld w (log_xo (l ++ close_testcase)
     (on_tally (file_pass (ct_name ctp) x (warning_of (d_ccs d))) d)))) ->
  wp (pass_label o ctp a b x) Q d.
Proof.
  unfold pass_label, file_pass, warning_of. intros HQ.
  destruct x as [r|]; wp_simpl; destruct (ccs_warn (d_ccs d)); wp_simpl;
    apply wp_do_return; intros w; rewrite ?on_tally_log_xo, ?log_xo_log_xo,
      ?(assoc_L (++)); by apply HQ.
Qed.

Lemma wp_fail_label ctp (a b : Z) reason (x f : option string)
    (Q : unit -> driver cap W -> Prop) d :
  (forall w l, forallb xo_flat l = true ->
     Q tt (set_dworld w (log_xo (l ++ close_testcase) (on_tally
     (file_fail (ct_name ctp) (cut VIS_LEN (strnvis reason)) x f) d)))) ->
  wp (fail_label o ctp a b reason x f) Q d.
Proof.
  unfold fail_label, file_fail. intros HQ.
  destruct x as [r|], f as [f|]; wp_simpl; try destruct (o_xml o); wp_simpl;
    apply wp_do_return; intros w; rewrite ?on_tally_log_xo, ?log_xo_log_xo,
      ?(assoc_L (++)); by apply HQ.
Qed.

Lemma signal_mismatch_spec ctp (c : child_state cap) :
  signal_mismatch (LC := LC) g ctp c = None <-> signal_as_expected ctp c.
Proof.
  unfold signal_mismatch, signal_as_expected.
  destruct (ccs_signum c <? 0) eqn:H0; [split; [done|lia]|].
  destruct (flag_set (ct_flags ctp) CT_FLAG_SIGNAL && _) eqn:H1; [split; [done|]|].
  { intros (_ & Hs & _). apply andb_true_iff in H1 as [H1 H1'].
    apply Hs in H1. lia. }
  destruct (flag_set (ct_flags ctp) CT_FLAG_SI_CODE && _) eqn:H2; [split; [done|]|].
  { intros (_ & _ & Hs & _). apply andb_true_iff in H2 as [H2 H2'].
    apply Hs in H2. lia. }
  destruct (is_freebsd g && _ && _) eqn:H3; [split; [done|]|].
  { intros (_ & _ & _ & Hs & _). apply andb_true_iff in H3 as [H3 H3'].
    apply andb_true_iff in H3 as [H3 H4]. specialize (Hs H3 H4). lia. }
  destruct (flag_set (ct_flags ctp) CT_FLAG_SI_ADDR && _) eqn:H4; [split; [done|]|].
  { intros (_ & _ & _ & _ & Hs). apply andb_true_iff in H4 as [H4 H4'].
    apply Hs in H4 as [E1 E2].
    by rewrite E1, E2, eqb_reflx in H4'. }
  split; [intros _|done]. split_and!; [lia|..]; intros Hf; rewrite Hf in *; simpl in *.
  - lia.
  - lia.
  - intros Hf'. rewrite Hf' in *. simpl in *. lia.
  - apply orb_false_iff in H4 as [H5 H6]. rewrite negb_false_iff in H5, H6.
    by apply eqb_prop in H6.
Qed.

Lemma output_mismatch_spec ctp (r : string + Z) :
  output_mismatch (LC := LC) o ctp r = None <-> output_accepted ctp r.
Proof.
  unfold output_mismatch, output_accepted.
  destruct (flag_set (ct_flags ctp) CT_FLAG_STDOUT_STRING).
  - destruct r as [buf|e]; [|split; [done|by intros (? & ? & _)]].
    destruct (String.eqb_spec (cstr (bytes_of buf)) (ct_stdout_string ctp)) as [E|E];
      simpl; (split; [try done|]).
    + by exists buf.
    + done.
    + by intros (? & ? & ?); simplify_eq.
  - destruct (flag_set (ct_flags ctp) CT_FLAG_STDOUT_IGNORE); simpl.
    { split; [by left|done]. }
    destruct r as [[|ch buf]|e]; simpl.
    + split; [|done]. intros _. right. by intros buf [= <-].
    + split; [done|]. intros [?|Hb]; [done|]. by specialize (Hb _ eq_refl).
    + split; [|done]. intros _. by right.
Qed.

Lemma exited_ok_spec (st : wstatus) :
  match st with
  | WExited code => negb (code =? 0) && negb (code =? EX_SOFTWARE) = false
  | _ => False
  end <-> st = WExited 0 \/ st = WExited EX_SOFTWARE.
Proof.
  destruct st as [code| |]; (split; [|by intros [?|?]; simplify_eq]); try done.
  destruct (Z.eqb_spec code 0), (Z.eqb_spec code EX_SOFTWARE); subst; auto; done.
Qed.

(** The analysis of the page and the status decides [status_accepted], and
    tells apart the bodies that gave no result. *)
Lemma analyse_status_spec ctp (st : wstatus) (c : child_state cap) :
  match analyse_status (LC := LC) g ctp st c with
  | APass => status_accepted ctp st c /\ flag_set (ct_flags ctp) CT_FLAG_SIGEXIT = true
  | AOutput => status_accepted ctp st c /\ flag_set (ct_flags ctp) CT_FLAG_SIGEXIT = false
  | AFail _ true => ~ status_accepted ctp st c /\ no_result ctp st c
  | AFail _ false => ~ status_accepted ctp st c /\ ~ no_result ctp st c
  end.
Proof.
  unfold analyse_status, status_accepted, no_result.
  pose proof (signal_mismatch_spec ctp c) as Hsig.
  pose proof (exited_ok_spec st) as Hst.
  destruct (Z.eqb_spec (ccs_testresult c) TESTRESULT_FAILURE) as [E|E]; [naive_solver|].
  destruct (flag_set (ct_flags ctp) CT_FLAG_SIGEXIT).
  { destruct st as [code|sig|]; [naive_solver| |naive_solver].
    destruct (Z.eqb_spec sig (ct_signum ctp)); simpl; naive_solver. }
  destruct st as [code|sig|]; [|naive_solver..].
  destruct (negb (code =? 0) && _); [naive_solver|].
  destruct (signal_mismatch g ctp c); [naive_solver|].
  destruct (flag_set (ct_flags ctp) CT_FLAG_SIGNAL); simpl; [naive_solver|].
  destruct (Z.eqb_spec (ccs_signum c) 0); simpl; [|naive_solver].
  destruct (Z.eqb_spec (ccs_testresult c) TESTRESULT_UNKNOWN) as [E'|E'].
  { assert (ccs_testresult c <> TESTRESULT_SUCCESS) by (rewrite E'; done).
    naive_solver. }
  destruct (Z.eqb_spec (ccs_testresult c) TESTRESULT_SUCCESS); simpl; naive_solver.
Qed.
End Spec.

#[export] Hint Rewrite @wpx_emit @wpx_tallyup @wpx_dworld : wp.
