(* ===== verification/Toy.v ===== *)
(** * Toy: a concrete platform on which the witnesses run

    The capability machine is [scap]; the kernel's state is [unit] and no
    system call fails.  It shows that the hypotheses of the theorems can hold,
    and lets complete runs of the controller be computed. *)

From S2P Require Import Prelude Printf Cheri Harness Runner.

Definition toy_config : config :=
  Config Linux Aarch64 true false false false "cheriostest" "-purecap"
    "../libexec".

#[export] Instance toy_libc {W} : Libc scap W := {|
  strerror _ := "error";
  fmt_ptr _ c := "0x" +:+ utoa false 16 (cheri_address_get c);
  os_sigaction _ _ := None;
  SIGALRM := 14; SIGPROT := 34; SIGSEGV := 11; SIGBUS := 7; SIGEMT := 0;
  SIGTRAP := 5;
|}.

#[export] Instance toy_os {W} : RunnerOS W := {|
  os_pipe w := (inl (3, 4), w);
  os_write _ s w := (inl (Z.of_nat (String.length s)), w);
  os_read _ out n w := (inl (String.substring 0 (Z.to_nat n) out), w);
  os_close _ w := w;
  os_dup2 _ _ w := (None, w);
  os_set_nonblock _ w := (None, w);
  os_fork w := (inl 42, w);
  os_system _ w := w;
  os_stop_self w := w;
  os_sleep _ w := w;
  os_set_qtrace := None;
  strnvis s := s;
|}.

Definition toy_driver : driver scap unit :=
  Driver tally0 child_state_zero [] 0 tt.

Definition toy_proc : proc scap unit :=
  Proc (Some child_state_zero) 0 ∅ "" "" 0 tt.

Lemma toy_shared : shared toy_proc.
Proof. by eexists. Qed.

(** An unsealed data capability over [\[base, base + len)] with address
    [base + off]. *)
Definition toy_cap (base len off perms : Z) : scap :=
  SCap true (base + off) base len perms (-1).
Definition toy_test (name : string) (body : test scap unit unit) :
    cheri_test scap unit := CHERIOSTEST name "a test" body.

Definition toy_run (t : cheri_test scap unit) : outcome scap unit * driver scap unit :=
  cheriostest_run_test toy_config options0 None 0 t toy_driver.

Example toy_run_success :
  let r := toy_run (toy_test "ok" cheriostest_success) in
  r.1 = Val tt /\ tests_passed (d_tally r.2) = 1.
Proof. vm_compute. done. Qed.

Example toy_run_failure :
  let r := toy_run (toy_test "bad" (cheriostest_failure_errx "no %d" [AInt 3])) in
  r.1 = Val tt /\ cheri_failed_tests (d_tally r.2) = ["bad: no 3"%string].
Proof. vm_compute. done. Qed.

Example toy_run_fault :
  let t := with_signal CT_FLAG_SIGNAL 11 0 0
             (toy_test "fault" (raise_fault (Siginfo 11 2 0 cap_null))) in
  tests_passed (d_tally (toy_run t).2) = 1.
Proof. vm_compute. done. Qed.
