(* ===== verification/StringTests.v ===== *)
(** * StringTests: memcpy(3) and memmove(3) on capabilities (cheriostest_string.c)

    The tests copy a structure that holds a capability between two patterns of
    bytes, at every alignment they care about.  The copy functions belong to
    the C library and the kernel: each test is a definition over the function
    it exercises, and the theorems say which functions it accepts. *)

From S2P Require Import Prelude Printf Cheri TagMem Harness Runner Toy.

(** ** The structure under copy *)

(** [struct Test]: [pad0], the capability [y], [pad1]. *)
Definition PAD0 : nat := 0.
Definition Y : nat := 32.
Definition PAD1 : nat := 48.
Definition SIZEOF_TEST : nat := 80.

(** A pointer into one of the two objects of a test: the source ([t1],
    [src_buffer]) or the destination ([t2], [dest_buffer]). *)
Inductive object := T1 | T2.
Record ptr := Ptr { ptr_object : object; ptr_off : nat }.

#[export] Instance object_eq_dec : EqDecision object.
Proof. solve_decision. Defined.
#[export] Instance ptr_eq_dec : EqDecision ptr.
Proof. solve_decision. Defined.

(** The two objects. *)
Record frame := Frame { fr_t1 : tmem; fr_t2 : tmem }.

(** [x] is never advanced. *)
Definition invalidate (n : nat) (t1 : tmem) : tmem :=
  fold_left (fun m _ => store_byte 0 0xa5 m) (seq 0 n) t1.

Definition invalidate_t2 (fr : frame) : frame :=
  Frame (fr_t1 fr) (invalidate SIZEOF_TEST (fr_t2 fr)).

Section Tests.
Context {cap W : Type} {CH : Cheri cap} {LC : Libc cap W} {CM : CapMem cap}.

(** A copy function: what it returns and the frame it leaves; it may fault. *)
Definition copier : Type := ptr -> ptr -> nat -> frame -> test cap W (ptr * frame).

Definition check (expected_y : cap) (t1 : tmem) (start end_ : nat)
    : test cap W unit :=
  let s := AInt (Z.of_nat start) in
  let e := AInt (Z.of_nat end_) in
  foreach (seq start (32 - start)) (fun i =>
    fail_if (negb (load_byte t1 (PAD0 + i) =? Z.of_nat i))
      "(start = %d, end %d) t1->pad0[%d] != %d"
      [s; e; AInt (Z.of_nat i); AInt (Z.of_nat i)]) ;;
  fail_if (negb (cheri_address_get (load_cap t1 Y) =? cheri_address_get expected_y))
    "(start = %d, end %d) t1->y != t1" [s; e] ;;
  fail_if (negb (cheri_tag_get (load_cap (cap := cap) t1 Y)))
    "(start = %d, end %d) t1->y is untagged" [s; e] ;;
  foreach (seq 0 end_) (fun i =>
    fail_if (negb (load_byte t1 (PAD1 + i) =? Z.of_nat i))
      "(start = %d, end %d) t1->pad1[%d] != %d"
      [s; e; AInt (Z.of_nat i); AInt (Z.of_nat i)]).

(** The first lines of each test: [t1] gets its pattern and the capability
    [cap_t2], a pointer to [t2]. *)
Definition fill_pads (t1 : tmem) : tmem :=
  fold_left (fun m i => store_byte (PAD1 + i) (Z.of_nat i)
                          (store_byte (PAD0 + i) (Z.of_nat i) m))
    (seq 0 32) t1.

Definition init_frame (cap_t2 : cap) (fr : frame) : frame :=
  Frame (store_cap Y cap_t2 (fill_pads (invalidate SIZEOF_TEST (fr_t1 fr))))
        (fr_t2 fr).

(** [cpy = copy(&t2[d], &t1[s], n); if (cpy != &t2[d]) fail(msg);] *)
Definition copied (copy : copier) (d s n : nat) (msg : string)
    (ap : list (arg cap)) (fr : frame) : test cap W frame :=
  r ← copy (Ptr T2 d) (Ptr T1 s) n fr;
  fail_if (negb (bool_decide (r.1 = Ptr T2 d))) msg ap ;;
  mret r.2.

(** The same between [invalidate(&t2)] and [check(&t2, start, end)]. *)
Definition copy_and_check (copy : copier) (y : cap) (d s n : nat) (msg : string)
    (ap : list (arg cap)) (start end_ : nat) (fr : frame) : test cap W frame :=
  fr ← copied copy d s n msg ap (invalidate_t2 fr);
  check y (fr_t2 fr) start end_ ;;
  mret fr.

(** The checks after a copy whose source is one byte further than its
    destination. *)
Definition check_shifted (fr : frame) : test cap W unit :=
  fail_if (cheri_tag_get (load_cap (cap := cap) (fr_t2 fr) Y))
    "dst has capability after unaligned write" [] ;;
  foreach (seq 0 31) (fun i =>
    fail_if (negb (load_byte (fr_t2 fr) (PAD0 + i) =? Z.of_nat i + 1))
      "t2.pad0[%d] != %d" [AInt (Z.of_nat i); AInt (Z.of_nat i + 1)] ;;
    fail_if (negb (load_byte (fr_t2 fr) (PAD1 + i) =? Z.of_nat i + 1))
      "t2.pad1[%d] != %d" [AInt (Z.of_nat i); AInt (Z.of_nat i + 1)]).

(** *** Implicit capability copies *)

(** The common text of [string_memcpy] and [string_memmove]; [name] is the one
    that their messages have, [y] the pointer to [t2] that the source holds. *)
Definition string_copy (name : string) (copy : copier) (y : cap) (fr : frame) : test cap W unit :=
  let fr := init_frame y fr in
  let to_pad := name +:+ " did not return dst (&t2.pad0[3])" in
  fr ← copy_and_check copy y 0 0 SIZEOF_TEST "copy != &t2" [] 0 32 fr;
  fr ← copy_and_check copy y 3 3 (SIZEOF_TEST - 3) to_pad [] 3 32 fr;
  fr ← copy_and_check copy y 0 0 (SIZEOF_TEST - 3) "copy != &t2" [] 0 29 fr;
  fr ← copy_and_check copy y 3 3 (SIZEOF_TEST - 6) to_pad [] 3 29 fr;
  fr ← copied copy 0 1 (SIZEOF_TEST - 1) "copy != &t2" [] fr;
  check_shifted fr ;;
  cheriostest_success.

Definition string_memcpy (memcpy : copier) := string_copy "memcpy_c" memcpy.
Definition string_memmove (memmove : copier) := string_copy "memmove_c" memmove.

(** *** Explicit capability copies *)

(** The end shared by the four tests of explicit copies, from the different
    alignments on.  [CAP(t2.pad0 - 1)] advanced by [k] is the address of
    [t2.pad0[k - 1]]. *)
Definition string_copy_c_tail (name : string) (copy last : copier) (y : cap)
    (fr : frame) : test cap W unit :=
  fr ← copied copy 0 1 (SIZEOF_TEST - 1)
         (name +:+ " did not return dst (&t2)") [] (invalidate_t2 fr);
  check_shifted fr ;;
  fr ← copy_and_check copy y 3 3 (SIZEOF_TEST - 6)
         (name +:+ " did not return dst (&t2.pad0[3])") [] 3 29 fr;
  fr ← copy_and_check copy y 0 0 SIZEOF_TEST "(void*)cpy != &t2.pad0" [] 0 32 fr;
  fr ← copy_and_check last y 31 31 (SIZEOF_TEST - 31)
         "(void*)cpy != t2.pad0+31" [] 31 32 fr;
  cheriostest_success.

Definition string_copy_c (name : string) (copy last : copier) (y : cap)
    (fr : frame) : test cap W unit :=
  let fr := init_frame y fr in
  let to_t2 := name +:+ " did not return dst (&t2)" in
  let to_pad := name +:+ " did not return dst (&t2.pad0[3])" in
  fr ← copy_and_check copy y 0 0 SIZEOF_TEST to_t2 [] 0 32 fr;
  fr ← copy_and_check copy y 3 3 (SIZEOF_TEST - 3) to_pad [] 3 32 fr;
  fr ← copy_and_check copy y 0 0 (SIZEOF_TEST - 3) to_t2 [] 0 29 fr;
  fr ← copy_and_check copy y 3 3 (SIZEOF_TEST - 6) to_pad [] 3 29 fr;
  string_copy_c_tail name copy last y fr.

(** The last copy of [string_memcpy_c] is a [memmove_c]. *)
Definition string_memcpy_c (memcpy_c memmove_c : copier) :=
  string_copy_c "memcpy_c" memcpy_c memmove_c.
Definition string_memmove_c (memmove_c : copier) :=
  string_copy_c "memmove_c" memmove_c memmove_c.

(** *** The kernel's copies: all alignments of the start and of the end *)

Definition kern_lengths : list (nat * nat) :=
  flat_map (fun head => map (pair head) (seq 0 32)) (seq 0 32).

(** A loop that threads the frame. *)
Fixpoint foreach_frame {A} (l : list A) (f : A -> frame -> test cap W frame)
    (fr : frame) : test cap W frame :=
  match l with
  | [] => mret fr
  | x :: l' => fr ← f x fr; foreach_frame l' f fr
  end.

Definition string_kern_copy (name : string) (check_source : bool) (copy : copier)
    (y : cap) (fr : frame) : test cap W unit :=
  let fr := init_frame y fr in
  when check_source (check y (fr_t1 fr) 0 32) ;;
  fr ← foreach_frame kern_lengths (fun '(hd, tl) =>
         let len := (SIZEOF_TEST - hd - (32 - tl))%nat in
         copy_and_check copy y hd hd len
           "kern_memcpy_c did not return dst (&t2.pad0[%zu])"
           [AInt (Z.of_nat hd)] hd tl) fr;
  string_copy_c_tail name copy copy y fr.

Definition string_kern_memcpy_c (kern_memcpy_c : copier) :=
  string_kern_copy "kern_memcpy_c" true kern_memcpy_c.
Definition string_kern_memmove_c (kern_memmove_c : copier) :=
  string_kern_copy "kern_memmove_c" false kern_memmove_c.

(** *** Copies to an unaligned buffer *)

Definition VERIFY_untagged (m : tmem) (k : nat) (text : string) : test cap W unit :=
  CHERIOSTEST_VERIFY (negb (cheri_tag_get (load_cap (cap := cap) m (Nat.mul k CAPSIZE)))) text.

(** [src_buffer] is [fr_t1], [dest_buffer] is [fr_t2]; [src_addr] and
    [dest_addr] are their addresses, [y] the address of [expected_y]. *)
Definition unaligned_capability_copy (copy : copier) (src_addr dest_addr : Z)
    (y : cap) (fr : frame) : test cap W unit :=
  CHERIOSTEST_VERIFY (builtin_is_aligned dest_addr 16)
    "__builtin_is_aligned((void*)dest_buffer, sizeof(void* __capability))" ;;
  CHERIOSTEST_VERIFY (builtin_is_aligned src_addr 16)
    "__builtin_is_aligned((void*)src_buffer, sizeof(void * __capability))" ;;
  let src := store_cap 16 (cheri_offset_set cap_null 0x4321)
               (store_cap 0 (cheri_offset_set cap_null 0x1234) (fr_t1 fr)) in
  VERIFY_untagged src 0 "!cheri_tag_get(src_buffer[0])" ;;
  VERIFY_untagged src 1 "!cheri_tag_get(src_buffer[1])" ;;
  r ← copy (Ptr T2 1) (Ptr T1 0) 32%nat (Frame src (fr_t2 fr));
  let src := store_cap 16 y (fr_t1 r.2) in
  VERIFY_untagged src 0 "!cheri_tag_get(src_buffer[0])" ;;
  CHERIOSTEST_VERIFY (cheri_tag_get (load_cap (cap := cap) src 16))
    "cheri_tag_get(src_buffer[1])" ;;
  r ← copy (Ptr T2 1) (Ptr T1 0) 32%nat (Frame src (fr_t2 r.2));
  VERIFY_untagged (fr_t2 r.2) 0
    "!cheri_tag_get(((void * __capability *)dest_buffer)[0])" ;;
  VERIFY_untagged (fr_t2 r.2) 1
    "!cheri_tag_get(((void * __capability *)dest_buffer)[1])" ;;
  cheriostest_success.

Definition unaligned_capability_copy_memcpy (cheriostest_memcpy : copier) :=
  unaligned_capability_copy cheriostest_memcpy.
Definition unaligned_capability_copy_memmove (cheriostest_memmove : copier) :=
  unaligned_capability_copy cheriostest_memmove.
End Tests.

(** ** What the tests check *)

Section Spec.
Context {cap W : Type} `{CL : CheriLaws cap} {LC : Libc cap W}.
Context `{CM : !CapMem cap, CML : !CapMemLaws cap}.

(** The copy [t] holds the data from [start] in [pad0] to [end_] in [pad1]. *)
Definition holds_pattern (y : cap) (t : tmem) (start end_ : nat) : Prop :=
  (forall i, (start <= i < 32)%nat -> load_byte t (PAD0 + i) = Z.of_nat i) /\
  cheri_address_get (load_cap t Y) = cheri_address_get y /\
  cheri_tag_get (load_cap (cap := cap) t Y) = true /\
  (forall i, (i < end_)%nat -> load_byte t (PAD1 + i) = Z.of_nat i).

Lemma Forall_seq_iff (P : nat -> Prop) j n :
  Forall P (seq j n) <-> forall i, (j <= i < j + n)%nat -> P i.
Proof. apply Forall_seq. Qed.

Lemma check_reflects y t start end_ :
  exists l, Checks (check (W := W) y t start end_) l /\
    (forallb chk_ok l = true <-> holds_pattern y t start end_).
Proof.
  eexists. split; [unfold check; apply _|].
  rewrite !forallb_app, !andb_true_iff, !forallb_concat_map, !Forall_seq_iff.
  unfold holds_pattern. cbn [forallb chk_ok].
  rewrite !andb_true_r, !negb_involutive, Z.eqb_eq.
  split.
  - intros (H0 & Ha & Ht & H1). split; [|split; [|split]]; [|done..|].
    + intros i Hi. specialize (H0 i ltac:(lia)). simpl in H0.
      rewrite andb_true_r, negb_involutive in H0. by apply Z.eqb_eq.
    + intros i Hi. specialize (H1 i ltac:(lia)). simpl in H1.
      rewrite andb_true_r, negb_involutive in H1. by apply Z.eqb_eq.
  - intros (H0 & Ha & Ht & H1). split; [|split; [|split]]; [|done..|]; intros i Hi;
      simpl; rewrite andb_true_r, negb_involutive; apply Z.eqb_eq;
      [apply H0|apply H1]; lia.
Qed.

(** [check] passes on exactly the copies that hold the pattern. *)
Lemma check_spec {B} y t start end_ (next : test cap W B) s :
  shared s ->
  succeeds (check y t start end_ ;; next) s
  <-> holds_pattern y t start end_ /\ succeeds next s.
Proof.
  intros Hs. destruct (check_reflects y t start end_) as (l & Hl & <-).
  by apply succeeds_checks.
Qed.

Lemma checks_pass m l (s : proc cap W) :
  Checks m l -> forallb chk_ok l = true -> m s = (Val tt, s).
Proof.
  intros Hm Hl. rewrite (Hm s). by apply run_checks_pass, first_failure_None.
Qed.

Lemma check_pass y t start end_ (s : proc cap W) :
  holds_pattern y t start end_ -> check y t start end_ s = (Val tt, s).
Proof.
  intros Hp. destruct (check_reflects y t start end_) as (l & Hl & Hiff).
  by apply (checks_pass _ _ _ Hl), Hiff.
Qed.

(** *** A copy that keeps its promise *)

Definition object_of (o : object) (fr : frame) : tmem :=
  match o with T1 => fr_t1 fr | T2 => fr_t2 fr end.

Definition set_object (o : object) (m : tmem) (fr : frame) : frame :=
  match o with T1 => Frame m (fr_t2 fr) | T2 => Frame (fr_t1 fr) m end.

Definition frame_copy (d s : ptr) (n : nat) (fr : frame) : frame :=
  set_object (ptr_object d)
    (tagged_copy (ptr_off d) (ptr_off s) n (object_of (ptr_object s) fr)
       (object_of (ptr_object d) fr)) fr.

(** [copy] is a CHERI memcpy, on ranges inside its two objects. *)
Definition implements_copy (copy : copier (cap := cap) (W := W)) : Prop :=
  forall d s n fr p,
    (ptr_off s + n <= length (tm_bytes (object_of (ptr_object s) fr)))%nat ->
    (ptr_off d + n <= length (tm_bytes (object_of (ptr_object d) fr)))%nat ->
    copy d s n fr p = (Val (d, frame_copy d s n fr), p).

(** The source holds the whole pattern, and its capability is the tagged
    [y]. *)
Definition source_ready (y : cap) (t : tmem) : Prop :=
  region SIZEOF_TEST t /\ load_cap t Y = y /\ holds_pattern y t 0 32.

Lemma region_invalidate n k m : region n m -> region n (invalidate k m).
Proof.
  unfold invalidate. generalize (seq 0 k). intros l. revert m.
  induction l as [|x l IH]; intros m Hm; simpl; [done|].
  by apply IH, region_store_byte.
Qed.

Lemma load_fill_pads_aux k : forall m, (k <= 32)%nat -> region SIZEOF_TEST m ->
  let m' := fold_left (fun m i => store_byte (PAD1 + i) (Z.of_nat i)
                          (store_byte (PAD0 + i) (Z.of_nat i) m)) (seq 0 k) m in
  region SIZEOF_TEST m' /\
  forall i, (i < k)%nat -> load_byte m' (PAD0 + i) = Z.of_nat i /\
                    load_byte m' (PAD1 + i) = Z.of_nat i.
Proof.
  induction k as [|k IH]; intros m Hk Hm; [by split; [|lia]|].
  rewrite seq_S, fold_left_app. simpl fold_left.
  destruct (IH m ltac:(lia) Hm) as [Hr Hl]. set (m1 := fold_left _ _ _) in *.
  assert (region SIZEOF_TEST (store_byte (PAD0 + k) (Z.of_nat k) m1)) as Hr1
    by (by apply region_store_byte).
  split; [by apply region_store_byte|]. intros i Hi.
  unfold PAD0, PAD1, SIZEOF_TEST in *.
  rewrite !(load_store_byte 80) by (done || lia).
  repeat case_decide; try (exfalso; lia); try (split; lia); apply Hl; lia.
Qed.

Lemma init_frame_ready y fr :
  cheri_tag_get y = true -> region SIZEOF_TEST (fr_t1 fr) ->
  source_ready y (fr_t1 (init_frame y fr)).
Proof.
  intros Hy Hr. unfold init_frame. simpl fr_t1.
  destruct (load_fill_pads_aux 32 (invalidate SIZEOF_TEST (fr_t1 fr)))
    as [Hr1 Hl]; [done|by apply region_invalidate|].
  fold (fill_pads (invalidate SIZEOF_TEST (fr_t1 fr))) in *.
  set (m := fill_pads _) in *. clearbody m.
  assert (load_cap (store_cap Y y m) Y = y) as Hc
    by (apply (load_store_cap SIZEOF_TEST); [done|unfold Y, SIZEOF_TEST; lia]).
  assert (forall i, (i < 32 \/ 48 <= i < 80)%nat ->
    load_byte (store_cap Y y m) i = load_byte m i) as Hb.
  { intros i Hi. unfold load_byte, store_cap. simpl. destruct Hr1 as [Hr1 _].
    rewrite lookup_overwrite_out; [done|..]; rewrite length_cap_bytes;
      unfold Y, SIZEOF_TEST in *; lia. }
  split; [apply region_store_cap; [unfold Y, SIZEOF_TEST; lia|done]|].
  split; [done|]. unfold holds_pattern. rewrite Hc.
  split; [|split; [done|split; [done|]]]; intros i Hi; rewrite Hb by
    (unfold PAD0, PAD1; lia); apply Hl; lia.
Qed.

(** The source is ready and the destination is a structure. *)
Definition ready (y : cap) (fr : frame) : Prop :=
  source_ready y (fr_t1 fr) /\ region SIZEOF_TEST (fr_t2 fr).

Lemma ready_invalidate y fr : ready y fr -> ready y (invalidate_t2 fr).
Proof. intros [H1 H2]. split; [done|]. by apply region_invalidate. Qed.

Lemma ready_init y fr :
  cheri_tag_get y = true -> region SIZEOF_TEST (fr_t1 fr) ->
  region SIZEOF_TEST (fr_t2 fr) -> ready y (init_frame y fr).
Proof. intros Hy H1 H2. split; [by apply init_frame_ready|done]. Qed.

Definition fits (d s n : nat) : Prop :=
  (d + n <= SIZEOF_TEST)%nat /\ (s + n <= SIZEOF_TEST)%nat.

Lemma ready_frame_copy y d s n fr :
  ready y fr -> fits d s n -> ready y (frame_copy (Ptr T2 d) (Ptr T1 s) n fr).
Proof.
  intros [[[H1 H1'] ?] H2] [Hd Hs]. split; [done|].
  apply region_tagged_copy; simpl; [done|by rewrite H1|done].
Qed.

Lemma copied_step copy y d s n msg ap fr (p : proc cap W) :
  implements_copy copy -> ready y fr -> fits d s n ->
  copied copy d s n msg ap fr p
  = (Val (frame_copy (Ptr T2 d) (Ptr T1 s) n fr), p).
Proof.
  intros Hc [[[H1 _] _] [H2 _]] [Hd Hs]. unfold copied.
  erewrite test_bind by (apply Hc; simpl; [by rewrite H1|by rewrite H2]).
  simpl. by rewrite bool_decide_eq_true_2.
Qed.

Lemma aligned_copy_holds y k e fr :
  ready y fr -> (k <= 32)%nat -> (e <= 32)%nat ->
  holds_pattern y
    (fr_t2 (frame_copy (Ptr T2 k) (Ptr T1 k) (SIZEOF_TEST - k - (32 - e)) fr)) k e.
Proof.
  intros [([H1 H1'] & Hy & (Hp0 & _ & Ht & Hp1)) H2] Hk He. simpl fr_t2.
  set (n := (SIZEOF_TEST - k - (32 - e))%nat).
  assert (n = 48 + e - k)%nat as Hn by (unfold n, SIZEOF_TEST; lia).
  clearbody n. unfold SIZEOF_TEST in *.
  assert (forall i, (k <= i < 48 + e)%nat ->
    load_byte (tagged_copy k k n (fr_t1 fr) (fr_t2 fr)) i = load_byte (fr_t1 fr) i) as Hb.
  { intros i Hi. rewrite (load_byte_tagged_copy 80) by (done || lia). f_equal. lia. }
  assert (load_cap (tagged_copy k k n (fr_t1 fr) (fr_t2 fr)) Y = y) as Hc.
  { rewrite <- Hy. change Y with (2 * CAPSIZE)%nat.
    rewrite (load_cap_tagged_copy 80) by (done || unfold CAPSIZE; lia).
    f_equal. lia. }
  unfold holds_pattern. rewrite Hc. rewrite Hy in Ht.
  split; [|split; [done|split; [done|]]]; intros i Hi; unfold PAD0, PAD1 in *;
    rewrite Hb by lia; [apply Hp0|apply Hp1]; lia.
Qed.

Lemma shifted_copy_pass y fr (p : proc cap W) :
  ready y fr ->
  check_shifted (cap := cap) (frame_copy (Ptr T2 0) (Ptr T1 1) (SIZEOF_TEST - 1) fr) p
  = (Val tt, p).
Proof.
  intros [([H1 H1'] & Hy & (Hp0 & _ & Ht & Hp1)) H2].
  eapply checks_pass; [unfold check_shifted; apply _|].
  rewrite forallb_app, andb_true_iff, forallb_concat_map, Forall_seq_iff. simpl fr_t2.
  set (m := tagged_copy _ _ _ _ _).
  assert (cheri_tag_get (load_cap (cap := cap) m Y) = false) as ->.
  { unfold load_cap. rewrite tag_cap_of_bytes. change (granule Y) with 2%nat.
    apply (misaligned_copy_tag 80); try done; unfold CAPSIZE, SIZEOF_TEST; lia. }
  assert (forall i, (i < 79)%nat -> load_byte m i = load_byte (fr_t1 fr) (S i)) as Hb.
  { intros i Hi. unfold m, SIZEOF_TEST in *.
    rewrite (load_byte_tagged_copy 80) by (done || lia). f_equal. lia. }
  split; [done|]. intros i Hi. simpl. unfold PAD0, PAD1, Y in *.
  rewrite !Hb by lia.
  specialize (Hp0 (S i) ltac:(lia)). specialize (Hp1 (S i) ltac:(lia)).
  replace (S (48 + i)) with (48 + S i)%nat by lia.
  simpl in *. rewrite Hp0, Hp1, !negb_involutive, andb_true_r, andb_true_iff, !Z.eqb_eq.
  lia.
Qed.

(** *** Acceptance *)

Lemma succeeds_step {A B} (P : A -> Prop) (m : test cap W A)
    (f : A -> test cap W B) (p : proc cap W) :
  (exists a, m p = (Val a, p) /\ P a) -> (forall a, P a -> succeeds (f a) p) ->
  succeeds (m ≫= f) p.
Proof. intros (a & Hm & Ha) Hf. rewrite (succeeds_bind _ _ _ _ _ Hm). by apply Hf. Qed.

Section Accept.
Context (copy : copier (cap := cap) (W := W)) (Hcopy : implements_copy copy).
Context (y : cap) (p : proc cap W).

Lemma copy_and_check_step k e n msg ap fr :
  ready y fr -> (k <= 32)%nat -> (e <= 32)%nat -> n = (SIZEOF_TEST - k - (32 - e))%nat ->
  exists fr', copy_and_check copy y k k n msg ap k e fr p = (Val fr', p) /\ ready y fr'.
Proof.
  intros Hr Hk He ->. unfold copy_and_check. apply ready_invalidate in Hr.
  assert (fits k k (SIZEOF_TEST - k - (32 - e))) as Hf
    by (unfold fits, SIZEOF_TEST; lia).
  eexists. erewrite test_bind by (by eapply copied_step).
  erewrite test_bind by (apply check_pass, aligned_copy_holds; done).
  split; [done|]. by apply ready_frame_copy.
Qed.

Lemma shifted_step msg ap fr :
  ready y fr ->
  exists fr', copied copy 0 1 (SIZEOF_TEST - 1) msg ap fr p = (Val fr', p) /\
    ready y fr' /\ check_shifted (cap := cap) fr' p = (Val tt, p).
Proof.
  intros Hr. assert (fits 0 1 (SIZEOF_TEST - 1)) as Hf by (unfold fits, SIZEOF_TEST; lia).
  eexists. split; [by eapply copied_step|]. split; [by apply ready_frame_copy|].
  by apply shifted_copy_pass with y.
Qed.

Lemma string_copy_c_tail_passes name fr :
  shared p -> ready y fr -> succeeds (string_copy_c_tail name copy copy y fr) p.
Proof.
  intros Hs Hr. unfold string_copy_c_tail. apply ready_invalidate in Hr.
  destruct (shifted_step (name +:+ " did not return dst (&t2)") [] _ Hr)
    as (fr1 & H1 & Hr1 & Hsh).
  rewrite (succeeds_bind _ _ _ _ _ H1), (succeeds_bind _ _ _ _ _ Hsh).
  eapply (succeeds_step (ready y));
    [apply copy_and_check_step; done || unfold SIZEOF_TEST; lia|]. intros fr2 Hr2.
  eapply (succeeds_step (ready y));
    [apply copy_and_check_step; done || unfold SIZEOF_TEST; lia|]. intros fr3 Hr3.
  eapply (succeeds_step (ready y));
    [apply copy_and_check_step; done || unfold SIZEOF_TEST; lia|]. intros fr4 Hr4.
  by apply succeeds_success.
Qed.

Lemma kern_lengths_step fr :
  ready y fr ->
  exists fr', foreach_frame kern_lengths (fun '(hd, tl) =>
    copy_and_check copy y hd hd (SIZEOF_TEST - hd - (32 - tl))
      "kern_memcpy_c did not return dst (&t2.pad0[%zu])" [AInt (Z.of_nat hd)] hd tl)
    fr p = (Val fr', p) /\ ready y fr'.
Proof.
  assert (Forall (fun x : nat * nat => x.1 < 32 /\ x.2 < 32)%nat kern_lengths) as Hl.
  { apply Forall_forall. intros [k e] Hin. unfold kern_lengths in Hin.
    apply list_elem_of_In, in_flat_map in Hin as (a & Ha%in_seq & Hin).
    apply in_map_iff in Hin as (b & [= -> ->] & Hb%in_seq). simpl. lia. }
  induction Hl as [|[k e] l [Hk He] Hl IH] in fr |- *; intros Hr; [by exists fr|].
  destruct (copy_and_check_step k e (SIZEOF_TEST - k - (32 - e))
    "kern_memcpy_c did not return dst (&t2.pad0[%zu])" [AInt (Z.of_nat k)] fr)
    as (fr1 & H1 & Hr1); try (done || (simpl in *; lia)).
  destruct (IH fr1 Hr1) as (fr2 & H2 & Hr2). exists fr2. split; [|done].
  simpl. by erewrite test_bind by exact H1.
Qed.
End Accept.

(** C13: a copy function that moves the bytes and keeps the tags of aligned
    capabilities, and clears the others, passes the six tests that exercise
    it, whatever the objects contained. *)
Theorem string_tests_accept_copy (copy : copier (cap := cap) (W := W)) (y : cap)
    (fr : frame) (p : proc cap W) :
  implements_copy copy -> cheri_tag_get y = true -> shared p ->
  region SIZEOF_TEST (fr_t1 fr) -> region SIZEOF_TEST (fr_t2 fr) ->
  succeeds (string_memcpy copy y fr) p /\ succeeds (string_memmove copy y fr) p /\
  succeeds (string_memcpy_c copy copy y fr) p /\
  succeeds (string_memmove_c copy y fr) p /\
  succeeds (string_kern_memcpy_c copy y fr) p /\
  succeeds (string_kern_memmove_c copy y fr) p.
Proof.
  intros Hc Hy Hs H1 H2. pose proof (ready_init y fr Hy H1 H2) as Hr.
  assert (forall fr, ready y fr -> succeeds (fr ← copied copy 0 1 (SIZEOF_TEST - 1)
    "copy != &t2" [] fr; check_shifted (cap := cap) fr ;; cheriostest_success (A := unit)) p)
    as Hend.
  { intros fr1 Hr1. destruct (shifted_step copy Hc y p "copy != &t2" [] fr1 Hr1)
      as (fr2 & Hm & Hr2 & Hsh).
    rewrite (succeeds_bind _ _ _ _ _ Hm), (succeeds_bind _ _ _ _ _ Hsh).
    by apply succeeds_success. }
  assert (forall name, succeeds (string_copy name copy y fr) p) as Himpl.
  { intros name. unfold string_copy. revert Hr. generalize (init_frame y fr). intros fr0 Hr.
    do 4 (eapply (succeeds_step (ready y));
      [apply copy_and_check_step; done || unfold SIZEOF_TEST; lia
      |clear dependent fr0; intros fr0 Hr]). by apply Hend. }
  assert (forall name, succeeds (string_copy_c name copy copy y fr) p) as Hexpl.
  { intros name. unfold string_copy_c. revert Hr. generalize (init_frame y fr).
    intros fr0 Hr.
    do 4 (eapply (succeeds_step (ready y));
      [apply copy_and_check_step; done || unfold SIZEOF_TEST; lia
      |clear dependent fr0; intros fr0 Hr]). by apply string_copy_c_tail_passes. }
  assert (forall name b, succeeds (string_kern_copy name b copy y fr) p) as Hkern.
  { intros name b. unfold string_kern_copy.
    assert (when b (check y (fr_t1 (init_frame y fr)) 0 32) p = (Val tt, p)) as Hw.
    { destruct b; [|done]. apply check_pass. by destruct Hr as [(? & ? & ?) _]. }
    rewrite (succeeds_bind _ _ _ _ _ Hw).
    eapply (succeeds_step (ready y)); [by apply kern_lengths_step|].
    intros fr1 Hr1. by apply string_copy_c_tail_passes. }
  exact (conj (Himpl _) (conj (Himpl _) (conj (Hexpl _) (conj (Hexpl _)
           (conj (Hkern _ _) (Hkern _ _)))))).
Qed.

(** *** What the implicit tests do not see *)

(** A copy function that does nothing when its destination is not the start of
    the structure. *)
Definition skip_unaligned (copy : copier (cap := cap) (W := W)) : copier :=
  fun d s n fr =>
    if (ptr_off d =? 0)%nat then copy d s n fr else mret (d, fr).

(** [invalidate] touches the first byte only. *)
Lemma load_byte_invalidate k m i :
  (0 < i)%nat -> load_byte (invalidate k m) i = load_byte m i.
Proof.
  intros Hi. unfold invalidate. generalize (seq 0 k). intros l. revert m.
  induction l as [|x l IH]; intros m; simpl; [done|]. rewrite IH.
  unfold load_byte; simpl. by rewrite list_lookup_insert_ne by lia.
Qed.

Lemma load_cap_invalidate k m i :
  (16 <= i)%nat -> load_cap (cap := cap) (invalidate k m) i = load_cap m i.
Proof.
  intros Hi. unfold invalidate. generalize (seq 0 k). intros l. revert m.
  induction l as [|x l IH]; intros m; simpl; [done|]. rewrite IH.
  unfold load_cap, load_tag. simpl. f_equal.
  - rewrite list_lookup_insert_ne; [done|]. change (granule 0) with 0%nat.
    intros Heq. symmetry in Heq. apply Nat.div_small_iff in Heq; unfold CAPSIZE in *; lia.
  - by rewrite drop_insert_lt by lia.
Qed.

Lemma holds_pattern_invalidate y t k start end_ :
  (0 < start)%nat -> holds_pattern y t 0 end_ ->
  holds_pattern y (invalidate k t) start end_.
Proof.
  intros Hst (H0 & Ha & Ht & H1). unfold holds_pattern.
  rewrite load_cap_invalidate by (unfold Y; lia).
  split; [|split; [done|split; [done|]]]; intros i Hi; unfold PAD0, PAD1 in *;
    rewrite load_byte_invalidate by lia; [apply H0|apply H1]; lia.
Qed.

Lemma skipped_step (copy : copier) y k n msg ap e fr (p : proc cap W) :
  (0 < k)%nat -> ready y fr -> holds_pattern y (fr_t2 fr) 0 e ->
  copy_and_check (skip_unaligned copy) y k k n msg ap k e fr p
  = (Val (invalidate_t2 fr), p).
Proof.
  intros Hk Hr Hp. unfold copy_and_check, copied.
  unfold skip_unaligned at 1. simpl ptr_off.
  rewrite (proj2 (Nat.eqb_neq k 0)) by lia.
  erewrite test_bind; [|erewrite test_bind by reflexivity; simpl;
    rewrite bool_decide_eq_true_2 by done; reflexivity].
  simpl. by erewrite test_bind by (apply check_pass, holds_pattern_invalidate; done).
Qed.

Lemma unskipped_step copy y e n msg ap fr (p : proc cap W) :
  implements_copy copy -> ready y fr -> (e <= 32)%nat ->
  n = (SIZEOF_TEST - (32 - e))%nat ->
  exists fr', copy_and_check (skip_unaligned copy) y 0 0 n msg ap 0 e fr p
    = (Val fr', p) /\ ready y fr' /\ holds_pattern y (fr_t2 fr') 0 e.
Proof.
  intros Hc Hr He ->. apply ready_invalidate in Hr.
  assert (fits 0 0 (SIZEOF_TEST - (32 - e))) as Hf
    by (unfold fits, SIZEOF_TEST; lia).
  eexists. unfold copy_and_check.
  erewrite test_bind by exact (copied_step copy y 0 0 _ msg ap _ p Hc Hr Hf).
  pose proof (aligned_copy_holds y 0 e _ Hr ltac:(lia) He) as Hp.
  rewrite Nat.sub_0_r in Hp.
  erewrite test_bind by (apply check_pass; exact Hp).
  split; [done|]. split; [by apply ready_frame_copy|done].
Qed.

(** C14: because [invalidate] never advances, the implicit tests also accept a
    memcpy(3) or memmove(3) that does nothing when the destination is not the
    start of the structure: what the preceding copy left satisfies the
    checks. *)
Theorem implicit_tests_accept_skip_unaligned (copy : copier (cap := cap) (W := W))
    (y : cap) (fr : frame) (p : proc cap W) :
  implements_copy copy -> cheri_tag_get y = true -> shared p ->
  region SIZEOF_TEST (fr_t1 fr) -> region SIZEOF_TEST (fr_t2 fr) ->
  succeeds (string_memcpy (skip_unaligned copy) y fr) p /\
  succeeds (string_memmove (skip_unaligned copy) y fr) p.
Proof.
  intros Hc Hy Hs H1 H2.
  assert (forall name, succeeds (string_copy name (skip_unaligned copy) y fr) p) as H; [|split; apply H].
  intros name. unfold string_copy. pose proof (ready_init y fr Hy H1 H2) as Hr.
  revert Hr. generalize (init_frame y fr). intros fr0 Hr.
  destruct (unskipped_step copy y 32 SIZEOF_TEST "copy != &t2" [] fr0 p)
    as (fr1 & Hm1 & Hr1 & Hp1); try done.
  rewrite (succeeds_bind _ _ _ _ _ Hm1).
  erewrite succeeds_bind by (apply skipped_step; [lia|exact Hr1|exact Hp1]).
  apply ready_invalidate in Hr1.
  destruct (unskipped_step copy y 29 (SIZEOF_TEST - 3) "copy != &t2" [] _ p Hc Hr1)
    as (fr2 & Hm2 & Hr2 & Hp2); [lia|done|].
  rewrite (succeeds_bind _ _ _ _ _ Hm2).
  erewrite succeeds_bind by (apply skipped_step; [lia|exact Hr2|exact Hp2]).
  apply ready_invalidate in Hr2.
  destruct (shifted_step copy Hc y p "copy != &t2" [] _ Hr2) as (fr3 & Hm3 & _ & Hsh).
  erewrite succeeds_bind by exact Hm3.
  rewrite (succeeds_bind _ _ _ _ _ Hsh). by apply succeeds_success.
Qed.

(** *** Unaligned destinations *)

(** A copy function that always returns its destination and leaves the source
    alone; what it writes is [move]. *)
Definition moves (copy : copier (cap := cap) (W := W))
    (move : frame -> tmem) : Prop :=
  forall n fr p, copy (Ptr T2 1) (Ptr T1 0) n fr p
                 = (Val (Ptr T2 1, Frame (fr_t1 fr) (move fr)), p).

(** The source buffer at the first and at the second copy. *)
Definition untagged_source (fr : frame) : tmem :=
  store_cap 16 (cheri_offset_set (cap_null (cap := cap)) 0x4321)
    (store_cap 0 (cheri_offset_set cap_null 0x1234) (fr_t1 fr)).

(** The destination when the test is over. *)
Definition final_destination (move : frame -> tmem) (y : cap) (fr : frame) : tmem :=
  let src := untagged_source fr in
  move (Frame (store_cap 16 y src) (move (Frame src (fr_t2 fr)))).

Lemma load_tag_store_cap i (c : cap) m k :
  (granule i < length (tm_tags m))%nat ->
  load_tag (store_cap i c m) k
  = if decide (granule i = k) then cheri_tag_get c else load_tag m k.
Proof.
  intros Hi. unfold load_tag; simpl. case_decide as E.
  - subst. by rewrite list_lookup_insert_eq.
  - by rewrite list_lookup_insert_ne.
Qed.

Lemma null_offset_untagged z :
  cheri_tag_get (cheri_offset_set (cap_null (cap := cap)) z) = false.
Proof. apply offset_set_tag, of_int_tag. Qed.

Lemma load_cap_tag m i :
  cheri_tag_get (load_cap (cap := cap) m i) = load_tag m (granule i).
Proof. apply tag_cap_of_bytes. Qed.

(** The tests of unaligned copies pass exactly when their two buffers are
    aligned and the second copy left no tag in the destination: the first copy,
    the bytes and the source are not examined. *)
Theorem unaligned_copy_verdict (copy : copier (cap := cap) (W := W))
    (move : frame -> tmem) (src_addr dest_addr : Z) (y : cap) (fr : frame)
    (p : proc cap W) :
  moves copy move -> cheri_tag_get y = true -> shared p ->
  region 32 (fr_t1 fr) ->
  let dest := final_destination move y fr in
  succeeds (unaligned_capability_copy copy src_addr dest_addr y fr) p
  <-> builtin_is_aligned dest_addr 16 = true /\
      builtin_is_aligned src_addr 16 = true /\
      load_tag dest 0 = false /\ load_tag dest 1 = false.
Proof.
  intros Hm Hy Hs [_ Ht] dest. unfold unaligned_capability_copy, VERIFY_untagged.
  change (granule (32 + CAPSIZE - 1)) with 2%nat in Ht.
  fold (untagged_source fr).
  assert (length (tm_tags (untagged_source fr)) = 2)%nat as Ht'
    by (simpl; by rewrite !length_insert).
  assert (load_tag (untagged_source fr) 0 = false /\
          load_tag (untagged_source fr) 1 = false) as [E0 E1].
  { unfold untagged_source.
    rewrite !load_tag_store_cap by (simpl; rewrite ?length_insert, Ht; vm_compute; lia).
    simpl. by rewrite !null_offset_untagged. }
  set (src := untagged_source fr) in *.
  assert (load_tag (store_cap 16 y src) 0 = false /\
          load_tag (store_cap 16 y src) 1 = true) as [E2 E3].
  { rewrite !load_tag_store_cap by (rewrite Ht'; vm_compute; lia). done. }
  rewrite !(succeeds_checks _ _ _ _ _ Hs). cbn [forallb chk_ok].
  rewrite !load_cap_tag. change (granule (0 * CAPSIZE)) with 0%nat.
  change (granule (1 * CAPSIZE)) with 1%nat. rewrite E0, E1.
  rewrite (succeeds_bind _ _ _ _ _ (Hm _ _ _)). cbn [fr_t1 fr_t2].
  rewrite !(succeeds_checks _ _ _ _ _ Hs). cbn [forallb chk_ok snd].
  rewrite !load_cap_tag. cbn [fr_t1]. change (granule (0 * CAPSIZE)) with 0%nat.
  change (granule 16) with 1%nat. rewrite E2, E3.
  rewrite (succeeds_bind _ _ _ _ _ (Hm _ _ _)). cbn [snd fr_t1 fr_t2].
  rewrite !(succeeds_checks _ _ _ _ _ Hs). cbn [forallb chk_ok].
  rewrite !load_cap_tag. change (granule (0 * CAPSIZE)) with 0%nat.
  change (granule (1 * CAPSIZE)) with 1%nat.
  change (move (Frame (store_cap 16 y src) (move (Frame src (fr_t2 fr))))) with dest.
  pose proof (succeeds_success (A := unit) p Hs).
  rewrite !andb_true_r, !negb_true_iff. simpl. intuition.
Qed.
End Spec.

(** ** Concrete runs *)

(** A capability in memory: its fields, one to a byte. *)
#[export] Instance toy_mem : CapMem scap := {|
  cap_bytes c := [sc_addr c; sc_base c; sc_len c; sc_perms c; sc_type c] ++
                 replicate 11 0;
  cap_of_bytes t bs :=
    SCap t (default 0 (bs !! 0%nat)) (default 0 (bs !! 1%nat))
      (default 0 (bs !! 2%nat)) (default 0 (bs !! 3%nat)) (default 0 (bs !! 4%nat));
|}.

#[export] Instance toy_mem_laws : CapMemLaws scap.
Proof. split; [done|by intros []|done]. Qed.

Definition toy_copy : copier (cap := scap) (W := unit) := fun d s n fr =>
  mret (d, frame_copy d s n fr).

Definition toy_frame : frame :=
  Frame (TMem (replicate 80 7) (replicate 5 true))
        (TMem (replicate 80 9) (replicate 5 true)).

Lemma string_tests_accept_copy_witness :
  let y := toy_cap 0x1000 80 0 0 in
  implements_copy toy_copy /\
  succeeds (string_memcpy toy_copy y toy_frame) toy_proc /\
  succeeds (string_memmove toy_copy y toy_frame) toy_proc /\
  succeeds (string_memcpy_c toy_copy toy_copy y toy_frame) toy_proc /\
  succeeds (string_memmove_c toy_copy y toy_frame) toy_proc /\
  succeeds (string_kern_memcpy_c toy_copy y toy_frame) toy_proc /\
  succeeds (string_kern_memmove_c toy_copy y toy_frame) toy_proc.
Proof.
  assert (implements_copy toy_copy) as H by done. split; [exact H|].
  apply (string_tests_accept_copy toy_copy (toy_cap 0x1000 80 0 0) toy_frame toy_proc);
    [exact H|reflexivity|exact toy_shared|split; reflexivity|split; reflexivity].
Defined.

Lemma implicit_tests_accept_skip_unaligned_witness :
  let y := toy_cap 0x1000 80 0 0 in
  ~ implements_copy (skip_unaligned toy_copy) /\
  succeeds (string_memcpy (skip_unaligned toy_copy) y toy_frame) toy_proc /\
  succeeds (string_memmove (skip_unaligned toy_copy) y toy_frame) toy_proc.
Proof.
  split.
  - intros H. specialize (H (Ptr T2 3) (Ptr T1 3) 1%nat toy_frame toy_proc).
    specialize (H ltac:(vm_compute; lia) ltac:(vm_compute; lia)). vm_compute in H.
    discriminate.
  - apply (implicit_tests_accept_skip_unaligned toy_copy (toy_cap 0x1000 80 0 0)
             toy_frame toy_proc);
      [done|reflexivity|exact toy_shared|split; reflexivity|split; reflexivity].
Defined.

Lemma unaligned_copy_verdict_witness :
  let y := toy_cap 0x1000 80 0 0 in
  let fr := Frame (TMem (replicate 32 0) (replicate 2 false))
                  (TMem (replicate 33 0) (replicate 3 false)) in
  let move fr := tagged_copy 1 0 32 (fr_t1 fr) (fr_t2 fr) in
  let copy d s (_ : nat) fr := mret (d, Frame (fr_t1 fr) (move fr)) in
  moves (W := unit) copy move /\
  succeeds (unaligned_capability_copy copy 0x100 0x200 y fr) toy_proc.
Proof.
  split; [done|].
  apply (unaligned_copy_verdict (W := unit)
    (fun d _ _ fr => mret (d, Frame (fr_t1 fr) (tagged_copy 1 0 32 (fr_t1 fr) (fr_t2 fr))))
    (fun fr => tagged_copy 1 0 32 (fr_t1 fr) (fr_t2 fr)) 0x100 0x200
    (toy_cap 0x1000 80 0 0)
    (Frame (TMem (replicate 32 0) (replicate 2 false))
           (TMem (replicate 33 0) (replicate 3 false))) toy_proc);
    [done|reflexivity|exact toy_shared|split; reflexivity|].
  vm_compute. done.
Defined.
