(* ===== verification/Registers.v ===== *)
(** * Registers: initial capability registers (cheriostest_registers.c)

    What a process finds in DDC, PCC, the stack pointer, a return address and
    Morello's restricted registers.  The registers and the constants of the
    kernel's headers are parameters. *)

From S2P Require Import Prelude Printf Cheri Harness Perms Toy.

(** The kernel's constants and the machine's registers. *)
Class InitRegs (cap W : Type) := {
  CHERI_CAP_USER_CODE_BASE : Z;
  CHERI_CAP_USER_CODE_LENGTH : Z;
  freebsd_user_data_base : Z;             (* CHERI_CAP_USER_DATA_BASE *)
  CHERI_CAP_USER_DATA_LENGTH : Z;
  CHERI_CAP_USER_DATA_OFFSET : Z;
  freebsd_maxssiz : Z;                    (* MAXSSIZ *)
  (* /proc/sys/vm/mmap_min_addr: no such file, or the number it starts with *)
  os_mmap_min_addr : W -> option (option Z);
  os_rlimit_stack : W -> option Z;        (* rlim_max of RLIMIT_STACK *)
  cheri_ddc_get : cap;
  cheri_pcc_get : cap;
  cheri_stack_get : cap;
  return_address : cap;                   (* __builtin_return_address(0) *)
  extract_return_addr : cap -> cap;
  rddc_el0 : cap;
  rcsp_el0 : cap;
  rctpidr_el0 : cap;
}.

Section Registers.
Context {cap W : Type} {CH : Cheri cap} {LC : Libc cap W} {HP : Perms}
  {IR : InitRegs cap W}.
Context (g : config).

Definition get_minuser_address : test cap W Z :=
  w ← gets p_world;
  match os_mmap_min_addr (cap := cap) w with
  | None => undef                                 (* fscanf on a null FILE *)
  | Some None => cheriostest_failure_errx "fscanf call failed" []
  | Some (Some minaddr) => mret minaddr
  end.

Definition get_max_stack_size : test cap W Z :=
  w ← gets p_world;
  match os_rlimit_stack (cap := cap) w with
  | None => cheriostest_failure_errx "getrlimit call failed" []
  | Some rlim_max => mret rlim_max
  end.

Definition CHERI_CAP_USER_DATA_BASE : test cap W Z :=
  if is_linux g then get_minuser_address
  else mret (freebsd_user_data_base (cap := cap) (W := W)).

Definition MAXSSIZ : test cap W Z :=
  if is_linux g then get_max_stack_size
  else mret (freebsd_maxssiz (cap := cap) (W := W)).

(** [if ((v & m) == 0) failure("perms %jx (<name> missing)", v)] *)
Definition perm_required (v m : Z) (name : string) : test cap W unit :=
  fail_if (Z.land v m =? 0) ("perms %jx (" +:+ name +:+ " missing)") [AInt v].

(** [if ((v & m) != 0) failure("perms %jx (<name> present)", v)] *)
Definition perm_forbidden (v m : Z) (name : string) : test cap W unit :=
  fail_if (negb (Z.land v m =? 0)) ("perms %jx (" +:+ name +:+ " present)") [AInt v].

Definition check_unsealed_type (msg : string) (c : cap) : test cap W unit :=
  when (HAS_CHERI_PERM_SEAL g)
    (fail_if (negb (cheri_type_get c =? CHERI_OTYPE_UNSEALED (cap := cap)))
       msg [AInt (cheri_type_get c); AInt (CHERI_OTYPE_UNSEALED (cap := cap))]).

Definition check_sealed_bit (c : cap) : test cap W unit :=
  fail_if (cheri_is_sealed c) "sealed %jx (expected 0)"
    [AInt (if cheri_is_sealed c then 1 else 0)].

Definition check_tag_bit (c : cap) : test cap W unit :=
  fail_if (negb (cheri_tag_get c)) "tag %jx (expected 1)" [AInt (tag_int c)].

(** [CHERIOSTEST_C18N_TESTS] without the benchmark ABI. *)
Definition restricted : bool := cfg_c18n g && negb (cfg_benchmark_abi g).

Definition without_syscall (expect : Z) : Z :=
  if restricted && negb (is_linux g)
  then Z.land expect (Z.lnot (default 0 CHERI_PERM_SYSCALL))
  else expect.

Definition expected_swperms : Z :=
  without_syscall
    (if is_freebsd g
     then Z.land (CHERITEST_CHERI_PERMS_SWALL g) (Z.lnot CHERI_PERM_SW_VMEM)
     else 0).

Definition expected_code_perms : Z :=
  let expect := without_syscall (CHERITEST_CHERI_PERMS_USERSPACE_CODE g) in
  if restricted && is_aarch64 g
  then Z.land expect (Z.lnot (mask PExecutive)) else expect.

(** Bounds of a code capability. *)
Definition check_code_bounds (c : cap) : test cap W unit :=
  if cfg_purecap g && negb (cfg_benchmark_abi g) then
    CHERIOSTEST_VERIFY2 (negb (cheri_base_get c =? 0))
      "code base should be nonzero" [] ;;
    let upper_bound :=
      cheri_representable_length (cap := cap) (u64 (cheri_address_get c + 0x1000000)) in
    CHERIOSTEST_VERIFY2 (cheri_length_get c <? upper_bound)
      "code length 0x%jx should be < than 0x%jx)"
      [AInt (cheri_length_get c); AInt upper_bound]
  else
    CHERIOSTEST_VERIFY2 (cheri_base_get c =? CHERI_CAP_USER_CODE_BASE (cap := cap) (W := W))
      "code base 0x%jx (expected 0x%jx)"
      [AInt (cheri_base_get c); AInt (CHERI_CAP_USER_CODE_BASE (cap := cap) (W := W))] ;;
    CHERIOSTEST_VERIFY2
      (cheri_length_get c =? CHERI_CAP_USER_CODE_LENGTH (cap := cap) (W := W))
      "code length 0x%jx should be 0x%jx"
      [AInt (cheri_length_get c);
       AInt (CHERI_CAP_USER_CODE_LENGTH (cap := cap) (W := W))].

Definition check_code_perms (v : Z) : test cap W unit :=
  perm_required v (mask PGlobal) "global" ;;
  perm_required v (mask PExecute) "execute" ;;
  perm_required v (mask PLoad) "load" ;;
  perm_forbidden v (mask PStore) "store" ;;
  when (HAS_CHERI_PERM_LOAD_STORE_CAP g)
    (perm_required v (mask PLoadCap) "loadcap" ;;
     perm_forbidden v (mask PStoreCap) "storecap") ;;
  when (HAS_CHERI_PERM_CAP g) (perm_required v (mask PCap) "cap") ;;
  perm_forbidden v (mask PStoreLocalCap) "store_local_cap" ;;
  when (HAS_CHERI_PERM_LOAD_MUTABLE g)
    (perm_required v (mask PLoadMutable) "load mutable") ;;
  when (HAS_CHERI_PERM_SEAL g)
    (perm_forbidden v (mask PSeal) "seal" ;;
     (if is_freebsd g then perm_required v (mask PInvoke) "invoke"
      else fail_if (Z.land v (mask PInvoke) =? 1) "perms %jx (invoke set)" [AInt v]) ;;
     perm_forbidden v (mask PUnseal) "unseal") ;;
  perm_forbidden v (mask PSystemRegs) "system_regs" ;;
  fail_if (negb (Z.land v (CHERITEST_CHERI_PERMS_SWALL g) =? expected_swperms))
    "swperms %jx (expected swperms %jx)"
    [AInt (Z.land v (CHERITEST_CHERI_PERMS_SWALL g)); AInt expected_swperms] ;;
  fail_if (negb (v =? expected_code_perms)) "perms %jx (expected %jx)"
    [AInt v; AInt expected_code_perms].

Definition check_initreg_code (c : cap) : test cap W unit :=
  check_code_bounds c ;;
  CHERIOSTEST_VERIFY (cheri_offset_get c =? 0) "cheri_offset_get(c) == 0" ;;
  check_unsealed_type "otype %jx (expected %jx)" c ;;
  check_sealed_bit c ;;
  check_tag_bit c ;;
  check_code_perms (cheri_perms_get c) ;;
  cheriostest_success.

(** Permissions of a data capability; [swall]: all software permissions. *)
Definition check_data_perms (v : Z) : test cap W unit :=
  perm_required v (mask PLoad) "load" ;;
  perm_required v (mask PStore) "store" ;;
  when (HAS_CHERI_PERM_LOAD_STORE_CAP g)
    (perm_required v (mask PLoadCap) "loadcap" ;;
     perm_required v (mask PStoreCap) "storecap") ;;
  when (HAS_CHERI_PERM_CAP g) (perm_required v (mask PCap) "cap").

Definition check_data_perms_tail (v : Z) : test cap W unit :=
  perm_required v (mask PStoreLocalCap) "store_local_cap" ;;
  when (HAS_CHERI_PERM_LOAD_MUTABLE g)
    (perm_required v (mask PLoadMutable) "load mutable") ;;
  when (HAS_CHERI_PERM_SEAL g)
    (perm_forbidden v (mask PSeal) "seal" ;;
     perm_required v (mask PInvoke) "invoke" ;;
     perm_forbidden v (mask PUnseal) "unseal") ;;
  perm_forbidden v (mask PSystemRegs) "system_regs".

(** Hybrid builds. *)
Definition check_initreg_data_full_addrspace (c : cap) : test cap W unit :=
  base ← CHERI_CAP_USER_DATA_BASE;
  fail_if (negb (cheri_base_get c =? base)) "base %jx (expected %jx)"
    [AInt (cheri_base_get c); AInt base] ;;
  fail_if (CHERI_CAP_USER_DATA_LENGTH (cap := cap) (W := W) <? cheri_length_get c)
    "length 0x%jx (expected <= 0x%jx)"
    [AInt (cheri_length_get c); AInt (CHERI_CAP_USER_DATA_LENGTH (cap := cap) (W := W))] ;;
  fail_if (negb (cheri_offset_get c =? CHERI_CAP_USER_DATA_OFFSET (cap := cap) (W := W)))
    "offset %jx (expected %jx)"
    [AInt (cheri_offset_get c); AInt (CHERI_CAP_USER_DATA_OFFSET (cap := cap) (W := W))] ;;
  check_unsealed_type "otype %jx (expected %jx)" c ;;
  let v := cheri_perms_get c in
  let expect := ors [CHERITEST_CHERI_CAP_USER_DATA_PERMS g; CHERI_PERM_SW_VMEM;
                     default 0 CHERI_PERM_SYSCALL] in
  fail_if (negb (v =? expect)) "perms %jx (expected %jx)" [AInt v; AInt expect] ;;
  perm_required v (mask PGlobal) "global" ;;
  perm_forbidden v (mask PExecute) "execute" ;;
  check_data_perms v ;;
  check_data_perms_tail v ;;
  fail_if (negb (Z.land v (CHERITEST_CHERI_PERMS_SWALL g)
                 =? CHERITEST_CHERI_PERMS_SWALL g))
    "swperms %jx (expected swperms %x)"
    [AInt (Z.land v (CHERITEST_CHERI_PERMS_SWALL g));
     AInt (CHERITEST_CHERI_PERMS_SWALL g)] ;;
  check_sealed_bit c ;;
  check_tag_bit c ;;
  cheriostest_success.

(** A pointer is compared with NULL by its address. *)
Definition initregs_default : test cap W unit :=
  let ddc := cheri_ddc_get (cap := cap) (W := W) in
  if cfg_purecap g then
    if cheri_address_get ddc =? 0 then cheriostest_success
    else cheriostest_failure_errx "Expected NULL $ddc but was %-#p" [APtr ddc]
  else check_initreg_data_full_addrspace ddc.

Definition CHERI_STACK_USE_MAX : Z := 256 * 1024.

Definition initregs_stack_user_perms : test cap W unit :=
  let v := cheri_perms_get (cheri_stack_get (cap := cap) (W := W)) in
  let sw := Z.land v (CHERITEST_CHERI_PERMS_SWALL g) in
  fail_if (negb (sw =? CHERITEST_CHERI_PERMS_SW_USERSPACE g))
    "swperms %jx (expected swperms %x)"
    [AInt sw; AInt (CHERITEST_CHERI_PERMS_SW_USERSPACE g)] ;;
  cheriostest_success.

Definition initregs_stack : test cap W unit :=
  let c := cheri_stack_get (cap := cap) (W := W) in
  base ← CHERI_CAP_USER_DATA_BASE;
  fail_if (cheri_base_get c =? base) "base 0x%jx (did not expect 0x%jx)"
    [AInt (cheri_base_get c); AInt base] ;;
  maxssiz ← MAXSSIZ;
  fail_if (maxssiz <? cheri_length_get c) "length 0x%jx (> MAXSSIZ 0x%jx)"
    [AInt (cheri_length_get c); AInt maxssiz] ;;
  let used := u64 (cheri_length_get c - cheri_offset_get c) in
  fail_if (CHERI_STACK_USE_MAX <? used)
    "offset more then 0x%jx from top (0x%jx)"
    [AInt CHERI_STACK_USE_MAX; AInt used] ;;
  check_unsealed_type "otype 0x%jx (expected 0x%jx)" c ;;
  let v := cheri_perms_get c in
  perm_forbidden v (mask PExecute) "execute" ;;
  check_data_perms v ;;
  perm_required v (mask PGlobal) "global" ;;
  check_data_perms_tail v ;;
  fail_if (negb (v =? CHERITEST_CHERI_CAP_USER_DATA_PERMS g)) "perms %jx (expected %jx)"
    [AInt v; AInt (CHERITEST_CHERI_CAP_USER_DATA_PERMS g)] ;;
  check_sealed_bit c ;;
  check_tag_bit c ;;
  cheriostest_success.

Definition initregs_returncap : test cap W unit :=
  let c := return_address (cap := cap) (W := W) in
  let v := cheri_perms_get c in
  CHERIOSTEST_VERIFY (cheri_tag_get c) "cheri_tag_get(c)" ;;
  CHERIOSTEST_VERIFY2 (Z.land v (mask PExecute) =? mask PExecute)
    "perms %jx (execute missing)" [AInt v] ;;
  CHERIOSTEST_VERIFY2 (Z.land v (mask PStore) =? 0) "perms %jx (store present)" [AInt v] ;;
  when (HAS_CHERI_PERM_LOAD_STORE_CAP g)
    (CHERIOSTEST_VERIFY2 (Z.land v (mask PStoreCap) =? 0)
       "perms %jx (storecap present)" [AInt v]) ;;
  when (HAS_CHERI_PERM_CAP g)
    (CHERIOSTEST_VERIFY2 (negb (Z.land v (mask PCap) =? 0))
       "perms %jx (cap missing)" [AInt v]) ;;
  CHERIOSTEST_VERIFY2 (Z.land v (mask PStoreLocalCap) =? 0)
    "perms %jx (store_local_cap present)" [AInt v] ;;
  CHERIOSTEST_VERIFY2 (cheri_type_get c =? CHERI_OTYPE_SENTRY (cap := cap))
    "otype %jx (expected %jx)"
    [AInt (cheri_type_get c); AInt (CHERI_OTYPE_SENTRY (cap := cap))] ;;
  cheriostest_check_cap_eq c (extract_return_addr (W := W) c)
    "c" "__builtin_extract_return_addr(c)" ;;
  cheriostest_success.

Definition initregs_pcc : test cap W unit :=
  check_initreg_code (cheri_offset_set (cheri_pcc_get (cap := cap) (W := W)) 0).

(** The three tests of Morello's restricted registers. *)
Definition initregs_restricted (c : cap) : test cap W unit :=
  cheriostest_check_cap_eq c cap_null "c" "NULL" ;;
  cheriostest_success.

Definition initregs_restricted_default := initregs_restricted (rddc_el0 (W := W)).
Definition initregs_restricted_stack := initregs_restricted (rcsp_el0 (W := W)).
Definition initregs_restricted_thread := initregs_restricted (rctpidr_el0 (W := W)).
End Registers.

(** ** Facts *)

Section PermFacts.
Context `{PL : PermLaws} (g : config).

(** The permissions of user code on CheriBSD for Morello. *)
Definition code_perm (p : perm) : bool :=
  match p with
  | PGlobal | PLoad | PLoadCap | PInvoke | PExecute | PExecutive | PLoadMutable => true
  | PSw i => negb (bool_decide (i = sw_vmem))
  | _ => false
  end.

Lemma bit_nonneg p : 0 <= bit p.
Proof. pose proof (bit_range p). lia. Qed.

Lemma testbit_syscall p :
  Z.testbit (default 0 CHERI_PERM_SYSCALL) (bit p)
  = match sw_syscall with Some i => bool_decide (p = PSw i) | None => false end.
Proof.
  unfold CHERI_PERM_SYSCALL. destruct sw_syscall as [i|]; simpl; [|apply Z.bits_0].
  rewrite testbit_mask. apply bool_decide_ext. naive_solver.
Qed.

Lemma testbit_sw_userspace p :
  sw_bits_agree g ->
  Z.testbit (CHERITEST_CHERI_PERMS_SW_USERSPACE g) (bit p)
  = is_sw p && negb (bool_decide (p = PSw sw_vmem)) &&
    match sw_syscall with Some i => negb (bool_decide (p = PSw i)) | None => true end.
Proof.
  intros Hg. unfold CHERITEST_CHERI_PERMS_SW_USERSPACE, CHERI_PERM_SYSCALL, CHERI_PERM_SW_VMEM.
  pose proof (bit_nonneg p) as Hp.
  assert (forall q, bool_decide (q = p) = bool_decide (p = q)) as Hsym
    by (intros q; apply bool_decide_ext; naive_solver).
  destruct sw_syscall as [i|];
    rewrite Z.land_spec, testbit_swall, Z.lnot_spec by done;
    rewrite ?Z.lor_spec, !testbit_mask, ?negb_orb, !Hsym, ?andb_assoc, ?andb_true_r;
    done.
Qed.

Lemma psw_eq i j : bool_decide (PSw i = PSw j) = bool_decide (i = j).
Proof. apply bool_decide_ext. naive_solver. Qed.

Lemma testbit_code_perms p :
  sw_bits_agree g -> is_aarch64 g = true ->
  Z.testbit (CHERITEST_CHERI_PERMS_USERSPACE_CODE g) (bit p) = code_perm p.
Proof.
  intros Hg Ha. unfold CHERITEST_CHERI_PERMS_USERSPACE_CODE. rewrite Ha.
  unfold CHERITEST_CHERI_PERMS_USERSPACE, CHERITEST_CHERI_PERMS_SW_USERSPACE_CODE.
  pose proof sw_syscall_not_vmem as Hne.
  pose proof (testbit_sw_userspace p Hg) as Hsw. pose proof (testbit_syscall p) as Hsys.
  unfold CHERI_PERM_SYSCALL in *.
  rewrite testbit_ors. cbn [existsb]. rewrite testbit_ors. cbn [existsb].
  rewrite !testbit_mask. destruct sw_syscall as [j|];
    rewrite ?Z.lor_spec, !Hsw; simpl default in Hsys; rewrite ?Hsys;
    (destruct p as [| | | | | | | | | | | | | |i]; try done; simpl).
  - rewrite !psw_eq. destruct (decide (i = j)) as [->|Hij].
    + rewrite (bool_decide_eq_true_2 (j = j)), (bool_decide_eq_false_2 (j = sw_vmem))
        by naive_solver. done.
    + rewrite (bool_decide_eq_false_2 (i = j)) by done.
      by destruct (bool_decide (i = sw_vmem)).
  - rewrite psw_eq. by destruct (bool_decide (i = sw_vmem)).
Qed.

(** *** Code permissions *)

Lemma testbit_without_syscall z p :
  is_freebsd g = true ->
  Z.testbit (without_syscall g z) (bit p)
  = Z.testbit z (bit p) &&
    negb (restricted g &&
          match sw_syscall with Some i => bool_decide (p = PSw i) | None => false end).
Proof.
  intros Hf. unfold without_syscall.
  assert (is_linux g = false) as ->
    by (unfold is_linux, is_freebsd in *; by destruct (cfg_os g)).
  rewrite andb_true_r. destruct (restricted g); simpl; [|by rewrite andb_true_r].
  pose proof (bit_nonneg p). rewrite Z.land_spec, Z.lnot_spec by done.
  by rewrite testbit_syscall.
Qed.

Lemma testbit_expected_code p :
  sw_bits_agree g -> is_aarch64 g = true -> is_freebsd g = true ->
  Z.testbit (expected_code_perms g) (bit p)
  = code_perm p &&
    negb (restricted g &&
          match sw_syscall with Some i => bool_decide (p = PSw i) | None => false end) &&
    negb (restricted g && bool_decide (p = PExecutive)).
Proof.
  intros Hg Ha Hf. unfold expected_code_perms. rewrite Ha, andb_true_r.
  rewrite <- (testbit_code_perms p Hg Ha), <- testbit_without_syscall by done.
  destruct (restricted g); simpl; [|by rewrite andb_true_r].
  pose proof (bit_nonneg p). rewrite Z.land_spec, Z.lnot_spec, testbit_mask by done.
  do 2 f_equal. apply bool_decide_ext. naive_solver.
Qed.

Lemma testbit_expected_sw i :
  sw_bits_agree g -> is_freebsd g = true ->
  Z.testbit (expected_swperms g) (bit (PSw i))
  = negb (bool_decide (i = sw_vmem)) &&
    negb (restricted g &&
          match sw_syscall with Some j => bool_decide (PSw i = PSw j) | None => false end).
Proof.
  intros Hg Hf. unfold expected_swperms. rewrite Hf, testbit_without_syscall by done.
  f_equal. pose proof (bit_nonneg (PSw i)).
  rewrite Z.land_spec, testbit_swall, Z.lnot_spec by done. simpl.
  unfold CHERI_PERM_SW_VMEM. rewrite testbit_mask. f_equal.
  apply bool_decide_ext. naive_solver.
Qed.

Lemma expected_swperms_masked :
  Z.land (expected_swperms g) (CHERITEST_CHERI_PERMS_SWALL g) = expected_swperms g.
Proof.
  unfold expected_swperms, without_syscall. set (S := CHERITEST_CHERI_PERMS_SWALL g).
  destruct (is_freebsd g), (restricted g && negb (is_linux g)); try done;
    apply Z.bits_inj'; intros n Hn; rewrite !Z.land_spec;
    destruct (Z.testbit S n); by rewrite ?andb_true_r, ?andb_false_r, ?andb_false_l.
Qed.

Lemma expected_sw_of_code :
  sw_bits_agree g -> is_aarch64 g = true -> is_freebsd g = true ->
  Z.land (expected_code_perms g) (CHERITEST_CHERI_PERMS_SWALL g) = expected_swperms g.
Proof.
  intros Hg Ha Hf. rewrite <- expected_swperms_masked. apply swall_ext; [done|].
  intros i. rewrite testbit_expected_code, testbit_expected_sw by done.
  simpl code_perm.
  rewrite (bool_decide_eq_false_2 (PSw i = PExecutive)) by done.
  by rewrite andb_false_r, andb_true_r.
Qed.
End PermFacts.

Section CodeFacts.
Context {cap W : Type} `{CL : CheriLaws cap} {LC : Libc cap W} `{PL : PermLaws}
  {IR : InitRegs cap W}.
Context (g : config).
Context (Hsw : sw_bits_agree g) (Harch : is_aarch64 g = true) (Hos : is_freebsd g = true).

Lemma aarch64_features :
  HAS_CHERI_PERM_LOAD_STORE_CAP g = true /\ HAS_CHERI_PERM_SEAL g = true /\
  HAS_CHERI_PERM_LOAD_MUTABLE g = true /\ HAS_CHERI_PERM_CAP g = false.
Proof.
  unfold HAS_CHERI_PERM_LOAD_STORE_CAP, HAS_CHERI_PERM_SEAL,
    HAS_CHERI_PERM_LOAD_MUTABLE, HAS_CHERI_PERM_CAP, is_zcheri.
  unfold is_aarch64 in *. apply bool_decide_eq_true in Harch. by rewrite Harch.
Qed.

(** The bits of the expected mask that the overt tests ask for or forbid. *)
Lemma overt_code_bits :
  let v := expected_code_perms g in
  Forall (fun p => Z.testbit v (bit p) = true)
    [PGlobal; PExecute; PLoad; PLoadCap; PLoadMutable; PInvoke] /\
  Forall (fun p => Z.testbit v (bit p) = false)
    [PStore; PStoreCap; PStoreLocalCap; PSeal; PUnseal; PSystemRegs].
Proof.
  intros v. split; rewrite !Forall_cons, Forall_nil; unfold v;
    rewrite !testbit_expected_code by done; simpl;
    destruct (restricted g), sw_syscall; done.
Qed.

(** On CheriBSD for Morello the tests of single permissions and of the software
    permissions follow from the comparison with the whole mask. *)
Lemma check_code_perms_reflects v :
  exists l, Checks (check_code_perms (W := W) g v) l /\
    (forallb chk_ok l = true <-> v = expected_code_perms g).
Proof.
  destruct aarch64_features as (F1 & F2 & F3 & F4).
  eexists. split; [unfold check_code_perms, perm_required, perm_forbidden; apply _|].
  rewrite F1, F2, F3, F4, Hos.
  cbn [app forallb chk_ok]. rewrite !land_mask, !negb_involutive, !andb_true_r.
  split.
  - intros Hall. rewrite !andb_true_iff in Hall. destruct_and!. by apply Z.eqb_eq.
  - intros ->. destruct overt_code_bits as [H1 H0].
    rewrite !Forall_cons in H1, H0. destruct_and!.
    rewrite expected_sw_of_code by done. rewrite !Z.eqb_refl.
    repeat match goal with E : Z.testbit _ _ = _ |- _ => rewrite E; clear E end. done.
Qed.

(** The capability of user code on CheriBSD for Morello. *)
Definition code_capability (c : cap) : Prop :=
  (if cfg_purecap g && negb (cfg_benchmark_abi g)
   then cheri_base_get c <> 0 /\
        cheri_length_get c <
          cheri_representable_length (cap := cap) (u64 (cheri_address_get c + 0x1000000))
   else cheri_base_get c = CHERI_CAP_USER_CODE_BASE (cap := cap) (W := W) /\
        cheri_length_get c = CHERI_CAP_USER_CODE_LENGTH (cap := cap) (W := W)) /\
  cheri_offset_get c = 0 /\ cheri_type_get c = CHERI_OTYPE_UNSEALED (cap := cap) /\
  cheri_is_sealed c = false /\ cheri_tag_get c = true /\
  cheri_perms_get c = expected_code_perms g.

(** C16: on CheriBSD for Morello, [check_initreg_code] accepts exactly the
    unsealed tagged capabilities with offset zero, the expected bounds and the
    expected permission mask; the tests of single permissions and of the
    software permissions are implied by the last comparison, so they never
    contradict it. *)
Theorem check_initreg_code_spec (c : cap) (s : proc cap W) :
  shared s -> succeeds (check_initreg_code g c) s <-> code_capability c.
Proof.
  intros Hs. destruct (check_code_perms_reflects (cheri_perms_get c)) as (l & Hl & Hiff).
  destruct aarch64_features as (_ & F2 & _).
  unfold check_initreg_code, check_code_bounds, check_unsealed_type,
    check_sealed_bit, check_tag_bit, code_capability. rewrite F2.
  rewrite (succeeds_checks _ _ _ s _ Hs), (succeeds_checks _ _ _ s _ Hs),
    (succeeds_checks _ _ _ s _ Hs), (succeeds_checks _ _ _ s _ Hs),
    (succeeds_checks _ _ _ s _ Hs), (succeeds_checks _ l _ s Hl Hs), Hiff.
  pose proof (succeeds_success (A := unit) s Hs).
  destruct (cfg_purecap g && negb (cfg_benchmark_abi g)); cbn [forallb app chk_ok];
    rewrite !andb_true_r, ?andb_true_iff, ?negb_involutive, ?negb_true_iff,
      ?Z.eqb_eq, ?Z.eqb_neq, ?Z.ltb_lt; tauto.
Qed.
End CodeFacts.

Section LinuxFacts.
Context {cap W : Type} `{CL : CheriLaws cap} {LC : Libc cap W} `{PL : PermLaws}
  {IR : InitRegs cap W}.
Context (g : config).

(** The last two comparisons, on every system. *)
Lemma check_code_perms_last v (s : proc cap W) {B} (next : test cap W B) :
  shared s -> succeeds (check_code_perms g v ;; next) s ->
  Z.land v (CHERITEST_CHERI_PERMS_SWALL g) = expected_swperms g /\
  v = expected_code_perms g.
Proof.
  intros Hs. unfold check_code_perms, perm_required, perm_forbidden.
  rewrite (succeeds_checks _ _ next s _ Hs), !forallb_app, !andb_true_iff.
  cbn [forallb chk_ok]. rewrite !andb_true_r, !negb_involutive, !Z.eqb_eq.
  intros [Hall _]. destruct_and!. done.
Qed.

(** On Linux for Morello, where CHERI_PERM_SYSCALL is not defined,
    [check_initreg_code] accepts no capability at all: it first asks for no
    software permission, and then for the mask of the headers, which has all
    of them but one. *)
Theorem check_initreg_code_linux_rejects (c : cap) (s : proc cap W) :
  sw_bits_agree g -> is_aarch64 g = true -> is_linux g = true ->
  sw_syscall = None -> shared s -> ~ succeeds (check_initreg_code g c) s.
Proof.
  intros Hsw Ha Hl Hsys Hs Hok. unfold check_initreg_code, check_code_bounds,
    check_unsealed_type, check_sealed_bit, check_tag_bit in Hok.
  rewrite (succeeds_checks _ _ _ s _ Hs), (succeeds_checks _ _ _ s _ Hs),
    (succeeds_checks _ _ _ s _ Hs), (succeeds_checks _ _ _ s _ Hs),
    (succeeds_checks _ _ _ s _ Hs) in Hok.
  destruct Hok as (_ & _ & _ & _ & _ & Hok).
  destruct (check_code_perms_last _ _ _ Hs Hok) as [H0 Hv]. rewrite Hv in H0.
  assert (is_freebsd g = false) as Hf
    by (unfold is_linux, is_freebsd in *; by destruct (cfg_os g)).
  unfold expected_swperms, expected_code_perms, without_syscall in H0.
  rewrite Hf, Hl, Ha, andb_false_r, andb_true_r in H0.
  assert (exists i, i <> sw_vmem) as [i Hi]
    by (destruct sw_vmem; [by exists SW1|by exists SW0|by exists SW0|by exists SW0]).
  apply (f_equal (fun z => Z.testbit z (bit (PSw i)))) in H0.
  pose proof (bit_nonneg (PSw i)).
  rewrite Z.bits_0, Z.land_spec, testbit_swall, andb_true_r in H0 by done.
  assert (Z.testbit (CHERITEST_CHERI_PERMS_USERSPACE_CODE g) (bit (PSw i)) = true) as Hbit.
  { rewrite testbit_code_perms by done. simpl. by rewrite bool_decide_eq_false_2. }
  destruct (restricted g); [|by rewrite Hbit in H0].
  rewrite Z.land_spec, Z.lnot_spec, testbit_mask, Hbit in H0 by done. done.
Qed.
End LinuxFacts.

(** ** Concrete runs *)

(** The bits of Morello; the permissions that it does not have come after. *)
#[export] Instance toy_perms : Perms := {|
  bit p := match p with
           | PGlobal => 0 | PExecutive => 1 | PSw i => 2 + sw_index i
           | PLoadMutable => 6 | PInvoke => 8 | PSystemRegs => 9
           | PUnseal => 10 | PSeal => 11 | PStoreLocalCap => 12 | PStoreCap => 13
           | PLoadCap => 14 | PExecute => 15 | PStore => 16 | PLoad => 17
           | PCap => 18
           end;
  sw_vmem := SW1;
  sw_syscall := Some SW0;
  CHERI_PERMS_USERSPACE_CODE := 0;
  CHERI_PERMS_USERSPACE_DATA := 0;
  CHERI_PERMS_USERSPACE_SEALCAP := 0;
  CHERI_OTYPE_BITS := 14;
  CHERI_OTYPE_USER_MIN := 4;
  CHERI_OTYPE_USER_MAX := 8191;
|}.

Definition toy_linux_perms : Perms :=
  {| bit := @bit toy_perms; sw_vmem := SW1; sw_syscall := None;
     CHERI_PERMS_USERSPACE_CODE := 0; CHERI_PERMS_USERSPACE_DATA := 0;
     CHERI_PERMS_USERSPACE_SEALCAP := 0; CHERI_OTYPE_BITS := 14;
     CHERI_OTYPE_USER_MIN := 4; CHERI_OTYPE_USER_MAX := 8191 |}.

Lemma toy_bits_range p : 0 <= @bit toy_perms p < 64.
Proof. destruct p as [| | | | | | | | | | | | | |[]]; simpl; lia. Qed.

Lemma toy_bits_inj p q : @bit toy_perms p = @bit toy_perms q -> p = q.
Proof.
  destruct p as [| | | | | | | | | | | | | |[]],
    q as [| | | | | | | | | | | | | |[]]; simpl; done.
Qed.

#[export] Instance toy_perm_laws : PermLaws (H := toy_perms).
Proof. split; [apply toy_bits_range|apply toy_bits_inj|done]. Qed.

Lemma toy_linux_perm_laws : PermLaws (H := toy_linux_perms).
Proof. split; [apply toy_bits_range|apply toy_bits_inj|done]. Qed.

Definition toy_freebsd : config :=
  Config FreeBSD Aarch64 true false false false "cheriostest" "-purecap" "../libexec".

(** The code capability of a CheriBSD program: [\[0x10000, 0x20000)]. *)
Definition toy_code_cap : scap :=
  SCap true 0x10000 0x10000 0x10000 (@expected_code_perms toy_perms toy_freebsd) (-1).

#[export] Instance toy_regs {W} : InitRegs scap W := {|
  CHERI_CAP_USER_CODE_BASE := 0;
  CHERI_CAP_USER_CODE_LENGTH := 2 ^ 47;
  freebsd_user_data_base := 0;
  CHERI_CAP_USER_DATA_LENGTH := 2 ^ 47;
  CHERI_CAP_USER_DATA_OFFSET := 0;
  freebsd_maxssiz := 2 ^ 30;
  os_mmap_min_addr _ := Some (Some 65536);
  os_rlimit_stack _ := Some (2 ^ 23);
  cheri_ddc_get := cap_null;
  cheri_pcc_get := toy_code_cap;
  cheri_stack_get := cap_null;
  return_address := toy_code_cap;
  extract_return_addr c := c;
  rddc_el0 := cap_null;
  rcsp_el0 := cap_null;
  rctpidr_el0 := cap_null;
|}.

Lemma sw_bits_agree_toy g :
  is_aarch64 g = true -> @sw_bits_agree toy_perms g /\ @sw_bits_agree toy_linux_perms g.
Proof.
  intros Ha. split; intros i; unfold CHERITEST_CHERI_PERM_SW; by rewrite Ha.
Qed.

Lemma check_initreg_code_spec_witness :
  shared toy_proc /\
  (succeeds (check_initreg_code (W := unit) toy_freebsd toy_code_cap) toy_proc
   <-> code_capability (W := unit) toy_freebsd toy_code_cap).
Proof.
  split; [exact toy_shared|].
  exact (check_initreg_code_spec toy_freebsd
    (proj1 (sw_bits_agree_toy toy_freebsd eq_refl)) eq_refl eq_refl
    toy_code_cap toy_proc toy_shared).
Defined.

Example toy_initregs_pcc : (initregs_pcc (W := unit) toy_freebsd toy_proc).1 = Exited 0.
Proof. vm_compute. done. Qed.

Lemma check_initreg_code_linux_rejects_witness :
  is_linux toy_config = true /\
  ~ succeeds (check_initreg_code (HP := toy_linux_perms) (W := unit)
                toy_config toy_code_cap) toy_proc.
Proof.
  split; [reflexivity|].
  exact (check_initreg_code_linux_rejects (PL := toy_linux_perm_laws) toy_config
    toy_code_cap toy_proc (proj2 (sw_bits_agree_toy toy_config eq_refl))
    eq_refl eq_refl eq_refl toy_shared).
Defined.
