(* ===== verification/Bounds.v ===== *)
(** * Bounds: bounds of stack, heap and global objects
    (cheriostest_bounds_stack.c, _heap.c, _globals.c, _globals_x.c)

    The compiler, the linker and malloc(3) choose the bounds of a pointer to an
    object: they are the parameter [Compiler].  The tests of one file have one
    body and differ in a row of a table. *)

From S2P Require Import Prelude Printf Cheri Harness Toy.

Inductive stack_kind := SStatic | SAlloca | SVla.

(** Pointers to objects. *)
Class Compiler (cap W : Type) := {
  stack_object : stack_kind -> Z -> cap;       (* a fresh object of that size *)
  global_object : string -> cap;               (* [(__cheri_tocap void * __capability)&g] *)
  global_pointer : string -> cap;              (* the initialised pointer [gp] *)
  global_address : string -> Z;                (* [(uintptr_t)&g] *)
  os_calloc : Z -> Z -> W -> (cap + Z) * W;    (* a pointer, or errno *)
  os_free : cap -> W -> W;
}.

(** ** The tables *)

(** A row of the stack tests: the end of the name, the words of the
    description, the size. *)
Record stack_row := SRow { sr_suffix : string; sr_what : string; sr_size : Z }.

Definition stack_rows_types : list stack_row :=
  [SRow "uint8" " on 8-bit" 1;
   SRow "uint16" " on 16-bit" 2;
   SRow "uint32" " 32-bit" 4;
   SRow "uint64" " on 64-bit" 8;
   SRow "cap" " on a capability" 16].

Definition stack_rows_16 : list stack_row :=
  [SRow "16" " on a 16-byte" 16;
   SRow "32" " on a 32-byte" 32;
   SRow "64" " on a 64-byte" 64;
   SRow "128" " on a 128-byte" 128;
   SRow "256" " on a 256-byte" 256;
   SRow "512" " on a 512-byte" 512].

Definition stack_rows_1024 : list stack_row :=
  [SRow "1024" " on a 1,024-byte" 1024;
   SRow "2048" " on a 2,048-byte" 2048;
   SRow "4096" " on a 4,096-byte" 4096;
   SRow "8192" " on a 8,192-byte" 8192;
   SRow "16384" " on a 16,384-byte" 16384;
   SRow "32768" " on a 32,768-byte" 32768].

Definition stack_rows_65536 : list stack_row :=
  [SRow "65536" " on a 65,536-byte" 65536;
   SRow "131072" " on a 131,072-byte" 131072;
   SRow "262144" " on a 262,144-byte" 262144;
   SRow "524288" " on a 524,288-byte" 524288;
   SRow "1048576" " on a 1,048,576-byte" 1048576].

Definition stack_rows : list stack_row :=
  stack_rows_types ++ stack_rows_16 ++ stack_rows_1024 ++ stack_rows_65536.

(** A global: the size of its type as declared in cheriostest_bounds_globals.c,
    the size of its definition (there, or in cheriostest_bounds_globals_x.c for
    the external ones), and the size that its test expects. *)
Record global := Global {
  gl_name : string;
  gl_desc : string;
  gl_declared : Z;
  gl_defined : Z;
  gl_tested : Z;
}.

(** The definitions of the other compilation unit. *)
Definition extern_definitions : list (string * Z) :=
  [("extern_global_uint8"%string, 1); ("extern_global_uint16"%string, 2); ("extern_global_uint32"%string, 4); ("extern_global_uint64"%string, 8); ("extern_global_array1"%string, 1); ("extern_global_array7"%string, 7); ("extern_global_array65537"%string, 65537); ("extern_global_array16"%string, 16); ("extern_global_array256"%string, 256); ("extern_global_array65536"%string, 65536)].

Definition defined_size (name : string) (declared : Z) : Z :=
  match find (fun x => String.eqb x.1 name) extern_definitions with
  | Some (_, size) => size
  | None => declared
  end.

(** [TEST_BOUNDS(test, desc)]: the size is that of the C type. *)
Definition c_sized (name desc : string) (declared : Z) : global :=
  Global name desc declared (defined_size name declared) declared.

(** [TEST_DYNAMIC_BOUNDS(test, type)]: the size is that of [type]. *)
Definition dynamic_sized (name type : string) (declared size : Z) : global :=
  Global name ("extern global " +:+ type +:+ " (dynamic size)") declared
    (defined_size name declared) size.

Definition globals_integers : list global :=
  [c_sized "global_static_uint8" "global static uint8_t" 1;
   c_sized "global_uint8" "global uint8_t" 1;
   c_sized "global_static_uint16" "static uint16_t" 2;
   c_sized "global_uint16" "global uint16_t" 2;
   c_sized "global_static_uint32" "global static uint32_t" 4;
   c_sized "global_uint32" "global uint32_t" 4;
   c_sized "global_static_uint64" "global static uint64_t" 8;
   c_sized "global_uint64" "global uint64_t" 8].

Definition globals_odd_arrays : list global :=
  [c_sized "global_static_uint8_array1" "global static uint8_t[1]" 1;
   c_sized "global_uint8_array1" "global uint8_t[1]" 1;
   c_sized "global_static_uint8_array3" "global static uint8_t[3]" 3;
   c_sized "global_uint8_array3" "global uint8_t[3]" 3;
   c_sized "global_static_uint8_array17" "global static uint_t[17]" 17;
   c_sized "global_uint8_array17" "global uint_t[17]" 17;
   c_sized "global_static_uint8_array65537" "global static uint8_t[65537]" 65537;
   c_sized "global_uint8_array65537" "global uint8_t[65537]" 65537].

Definition globals_power_arrays_small : list global :=
  [c_sized "global_static_uint8_array32" "global static uint8_t[32]" 32;
   c_sized "global_uint8_array32" "global uint8_t[32]" 32;
   c_sized "global_static_uint8_array64" "global static uint8_t[64]" 64;
   c_sized "global_uint8_array64" "global uint8_t[64]" 64;
   c_sized "global_static_uint8_array128" "global static uint8_t[128]" 128;
   c_sized "global_uint8_array128" "global uint8_t[128]" 128;
   c_sized "global_static_uint8_array256" "global static uint8_t[256]" 256;
   c_sized "global_uint8_array256" "global uint8_t[256]" 256;
   c_sized "global_static_uint8_array512" "global static uint8_t[512]" 512;
   c_sized "global_uint8_array512" "global uint8_t[512]" 512;
   c_sized "global_static_uint8_array1024" "global static uint8_t[1024]" 1024;
   c_sized "global_uint8_array1024" "global uint8_t[1024]" 1024].

Definition globals_power_arrays_large : list global :=
  [c_sized "global_static_uint8_array2048" "global static uint8_t[2048]" 2048;
   c_sized "global_uint8_array2048" "global uint8_t[2048]" 2048;
   c_sized "global_static_uint8_array4096" "global static uint8_t[4096]" 4096;
   c_sized "global_uint8_array4096" "global uint8_t[4096]" 4096;
   c_sized "global_static_uint8_array8192" "global uint8_t[8192]" 8192;
   c_sized "global_uint8_array8192" "global uint8_t[8192]" 8192;
   c_sized "global_static_uint8_array16384" "global static uint8_t[16384]" 16384;
   c_sized "global_uint8_array16384" "global uint8_t[16384]" 16384;
   c_sized "global_static_uint8_array32768" "global static uint8_t[32768]" 32768;
   c_sized "global_uint8_array32768" "global uint8_t[32768]" 32768;
   c_sized "global_static_uint8_array65536" "global static uint8_t[65536]" 65536;
   c_sized "global_uint8_array65536" "global uint8_t[65536]" 65536].

Definition globals_extern : list global :=
  [c_sized "extern_global_uint8" "extern global uint8_t (C size)" 1;
   c_sized "extern_global_uint32" "extern global uint32_t (C size)" 4;
   c_sized "extern_global_array7" "extern global uint8_t[7] (C size)" 7;
   c_sized "extern_global_array16" "extern global uint8_t[16] (C size)" 16;
   c_sized "extern_global_array65536" "extern global uint8_t[16] (C size)" 65536].

Definition globals_dynamic : list global :=
  [dynamic_sized "extern_global_uint16" "uint16_t" 1 2;
   dynamic_sized "extern_global_uint64" "uint64_t" 4 8;
   dynamic_sized "extern_global_array1" "uint8_t[1]" 2 1;
   dynamic_sized "extern_global_array65537" "uint8_t[65537]" 127 65537;
   dynamic_sized "extern_global_array256" "uint8_t[256]" 128 256].

Definition globals : list global :=
  globals_integers ++ globals_odd_arrays ++ globals_power_arrays_small ++
  globals_power_arrays_large ++ globals_extern ++ globals_dynamic.

Section Bounds.
Context {cap W : Type} {CH : Cheri cap} {LC : Libc cap W} {CO : Compiler cap W}.
Context (g : config).

(** ** Stack *)

Definition test_bounds_precise (c : cap) (expected_len : Z) : test cap W unit :=
  (if cfg_purecap g then cheriostest_check_cap_bounds_precise c expected_len
   else
     let len := cheri_length_get c in
     CHERIOSTEST_VERIFY2 (expected_len <=? len)
       "length (%jd) smaller than expected lower bound %jd: %#lp"
       [AInt len; AInt expected_len; APtr c]) ;;
  cheriostest_success.

Definition test_bounds_stack_alloca (len : Z) : test cap W unit :=
  test_bounds_precise (stack_object (W := W) SAlloca len) len.

Definition test_bounds_stack_vla (len : Z) : test cap W unit :=
  test_bounds_precise (stack_object (W := W) SVla len) len.

Definition test_bounds_stack_static (len : Z) : test cap W unit :=
  test_bounds_precise (stack_object (W := W) SStatic len) len.

(** The three tests of a row, in the order of the file. *)
Definition bounds_stack_row (r : stack_row) : list (cheri_test cap W) :=
  [CHERIOSTEST ("bounds_stack_static_" +:+ sr_suffix r)
     ("Check bounds" +:+ sr_what r +:+ " static stack allocation")
     (test_bounds_stack_static (sr_size r));
   CHERIOSTEST ("bounds_stack_alloca_" +:+ sr_suffix r)
     ("Check bounds" +:+ sr_what r +:+ " alloca stack allocation")
     (test_bounds_stack_alloca (sr_size r));
   CHERIOSTEST ("bounds_stack_vla_" +:+ sr_suffix r)
     ("Check bounds" +:+ sr_what r +:+ " VLA stack allocation")
     (test_bounds_stack_vla (sr_size r))].

Definition bounds_stack_tests : list (cheri_test cap W) :=
  flat_map bounds_stack_row stack_rows.

(** ** Heap *)

Definition calloc_sizes : list Z := [1; 2; 4; 8; 16; 32; 64; 128; 1024; 4096; 10000].

Definition bounds_calloc : test cap W unit :=
  foreach calloc_sizes (fun size =>
    w ← gets p_world;
    let '(r, w') := os_calloc (cap := cap) 1 size w in
    modify (set_world w') ;;
    match r with
    | inr e => modify (set_errno e) ;; cheriostest_failure_err "calloc failed" []
    | inl calloc_allocation =>
        fail_if (negb (cheri_offset_get calloc_allocation =? 0))
          "non-zero offset returned" [] ;;
        fail_if (cheri_length_get calloc_allocation <? size)
          "returned length too small" [] ;;
        modify (fun s => set_world (os_free calloc_allocation (p_world s)) s)
    end) ;;
  cheriostest_success.

(** ** Globals *)

Definition HAS_HYBRID_BOUNDS_GLOBALS : bool := is_aarch64 g && negb (cfg_purecap g).

Definition test_hybrid_cap_impl (c : cap) (ptr size : Z) : test cap W unit :=
  CHERIOSTEST_CHECK_EQ_LONG (cheri_address_get c) ptr
    "cheri_address_get(cap)" "(uintptr_t)ptr" ;;
  CHERIOSTEST_VERIFY (cheritest_cheri_is_address_inbounds c ptr)
    "cheritest_cheri_is_address_inbounds(cap, (uintptr_t)ptr)" ;;
  CHERIOSTEST_VERIFY (cheritest_cheri_is_address_inbounds c (u64 (ptr + size - 1)))
    "cheritest_cheri_is_address_inbounds(cap, (uintptr_t)ptr + size - 1)" ;;
  cheriostest_success.

Definition test_bounds_impl (allocation global_ptr : cap) (size : Z)
    : test cap W unit :=
  let allocation_offset := cheri_offset_get allocation in
  let allocation_len := cheri_length_get allocation in
  let pointer_offset := cheri_offset_get global_ptr in
  let pointer_len := cheri_length_get global_ptr in
  let rounded_size := cheri_representable_length (cap := cap) size in
  CHERIOSTEST_VERIFY (cheri_tag_get allocation) "cheri_tag_get(allocation)" ;;
  CHERIOSTEST_VERIFY (cheri_tag_get global_ptr) "cheri_tag_get(global_ptr)" ;;
  fail_if (negb (allocation_offset =? 0))
    "local pointer: non-zero offset (%ju)" [AInt allocation_offset] ;;
  fail_if (negb (allocation_len =? rounded_size))
    "local pointer: incorrect length (expected %ju, rounded from %ju, got %ju)"
    [AInt rounded_size; AInt size; AInt allocation_len] ;;
  fail_if (negb (pointer_offset =? 0))
    "global pointer: non-zero offset (%ju)" [AInt pointer_offset] ;;
  fail_if (negb (pointer_len =? rounded_size))
    "global pointer: incorrect length (expected %ju, rounded from %ju, got %ju)"
    [AInt rounded_size; AInt size; AInt pointer_len] ;;
  cheriostest_success.

Definition TEST_CAP_BOUNDS (gl : global) : cheri_test cap W :=
  CHERIOSTEST ("bounds_" +:+ gl_name gl) ("Check bounds on " +:+ gl_desc gl)
    (test_bounds_impl (global_object (W := W) (gl_name gl))
       (global_pointer (W := W) (gl_name gl)) (gl_tested gl)).

Definition TEST_HYBRID_CAP (gl : global) : cheri_test cap W :=
  CHERIOSTEST ("hybrid_cap_" +:+ gl_name gl)
    ("Check hybrid capability to " +:+ gl_desc gl)
    (test_hybrid_cap_impl (global_object (W := W) (gl_name gl))
       (global_address (cap := cap) (W := W) (gl_name gl)) (gl_tested gl)).

(** [TEST_BOUNDS] and [TEST_DYNAMIC_BOUNDS]: the tests that this build has. *)
Definition TEST_BOUNDS (gl : global) : list (cheri_test cap W) :=
  (if cfg_purecap g || HAS_HYBRID_BOUNDS_GLOBALS then [TEST_CAP_BOUNDS gl] else []) ++
  (if cfg_purecap g then [] else [TEST_HYBRID_CAP gl]).

Definition bounds_globals_tests : list (cheri_test cap W) :=
  flat_map TEST_BOUNDS globals.
End Bounds.

(** ** What the tests ask of the compiler and of the linker *)

Section Spec.
Context {cap W : Type} `{CL : CheriLaws cap} {LC : Libc cap W} {CO : Compiler cap W}.
Context (g : config).

(** A pointer with the bounds the stack tests ask for. *)
Definition precise (c : cap) (size : Z) : Prop :=
  if cfg_purecap g then cheri_offset_get c = 0 /\ cheri_length_get c = size
  else size <= cheri_length_get c.

Lemma test_bounds_precise_spec (c : cap) (len : Z) (s : proc cap W) :
  shared s -> succeeds (test_bounds_precise g c len) s <-> precise c len.
Proof.
  intros Hs. unfold test_bounds_precise, precise, cheriostest_check_cap_bounds_precise.
  pose proof (succeeds_success (A := unit) s Hs).
  destruct (cfg_purecap g); rewrite (succeeds_checks _ _ _ s _ Hs); cbn [forallb app chk_ok];
    rewrite !andb_true_r, ?andb_true_iff, ?Z.eqb_eq, ?Z.leb_le; tauto.
Qed.

(** All 66 stack tests pass exactly when, for each of the three ways of
    allocating and each of the 22 sizes of the tables, the pointer that the
    compiler makes has offset zero and the size as its length (a hybrid build
    only asks for a length that is large enough). *)
Theorem bounds_stack_verdict (s : proc cap W) :
  shared s ->
  Forall (fun t => succeeds (ct_func t) s) (bounds_stack_tests g) <->
  forall k r, r ∈ stack_rows -> precise (stack_object (W := W) k (sr_size r)) (sr_size r).
Proof.
  intros Hs. unfold bounds_stack_tests. rewrite Forall_flat_map, Forall_forall.
  split; intros H.
  - intros k r Hr. specialize (H r Hr). unfold bounds_stack_row in H.
    rewrite !Forall_cons in H. simpl in H. destruct H as (H1 & H2 & H3 & _).
    destruct k;
      [exact (proj1 (test_bounds_precise_spec _ _ s Hs) H1)
      |exact (proj1 (test_bounds_precise_spec _ _ s Hs) H2)
      |exact (proj1 (test_bounds_precise_spec _ _ s Hs) H3)].
  - intros r Hr. unfold bounds_stack_row. rewrite !Forall_cons. simpl.
    split; [|split; [|split; [|constructor]]];
      apply (proj2 (test_bounds_precise_spec _ _ s Hs)); apply H; exact Hr.
Qed.

(** *** Globals *)

(** A linker that bounds the pointers to a global by [size] of it. *)
Definition bounded_by (size : global -> Z) : Prop :=
  forall gl, gl ∈ globals ->
    let rounded := cheri_representable_length (cap := cap) (size gl) in
    Forall (fun c : cap => cheri_tag_get c = true /\ cheri_offset_get c = 0 /\
                     cheri_length_get c = rounded)
      [global_object (W := W) (gl_name gl); global_pointer (W := W) (gl_name gl)].

Lemma bounds_global_spec (size : global -> Z) gl (s : proc cap W) :
  bounded_by size -> gl ∈ globals -> shared s ->
  succeeds (ct_func (TEST_CAP_BOUNDS (W := W) gl)) s <->
  cheri_representable_length (cap := cap) (size gl)
  = cheri_representable_length (cap := cap) (gl_tested gl).
Proof.
  intros Hb Hgl Hs. specialize (Hb gl Hgl). simpl in Hb.
  rewrite !Forall_cons in Hb. destruct Hb as ((T1 & O1 & L1) & (T2 & O2 & L2) & _).
  simpl. unfold test_bounds_impl.
  rewrite !(succeeds_checks _ _ _ s _ Hs). cbn [forallb chk_ok].
  rewrite T1, T2, O1, O2, L1, L2, Z.eqb_refl. simpl.
  rewrite !andb_true_r, !negb_involutive, Z.eqb_eq.
  pose proof (succeeds_success (A := unit) s Hs). tauto.
Qed.

(** The size each test expects is the one of the definition. *)
Lemma tested_is_defined : Forall (fun gl => gl_tested gl = gl_defined gl) globals.
Proof. by apply (bool_decide_unpack _). Qed.

(** The globals whose declared type has not the size of the definition. *)
Definition misdeclared : list string :=
  ["extern_global_uint16"; "extern_global_uint64"; "extern_global_array1";
   "extern_global_array65537"; "extern_global_array256"]%string.

Lemma misdeclared_globals :
  Forall (fun gl => gl_declared gl = gl_tested gl <-> gl_name gl ∉ misdeclared) globals.
Proof. by apply (bool_decide_unpack _). Qed.

(** With a linker that bounds each global by its definition, all 50 tests
    of globals pass; with one that bounds it by the type declared in the file
    that takes the pointer, and where different sizes give different lengths,
    exactly the five external globals declared with a wrong type fail: these
    tests tell the two linkers apart. *)
Theorem bounds_globals_verdict (s : proc cap W) :
  shared s ->
  (bounded_by gl_defined ->
   Forall (fun gl => succeeds (ct_func (TEST_CAP_BOUNDS (W := W) gl)) s) globals) /\
  (bounded_by gl_declared ->
   (forall n m, cheri_representable_length (cap := cap) n
                = cheri_representable_length (cap := cap) m -> n = m) ->
   Forall (fun gl => succeeds (ct_func (TEST_CAP_BOUNDS (W := W) gl)) s
                     <-> gl_name gl ∉ misdeclared) globals).
Proof.
  intros Hs. split.
  - intros Hb. pose proof tested_is_defined as Ht. rewrite Forall_forall in Ht |- *.
    intros gl Hgl. rewrite (bounds_global_spec _ _ _ Hb Hgl Hs).
    by rewrite (Ht gl Hgl).
  - intros Hb Hinj. pose proof misdeclared_globals as Hm. rewrite Forall_forall in Hm |- *.
    intros gl Hgl. rewrite (bounds_global_spec _ _ _ Hb Hgl Hs), <- (Hm gl Hgl).
    split; [apply Hinj|by intros ->].
Qed.
End Spec.

(** ** A compiler whose pointers have exact bounds *)

Definition size_of_global (size : global -> Z) (name : string) : Z :=
  match find (fun gl => String.eqb (gl_name gl) name) globals with
  | Some gl => size gl
  | None => 0
  end.

Definition toy_compiler (size : global -> Z) : Compiler scap unit := {|
  stack_object _ n := toy_cap 0x1000 n 0 0;
  global_object n := toy_cap 0x1000 (size_of_global size n) 0 0;
  global_pointer n := toy_cap 0x1000 (size_of_global size n) 0 0;
  global_address n := 0x1000;
  os_calloc _ n w := (inl (toy_cap 0x1000 n 0 0), w);
  os_free _ w := w;
|}.

Lemma toy_bounded_by (size : global -> Z) :
  Forall (fun gl => 0 <= size gl < 2 ^ 64 /\ size_of_global size (gl_name gl) = size gl)
    globals ->
  bounded_by (cap := scap) (CO := toy_compiler size) size.
Proof.
  intros H gl Hgl. rewrite Forall_forall in H. destruct (H gl Hgl) as [Hr He].
  rewrite !Forall_cons. simpl. rewrite He, (wrapu_small 64 (size gl)) by exact Hr.
  repeat split; by constructor.
Qed.

Lemma bounds_stack_verdict_witness :
  shared toy_proc /\
  (Forall (fun t => succeeds (ct_func t) toy_proc)
     (bounds_stack_tests (CO := toy_compiler gl_defined) toy_config) <->
   forall k r, r ∈ stack_rows ->
     precise toy_config
       (stack_object (Compiler := toy_compiler gl_defined) k (sr_size r)) (sr_size r)).
Proof.
  split; [exact toy_shared|].
  exact (bounds_stack_verdict (CO := toy_compiler gl_defined) toy_config toy_proc toy_shared).
Defined.

Lemma bounds_globals_verdict_witness :
  bounded_by (cap := scap) (CO := toy_compiler gl_defined) gl_defined /\
  Forall (fun gl => succeeds
    (ct_func (TEST_CAP_BOUNDS (CO := toy_compiler gl_defined) gl)) toy_proc) globals /\
  Forall (fun gl => succeeds
      (ct_func (TEST_CAP_BOUNDS (CO := toy_compiler gl_declared) gl)) toy_proc
    <-> gl_name gl ∉ misdeclared) globals.
Proof.
  assert (forall size, Forall (fun gl => 0 <= size gl < 2 ^ 64 /\
    size_of_global size (gl_name gl) = size gl) globals ->
    bounded_by (cap := scap) (CO := toy_compiler size) size) as Hb by exact toy_bounded_by.
  assert (bounded_by (cap := scap) (CO := toy_compiler gl_defined) gl_defined) as H1
    by (apply Hb; by apply (bool_decide_unpack _)).
  assert (bounded_by (cap := scap) (CO := toy_compiler gl_declared) gl_declared) as H2
    by (apply Hb; by apply (bool_decide_unpack _)).
  split; [exact H1|]. split.
  - exact (proj1 (bounds_globals_verdict (CO := toy_compiler gl_defined) toy_proc
                    toy_shared) H1).
  - exact (proj2 (bounds_globals_verdict (CO := toy_compiler gl_declared) toy_proc
                    toy_shared) H2 (fun n m E => E)).
Defined.
