(* ===== verification/RunnerFacts.v ===== *)
(** * RunnerFacts: what the controller promises about one test

    The judgement of a finished child refines the specification [accepted] of
    Runner; every run of a test files exactly one result, and keeps the
    counters equal to the lengths of the lists they summarise; the report
    opens and closes its elements in pairs, the filter [-f] excepted. *)

From S2P Require Import Prelude Printf Cheri Harness Runner Toy.

(** ** The tally *)

Definition expect (x : option string) (t : tally) : tally :=
  if bool_decide (is_Some x) then count_expected t else t.

(** The results that a run can file. *)
Inductive tally_step (t : tally) : tally -> Prop :=
  | step_skip m : tally_step t (count_skipped m t)
  | step_bad_name name reason f : tally_step t (file_fail name reason None f t)
  | step_bad_stdin name reason x f :
      tally_step t (file_fail name reason x f (expect x t))
  | step_pass name x w : tally_step t (file_pass name x w (count_run (expect x t)))
  | step_fail name reason x f :
      tally_step t (file_fail name reason x f (count_run (expect x t)))
  | step_fatal name reason x :
      tally_step t (file_fail name reason None None (count_run (expect x t))).

(** The results filed so far. *)
Definition judged (t : tally) : Z :=
  tests_passed t + tests_failed t + tests_xfailed t + tests_xpassed t.
Definition filed (t : tally) : Z := judged t + tests_skipped t.

(** The counters agree with the lists that main prints; no test that ran is
    lost; every expected failure was announced. *)
Record consistent (t : tally) : Prop := {
  skipped_listed : tests_skipped t = Z.of_nat (length (cheri_skipped_tests t));
  failed_listed : tests_failed t = Z.of_nat (length (cheri_failed_tests t));
  xfailed_listed : tests_xfailed t = Z.of_nat (length (cheri_xfailed_tests t));
  xpassed_listed : tests_xpassed t = Z.of_nat (length (cheri_xpassed_tests t));
  passed_nonneg : 0 <= tests_passed t;
  run_judged : 0 <= tests_run t <= judged t;
  expected_announced : tests_xfailed t + tests_xpassed t <= expected_failures t;
}.

Lemma tally0_consistent : consistent tally0.
Proof. by split. Qed.

Lemma tally_step_consistent t t' : tally_step t t' -> consistent t -> consistent t'.
Proof.
  intros Hstep [? ? ? ? ? Hr ?]. unfold judged in *.
  destruct Hstep as [m|n r f|n r x f|n x w|n r x f|n r x];
    unfold file_fail, file_pass, expect;
    try destruct x as [x|]; try destruct f as [f|]; try destruct w as [w|];
    split; unfold judged; simpl; rewrite ?length_app; simpl; lia.
Qed.

Lemma tally_step_filed t t' : tally_step t t' -> filed t' = filed t + 1.
Proof.
  destruct 1 as [m|n r f|n r x f|n x w|n r x f|n r x];
    unfold file_fail, file_pass, expect, filed, judged;
    try destruct x as [x|]; try destruct f as [f|]; try destruct w as [w|];
    simpl; lia.
Qed.

(** ** The structure of the report *)

#[export] Instance xo_kind_eq_dec : EqDecision xo_kind.
Proof. solve_decision. Defined.

(** Run a trace on the stack of open elements; [None] when a close does not
    match the innermost open element. *)
Fixpoint xo_run (l : list xo) (st : list (xo_kind * string))
    : option (list (xo_kind * string)) :=
  match l with
  | [] => Some st
  | XoOpen k n :: l' => xo_run l' ((k, n) :: st)
  | XoClose k n :: l' =>
      match st with
      | e :: st' => if decide (e = (k, n)) then xo_run l' st' else None
      | [] => None
      end
  | _ :: l' => xo_run l' st
  end.

Lemma xo_run_app l1 l2 st : xo_run (l1 ++ l2) st = xo_run l1 st ≫= xo_run l2.
Proof.
  revert st. induction l1 as [|[] l1 IH]; intros st; simpl; try done.
  destruct st; [done|]. by case_decide.
Qed.

Lemma xo_run_flat l st : forallb xo_flat l = true -> xo_run l st = Some st.
Proof. induction l as [|[] l IH]; simpl; try done. Qed.

Section Facts.
Context {cap W : Type} {CH : Cheri cap} {LC : Libc cap W} {RO : RunnerOS W}.
Context (g : config) (o : options).
Context (indet_flaky : option string) (indet_fd : Z).

Abbreviation run_test := (cheriostest_run_test g o indet_flaky indet_fd).

(** What the judgement files, in the three cases. *)
Lemma judge_result (ctp : cheri_test cap W) (st : wstatus * string)
    (fd_in1 fd_out0 : Z) (x f : option string) (d : driver cap W) :
  let c := d_ccs d in
  let r := (os_read fd_out0 st.2 1023 (d_world d)).1 in
  wp (judge g o ctp st fd_in1 fd_out0 x f) (fun _ d' =>
    (accepted g ctp st.1 c r ->
     d_tally d' = file_pass (ct_name ctp) x (warning_of c) (d_tally d)) /\
    (no_result g ctp st.1 c ->
     exists reason,
       d_tally d' = file_fail (ct_name ctp) reason None None (d_tally d)) /\
    (~ accepted g ctp st.1 c r -> ~ no_result g ctp st.1 c ->
     exists reason,
       d_tally d' = file_fail (ct_name ctp) reason x f (d_tally d))) d.
Proof.
  intros c r. unfold judge. wp_simpl. fold c.
  pose proof (analyse_status_spec (LC := LC) g ctp st.1 c) as Ha.
  unfold accepted.
  destruct (Z.eqb_spec (ccs_testresult c) TESTRESULT_FAILURE) as [E|E];
    wp_simpl; unfold conclude.
  - (* declared a failure *)
    unfold analyse_status in *. rewrite E in *. simpl in *. destruct Ha as [Ha Hn].
    apply wp_fail_label. intros w l _. simpl. split_and!; [tauto|tauto|eauto].
  - destruct (analyse_status g ctp st.1 c) as [reason [|]| |] eqn:Hana;
      destruct Ha as [Ha Hn].
    + apply wp_fail_label. intros w l _. simpl. split_and!; [tauto|eauto|tauto].
    + apply wp_fail_label. intros w l _. simpl. split_and!; [tauto|tauto|eauto].
    + apply wp_pass_label. intros w l _. simpl. rewrite Hn.
      split_and!; [done| |by intros []]. intros (? & _). congruence.
    + assert (~ no_result g ctp st.1 c) as Hr
        by (unfold no_result, status_accepted in *; rewrite Hn in *; tauto).
      wp_simpl. change (Z.of_nat TEST_BUFFER_LEN - 1) with 1023. fold r.
      pose proof (output_mismatch_spec (LC := LC) o ctp r) as Ho.
      destruct (output_mismatch o ctp r).
      * apply wp_fail_label. intros w l _. simpl. split_and!; [|tauto|eauto].
        intros [_ H]. by apply Ho in H.
      * apply wp_pass_label. intros w l _. simpl. split_and!; [done|tauto|].
        intros []. split; [done|]. intros _. by apply Ho.
Qed.

(** C1: the judgement of a child that has ended.  The result is filed as
    passed (or as an unexpected pass) exactly when the page, the wait status
    and the output are what the test describes; a test that gave no result
    is filed as failed whatever it expects; every other child is filed as
    failed, or as an expected failure when the test is marked so. *)
Theorem judge_refines_accepted (ctp : cheri_test cap W) (st : wstatus * string)
    (fd_in1 fd_out0 : Z) (x f : option string) (d : driver cap W) :
  let c := d_ccs d in
  let r := (os_read fd_out0 st.2 1023 (d_world d)).1 in
  wp (judge g o ctp st fd_in1 fd_out0 x f) (fun _ d' =>
    (accepted g ctp st.1 c r ->
     d_tally d' = file_pass (ct_name ctp) x (warning_of c) (d_tally d)) /\
    (no_result g ctp st.1 c ->
     exists reason,
       d_tally d' = file_fail (ct_name ctp) reason None None (d_tally d)) /\
    (~ accepted g ctp st.1 c r -> ~ no_result g ctp st.1 c ->
     exists reason,
       d_tally d' = file_fail (ct_name ctp) reason x f (d_tally d))) d.
Proof. apply judge_result. Qed.

(** *** Frames: what the steps of a run leave alone *)
Definition frame (d d' : driver cap W) : Prop :=
  d_tally d' = d_tally d /\ d_xo d' = d_xo d.

Lemma wlp_dtry {A} (call : W -> (A + Z) * W) (Q : A -> driver cap W -> Prop) d :
  (forall a d', frame d d' -> Q a d') -> wlp (dtry call) Q d.
Proof.
  intros HQ. unfold dtry. wp_simpl. case_match; wp_simpl; [|done]. by apply HQ.
Qed.

Lemma wlp_fill_stdin (ctp : cheri_test cap W) fd Q (d : driver cap W) :
  (forall r d', frame d d' -> Q r d') -> wlp (fill_stdin ctp fd) Q d.
Proof.
  intros HQ. unfold fill_stdin. case_match; [|by apply HQ].
  wp_simpl. repeat case_match; wp_simpl; by apply HQ.
Qed.

Lemma wlp_run_child (ctp : cheri_test cap W) fi fo Q (d : driver cap W) :
  (forall r d', frame d d' -> Q r d') -> wlp (run_child g o ctp fi fo) Q d.
Proof.
  intros HQ. unfold wpx, run_child. repeat case_match; simplify_eq; try done.
  by apply HQ.
Qed.

Lemma wlp_execute_child (ctp : cheri_test cap W) fi fo Q (d : driver cap W) :
  (forall r d', d_tally d' = count_run (d_tally d) -> d_xo d' = d_xo d -> Q r d') ->
  wlp (execute_child g o ctp fi fo) Q d.
Proof.
  intros HQ. unfold execute_child. wp_simpl.
  apply wlp_dtry. intros pid d1 [Ht1 Hx1]. wp_simpl.
  apply wlp_run_child. intros st d2 [Ht2 Hx2]. wp_simpl.
  apply wlp_dtry. intros [] d3 [Ht3 Hx3]. wp_simpl. simpl in *.
  destruct (o_debugger_enabled o); wp_simpl; apply HQ; simpl; congruence.
Qed.

(** What a run that returns has filed and reported. *)
Definition closed_with (d : driver cap W) (P : tally -> Prop) (d' : driver cap W)
    : Prop :=
  P (d_tally d') /\ exists l, forallb xo_flat l = true /\
    d_xo d' = d_xo d ++ l ++ close_testcase.

Definition one_result (ctp : cheri_test cap W) (x f : option string)
    (d : driver cap W) (t : tally) : Prop :=
  (exists w, t = file_pass (ct_name ctp) x w (d_tally d)) \/
  (exists r, t = file_fail (ct_name ctp) r x f (d_tally d)) \/
  (exists r, t = file_fail (ct_name ctp) r None None (d_tally d)).

Lemma wp_conclude (ctp : cheri_test cap W) st c a b x f (d d1 : driver cap W) :
  frame d d1 ->
  wp (conclude g o ctp st c a b x f)
    (fun _ => closed_with d (one_result ctp x f d)) d1.
Proof.
  unfold conclude.
  intros [Ht Hx]. unfold closed_with, one_result.
  destruct (analyse_status g ctp st.1 c) as [reason [|]| |].
  - apply wp_fail_label. intros w l Hl. simpl. rewrite Ht, Hx. eauto 10.
  - apply wp_fail_label. intros w l Hl. simpl. rewrite Ht, Hx. eauto 10.
  - apply wp_pass_label. intros w l Hl. simpl. rewrite Ht, Hx. eauto 10.
  - wp_simpl. set (r := (os_read _ _ _ _).1). unfold one_result.
    assert (forallb xo_flat (show_output (LC := LC) ctp r) = true) as Hs.
    { unfold show_output. destruct r; [|done]. case_match; [|done]. by case_match. }
    destruct (output_mismatch o ctp r);
      [apply wp_fail_label|apply wp_pass_label]; intros w l Hl; simpl;
      rewrite Ht, Hx, <- (assoc_L (++)), (assoc_L (++) (show_output _ _));
      (split; [eauto|]); eexists; (split; [|done]); by rewrite forallb_app, Hs, Hl.
Qed.

Lemma wlp_judge (ctp : cheri_test cap W) st a b x f (d : driver cap W) :
  wlp (judge g o ctp st a b x f)
    (fun _ => closed_with d (one_result ctp x f d)) d.
Proof.
  apply wp_wlp. unfold judge. wp_simpl.
  destruct (ccs_testresult (d_ccs d) =? TESTRESULT_FAILURE); wp_simpl;
    by apply wp_conclude.
Qed.

(** [-f] leaves a slow test out, unless its name is refused first. *)
Definition filtered (ctp : cheri_test cap W) : bool :=
  o_fast_tests_only o && flag_set (ct_flags ctp) CT_FLAG_SLOW &&
  bool_decide (disallowed_prefix (ct_name ctp) = None).

Definition opening (ctp : cheri_test cap W) : list xo :=
  [XoAttr "classname" (cfg_prog g +:+ "." +:+ ct_name ctp);
   XoAttr "name" (ct_desc ctp); XoOpen XoInstance "testcase"] ++
  [XoEmit "TEST: {d:name/%s}: {d:description/%s}
" [ct_name ctp; ct_desc ctp]].

(** Everything that a run which returns does to the tally and to the report. *)
Definition run_post (ctp : cheri_test cap W) (d d' : driver cap W) : Prop :=
  exists l, d_xo d' = d_xo d ++ opening ctp ++ l /\
    if filtered ctp then l = [] /\ d_tally d' = d_tally d
    else tally_step (d_tally d) (d_tally d') /\
         exists m, forallb xo_flat m = true /\ l = m ++ close_testcase.

Lemma wlp_run_unskipped (ctp : cheri_test cap W) (d : driver cap W) :
  wlp (run_unskipped g o ctp) (fun _ => closed_with d (tally_step (d_tally d))) d.
Proof.
  unfold run_unskipped. wp_simpl.
  set (x := xfail_reason_of ctp).
  assert (forall d0 : driver cap W, d_xo d0 = d_xo d -> d_tally d0 = expect x (d_tally d) ->
    wlp (dtry os_pipe) (fun fi => wlp (fd_out ← dtry os_pipe;
      bad_stdin ← fill_stdin ctp fi.2;
      match bad_stdin with
      | Some reason => fail_label o ctp fi.2 fd_out.1 reason x (ct_flaky_reason ctp)
      | None => st ← execute_child g o ctp fi fd_out;
                judge g o ctp st fi.2 fd_out.1 x (ct_flaky_reason ctp)
      end) (fun _ => closed_with d (tally_step (d_tally d)))) d0) as Hgo.
  2: { unfold expect in Hgo. case_bool_decide; wp_simpl; by apply Hgo. }
  intros d0 Hx0 Ht0.
  apply wlp_dtry. intros fi d1 [Ht1 Hx1]. wp_simpl.
  apply wlp_dtry. intros fo d2 [Ht2 Hx2]. wp_simpl.
  apply wlp_fill_stdin. intros [reason|] d3 [Ht3 Hx3].
  - apply wp_wlp, wp_fail_label. intros w l Hl. unfold closed_with. simpl.
    rewrite Ht3, Ht2, Ht1, Ht0, Hx3, Hx2, Hx1, Hx0. split; [constructor|eauto].
  - wp_simpl. apply wlp_execute_child. intros st d4 Ht4 Hx4.
    eapply wpx_mono; [|apply wlp_judge]. intros [] d5. unfold closed_with, one_result.
    rewrite Ht4, Hx4, Ht3, Ht2, Ht1, Ht0, Hx3, Hx2, Hx1, Hx0.
    intros [[[w ->]|[[r ->]|[r ->]]] Hl]; (split; [constructor|done]).
Qed.

Lemma wlp_run_test (ctp : cheri_test cap W) (d : driver cap W) :
  wlp (run_test ctp) (fun _ => run_post ctp d) d.
Proof.
  unfold cheriostest_run_test, announce. wp_simpl.
  unfold run_post, filtered.
  destruct (disallowed_prefix (ct_name ctp)) as [p|] eqn:Hp.
  { rewrite bool_decide_eq_false_2 by done. rewrite andb_false_r.
    apply wp_wlp, wp_fail_label. intros w l Hl. simpl.
    exists (l ++ close_testcase). rewrite <- !(assoc_L (++)). split; [done|].
    split; [constructor|eauto]. }
  rewrite bool_decide_eq_true_2, andb_true_r by done.
  destruct (o_fast_tests_only o && flag_set (ct_flags ctp) CT_FLAG_SLOW).
  { wp_simpl. exists []. by rewrite <- !(assoc_L (++)). }
  wp_simpl.
  assert (forall r (d1 : driver cap W), d_tally d1 = d_tally d -> d_xo d1 = d_xo d ++ opening ctp ->
    wlp (match r with Some m => skip_test o ctp m | None => run_unskipped g o ctp end)
      (fun _ d' => exists l, d_xo d' = d_xo d ++ opening ctp ++ l /\
        tally_step (d_tally d) (d_tally d') /\
        exists m, forallb xo_flat m = true /\ l = m ++ close_testcase) d1) as Hgo.
  2: { destruct (ct_check_skip ctp); wp_simpl; [apply Hgo|apply (Hgo None)]; simpl;
         by rewrite <- ?(assoc_L (++)). }
  intros [m|] d1 Ht Hx.
  - unfold skip_test. wp_simpl. destruct (o_xml o); wp_simpl;
      rewrite Ht, Hx, <- !(assoc_L (++)); eexists; (split; [done|]);
      (split; [constructor|]); eexists; (split; [|done]); done.
  - eapply wpx_mono; [|apply wlp_run_unskipped]. intros [] d2.
    unfold closed_with. rewrite Ht, Hx. intros (Hs & l & Hl & ->).
    exists (l ++ close_testcase). rewrite <- !(assoc_L (++)). eauto.
Qed.

(** C2: every run that returns files exactly one result - none when [-f]
    leaves the test out - and keeps the counters equal to the lengths of the
    lists that main prints, with every test that ran among the results. *)
Theorem run_test_files_one_result (ctp : cheri_test cap W) (d : driver cap W) :
  consistent (d_tally d) ->
  wlp (run_test ctp) (fun _ d' =>
    consistent (d_tally d') /\
    filed (d_tally d') = filed (d_tally d) + (if filtered ctp then 0 else 1)) d.
Proof.
  intros Hc. eapply wpx_mono; [|apply wlp_run_test]. intros [] d' (l & _ & H).
  destruct (filtered ctp).
  - destruct H as [_ ->]. split; [done|lia].
  - destruct H as [H _]. split; [by eapply tally_step_consistent|].
    by apply tally_step_filed.
Qed.

(** C3: the report of a run that returns is well nested: the [testcase]
    element that it opens is closed again, unless [-f] leaves the test out,
    which leaves the element open. *)
Theorem run_test_report_nested (ctp : cheri_test cap W) (d : driver cap W) :
  wlp (run_test ctp) (fun _ d' => exists l,
    d_xo d' = d_xo d ++ l /\
    forall st, xo_run l st =
      Some (if filtered ctp then (XoInstance, "testcase") :: st else st)) d.
Proof.
  eapply wpx_mono; [|apply wlp_run_test]. intros [] d' (l & Hl & H).
  exists (opening ctp ++ l). split; [done|]. intros st.
  rewrite xo_run_app. simpl. destruct (filtered ctp).
  - by destruct H as [-> _].
  - destruct H as (_ & m & Hm & ->). rewrite xo_run_app, xo_run_flat by done. done.
Qed.

(** A test whose name has a disallowed prefix is refused before the
    local [flaky_reason] is set, so what is filed depends on what that local
    happens to hold: a failure if it is null, and otherwise an expected
    failure, which main does not count against the run. *)
Theorem disallowed_name_reads_unset_local (ctp : cheri_test cap W) (p : string)
    (d : driver cap W) :
  disallowed_prefix (ct_name ctp) = Some p ->
  exists reason,
    wp (run_test ctp) (fun _ d' =>
      d_tally d' =
      match indet_flaky with
      | None => count_failed (message (ct_name ctp) reason) (d_tally d)
      | Some _ => count_xfailed (message (ct_name ctp) reason)
                    (count_expected (d_tally d))
      end) d.
Proof.
  intros Hp. eexists. unfold cheriostest_run_test, announce. rewrite Hp. wp_simpl.
  apply wp_fail_label. intros w l _. simpl. unfold file_fail.
  destruct indet_flaky; reflexivity.
Qed.
End Facts.

Lemma disallowed_name_reads_unset_local_witness :
  let t := toy_test "test_x" cheriostest_success in
  disallowed_prefix (ct_name t) = Some "test_"%string /\
  exists reason,
    wp (cheriostest_run_test toy_config options0 (Some "?"%string) 0 t)
      (fun _ d' => d_tally d' =
        count_xfailed (message "test_x" reason) (count_expected tally0)) toy_driver.
Proof.
  split; [reflexivity|].
  exact (disallowed_name_reads_unset_local toy_config options0 (Some "?"%string) 0
           (toy_test "test_x" cheriostest_success) "test_" toy_driver eq_refl).
Defined.

Lemma run_test_files_one_result_witness :
  consistent (d_tally toy_driver) /\
  wlp (cheriostest_run_test toy_config options0 None 0 (toy_test "ok" cheriostest_success))
    (fun _ d' => consistent (d_tally d') /\ filed (d_tally d') = 1) toy_driver.
Proof.
  split; [exact tally0_consistent|].
  exact (run_test_files_one_result toy_config options0 None 0
           (toy_test "ok" cheriostest_success) toy_driver tally0_consistent).
Defined.

(** ** From the verdict of a body to the result that is filed *)

(** A kernel on which the calls of the controller succeed and the pipe gives
    back what the child wrote, up to the size asked for. *)
Class RunnerOSLaws {cap W : Type} (LC : Libc cap W) (RO : RunnerOS W) := {
  sigaction_ok sig w : os_sigaction sig w = None;
  pipe_ok w : exists fds w', os_pipe w = (inl fds, w');
  fork_ok w : exists pid w', os_fork w = (inl pid, w');
  dup2_ok a b w : exists w', os_dup2 a b w = (None, w');
  set_nonblock_ok fd w : exists w', os_set_nonblock fd w = (None, w');
  write_ok fd s w : exists w',
    os_write fd s w = (inl (Z.of_nat (String.length s)), w');
  read_ok fd out n w : exists w',
    os_read fd out n w = (inl (String.substring 0 (Z.to_nat n) out), w');
}.

#[export] Instance toy_os_laws {W} : RunnerOSLaws (W := W) toy_libc toy_os.
Proof. split; simpl; eauto. Qed.

Section EndToEnd.
Context {cap W : Type} {CH : Cheri cap} {LC : Libc cap W} {RO : RunnerOS W}
  {RL : RunnerOSLaws LC RO}.
Context (g : config) (o : options).
Context (indet_flaky : option string) (indet_fd : Z).

(** The state in which the controller starts a body: an empty page and the
    handlers installed. *)
Definition at_start (s : proc cap W) : Prop :=
  p_ccsp s = Some child_state_zero /\ p_stdout s = EmptyString /\
  forall sig, sig ∈ (child_signals (cap := cap) (W := W) g).*1 -> sig ∈ p_handlers s.

Lemma install_handler_run (p : Z * string) (s : proc cap W) :
  install_handler p s = (Val tt, set_handlers ({[p.1]} ∪ p_handlers s) s).
Proof. unfold install_handler, mbind, eff_bind, gets. by rewrite sigaction_ok. Qed.

Lemma install_handlers_run (l : list (Z * string)) (s : proc cap W) :
  foreach l install_handler s
  = (Val tt, set_handlers (list_to_set l.*1 ∪ p_handlers s) s).
Proof.
  revert s. induction l as [|[sig t] l IH]; intros s.
  { cbn. rewrite (left_id_L ∅ (∪)). by destruct s. }
  cbn [foreach]. rewrite (bind_val _ _ _ _ _ (install_handler_run _ _)), IH.
  cbn. unfold set_handlers. simpl. do 2 f_equal. set_solver.
Qed.

Lemma child_try_ok (call : W -> option Z * W) (msg : string) (s : proc cap W) :
  (exists w', call (p_world s) = (None, w')) ->
  exists w', child_try (cap := cap) call msg s = (Val tt, set_world w' s).
Proof.
  intros [w' Hw]. exists w'. unfold child_try, world_op, mbind, eff_bind.
  by rewrite Hw.
Qed.

(** Without tracing or a debugger, the child reaches the body. *)
Lemma child_main_reaches_body (ctp : cheri_test cap W) fi fo (d : driver cap W) :
  o_qtrace o = false -> o_debugger_enabled o = false ->
  d_ccs d = child_state_zero ->
  exists s, at_start s /\ p_verbose s = o_verbose o /\
    child_main g o ctp fi fo (fork_state o d) = (ct_func ctp ;; exit 0) s.
Proof.
  intros Hq Hdbg Hc. unfold child_main.
  erewrite bind_val by apply install_handlers_run. set (s1 := set_handlers _ _).
  destruct (child_try_ok (os_dup2 fi.1 0) "dup2(STDIN_FILENO)" s1)
    as [w2 H2]; [apply dup2_ok|]. erewrite bind_val by exact H2.
  destruct (child_try_ok (os_dup2 fo.2 1) "dup2(STDOUT_FILENO)" (set_world w2 s1))
    as [w3 H3]; [apply dup2_ok|]. erewrite bind_val by exact H3.
  erewrite bind_val by reflexivity. rewrite Hq, Hdbg.
  eexists. split; [|split; [|reflexivity]]; [|done].
  split; [by rewrite <- Hc|]. split; [done|]. intros sig Hsig.
  change (sig ∈ (list_to_set (child_signals g).*1 ∪ ∅ : gset Z)).
  by apply elem_of_union_l, elem_of_list_to_set.
Qed.

(** C1 for a run: what [judge] decides, started from the page, the status and
    the output of the child. *)
Definition result_for (ctp : cheri_test cap W) (st : wstatus)
    (c : child_state cap) (out : string) (t t' : tally) : Prop :=
  let x := xfail_reason_of ctp in
  let f := ct_flaky_reason ctp in
  let r := inl (String.substring 0 1023 out) : string + Z in
  let t1 := count_run (expect x t) in
  (accepted g ctp st c r ->
   t' = file_pass (ct_name ctp) x (warning_of c) t1) /\
  (no_result g ctp st c ->
   exists reason, t' = file_fail (ct_name ctp) reason None None t1) /\
  (~ accepted g ctp st c r -> ~ no_result g ctp st c ->
   exists reason, t' = file_fail (ct_name ctp) reason x f t1).

(** The tests that reach their body: not refused, filtered or skipped. *)
Definition runs (ctp : cheri_test cap W) : Prop :=
  disallowed_prefix (ct_name ctp) = None /\
  (forall f w, ct_check_skip ctp = Some f -> (f (ct_name ctp) w).1 = None) /\
  o_fast_tests_only o && flag_set (ct_flags ctp) CT_FLAG_SLOW = false.

Lemma dtry_run {A} (call : W -> (A + Z) * W) (d : driver cap W) a w' :
  call (d_world d) = (inl a, w') -> dtry call d = (Val a, set_dworld w' d).
Proof. intros Hc. unfold dtry, dworld, mbind, eff_bind. by rewrite Hc. Qed.

Lemma fill_stdin_run (ctp : cheri_test cap W) fd w :
  exists w', forall d : driver cap W, d_world d = w ->
    fill_stdin ctp fd d = (Val None, set_dworld w' d).
Proof.
  unfold fill_stdin. case_match.
  - destruct (write_ok (LC := LC) fd (ct_stdin_string ctp) w) as [w' Hw].
    exists w'. intros d <-. unfold dworld, mbind, eff_bind. rewrite Hw. simpl.
    by rewrite Z.eqb_refl.
  - exists w. intros d <-. by destruct d.
Qed.

(** The skip function of a test that runs. *)
Lemma check_skip_run (ctp : cheri_test cap W) w :
  runs ctp ->
  exists w', forall d : driver cap W, d_world d = w ->
    (match ct_check_skip ctp with
     | Some f => dworld (f (ct_name ctp))
     | None => mret None
     end : eff cap (driver cap W) (option string)) d = (Val None, set_dworld w' d).
Proof.
  intros (_ & Hskip & _). destruct (ct_check_skip ctp) as [f|].
  - specialize (Hskip f w eq_refl). destruct (f (ct_name ctp) w) as [r w'] eqn:Hf.
    exists w'. intros d <-. unfold dworld. rewrite Hf. by simpl in Hskip; subst.
  - exists w. intros d <-. by destruct d.
Qed.

Definition fork_and_judge (ctp : cheri_test cap W) (fi fo : Z * Z)
    : eff cap (driver cap W) unit :=
  st ← execute_child g o ctp fi fo;
  judge g o ctp st fi.2 fo.1 (xfail_reason_of ctp) (ct_flaky_reason ctp).

(** The run, up to the fork: the state of the controller there. *)
Lemma run_test_reaches_fork (ctp : cheri_test cap W) (d : driver cap W) :
  runs ctp ->
  exists (fi fo : Z * Z) (dk : driver cap W), d_ccs dk = child_state_zero /\
    d_tally dk = expect (xfail_reason_of ctp) (d_tally d) /\
    cheriostest_run_test g o indet_flaky indet_fd ctp d = fork_and_judge ctp fi fo dk.
Proof.
  intros Hr. destruct (check_skip_run ctp (d_world d) Hr) as (w0 & Hw0).
  destruct Hr as (Hname & _ & Hfast).
  destruct (pipe_ok (LC := LC) w0) as (fi & w1 & Hp1).
  destruct (pipe_ok (LC := LC) w1) as (fo & w2 & Hp2).
  destruct (fill_stdin_run ctp fi.2 w2) as (w3 & Hw3).
  unfold cheriostest_run_test, announce. rewrite Hname, Hfast.
  unfold run_unskipped.
  set (dk := on_tally (expect (xfail_reason_of ctp)) (set_dworld w0 (log_xo
    [XoEmit "TEST: {d:name/%s}: {d:description/%s}
" [ct_name ctp; ct_desc ctp]] (set_ccs child_state_zero (log_xo
    [XoAttr "classname" (cfg_prog g +:+ "." +:+ ct_name ctp);
     XoAttr "name" (ct_desc ctp); XoOpen XoInstance "testcase"] d))))).
  exists fi, fo, (set_dworld w3 dk). split; [done|]. split; [done|].
  erewrite bind_val by reflexivity.
  erewrite bind_val by (by apply Hw0).
  cbv iota. erewrite (bind_val _ _ _ _ dk).
  2: { unfold dk, expect. by case_bool_decide. }
  erewrite bind_val by (apply dtry_run; exact Hp1).
  erewrite bind_val by (apply dtry_run; exact Hp2).
  erewrite bind_val by (by apply Hw3). done.
Qed.

(** A run reaches the body of the test, and what the body leaves determines the
    result. *)
Lemma run_reaches_result (ctp : cheri_test cap W) (d : driver cap W) :
  o_qtrace o = false -> o_debugger_enabled o = false -> runs ctp ->
  exists s, at_start s /\ p_verbose s = o_verbose o /\
    forall st s' c,
      end_of_process g ((ct_func ctp ;; exit 0) s) = Some (st, s') ->
      p_ccsp s' = Some c ->
      wp (cheriostest_run_test g o indet_flaky indet_fd ctp)
        (fun _ d' => result_for ctp st c (p_stdout s') (d_tally d) (d_tally d')) d.
Proof.
  intros Hq Hdbg Hruns.
  destruct (run_test_reaches_fork ctp d Hruns) as (fi & fo & dk & Hc & Ht & Hrun).
  destruct (fork_ok (LC := LC) (d_world dk)) as (pid & w4 & Hfork).
  destruct (child_main_reaches_body ctp fi fo (set_dworld w4 dk) Hq Hdbg Hc)
    as (s & Hs & Hv & Hbody).
  exists s. split; [done|]. split; [done|]. intros st s' c Hend Hpage.
  destruct (set_nonblock_ok (LC := LC) fo.1
    (os_close fo.2 (os_close fi.1 (p_world s')))) as (w5 & Hnb).
  assert (exists d5, execute_child g o ctp fi fo dk = (Val (st, p_stdout s'), d5) /\
    d_ccs d5 = c /\ d_tally d5 = count_run (d_tally dk)) as (d5 & Hexec & Hc5 & Ht5).
  { unfold execute_child. erewrite bind_val by (apply dtry_run; exact Hfork).
    erewrite bind_val.
    2: { unfold run_child. rewrite Hbody, Hend, Hpage. reflexivity. }
    erewrite bind_val by reflexivity.
    erewrite bind_val by (apply dtry_run; simpl; by rewrite Hnb).
    erewrite bind_val by reflexivity. rewrite Hdbg. by eexists. }
  unfold wpx. rewrite Hrun. unfold fork_and_judge.
  erewrite bind_val by exact Hexec.
  pose proof (judge_result g o ctp (st, p_stdout s') fi.2 fo.1
    (xfail_reason_of ctp) (ct_flaky_reason ctp) d5) as Hj.
  simpl in Hj. destruct (read_ok (LC := LC) fo.1 (p_stdout s') 1023 (d_world d5))
    as [w6 Hread].
  rewrite Hread, Hc5, Ht5, Ht in Hj. exact Hj.
Qed.

(** C5: on a kernel that serves the controller, a run reaches the body of the
    test in a state [s] with an empty page and the handlers installed, and
    files the result that the specification assigns to what the body left:
    its page, its status after signal handling, its output. *)
Theorem run_test_refines_body (ctp : cheri_test cap W) (d : driver cap W) :
  o_qtrace o = false -> o_debugger_enabled o = false -> runs ctp ->
  exists s, at_start s /\ p_verbose s = o_verbose o /\
    forall st s' c,
      end_of_process g ((ct_func ctp ;; exit 0) s) = Some (st, s') ->
      p_ccsp s' = Some c ->
      wp (cheriostest_run_test g o indet_flaky indet_fd ctp)
        (fun _ d' => result_for ctp st c (p_stdout s') (d_tally d) (d_tally d')) d.
Proof. apply run_reaches_result. Qed.
End EndToEnd.

Lemma run_test_refines_body_witness :
  let t := toy_test "ok" cheriostest_success in
  runs options0 t /\
  exists s, at_start toy_config s /\ p_verbose s = 0 /\
    forall st s' c,
      end_of_process toy_config ((ct_func t ;; exit 0) s) = Some (st, s') ->
      p_ccsp s' = Some c ->
      wp (cheriostest_run_test toy_config options0 None 0 t)
        (fun _ d' => result_for toy_config t st c (p_stdout s') tally0 (d_tally d'))
        toy_driver.
Proof.
  assert (runs options0 (toy_test "ok" cheriostest_success)) as H by done.
  split; [exact H|].
  exact (run_test_refines_body toy_config options0 None 0 _ toy_driver
           eq_refl eq_refl H).
Defined.
