(* ===== verification/Faults.v ===== *)
(** * Faults: tests that must fault (cheriostest_bounds_varargs.c)

    A test with CT_FLAG_SIGNAL passes when its body is killed by the signal that
    its description names.  [fault_files_result] carries a fault of the body
    through the handler, the shared page and the controller to the tally; the
    varargs tests are such tests. *)

From S2P Require Import Prelude Printf Cheri Harness Runner Toy RunnerFacts.

(** ** From a fault of the body to the tally *)

Section FaultTests.
Context {cap W : Type} {CH : Cheri cap} {LC : Libc cap W} {RO : RunnerOS W}
  {RL : RunnerOSLaws LC RO}.
Context (g : config) (o : options).
Context (indet_flaky : option string) (indet_fd : Z).

(** Expects a signal, and looks at nothing but the signal. *)
Definition fault_test (ctp : cheri_test cap W) : Prop :=
  flag_set (ct_flags ctp) CT_FLAG_SIGNAL = true /\
  flag_set (ct_flags ctp) CT_FLAG_SIGEXIT = false /\
  flag_set (ct_flags ctp) CT_FLAG_STDOUT_STRING = false /\
  flag_set (ct_flags ctp) CT_FLAG_STDOUT_IGNORE = false.

(** What the page says of the faulting address before the fault: the address
    and the tag that [cheriostest_set_expected_si_addr] left there, or zeros. *)
Definition no_addr : cap * bool := (cap_null, false).

Definition expected_page (e : cap * bool) : child_state cap :=
  set_expected e.1 e.2 child_state_zero.

(** The address of a fault, and its tag, as the handler stores them. *)
Definition stored_addr (si : siginfo cap) : cap * bool :=
  if cfg_purecap g
  then (cheri_tag_clear (si_addr si), cheri_tag_get (si_addr si))
  else (si_addr si, false).

(** The signal is the one that the test describes, and the address the one that
    the body announced. *)
Definition expected_signal (ctp : cheri_test cap W) (e : cap * bool)
    (si : siginfo cap) : Prop :=
  si_signo si = ct_signum ctp /\
  (flag_set (ct_flags ctp) CT_FLAG_SI_CODE = true -> si_code si = ct_si_code ctp) /\
  (is_freebsd g = true -> flag_set (ct_flags ctp) CT_FLAG_SI_TRAPNO = true ->
   si_trapno si = ct_si_trapno ctp) /\
  (flag_set (ct_flags ctp) CT_FLAG_SI_ADDR = true ->
   cheri_ptr_equal_exact g e.1 (stored_addr si).1 = true /\
   e.2 = (stored_addr si).2).

(** From the state [s], [m] raises [si]; it has announced the address [e], and
    changed nothing else of the page, and not the output. *)
Definition raises_at (m : test cap W unit) (e : cap * bool) (si : siginfo cap)
    (s : proc cap W) : Prop :=
  exists s', m s = (Raised si, s') /\
    p_ccsp s' = Some (expected_page e) /\ p_stdout s' = p_stdout s /\
    p_handlers s' = p_handlers s.

(** The same from every start of a test. *)
Definition faults_with (m : test cap W unit) (e : cap * bool) (si : siginfo cap)
    : Prop := forall s, at_start g s -> raises_at m e si s.

(** From every start of a test, [m] comes to its end without a fault. *)
Definition returns_quietly (m : test cap W unit) : Prop :=
  forall s, at_start g s -> exists s' e, m s = (Val tt, s') /\
    p_ccsp s' = Some (expected_page e).

Definition handled (sig : Z) : Prop := sig ∈ (child_signals (cap := cap) (W := W) g).*1.

(** The page after the handler. *)
Definition signalled_page (e : cap * bool) (si : siginfo cap) : child_state cap :=
  set_signal (si_signo si) (si_code si)
    (if is_freebsd g then si_trapno si else 0)
    (stored_addr si).1 (stored_addr si).2 (expected_page e).

Lemma faulting_process (m : test cap W unit) e si s :
  raises_at m e si s -> at_start g s -> si_signo si ∈ p_handlers s ->
  exists s', end_of_process g ((m ;; exit 0) s) = Some (WExited EX_SOFTWARE, s') /\
    p_ccsp s' = Some (signalled_page e si) /\ p_stdout s' = EmptyString.
Proof.
  intros (s1 & H1 & Hc & Ho & Hha) Hs Hh.
  destruct Hs as (Hp & Hout & Hhand).
  unfold mbind, eff_bind. rewrite H1. unfold end_of_process.
  rewrite decide_True by (by rewrite Hha).
  unfold signal_handler, with_ccsp, mbind, eff_bind, gets, modify, exit.
  rewrite Hc. eexists. split; [reflexivity|]. simpl. split; [|by rewrite Ho].
  unfold signalled_page, stored_addr. by destruct (cfg_purecap g).
Qed.

Lemma signalled_page_accepted ctp e si :
  fault_test ctp -> 0 <= si_signo si ->
  accepted g ctp (WExited EX_SOFTWARE) (signalled_page e si) (inl EmptyString)
  <-> expected_signal ctp e si.
Proof.
  intros (F1 & F2 & F4 & F5) H0.
  unfold accepted, status_accepted, output_accepted, signal_as_expected, expected_signal.
  rewrite F1, F2, F4, F5. simpl. split.
  - intros [(_ & _ & (_ & Hs & Hc & Ht & Ha) & _) _]. split; [by apply Hs|].
    split; [done|]. split; [|done].
    intros Hf. specialize (Ht Hf). by rewrite Hf in Ht.
  - intros (Hs & Hc & Ht & Ha). split; [|intros _; right; by intros ? [= <-]].
    split; [done|]. split; [by right|]. split; [|done]. split; [done|].
    split; [done|]. split; [done|]. split; [|done].
    intros Hf. rewrite Hf. by apply Ht.
Qed.

(** A run comes to a state [s] in which the body starts; if the body faults
    there, this is what the run files. *)
Lemma run_of_fault (ctp : cheri_test cap W) (d : driver cap W) :
  o_qtrace o = false -> o_debugger_enabled o = false ->
  runs o ctp -> fault_test ctp ->
  let t := count_run (expect (xfail_reason_of ctp) (d_tally d)) in
  exists s, at_start g s /\ forall e si,
    raises_at (ct_func ctp) e si s -> handled (si_signo si) -> 0 <= si_signo si ->
    wp (cheriostest_run_test g o indet_flaky indet_fd ctp) (fun _ d' =>
      (expected_signal ctp e si ->
       d_tally d' = file_pass (ct_name ctp) (xfail_reason_of ctp) None t) /\
      (~ expected_signal ctp e si -> exists reason,
       d_tally d' = file_fail (ct_name ctp) reason (xfail_reason_of ctp)
                      (ct_flaky_reason ctp) t)) d.
Proof.
  intros Hq Hd Hr Hf t.
  destruct (run_reaches_result g o indet_flaky indet_fd ctp d Hq Hd Hr)
    as (s & Hs & _ & Hrun).
  exists s. split; [done|]. intros e si Hm Hh H0.
  destruct (faulting_process (ct_func ctp) e si s Hm Hs (proj2 (proj2 Hs) _ Hh)) as (s' & Hend & Hp & Ho).
  eapply wpx_mono; [|exact (Hrun _ _ _ Hend Hp)].
  intros [] d' (Hpass & _ & Hfail). rewrite Ho in *. simpl String.substring in *.
  pose proof (signalled_page_accepted ctp e si Hf H0) as Hiff. split.
  - intros Hexp. rewrite (Hpass (proj2 Hiff Hexp)). done.
  - intros Hexp. apply Hfail; [by rewrite Hiff|].
    intros (_ & Hsig & _). by rewrite (proj1 Hf) in Hsig.
Qed.

Lemma fault_files_result (ctp : cheri_test cap W) (e : cap * bool) (si : siginfo cap)
    (d : driver cap W) :
  o_qtrace o = false -> o_debugger_enabled o = false ->
  runs o ctp -> fault_test ctp ->
  handled (si_signo si) -> 0 <= si_signo si ->
  faults_with (ct_func ctp) e si ->
  let t := count_run (expect (xfail_reason_of ctp) (d_tally d)) in
  wp (cheriostest_run_test g o indet_flaky indet_fd ctp) (fun _ d' =>
    (expected_signal ctp e si ->
     d_tally d' = file_pass (ct_name ctp) (xfail_reason_of ctp) None t) /\
    (~ expected_signal ctp e si -> exists reason,
     d_tally d' = file_fail (ct_name ctp) reason (xfail_reason_of ctp)
                    (ct_flaky_reason ctp) t)) d.
Proof.
  intros Hq Hd Hr Hf Hh H0 Hm t.
  destruct (run_of_fault ctp d Hq Hd Hr Hf) as (s & Hs & Hrun).
  by apply (Hrun e si (Hm s Hs)).
Qed.

(** On a kernel that serves the controller, a run of a test that expects a
    signal and whose body faults files a pass when the fault has the signal,
    the code, the trap number (on CheriBSD) and the address that the
    description and the body announce, as far as its flags ask for them, and a
    failure otherwise, expected or not as the xfail and flaky reasons say. *)
Theorem fault_test_result (ctp : cheri_test cap W) (e : cap * bool) (si : siginfo cap)
    (d : driver cap W) :
  o_qtrace o = false -> o_debugger_enabled o = false ->
  runs o ctp -> fault_test ctp ->
  handled (si_signo si) -> 0 <= si_signo si ->
  faults_with (ct_func ctp) e si ->
  let t := count_run (expect (xfail_reason_of ctp) (d_tally d)) in
  wp (cheriostest_run_test g o indet_flaky indet_fd ctp) (fun _ d' =>
    (expected_signal ctp e si ->
     d_tally d' = file_pass (ct_name ctp) (xfail_reason_of ctp) None t) /\
    (~ expected_signal ctp e si -> exists reason,
     d_tally d' = file_fail (ct_name ctp) reason (xfail_reason_of ctp)
                    (ct_flaky_reason ctp) t)) d.
Proof. apply fault_files_result. Qed.

(** A body that declares a failure after [m] has not faulted. *)
Lemma quiet_body_fails (ctp : cheri_test cap W) (m : test cap W unit)
    (msg : string) (ap : list (arg cap)) (d : driver cap W) :
  o_qtrace o = false -> o_debugger_enabled o = false -> runs o ctp ->
  ct_func ctp = (m ;; cheriostest_failure_errx msg ap) -> returns_quietly m ->
  wp (cheriostest_run_test g o indet_flaky indet_fd ctp) (fun _ d' =>
    exists reason, d_tally d' =
      file_fail (ct_name ctp) reason (xfail_reason_of ctp) (ct_flaky_reason ctp)
        (count_run (expect (xfail_reason_of ctp) (d_tally d)))) d.
Proof.
  intros Hq Hd Hr Hbody Hm.
  destruct (run_reaches_result g o indet_flaky indet_fd ctp d Hq Hd Hr)
    as (s & Hs & _ & Hrun).
  destruct (Hm s Hs) as (s1 & e & H1 & Hp).
  assert (exists s' c, end_of_process g ((ct_func ctp ;; exit 0) s)
    = Some (WExited EX_SOFTWARE, s') /\ p_ccsp s' = Some c /\
    ccs_testresult c = TESTRESULT_FAILURE) as (s' & c & Hend & Hc & Hres).
  { rewrite Hbody. unfold mbind, eff_bind. rewrite H1.
    unfold cheriostest_failure_errx, vcheriostest_failure_errx, mbind, eff_bind, gets, exit.
    rewrite Hp.
    eexists _, _. split; [reflexivity|]. split; reflexivity. }
  eapply wpx_mono; [|exact (Hrun _ _ _ Hend Hc)].
  intros [] d' (_ & _ & Hfail). apply Hfail.
  - by intros ((H & _) & _).
  - by intros (_ & _ & _ & _ & _ & _ & H).
Qed.

(** *** Tests that expect no signal *)

(** The body declares success. *)
Definition body_succeeds (m : test cap W unit) : Prop :=
  forall s, at_start g s -> exists s' e str,
    m s = (Exited 0, s') /\
    p_ccsp s' = Some (set_result TESTRESULT_SUCCESS str false (expected_page e)) /\
    p_stdout s' = EmptyString.

(** The body declares a failure. *)
Definition body_fails (m : test cap W unit) : Prop :=
  forall s, at_start g s -> exists s' c,
    m s = (Exited EX_SOFTWARE, s') /\ p_ccsp s' = Some c /\
    ccs_testresult c = TESTRESULT_FAILURE.

Lemma exited_process {A} (m : test cap W A) s c s' :
  m s = (Exited c, s') ->
  end_of_process g ((m ;; exit 0) s) = Some (WExited (c mod 256), s').
Proof. intros Hm. unfold mbind, eff_bind. by rewrite Hm. Qed.

Lemma success_files_pass (ctp : cheri_test cap W) (d : driver cap W) :
  o_qtrace o = false -> o_debugger_enabled o = false -> runs o ctp ->
  ct_flags ctp = 0 -> body_succeeds (ct_func ctp) ->
  wp (cheriostest_run_test g o indet_flaky indet_fd ctp) (fun _ d' =>
    d_tally d' = file_pass (ct_name ctp) (xfail_reason_of ctp) None
      (count_run (expect (xfail_reason_of ctp) (d_tally d)))) d.
Proof.
  intros Hq Hd Hr Hf Hm.
  destruct (run_reaches_result g o indet_flaky indet_fd ctp d Hq Hd Hr)
    as (s & Hs & _ & Hrun).
  destruct (Hm s Hs) as (s' & e & str & Hms & Hp & Ho).
  eapply wpx_mono; [|exact (Hrun _ _ _ (exited_process _ _ _ _ Hms) Hp)].
  intros [] d' (Hpass & _ & _). rewrite Ho in *.
  apply Hpass. unfold accepted, status_accepted, output_accepted, signal_as_expected.
  rewrite Hf. split.
  - split; [done|]. split; [by left|]. split; [|done].
    split; [done|]. by repeat split.
  - intros _. right. by intros ? [= <-].
Qed.

Lemma failure_files_fail (ctp : cheri_test cap W) (d : driver cap W) :
  o_qtrace o = false -> o_debugger_enabled o = false -> runs o ctp ->
  body_fails (ct_func ctp) ->
  wp (cheriostest_run_test g o indet_flaky indet_fd ctp) (fun _ d' =>
    exists reason, d_tally d' =
      file_fail (ct_name ctp) reason (xfail_reason_of ctp) (ct_flaky_reason ctp)
        (count_run (expect (xfail_reason_of ctp) (d_tally d)))) d.
Proof.
  intros Hq Hd Hr Hm.
  destruct (run_reaches_result g o indet_flaky indet_fd ctp d Hq Hd Hr)
    as (s & Hs & _ & Hrun).
  destruct (Hm s Hs) as (s' & c & Hms & Hc & Hres).
  eapply wpx_mono; [|exact (Hrun _ _ _ (exited_process _ _ _ _ Hms) Hc)].
  intros [] d' (_ & _ & Hfail). apply Hfail.
  - by intros ((H & _) & _).
  - by intros (_ & _ & _ & _ & _ & _ & H).
Qed.

(** A fault is never a pass of a test without flags. *)
Lemma stray_fault_files_fail (ctp : cheri_test cap W) (d : driver cap W) :
  o_qtrace o = false -> o_debugger_enabled o = false -> runs o ctp ->
  ct_flags ctp = 0 ->
  (forall s, at_start g s -> exists e si,
     raises_at (ct_func ctp) e si s /\ handled (si_signo si) /\ si_signo si ≠ 0) ->
  wp (cheriostest_run_test g o indet_flaky indet_fd ctp) (fun _ d' =>
    exists reason, d_tally d' =
      file_fail (ct_name ctp) reason (xfail_reason_of ctp) (ct_flaky_reason ctp)
        (count_run (expect (xfail_reason_of ctp) (d_tally d)))) d.
Proof.
  intros Hq Hd Hr Hf Hm.
  destruct (run_reaches_result g o indet_flaky indet_fd ctp d Hq Hd Hr)
    as (s & Hs & _ & Hrun).
  destruct (Hm s Hs) as (e & si & Hat & Hh & H0).
  destruct (faulting_process (ct_func ctp) e si s Hat Hs (proj2 (proj2 Hs) _ Hh)) as (s' & Hend & Hp & Ho).
  eapply wpx_mono; [|exact (Hrun _ _ _ Hend Hp)].
  intros [] d' (_ & _ & Hfail). apply Hfail.
  - intros [(_ & Hst) _]. rewrite Hf in Hst. simpl in Hst.
    destruct Hst as (_ & _ & Hst). destruct (Hst eq_refl) as [Hsig _]. done.
  - by intros (_ & _ & _ & _ & Hsig & _).
Qed.

(** The expected fault, whatever its address, is a pass. *)
Lemma expected_fault_files_pass (ctp : cheri_test cap W) (d : driver cap W) :
  o_qtrace o = false -> o_debugger_enabled o = false ->
  runs o ctp -> fault_test ctp ->
  (forall s, at_start g s -> exists e si,
     raises_at (ct_func ctp) e si s /\ handled (si_signo si) /\ 0 <= si_signo si /\
     expected_signal ctp e si) ->
  wp (cheriostest_run_test g o indet_flaky indet_fd ctp) (fun _ d' =>
    d_tally d' = file_pass (ct_name ctp) (xfail_reason_of ctp) None
      (count_run (expect (xfail_reason_of ctp) (d_tally d)))) d.
Proof.
  intros Hq Hd Hr Hf Hm.
  destruct (run_of_fault ctp d Hq Hd Hr Hf) as (s & Hs & Hrun).
  destruct (Hm s Hs) as (e & si & Hat & Hh & H0 & Hexp).
  eapply wpx_mono; [|exact (Hrun e si Hat Hh H0)].
  intros [] d' [Hpass _]. by apply Hpass.
Qed.
End FaultTests.

(** ** The varargs tests (cheriostest_bounds_varargs.c) *)

(** The calling convention, printf(3), and the signal codes of the headers; on
    Linux [None] is a code that <signal.h> does not define. *)
Class Varargs (cap W : Type) := {
  va_arg : nat -> list (arg cap) -> test cap W unit;    (* fetch the n-th argument *)
  printf : string -> list (arg cap) -> test cap W unit;
  PROT_CHERI_BOUNDS : Z;
  PROT_CHERI_TAG : Z;
  TRAPNO_LOAD_STORE : Z;
  header_SEGV_CAPTAGERR : option Z;
  header_SEGV_CAPBOUNDSERR : option Z;
}.

(** The character of quotation, for the messages. *)
Definition quote : string := String (Ascii.ascii_of_nat 34) EmptyString.

Section VarargsTests.
Context {cap W : Type} {CH : Cheri cap} {LC : Libc cap W} {VA : Varargs cap W}.
Context (g : config).

(** The definitions of the file on Linux for Morello, and their markers. *)
Definition SEGV_CAPTAGERR : Z := default 10 (header_SEGV_CAPTAGERR (cap := cap) (W := W)).
Definition SEGV_CAPBOUNDSERR : Z :=
  default 12 (header_SEGV_CAPBOUNDSERR (cap := cap) (W := W)).

Definition def_missing (header : option Z) : bool :=
  is_linux g && is_aarch64 g && negb (bool_decide (is_Some header)).
Definition SEGV_CAPTAGERR_DEF_MISSING : bool :=
  def_missing (header_SEGV_CAPTAGERR (cap := cap) (W := W)).
Definition SEGV_CAPBOUNDSERR_DEF_MISSING : bool :=
  def_missing (header_SEGV_CAPBOUNDSERR (cap := cap) (W := W)).

Definition XFAIL_VARARG_BOUNDS : option string :=
  if negb (is_aarch64 g) && cfg_purecap g
  then Some "varargs bounds known to be unimplemented"%string else None.

(** A test of this file: it expects the code [freebsd_code] or
    [linux_code]. *)
Definition varargs_test (name desc : string) (freebsd_code linux_code : Z)
    (body : test cap W unit) : cheri_test cap W :=
  let t := CHERIOSTEST name desc body in
  if is_freebsd g then
    with_xfail XFAIL_VARARG_BOUNDS
      (with_signal (Z.lor (Z.lor CT_FLAG_SIGNAL CT_FLAG_SI_CODE) CT_FLAG_SI_TRAPNO)
         (SIGPROT (cap := cap) (W := W)) freebsd_code
         (TRAPNO_LOAD_STORE (cap := cap) (W := W)) t)
  else
    with_signal (Z.lor CT_FLAG_SIGNAL CT_FLAG_SI_CODE)
      (SIGSEGV (cap := cap) (W := W)) linux_code 0 t.

(** The accesses past the arguments. *)
Definition onearg_overrun : test cap W unit :=
  let args := [APtr cap_null] in
  va_arg 0 args ;;
  va_arg 1 args.

Definition varargs_test_onearg : test cap W unit :=
  onearg_overrun ;;
  cheriostest_failure_errx "va_arg() overran bounds without fault" [].

Definition bounds_varargs_vaarg_overflow : cheri_test cap W :=
  varargs_test "bounds_varargs_vaarg_overflow"
    "check that va_arg() triggers a fault on overrun"
    (PROT_CHERI_BOUNDS (cap := cap) (W := W)) SEGV_CAPBOUNDSERR
    (when SEGV_CAPBOUNDSERR_DEF_MISSING
       (cheriostest_failure_errx "SEGV_CAPBOUNDSERR is not defined" []) ;;
     varargs_test_onearg).

Definition bounds_varargs_empty_pointer_null : cheri_test cap W :=
  varargs_test "bounds_varargs_empty_pointer_null"
    "check that empty varargs gives a tag violation on load"
    (PROT_CHERI_TAG (cap := cap) (W := W)) SEGV_CAPTAGERR
    (when SEGV_CAPTAGERR_DEF_MISSING
       (cheriostest_failure_errx "Signal code SEGV_CAPTAGERR missing" []) ;;
     printf "%p" [] ;;
     cheriostest_failure_errx ("printf(" +:+ quote +:+ "%%p" +:+ quote +:+ ") did not fault") []).

Definition bounds_varargs_printf_load : cheri_test cap W :=
  varargs_test "bounds_varargs_printf_load"
    "check that load via printf varargs overflow faults"
    (PROT_CHERI_BOUNDS (cap := cap) (W := W)) SEGV_CAPBOUNDSERR
    (when SEGV_CAPBOUNDSERR_DEF_MISSING
       (cheriostest_failure_errx "SEGV_CAPBOUNDSERR is not defined" []) ;;
     printf "%c%p" [AInt 1] ;;
     cheriostest_failure_errx ("printf(" +:+ quote +:+ "%%c%%p" +:+ quote +:+ ", 1) did not fault") []).

Definition bounds_varargs_printf_store : cheri_test cap W :=
  varargs_test "bounds_varargs_printf_store"
    "check that store via printf varargs overflow faults"
    (PROT_CHERI_BOUNDS (cap := cap) (W := W)) SEGV_CAPBOUNDSERR
    (when SEGV_CAPBOUNDSERR_DEF_MISSING
       (cheriostest_failure_errx "SEGV_CAPBOUNDSERR is not defined" []) ;;
     printf "%c%n" [AInt 0] ;;
     cheriostest_failure_errx ("printf(" +:+ quote +:+ "%%c%%n" +:+ quote +:+ ", 0) did not fault") []).
End VarargsTests.

(** The four tests, each with the access that should fault. *)
Definition varargs_tests `{Cheri cap, !Libc cap W, !Varargs cap W} (g : config)
    : list (test cap W unit * cheri_test cap W) :=
  [(onearg_overrun, bounds_varargs_vaarg_overflow g);
   (printf "%p" [], bounds_varargs_empty_pointer_null g);
   (printf "%c%p" [AInt 1], bounds_varargs_printf_load g);
   (printf "%c%n" [AInt 0], bounds_varargs_printf_store g)].

Section VarargsFacts.
Context {cap W : Type} {CH : Cheri cap} {LC : Libc cap W} {RO : RunnerOS W}
  {RL : RunnerOSLaws LC RO} {VA : Varargs cap W}.
Context (g : config) (o : options).
Context (indet_flaky : option string) (indet_fd : Z).
Context (Htag : SEGV_CAPTAGERR_DEF_MISSING (cap := cap) (W := W) g = false).
Context (Hbounds : SEGV_CAPBOUNDSERR_DEF_MISSING (cap := cap) (W := W) g = false).

(** Every test is a description of a fault, and its body is the access followed
    by a declaration of failure. *)
Lemma varargs_test_shape m t :
  (m, t) ∈ varargs_tests (cap := cap) (W := W) g ->
  fault_test t /\ runs o t /\
  exists msg ap, ct_func t = (m ;; cheriostest_failure_errx msg ap).
Proof.
  unfold varargs_tests. rewrite !elem_of_cons.
  intros [E|[E|[E|[E|[]%not_elem_of_nil]]]]; injection E as -> ->;
    unfold bounds_varargs_vaarg_overflow, bounds_varargs_empty_pointer_null,
      bounds_varargs_printf_load, bounds_varargs_printf_store, varargs_test;
    rewrite ?Htag, ?Hbounds; simpl when;
    (split; [by destruct (is_freebsd g)|]);
    (split; [destruct (is_freebsd g); repeat split; simpl; by rewrite ?andb_false_r|]);
    eexists _, _; by destruct (is_freebsd g).
Qed.

Lemma faults_with_bind (m k : test cap W unit) e si :
  faults_with g m e si -> faults_with g (m ;; k) e si.
Proof.
  intros Hm s Hs. destruct (Hm s Hs) as (s' & H1 & H2). exists s'. split; [|done].
  unfold mbind, eff_bind. by rewrite H1.
Qed.

(** C21: for each of the varargs tests, where the headers define the signal
    codes: if the access past the arguments faults with a signal that the
    child handles, the run files a pass exactly for the expected signal, code
    and trap number; if the access goes unnoticed, the run files a failure. *)
Theorem varargs_tests_result (m : test cap W unit) (t : cheri_test cap W)
    (d : driver cap W) :
  o_qtrace o = false -> o_debugger_enabled o = false ->
  (m, t) ∈ varargs_tests g ->
  let t0 := count_run (expect (xfail_reason_of t) (d_tally d)) in
  let failed t' := exists reason, t' =
    file_fail (ct_name t) reason (xfail_reason_of t) (ct_flaky_reason t) t0 in
  (forall si, faults_with g m no_addr si ->
   handled (cap := cap) (W := W) g (si_signo si) -> 0 <= si_signo si ->
   wp (cheriostest_run_test g o indet_flaky indet_fd t) (fun _ d' =>
     (expected_signal g t no_addr si ->
      d_tally d' = file_pass (ct_name t) (xfail_reason_of t) None t0) /\
     (~ expected_signal g t no_addr si -> failed (d_tally d'))) d) /\
  (returns_quietly g m ->
   wp (cheriostest_run_test g o indet_flaky indet_fd t)
     (fun _ d' => failed (d_tally d')) d).
Proof.
  intros Hq Hd Hin t0 failed.
  destruct (varargs_test_shape m t Hin) as (Hf & Hr & msg & ap & Hbody). split.
  - intros si Hm Hh H0. apply fault_files_result; try done.
    rewrite Hbody. by apply faults_with_bind.
  - intros Hm. by apply (quiet_body_fails g o _ _ t m msg ap).
Qed.
End VarargsFacts.

(** ** Concrete runs *)

Definition toy_bounds_fault : siginfo scap := Siginfo 11 12 0 cap_null.

(** An ABI that bounds the arguments. *)
#[export] Instance toy_varargs : Varargs scap unit := {|
  va_arg n args := if (n <? length args)%nat then mret tt else raise_fault toy_bounds_fault;
  printf _ _ := raise_fault toy_bounds_fault;
  PROT_CHERI_BOUNDS := 1;
  PROT_CHERI_TAG := 2;
  TRAPNO_LOAD_STORE := 3;
  header_SEGV_CAPTAGERR := Some 10;
  header_SEGV_CAPBOUNDSERR := Some 12;
|}.

Lemma fault_test_result_witness :
  let t := bounds_varargs_printf_load toy_config in
  runs options0 t /\ fault_test t /\ expected_signal toy_config t no_addr toy_bounds_fault /\
  wp (cheriostest_run_test toy_config options0 None 0 t) (fun _ d' =>
    (expected_signal toy_config t no_addr toy_bounds_fault ->
     d_tally d' = file_pass (ct_name t) None None (count_run tally0)) /\
    (~ expected_signal toy_config t no_addr toy_bounds_fault -> exists reason,
     d_tally d' = file_fail (ct_name t) reason None None (count_run tally0)))
    toy_driver.
Proof.
  assert (runs options0 (bounds_varargs_printf_load (cap := scap) (W := unit) toy_config))
    as Hr by done.
  assert (fault_test (bounds_varargs_printf_load (cap := scap) (W := unit) toy_config))
    as Hf by done.
  split; [exact Hr|]. split; [exact Hf|]. split; [done|].
  apply (fault_test_result toy_config options0 None 0
           (bounds_varargs_printf_load toy_config) no_addr toy_bounds_fault toy_driver);
    [done|done|exact Hr|exact Hf| |simpl; lia|].
  - unfold handled. apply (bool_decide_unpack _). vm_compute. done.
  - intros s [Hp _]. exists s. split; [done|]. split; [exact Hp|done].
Defined.

Lemma varargs_tests_result_witness :
  let t := bounds_varargs_vaarg_overflow (cap := scap) (W := unit) toy_config in
  faults_with toy_config (onearg_overrun (cap := scap) (W := unit)) no_addr toy_bounds_fault /\
  wp (cheriostest_run_test toy_config options0 None 0 t) (fun _ d' =>
    (expected_signal toy_config t no_addr toy_bounds_fault ->
     d_tally d' = file_pass (ct_name t) None None (count_run tally0)) /\
    (~ expected_signal toy_config t no_addr toy_bounds_fault -> exists reason,
     d_tally d' = file_fail (ct_name t) reason None None (count_run tally0)))
    toy_driver.
Proof.
  assert (faults_with toy_config (onearg_overrun (cap := scap) (W := unit))
            no_addr toy_bounds_fault) as Hm
    by (intros s [Hp _]; exists s; split; [done|split; [exact Hp|done]]).
  split; [exact Hm|].
  apply (proj1 (varargs_tests_result (VA := toy_varargs) toy_config options0 None 0 eq_refl eq_refl
    (onearg_overrun (cap := scap) (W := unit))
    (bounds_varargs_vaarg_overflow toy_config) toy_driver eq_refl eq_refl
    ltac:(left))).
  - exact Hm.
  - unfold handled. apply (bool_decide_unpack _). vm_compute. done.
  - simpl. lia.
Defined.
