(* ===== verification/Main.v ===== *)
(** * Main: command line, choice of the tests, summary (cheriostest.c, main)

    [parse_options] is the getopt(3) loop, [validate] the consistency checks
    that follow it, [run_selected] the three ways of choosing tests, and
    [summarise] the final report with the exit status.  The linker set of the
    tests is the list [tests], in link order. *)

From S2P Require Import Prelude Printf Cheri Harness Runner Toy RunnerFacts.

(** ** getopt(3) *)

Definition optstring : string := "acdEfgKlQqsuvx".

Definition char_in (c : ascii) (s : string) : bool :=
  existsb (Ascii.eqb c) (bytes_of s).

(** The option characters of [argv], in order, and the operands.  An argument
    that starts with [-] is a group of options; [--] ends the options, and so
    does the first operand, as under POSIX (glibc goes on: [Spawn.getopt_gnu]).  A character that is not in [optstring] is
    returned as [?]. *)
Fixpoint getopt (argv : list string) : list ascii * list string :=
  match argv with
  | [] => ([], [])
  | a :: rest =>
      match a with
      | String "-" EmptyString => ([], argv)
      | String "-" (String "-" EmptyString) => ([], rest)
      | String "-" group =>
          let '(opts, operands) := getopt rest in
          (map (fun c => if char_in c optstring then c else "?"%char)
             (bytes_of group) ++ opts, operands)
      | _ => ([], argv)
      end
  end.

Section Options.
(* sysctl hw.qemu_trace_perthread: absent, or its truth value *)
Context (g : config) (qemu_trace_perthread : option bool).

Definition set_opt (c : ascii) (o : options) : options + Z :=
  let '(Options E K l a gl f q Q s co d v x) := o in
  if Ascii.eqb c "a" then inl (Options E K l true gl f q Q s co d v x)
  else if Ascii.eqb c "c" then inl (Options E K l a gl f q Q s true d v x)
  else if Ascii.eqb c "d" then inl (Options E K l a gl f q Q s co true v x)
  else if Ascii.eqb c "E" then inl (Options true K l a gl f q Q s co d v x)
  else if Ascii.eqb c "f" then inl (Options E K l a gl true q Q s co d v x)
  else if Ascii.eqb c "g" then inl (Options E K l a true f q Q s co d v x)
  else if Ascii.eqb c "K" then inl (Options E true l a gl f q Q s co d v x)
  else if Ascii.eqb c "l" then inl (Options E K true a gl f q Q s co d v x)
  else if Ascii.eqb c "Q" || Ascii.eqb c "q" then
    if is_freebsd g then
      match qemu_trace_perthread with
      | None => inr EX_OSERR
      | Some false => inr EX_USAGE
      | Some true =>
          inl (Options E K l a gl f true (Q || Ascii.eqb c "Q") s co d v x)
      end
    else inr 22                                      (* err(EINVAL, ...) *)
  else if Ascii.eqb c "s" then inl (Options E K l a gl f q Q true co d v x)
  else if Ascii.eqb c "v" then inl (Options E K l a gl f q Q s co d (v + 1) x)
  else if Ascii.eqb c "x" then inl (Options E K l a gl f q Q s co d v true)
  else inr EX_USAGE.

Fixpoint set_opts (cs : list ascii) (o : options) : options + Z :=
  match cs with
  | [] => inl o
  | c :: cs' =>
      match set_opt c o with
      | inl o' => set_opts cs' o'
      | inr e => inr e
      end
  end.

Definition parse_options (argv : list string) : (options * list string) + Z :=
  let '(cs, operands) := getopt argv in
  match set_opts cs options0 with
  | inl o => inl (o, operands)
  | inr e => inr e
  end.

Inductive action := DoUsage | DoList | DoChild | DoRun.

(** The consistency of the options with each other and with the number of
    operands. *)
Definition validate (o : options) (argc : nat) : action :=
  if o_execed_child_has_extra_argv o && negb (o_is_execed_child o) then DoUsage
  else if o_is_execed_child o && (o_run_all o || o_glob o || o_list o) then DoUsage
  else if o_is_execed_child o && negb (argc =? 1)%nat
       && negb (o_execed_child_has_extra_argv o) then DoUsage
  else if o_run_all o && o_list o then DoUsage
  else if o_run_all o && o_glob o then DoUsage
  else if o_list o then if (argc =? 0)%nat then DoList else DoUsage
  else if (argc =? 0)%nat && negb (o_run_all o) then DoUsage
  else if (0 <? argc)%nat && o_run_all o then DoUsage
  else if o_is_execed_child o then DoChild
  else DoRun.
End Options.

(** ** Choosing and running the tests *)

Section Main.
Context {cap W : Type} {CH : Cheri cap} {LC : Libc cap W} {RO : RunnerOS W}.
Context (g : config).
Context (indet_flaky : option string) (indet_fd : Z).
Context (fnmatch : string -> string -> bool).      (* fnmatch(3), flags 0 *)
Context (tests : list (cheri_test cap W)).

Abbreviation run_test o := (cheriostest_run_test g o indet_flaky indet_fd).

Definition list_one (o : options) (ct : cheri_test cap W) : list xo :=
  if o_fast_tests_only o && flag_set (ct_flags ct) CT_FLAG_SLOW then []
  else
    [XoOpen XoInstance "testcase";
     if negb (o_verbose o =? 0)
     then XoEmit "{cw:name/%s}{:description/%s}" [ct_name ct; ct_desc ct]
     else XoEmit "{:name/%s}{e:description/%s}" [ct_name ct; ct_desc ct]] ++
    (match xfail_reason_of ct with
     | Some r => [XoEmit "{e:expected-failure-reason/%s}" [r]]
     | None => []
     end) ++
    (if flag_set (ct_flags ct) CT_FLAG_SLOW
     then [XoEmit "{e:timeout/%s}" ["LONG"]] else []) ++
    [XoEmit "
" []; XoClose XoInstance "testcase"].

Definition list_tests (o : options) : eff cap (driver cap W) unit :=
  emit [XoAttr "name" (cfg_prog g); XoOpen XoContainer "testsuite";
        XoOpen XoList "testcase"] ;;
  foreach tests (fun ct => emit (list_one o ct)) ;;
  emit [XoClose XoList "testcase"; XoClose XoContainer "testsuite"; XoFinish] ;;
  exit EX_OK.

Definition cheriostest_run_test_name (o : options) (name : string)
    : eff cap (driver cap W) unit :=
  match find (fun ct => String.eqb name (ct_name ct)) tests with
  | Some ct => run_test o ct
  | None => exit EX_USAGE                     (* unknown test *)
  end.

Definition run_selected (o : options) (argv : list string)
    : eff cap (driver cap W) unit :=
  if o_run_all o then foreach tests (run_test o)
  else if o_glob o then
    foreach argv (fun pat =>
      foreach tests (fun ct => when (fnmatch pat (ct_name ct)) (run_test o ct)))
  else foreach argv (cheriostest_run_test_name o).

(** A list of the summary, under its title, when it is not empty. *)
Definition print_list (title : string) (l : list string) : list xo :=
  match l with
  | [] => []
  | _ => XoEmit title [] :: map (fun s => XoEmit "  {d:%s}
" [s]) l
  end.

(** [EMIT_SUMMARY_FIELD(label, value)], with the separator it leaves. *)
Definition summary_field (label : string) (value : Z) (acc : list xo * string)
    : list xo * string :=
  if 0 <? value then
    (acc.1 ++ [XoEmit ("{P:/%s}{Lw:" +:+ label +:+ "}{d:/%d}")
                 [acc.2; utoa false 10 value]], ", "%string)
  else acc.

Definition summary_line (t : tally) : list xo :=
  if 1 <? tests_run t + tests_skipped t then
    [XoEmit "{Lc:SUMMARY}" []] ++
    (summary_field "unexpectedly passed" (tests_xpassed t)
      (summary_field "expectedly failed" (tests_xfailed t)
        (summary_field "failed" (tests_failed t)
          (summary_field "passed" (tests_passed t)
            (summary_field "skipped" (tests_skipped t) ([], " "%string)))))).1 ++
    [XoEmit "
" []]
  else [].

Definition summarise : eff cap (driver cap W) unit :=
  t ← gets d_tally;
  emit (print_list "Skipped:
" (cheri_skipped_tests t)) ;;
  emit (print_list "Expected failures:
" (cheri_xfailed_tests t)) ;;
  emit (print_list "Unexpected failures:
" (cheri_failed_tests t)) ;;
  emit (print_list "Unexpected passes:
" (cheri_xpassed_tests t)) ;;
  emit (print_list "Warnings:
" (cheri_test_warnings t)) ;;
  emit (summary_line t) ;;
  emit [XoFinish] ;;
  if 0 <? tests_failed t then exit (-1) else exit EX_OK.

Definition run_tests (o : options) (argv : list string)
    : eff cap (driver cap W) unit :=
  emit [XoOpen XoContainer "testsuites"; XoAttr "name" (cfg_prog g);
        XoOpen XoContainer "testsuite"; XoOpen XoList "test"] ;;
  run_selected o argv ;;
  emit [XoClose XoList "test"; XoClose XoContainer "testsuite";
        XoClose XoContainer "testsuites"] ;;
  summarise.

(** ** The child of a test: a process started with [-E] *)

Definition cheriostest_run_child (ctp : cheri_test cap W) : test cap W unit :=
  match ct_child_func ctp with
  | None => child_err EX_SOFTWARE (ct_name ctp +:+ " has no child function")
  | Some f =>
      f ;; child_err EX_SOFTWARE (ct_name ctp +:+ " child function returned")
  end.

(** The loop of the C function goes on after a match, but
    [cheriostest_run_child] does not return. *)
Definition cheriostest_run_child_name (name : string) : test cap W unit :=
  foreach (filter (fun ct => ct_name ct = name) tests) cheriostest_run_child ;;
  child_err EX_USAGE ("unknown test: " +:+ name).

(** ** main *)

(* libxo's own options; sigaltstack(2) and its stack; the shared page;
   setrlimit(2): [false] stands for a call that fails *)
Context (xo_parse_args : list string -> option (list string)).
Context (qemu_trace_perthread : option bool).
Context (os_sigaltstack os_shared_page os_setrlimit : bool).

(** A process that has no shared page: [ccsp] is null. *)
Definition as_child (o : options) (m : test cap W unit)
    : eff cap (driver cap W) unit := fun d =>
  let s := Proc None (d_errno d) ∅ EmptyString EmptyString (o_verbose o)
             (d_world d) in
  ((m s).1, set_dworld (p_world (m s).2) d).

Definition main (argv : list string) : eff cap (driver cap W) unit :=
  match xo_parse_args argv with
  | None => exit 1
  | Some argv =>
      match parse_options g qemu_trace_perthread argv with
      | inr code => exit code
      | inl (o, operands) =>
          match validate o (length operands) with
          | DoUsage => exit EX_USAGE
          | DoList => list_tests o
          | DoChild =>
              if os_sigaltstack
              then as_child o (cheriostest_run_child_name
                                 (default EmptyString (head operands)))
              else exit EX_OSERR
          | DoRun =>
              if os_sigaltstack && os_shared_page
                 && (o_coredump_enabled o || os_setrlimit)
              then run_tests o operands
              else exit EX_OSERR
          end
      end
  end.
End Main.

(** ** Facts *)

Section Facts.
Context {cap W : Type} {CH : Cheri cap} {LC : Libc cap W} {RO : RunnerOS W}.
Context (g : config) (indet_flaky : option string) (indet_fd : Z).
Context (fnmatch : string -> string -> bool).
Context (tests : list (cheri_test cap W)).

(** A loop whose body adds [k x] to a measure adds the sum. *)
Lemma wlp_foreach_sum {A} (I : driver cap W -> Prop) (mu : driver cap W -> Z)
    (f : A -> eff cap (driver cap W) unit) (k : A -> Z) (l : list A) d :
  (forall x d, I d -> wlp (f x) (fun _ d' => I d' /\ mu d' = mu d + k x) d) ->
  I d ->
  wlp (foreach l f) (fun _ d' => I d' /\ mu d' = mu d + foldr (fun x n => k x + n) 0 l) d.
Proof.
  intros Hf. revert d. induction l as [|x l IH]; intros d HI; simpl.
  { wp_simpl. split; [done|lia]. }
  wp_simpl. eapply wpx_mono; [|by apply Hf]. intros [] d1 [HI1 Hm1].
  eapply wpx_mono; [|by apply IH]. intros [] d2 [HI2 Hm2]. split; [done|lia].
Qed.

Definition selected_weight (o : options) (ct : cheri_test cap W) : Z :=
  if filtered o ct then 0 else 1.

(** Running the selected tests files, for each time a test is selected, one
    result unless [-f] leaves it out. *)
Definition selection (o : options) (argv : list string)
    : list (cheri_test cap W) :=
  if o_run_all o then tests
  else if o_glob o then
    concat (map (fun pat => filter (fun ct => fnmatch pat (ct_name ct) = true) tests) argv)
  else omap (fun name => find (fun ct => String.eqb name (ct_name ct)) tests) argv.

Definition weight_sum (o : options) (l : list (cheri_test cap W)) : Z :=
  foldr (fun ct n => selected_weight o ct + n) 0 l.

Lemma weight_sum_app o l1 l2 :
  weight_sum o (l1 ++ l2) = weight_sum o l1 + weight_sum o l2.
Proof. induction l1 as [|x l1 IH]; simpl; [done|]. rewrite IH. lia. Qed.

Lemma weight_sum_concat {A} o (h : A -> list (cheri_test cap W)) l :
  foldr (fun x n => weight_sum o (h x) + n) 0 l = weight_sum o (concat (map h l)).
Proof. induction l as [|x l IH]; simpl; [done|]. by rewrite weight_sum_app, IH. Qed.

Definition all_consistent (d : driver cap W) : Prop := consistent (d_tally d).

Lemma wlp_run_one o ct (d : driver cap W) :
  all_consistent d ->
  wlp (cheriostest_run_test g o indet_flaky indet_fd ct) (fun _ d' =>
    all_consistent d' /\
    filed (d_tally d') = filed (d_tally d) + selected_weight o ct) d.
Proof.
  intros Hc. eapply wpx_mono; [|apply wlp_run_test]. intros [] d' (l & _ & H).
  unfold selected_weight, all_consistent. destruct (filtered o ct).
  - destruct H as [_ ->]. split; [done|lia].
  - destruct H as [H _]. split; [by eapply tally_step_consistent|].
    by apply tally_step_filed.
Qed.

Lemma foldr_filter o (P : cheri_test cap W -> bool) l :
  foldr (fun ct n => (if P ct then selected_weight o ct else 0) + n) 0 l
  = weight_sum o (filter (fun ct => P ct = true) l).
Proof.
  induction l as [|x l IH]; simpl; [done|]. rewrite filter_cons, IH.
  destruct (P x) eqn:E; case_decide; simpl; [done|congruence|congruence|lia].
Qed.

(** C6: a run over the selected tests that comes to its end has filed one
    result for every selected test that [-f] does not leave out, counting a
    test as often as it is selected, and the counters are still equal to the
    lengths of the lists. *)
Theorem run_selected_files_selection (o : options) (argv : list string)
    (d : driver cap W) :
  consistent (d_tally d) ->
  wlp (run_selected g indet_flaky indet_fd fnmatch tests o argv) (fun _ d' =>
    consistent (d_tally d') /\
    filed (d_tally d') = filed (d_tally d) + weight_sum o (selection o argv)) d.
Proof.
  intros Hc. unfold run_selected, selection.
  destruct (o_run_all o).
  { apply (wlp_foreach_sum all_consistent (fun d => filed (d_tally d))); [|done].
    intros; by apply wlp_run_one. }
  destruct (o_glob o).
  - eapply wpx_mono; [|apply (wlp_foreach_sum all_consistent (fun d => filed (d_tally d)) _
      (fun pat => weight_sum o (filter (fun ct => fnmatch pat (ct_name ct) = true) tests)));
      [|done]].
    + intros [] d'. by rewrite weight_sum_concat.
    + intros pat d1 Hc1. rewrite <- foldr_filter.
      apply (wlp_foreach_sum all_consistent (fun d => filed (d_tally d))); [|done].
      intros ct d2 Hc2. destruct (fnmatch pat (ct_name ct)); wp_simpl.
      * by apply wlp_run_one.
      * split; [done|lia].
  - eapply wpx_mono; [|apply (wlp_foreach_sum all_consistent (fun d => filed (d_tally d)) _
      (fun name => weight_sum o (option_list (find (fun ct => String.eqb name (ct_name ct)) tests))));
      [|done]].
    + intros [] d' [Hd' Hf]. split; [done|]. rewrite Hf. f_equal. clear.
      induction argv as [|n argv IH]; simpl; [done|]. rewrite IH.
      destruct (find _ tests); simpl; change (list_omap string _) with (@omap list _ string (cheri_test cap W)); lia.
    + intros name d1 Hc1. unfold cheriostest_run_test_name.
      destruct (find _ tests); wp_simpl; [|done].
      eapply wpx_mono; [|by apply wlp_run_one]. intros [] d2 [? ->].
      split; [done|]. lia.
Qed.
End Facts.

Lemma run_selected_files_selection_witness :
  let tests := [toy_test "a" cheriostest_success; toy_test "b" cheriostest_success] in
  let o := Options false false false false true false false false false false
             false 0 false in
  consistent (d_tally toy_driver) /\
  wlp (run_selected toy_config None 0 (fun _ _ => true) tests o ["*"%string; "*"%string])
    (fun _ d' => consistent (d_tally d') /\ filed (d_tally d') = 4) toy_driver.
Proof.
  split; [exact tally0_consistent|].
  exact (run_selected_files_selection toy_config None 0 (fun _ _ => true)
    [toy_test "a" cheriostest_success; toy_test "b" cheriostest_success] _ _
    toy_driver tally0_consistent).
Defined.

Section Exit.
Context {cap W : Type} {CH : Cheri cap} {LC : Libc cap W} {RO : RunnerOS W}.

(** The summary always leaves the process, with a status that is zero
    exactly when no test was filed as failed: skips, expected failures and
    unexpected passes do not make a run fail. *)
Theorem summarise_exit_status (d : driver cap W) :
  consistent (d_tally d) ->
  exists code d', summarise d = (Exited code, d') /\
    (code mod 256 = 0 <-> cheri_failed_tests (d_tally d) = []) /\
    (cheri_failed_tests (d_tally d) <> [] -> code mod 256 = 255).
Proof.
  intros Hc. pose proof (failed_listed _ Hc) as Hf.
  unfold summarise, mbind, eff_bind, gets, emit, modify.
  cbn -[summary_line print_list].
  assert ((0 <? tests_failed (d_tally d)) = true <-> cheri_failed_tests (d_tally d) <> [])
    as Hlt.
  { rewrite Z.ltb_lt, Hf. destruct (cheri_failed_tests (d_tally d)); simpl.
    - split; [lia|done].
    - split; [done|lia]. }
  destruct (0 <? tests_failed (d_tally d)); eexists _, _; (split; [reflexivity|]).
  - destruct Hlt as [H _]. specialize (H eq_refl). split; [|done].
    split; [done|by intros ?].
  - assert (cheri_failed_tests (d_tally d) = []) as E.
    { destruct (cheri_failed_tests (d_tally d)); [done|]. exfalso.
      by destruct Hlt as [_ Hlt]; specialize (Hlt ltac:(done)). }
    rewrite E. done.
Qed.
End Exit.

Lemma summarise_exit_status_witness :
  let d := Driver (count_failed "f: x" tally0) (child_state_zero (cap := scap)) [] 0 tt in
  consistent (d_tally d) /\
  exists code d', summarise d = (Exited code, d') /\
    (code mod 256 = 0 <-> ["f: x"%string] = []) /\
    (["f: x"%string] <> [] -> code mod 256 = 255).
Proof.
  assert (consistent (count_failed "f: x" tally0)) as H by (split; vm_compute; intuition discriminate).
  split; [exact H|].
  exact (summarise_exit_status (Driver (count_failed "f: x" tally0)
           (child_state_zero (cap := scap)) [] 0 tt) H).
Defined.

(** ** The option loop *)

Section OptionFacts.
Context (g : config) (qemu : option bool).

Definition count_char (c : ascii) (cs : list ascii) : Z :=
  Z.of_nat (length (filter (fun d => c = d) cs)).
Definition has_char (c : ascii) (cs : list ascii) : bool := bool_decide (c ∈ cs).

(** What a list of option characters adds up to. *)
Definition options_of (cs : list ascii) (o : options) : options :=
  Options (o_is_execed_child o || has_char "E" cs)
    (o_execed_child_has_extra_argv o || has_char "K" cs)
    (o_list o || has_char "l" cs) (o_run_all o || has_char "a" cs)
    (o_glob o || has_char "g" cs) (o_fast_tests_only o || has_char "f" cs)
    (o_qtrace o || has_char "q" cs || has_char "Q" cs)
    (o_qtrace_user_mode_only o || has_char "Q" cs)
    (o_sleep_after_test o || has_char "s" cs)
    (o_coredump_enabled o || has_char "c" cs)
    (o_debugger_enabled o || has_char "d" cs)
    (o_verbose o + count_char "v" cs) (o_xml o || has_char "x" cs).

(** The characters that set an option on this system. *)
Definition accepted_char (c : ascii) : bool :=
  char_in c "acdEfgKlsvx" ||
  ((Ascii.eqb c "q" || Ascii.eqb c "Q") && is_freebsd g &&
   match qemu with Some b => b | None => false end).

Lemma has_char_cons c d cs : has_char c (d :: cs) = Ascii.eqb d c || has_char c cs.
Proof.
  unfold has_char. destruct (Ascii.eqb_spec d c) as [->|Hne]; simpl.
  - apply bool_decide_eq_true_2. by left.
  - apply bool_decide_ext. rewrite elem_of_cons. naive_solver.
Qed.

Lemma count_char_cons c d cs :
  count_char c (d :: cs) = (if Ascii.eqb d c then 1 else 0) + count_char c cs.
Proof.
  unfold count_char. rewrite filter_cons.
  destruct (Ascii.eqb_spec d c); case_decide; try done. simpl. lia.
Qed.

Lemma set_opt_spec c o :
  match set_opt g qemu c o with
  | inl o' => accepted_char c = true /\ o' = options_of [c] o
  | inr _ => accepted_char c = false
  end.
Proof.
  destruct o as [E K l a gl f q Q s co d v x].
  unfold set_opt, options_of, accepted_char, char_in. simpl.
  rewrite !has_char_cons, !count_char_cons.
  unfold has_char, count_char. simpl.
  repeat match goal with
    | |- context [Ascii.eqb c ?k] => destruct (Ascii.eqb_spec c k); subst; simpl
    end;
    destruct (is_freebsd g), qemu as [[]|]; simpl;
    rewrite ?orb_false_r, ?orb_true_r, ?Z.add_0_r; auto.
Qed.

Lemma options_of_nil o : options_of [] o = o.
Proof.
  destruct o. unfold options_of, has_char, count_char. simpl.
  by rewrite !orb_false_r, Z.add_0_r.
Qed.

Lemma options_of_cons c cs o :
  options_of cs (options_of [c] o) = options_of (c :: cs) o.
Proof.
  assert (forall k, has_char k [c] = Ascii.eqb c k) as H1.
  { intros k. rewrite has_char_cons. apply orb_false_r. }
  unfold options_of; cbn [o_is_execed_child o_execed_child_has_extra_argv o_list
    o_run_all o_glob o_fast_tests_only o_qtrace o_qtrace_user_mode_only
    o_sleep_after_test o_coredump_enabled o_debugger_enabled o_verbose o_xml].
  rewrite (count_char_cons _ c cs), (count_char_cons _ c []).
  change (count_char "v" []) with 0.
  f_equal; rewrite ?H1, ?has_char_cons, ?orb_assoc; try done; [|lia].
  destruct (o_qtrace o), (Ascii.eqb c "q"), (Ascii.eqb c "Q"),
    (has_char "q" cs), (has_char "Q" cs); done.
Qed.

(** The option loop succeeds exactly when every option character is
    known (and [-q] and [-Q] are supported), and then each flag of the result
    is set iff its letter is present and the verbosity counts the [v]s: the
    order of the options does not matter.  The exception the code makes is
    [-Q], which implies [-q]. *)
Theorem set_opts_spec (cs : list ascii) (o : options) :
  match set_opts g qemu cs o with
  | inl o' => Forall (fun c => accepted_char c = true) cs /\ o' = options_of cs o
  | inr _ => Exists (fun c => accepted_char c = false) cs
  end.
Proof.
  revert o. induction cs as [|c cs IH]; intros o; simpl.
  { split; [constructor|]. by rewrite options_of_nil. }
  pose proof (set_opt_spec c o) as Hc.
  destruct (set_opt g qemu c o) as [o1|e]; [|by left].
  destruct Hc as [Hc ->]. specialize (IH (options_of [c] o)).
  destruct (set_opts g qemu cs (options_of [c] o)).
  - destruct IH as [IH ->]. split; [by constructor|]. apply options_of_cons.
  - by right.
Qed.
End OptionFacts.

(** The command lines [main] acts on. *)
Definition child_command_line (o : options) (argc : nat) : Prop :=
  o_is_execed_child o = true /\ o_run_all o = false /\ o_glob o = false /\
  o_list o = false /\
  if o_execed_child_has_extra_argv o then (1 <= argc)%nat else argc = 1%nat.

Definition run_command_line (o : options) (argc : nat) : Prop :=
  o_is_execed_child o = false /\ o_execed_child_has_extra_argv o = false /\
  o_list o = false /\
  if o_run_all o then o_glob o = false /\ argc = 0%nat else (1 <= argc)%nat.

Definition list_command_line (o : options) (argc : nat) : Prop :=
  o_is_execed_child o = false /\ o_execed_child_has_extra_argv o = false /\
  o_list o = true /\ o_run_all o = false /\ argc = 0%nat.

(** After the checks of [main], a child is run only for a command line
    that says [-E], exactly one test name (at least one with [-K]) and none of
    [-a], [-g], [-l]; the tests are run only for either [-a] alone or a non
    empty list of operands, and never for a [-K] without [-E]; a listing takes
    no operand.  Every other combination is a usage error. *)
Theorem validate_spec (o : options) (argc : nat) :
  match validate o argc with
  | DoChild => child_command_line o argc
  | DoRun => run_command_line o argc
  | DoList => list_command_line o argc
  | DoUsage => ~ child_command_line o argc /\ ~ run_command_line o argc /\
               ~ list_command_line o argc
  end.
Proof.
  unfold validate, child_command_line, run_command_line, list_command_line.
  destruct o as [E K l a gl f q Q s co d v x]; simpl.
  destruct argc as [|[|argc]], E, K, l, a, gl; simpl; intuition (discriminate || lia).
Qed.
