(* ===== verification/Spawn.v ===== *)
(** * Spawn: re-executing the program (cheriostest.c, cheriostest_internal.c)

    A test that needs a fresh process starts the program again with [-E] and
    its own name: [mk_exec_args] builds the argument vector,
    [cheriostest_spawn_child_args] starts the process in one of four ways, and
    the options are read back by [Main.parse_options].  The last part locates
    the helper programs next to the running executable. *)

From S2P Require Import Prelude Printf Cheri Harness Runner Toy RunnerFacts Main.

(** On FreeBSD and on Linux. *)
Definition PATH_MAX (g : config) : nat := if is_freebsd g then 1024 else 4096.

Inductive spawn_child_mode :=
  SC_MODE_POSIX_SPAWN | SC_MODE_FORK | SC_MODE_VFORK | SC_MODE_RFORK
| SC_MODE_OTHER (n : Z).   (* an int that is no enumerator *)

#[export] Instance spawn_child_mode_eq_dec : EqDecision spawn_child_mode.
Proof. solve_decision. Defined.

Inductive fork_call := Fork | VFork | RFork.

(** The system calls; an errno on the right of a sum, or in an [option], is a
    call that failed.  The pid that a fork returns is the one seen by the
    process the definitions follow: 0 in the child. *)
Class SpawnOS (W : Type) := {
  os_exe_path : W -> string + Z;          (* target of /proc/self/exe *)
  os_aux_execpath : W -> string + Z;      (* elf_aux_info(AT_EXECPATH) *)
  os_environ : list string;
  os_posix_spawn : string -> list string -> list string -> W -> (Z + Z) * W;
  os_forks : fork_call -> W -> (Z + Z) * W;
  os_execve : string -> list string -> option (list string) -> W -> option Z * W;
  os_waitpid : Z -> W -> Z * W;           (* the status in the caller's [int] *)
  os_stat : string -> W -> option Z * W;
}.

(** What the caller of a spawn function sees: a pid, unless the process has
    become the new program, with its path, arguments and environment. *)
Inductive spawned :=
  Pid (pid : Z)
| Replaced (path : string) (argv : list string) (envv : option (list string)).

(** ** Arrays of strings *)

(** [a[argc++] = v] for each [v], from the index [argc] on; [None] when a store
    is out of bounds. *)
Fixpoint store_args (a : list (option string)) (argc : nat)
    (vs : list (option string)) : option (list (option string)) :=
  match vs with
  | [] => Some a
  | v :: vs' =>
      if (argc <? length a)%nat then store_args (<[argc := v]> a) (S argc) vs'
      else None
  end.

(** The strings of an array up to its first NULL. *)
Fixpoint cargv (a : list (option string)) : list string :=
  match a with
  | Some s :: a' => s :: cargv a'
  | _ => []
  end.

Lemma store_args_fits vs : forall a k,
  (k + length vs <= length a)%nat ->
  store_args a k vs = Some (take k a ++ vs ++ drop (k + length vs) a).
Proof.
  induction vs as [|v vs IH]; intros a k H; simpl in *.
  { by rewrite Nat.add_0_r, take_drop. }
  replace (k <? length a)%nat with true by (symmetry; apply Nat.ltb_lt; lia).
  rewrite IH by (rewrite length_insert; lia). f_equal.
  rewrite (take_S_r _ _ v) by (apply list_lookup_insert_eq; lia).
  rewrite (take_insert_ge _ k k) by lia. rewrite (drop_insert_lt _ (S k + length vs)) by lia.
  rewrite <- app_assoc, Nat.add_succ_r. done.
Qed.

Lemma store_args_overflows vs : forall a k,
  (k <= length a)%nat -> (length a < k + length vs)%nat -> store_args a k vs = None.
Proof.
  induction vs as [|v vs IH]; intros a k Hk H; simpl in *; [lia|].
  destruct (Nat.ltb_spec k (length a)); [|done].
  apply IH; rewrite length_insert; lia.
Qed.

Lemma cargv_terminated ss a : cargv (map Some ss ++ None :: a) = ss.
Proof. induction ss as [|s ss IH]; simpl; [done|]. by rewrite IH. Qed.

(** ** The operations *)

Section Spawn.
Context {cap W : Type} {CH : Cheri cap} {LC : Libc cap W} {SO : SpawnOS W}.
Context (g : config) (o : options).
Context (running_test : option (cheri_test cap W)).

(** Store the path of the executable in a buffer of [size] bytes. *)
Definition get_execpath (size : nat) : test cap W string :=
  w ← gets p_world;
  if is_linux g then
    match os_exe_path w with
    | inr e =>
        modify (set_errno e) ;;
        child_err EX_OSERR ("readlink: " +:+ strerror (cap := cap) (W := W) e)
    | inl path =>
        let len := Nat.min (String.length path) (PATH_MAX g) in
        if (len <? size)%nat then mret (String.substring 0 len path) else undef
    end
  else
    match os_aux_execpath w with
    | inr e =>
        child_err EX_OSERR ("elf_aux_info: " +:+ strerror (cap := cap) (W := W) e)
    | inl path => mret path
    end.

(** The values stored in the array, in order. *)
Definition exec_arg_values (execpath name : string) (extra : list string)
    : list (option string) :=
  [Some execpath; Some "-E"%string] ++
  (if (0 <? length extra)%nat then [Some "-K"%string] else []) ++
  (if o_coredump_enabled o then [Some "-c"%string] else []) ++
  (if negb (o_verbose o =? 0) then [Some "-v"%string] else []) ++
  [Some name] ++ map Some extra ++ [None].

Definition mk_exec_args (ctp : option (cheri_test cap W))
    (extra_args : option (list string)) : test cap W (list (option string)) :=
  let extra := default [] extra_args in
  execpath ← get_execpath (PATH_MAX g);
  match ctp with
  | None => undef
  | Some ctp =>
      match store_args (replicate (6 + length extra) None) 0
              (exec_arg_values execpath (ct_name ctp) extra) with
      | Some exec_args => mret exec_args
      | None => undef
      end
  end.

Definition EINVAL : Z := 22.
Definition EDOOFUS : Z := 88.

(** The pid, or [-1] with [errno] set. *)
Definition start_child (mode : spawn_child_mode) (path : string)
    (argv envv : list string) : test cap W Z :=
  let call f :=
    r ← world_op f;
    match r with
    | inl pid => mret pid
    | inr e => modify (set_errno e) ;; mret (-1)
    end in
  let unknown :=
    modify (set_errno (if is_freebsd g then EDOOFUS else EINVAL)) ;; mret (-1) in
  match mode with
  | SC_MODE_POSIX_SPAWN => call (os_posix_spawn path argv envv)
  | SC_MODE_FORK => call (os_forks Fork)
  | SC_MODE_RFORK => if is_freebsd g then call (os_forks RFork) else unknown
  | SC_MODE_VFORK => call (os_forks VFork)
  | SC_MODE_OTHER _ => unknown
  end.

Definition cheriostest_spawn_child_args (mode : spawn_child_mode)
    (argv envv : option (list string)) : test cap W spawned :=
  exec_args ← mk_exec_args running_test argv;
  let args := cargv exec_args in
  let path := default EmptyString (head args) in
  let envv :=
    if decide (mode = SC_MODE_POSIX_SPAWN) then Some (default os_environ envv)
    else envv in
  pid ← start_child mode path args (default [] envv);
  if pid =? -1 then
    child_err EX_OSERR "cheriostest_spawn_child_args: fork/spawn error"
  else if negb (bool_decide (mode = SC_MODE_POSIX_SPAWN)) && (pid =? 0) then
    r ← world_op (os_execve path args envv);
    match r with
    | None => mret (Replaced path args envv)
    | Some e => modify (set_errno e) ;; mret (Pid pid)
    end
  else mret (Pid pid).

Definition cheriostest_spawn_child (mode : spawn_child_mode) : test cap W spawned :=
  cheriostest_spawn_child_args mode None None.

(** ** Tests of the mechanism (cheriostest_internal.c) *)

Definition exec_child_cf : test cap W unit :=
  when (negb (o_verbose o =? 0))
    (modify (fun s => set_stderr (p_stderr s +:+ "in child function
") s)) ;;
  exit 0.

(** The four tests have this body, with their own mode.  A process that has
    become the new program does not go on. *)
Definition internal_spawn_child (mode : spawn_child_mode) : test cap W unit :=
  r ← cheriostest_spawn_child mode;
  match r with
  | Replaced _ _ _ => mret tt
  | Pid pid =>
      CHERIOSTEST_VERIFY2 (0 <? pid) "spawning child process failed" [] ;;
      res ← world_op (os_waitpid pid);
      fail_if (negb (res =? 0)) "Bad child process exit" [] ;;
      cheriostest_success
  end.

Definition internal_spawn_child_posix_spawn := internal_spawn_child SC_MODE_POSIX_SPAWN.
Definition internal_spawn_child_fork := internal_spawn_child SC_MODE_FORK.
Definition internal_spawn_child_rfork := internal_spawn_child SC_MODE_RFORK.
Definition internal_spawn_child_vfork := internal_spawn_child SC_MODE_VFORK.

(** ** Helper programs *)

(** [helper_dir] is the content of the static buffer; the result is its new
    content, which is also what the function returns. *)
Definition cheriostest_get_helper_dir (helper_dir : string) : test cap W string :=
  if String.eqb helper_dir EmptyString then
    execpath ← get_execpath (PATH_MAX g + 1);
    let dir := default "."%string (before_last "/" execpath) in
    mret (cut (PATH_MAX g + 1) (dir +:+ "/" +:+ cfg_helper_reldir g))
  else mret helper_dir.

(** The path, and the new content of the buffer of the directory. *)
Definition _cheriostest_get_helper_path (helper_dir : string)
    (ctp : option (cheri_test cap W)) : test cap W (option string * string) :=
  match ctp with
  | None => mret (None, helper_dir)
  | Some ctp =>
      dir ← cheriostest_get_helper_dir helper_dir;
      mret (Some (cut (PATH_MAX g)
                    (dir +:+ "/" +:+ ct_name ctp +:+ cfg_prog_suffix g)), dir)
  end.

Definition cheriostest_get_helper_path (helper_dir : string)
    : test cap W (option string * string) :=
  _cheriostest_get_helper_path helper_dir running_test.

Definition cheriostest_skip_no_helper (helper_dir : string)
    (ctp : option (cheri_test cap W)) : test cap W (option string * string) :=
  r ← _cheriostest_get_helper_path helper_dir ctp;
  match r.1 with
  | None => mret (None, r.2)
  | Some path =>
      st ← world_op (os_stat path);
      mret (match st with Some _ => Some "couldn't stat helper"%string | None => None end,
            r.2)
  end.
End Spawn.

(** ** Facts *)

Lemma substring_all (p : string) : String.substring 0 (String.length p) p = p.
Proof. induction p as [|c p IH]; simpl; [done|]. by rewrite IH. Qed.

Section SpawnFacts.
Context {cap W : Type} {CH : Cheri cap} {LC : Libc cap W} {SO : SpawnOS W}.
Context (g : config) (o : options).

(** The arguments that a child is started with, its path apart. *)
Definition child_arguments (name : string) (extra : list string) : list string :=
  ["-E"%string] ++
  (if (0 <? length extra)%nat then ["-K"%string] else []) ++
  (if o_coredump_enabled o then ["-c"%string] else []) ++
  (if negb (o_verbose o =? 0) then ["-v"%string] else []) ++ name :: extra.

(** The three optional flags together need one slot more than there is. *)
Definition too_many_flags (extra : list string) : bool :=
  (0 <? length extra)%nat && o_coredump_enabled o && negb (o_verbose o =? 0).

Lemma exec_arg_values_spec path name extra :
  exec_arg_values o path name extra
  = map Some (path :: child_arguments name extra) ++ [None].
Proof.
  unfold exec_arg_values, child_arguments.
  destruct (0 <? length extra)%nat, (o_coredump_enabled o), (negb (o_verbose o =? 0));
    simpl; done.
Qed.

Lemma length_exec_arg_values path name extra :
  (length (exec_arg_values o path name extra) <= 6 + length extra)%nat
  <-> too_many_flags extra = false.
Proof.
  unfold exec_arg_values, too_many_flags. rewrite !length_app, length_map.
  destruct (0 <? length extra)%nat eqn:E, (o_coredump_enabled o),
    (negb (o_verbose o =? 0)); simpl; split; try done; lia.
Qed.

Lemma get_execpath_linux size s path :
  is_linux g = true -> os_exe_path (p_world s) = inl path ->
  (String.length path < PATH_MAX g)%nat -> (PATH_MAX g <= size)%nat ->
  get_execpath (cap := cap) g size s = (Val path, s).
Proof.
  intros Hg Hp Hl Hs. unfold get_execpath, mbind, eff_bind, gets. rewrite Hg, Hp.
  rewrite Nat.min_l by lia.
  replace (String.length path <? size)%nat with true
    by (symmetry; apply Nat.ltb_lt; lia).
  by rewrite substring_all.
Qed.

Lemma mk_exec_args_run s path ctp extra_args :
  get_execpath (cap := cap) g (PATH_MAX g) s = (Val path, s) ->
  let extra := default [] extra_args in
  too_many_flags extra = false ->
  exists a, mk_exec_args g o (Some ctp) extra_args s = (Val a, s) /\
    cargv a = path :: child_arguments (ct_name ctp) extra.
Proof.
  intros Hp extra Ht. unfold mk_exec_args. erewrite bind_val by exact Hp.
  pose proof (proj2 (length_exec_arg_values path (ct_name ctp) extra) Ht) as Hl.
  rewrite store_args_fits by (rewrite length_replicate; exact Hl).
  eexists. split; [reflexivity|]. rewrite exec_arg_values_spec. simpl take.
  rewrite <- app_assoc. exact (cargv_terminated (path :: _) _).
Qed.

(** C10: on Linux, building the argument vector of a child stays inside its
    two allocations exactly when the path of the executable is shorter than
    PATH_MAX and extra arguments, [-c] and [-v] do not come together; the
    vector is then the path, the flags, the name of the test and the extra
    arguments.  Otherwise the function writes out of bounds. *)
Theorem mk_exec_args_bounds (ctp : cheri_test cap W)
    (extra_args : option (list string)) (s : proc cap W) (path : string) :
  let extra := default [] extra_args in
  is_linux g = true -> os_exe_path (p_world s) = inl path ->
  (((String.length path < PATH_MAX g)%nat /\ too_many_flags extra = false) ->
   exists a, mk_exec_args g o (Some ctp) extra_args s = (Val a, s) /\
     cargv a = path :: child_arguments (ct_name ctp) extra) /\
  (((PATH_MAX g <= String.length path)%nat \/ too_many_flags extra = true) ->
   mk_exec_args g o (Some ctp) extra_args s = (Undef, s)).
Proof.
  intros extra Hg Hp. split.
  - intros [Hl Ht]. apply mk_exec_args_run; [|done]. by apply get_execpath_linux.
  - intros Hbad. destruct (Nat.lt_ge_cases (String.length path) (PATH_MAX g)) as [Hl|Hl].
    + destruct Hbad as [|Ht]; [lia|]. unfold mk_exec_args.
      erewrite bind_val by (by apply get_execpath_linux).
      rewrite store_args_overflows; [done|lia|]. rewrite length_replicate.
      pose proof (length_exec_arg_values path (ct_name ctp) extra) as H.
      rewrite Ht in H. apply Nat.nle_gt. by intros ?%H.
    + unfold mk_exec_args, get_execpath, mbind, eff_bind, gets. rewrite Hg, Hp.
      rewrite Nat.min_r by lia. by rewrite Nat.ltb_irrefl.
Qed.

(** *** The round trip through the command line *)

Definition starts_with_dash (s : string) : bool := has_prefix "-" s.

Lemma getopt_operands name rest :
  starts_with_dash name = false -> getopt (name :: rest) = ([], name :: rest).
Proof.
  intros H. destruct name as [|c name]; [done|].
  simpl in H. destruct (Ascii.eqb_spec c "-") as [->|Hne].
  - by destruct name.
  - destruct c as [[] [] [] [] [] [] [] []]; simpl; try done; by destruct Hne.
Qed.

(** The getopt(3) of glibc: options may also follow operands. *)
Fixpoint getopt_gnu (argv : list string) : list ascii * list string :=
  match argv with
  | [] => ([], [])
  | a :: rest =>
      match a with
      | String "-" (String "-" EmptyString) => ([], rest)
      | String "-" (String _ _ as group) =>
          let '(opts, operands) := getopt_gnu rest in
          (map (fun c => if char_in c optstring then c else "?"%char)
             (bytes_of group) ++ opts, operands)
      | _ => let '(opts, operands) := getopt_gnu rest in (opts, a :: operands)
      end
  end.

Lemma getopt_gnu_operands argv :
  Forall (fun a => starts_with_dash a = false) argv -> getopt_gnu argv = ([], argv).
Proof.
  induction 1 as [|a argv Ha _ IH]; [done|]. cbn [getopt_gnu]. rewrite IH.
  destruct a as [|c a]; [done|].
  destruct c as [[] [] [] [] [] [] [] []]; try done; by destruct a.
Qed.

(** Both read a command line alike whose operands do not look like options. *)
Lemma getopt_gnu_agrees argv :
  Forall (fun a => starts_with_dash a = false) (getopt argv).2 -> getopt_gnu argv = getopt argv.
Proof.
  induction argv as [|a argv IH]; [done|]. intros H.
  destruct (starts_with_dash a) eqn:Ha.
  - destruct a as [|c a]; [done|]. simpl in Ha.
    destruct (Ascii.eqb_spec "-" c) as [<-|]; [|by destruct c as [[] [] [] [] [] [] [] []]].
    cbn [getopt getopt_gnu] in *. destruct a as [|d a].
    + apply Forall_cons in H as [H _]. done.
    + assert (forall b, getopt (String "-" (String d a) :: argv) = b ->
        Forall (fun a => starts_with_dash a = false) (getopt argv).2 ->
        getopt_gnu (String "-" (String d a) :: argv) = b) as Hg.
      { intros b <- Hargv. cbn [getopt getopt_gnu]. by rewrite IH. }
      destruct d as [[] [] [] [] [] [] [] []]; try (apply Hg; [done|]; by destruct (getopt argv)).
      destruct a; [done|]. apply Hg; [done|]. by destruct (getopt argv).
  - rewrite getopt_operands in * by done. by apply getopt_gnu_operands.
Qed.

(** The options that the child reads. *)
Definition child_options (extra : list string) : options :=
  Options true (0 <? length extra)%nat false false false false false false false
    (o_coredump_enabled o) false (if o_verbose o =? 0 then 0 else 1) false.

(** The options and the operands that the parser finds. *)
Lemma spawn_arguments_parse (fg : config) (qemu : option bool)
    (name : string) (extra : list string) :
  starts_with_dash name = false ->
  parse_options fg qemu (child_arguments name extra)
  = inl (child_options extra, name :: extra) /\
  validate (child_options extra) (length (name :: extra)) = DoChild.
Proof.
  intros Hn. unfold child_arguments, child_options, parse_options. split.
  - pose proof (getopt_operands name extra Hn) as Hop.
    destruct (0 <? length extra)%nat, (o_coredump_enabled o), (o_verbose o =? 0);
      generalize dependent (name :: extra); intros rest Hop;
      cbn; rewrite Hop; reflexivity.
  - destruct extra; reflexivity.
Qed.

(** C11: the command line that the parent builds is read back by the child as
    the request it is: [-E] and the name of the test, [-K] exactly when there are
    extra arguments, which arrive unchanged, and the parent's [-c] and [-v] (a
    higher verbosity becomes 1).  It passes the checks of [main], so the child
    runs the child function of the parent's test.  The getopt(3) of glibc reads it
    alike unless an extra argument starts with a dash ([getopt_gnu_agrees]). *)
Theorem spawn_arguments_round_trip (fg : config) (qemu : option bool)
    (name : string) (extra : list string) :
  starts_with_dash name = false ->
  parse_options fg qemu (child_arguments name extra)
  = inl (child_options extra, name :: extra) /\
  validate (child_options extra) (length (name :: extra)) = DoChild.
Proof. apply spawn_arguments_parse. Qed.

Lemma bind_no_return {C S A} (m : eff C S A) (f : A -> eff C S A) s :
  (forall a, (m s).1 <> Val a) -> (m ≫= f) s = m s.
Proof.
  unfold mbind, eff_bind. destruct (m s) as [[] ?]; simpl; try done.
  by intros H; destruct (H a).
Qed.

Lemma run_child_no_return (ctp : cheri_test cap W) s u :
  (cheriostest_run_child ctp s).1 <> Val u.
Proof.
  unfold cheriostest_run_child. destruct (ct_child_func ctp) as [f|]; [|done].
  unfold mbind, eff_bind. by destruct (f s) as [[] ?].
Qed.

Lemma run_child_name_first (tests : list (cheri_test cap W)) name ctp s :
  head (filter (fun t => ct_name t = name) tests) = Some ctp ->
  cheriostest_run_child_name tests name s = cheriostest_run_child ctp s.
Proof.
  unfold cheriostest_run_child_name. destruct (filter _ tests) as [|t ts]; [done|].
  intros [= ->]. cbn [foreach]. etrans; [apply bind_assoc|].
  apply bind_no_return. intros u. apply run_child_no_return.
Qed.

Lemma child_main_run (fg : config) (qemu : option bool)
    `{!RunnerOS W} (fl : option string) (fd : Z) (fnmatch : string -> string -> bool)
    (tests : list (cheri_test cap W)) (shp rl : bool)
    (ctp : cheri_test cap W) (extra : list string) (d : driver cap W) :
  starts_with_dash (ct_name ctp) = false ->
  head (filter (fun t => ct_name t = ct_name ctp) tests) = Some ctp ->
  main fg fl fd fnmatch tests Some qemu true shp rl
    (child_arguments (ct_name ctp) extra) d
  = as_child (child_options extra) (cheriostest_run_child ctp) d.
Proof.
  intros Hn Hhd. unfold main.
  destruct (spawn_arguments_parse fg qemu (ct_name ctp) extra Hn) as [-> ->].
  simpl. unfold as_child. by rewrite (run_child_name_first _ _ _ _ Hhd).
Qed.

(** A process started with these arguments becomes the child function of
    the first test of that name, followed by an error exit should the function
    return; it runs without a shared page. *)
Theorem spawned_child_runs (fg : config) (qemu : option bool)
    `{!RunnerOS W} (fl : option string) (fd : Z) (fnmatch : string -> string -> bool)
    (tests : list (cheri_test cap W)) (shp rl : bool)
    (ctp : cheri_test cap W) (extra : list string) (d : driver cap W) :
  starts_with_dash (ct_name ctp) = false ->
  head (filter (fun t => ct_name t = ct_name ctp) tests) = Some ctp ->
  let argv := child_arguments (ct_name ctp) extra in
  main fg fl fd fnmatch tests Some qemu true shp rl argv d
  = as_child (child_options extra) (cheriostest_run_child ctp) d.
Proof. apply child_main_run. Qed.

(** The parent of a fork. *)
Lemma spawn_fork_parent s path (ctp : cheri_test cap W) argv envv pid w1 :
  get_execpath (cap := cap) g (PATH_MAX g) s = (Val path, s) ->
  too_many_flags (default [] argv) = false ->
  os_forks Fork (p_world s) = (inl pid, w1) -> 0 < pid ->
  cheriostest_spawn_child_args g o (Some ctp) SC_MODE_FORK argv envv s
  = (Val (Pid pid), set_world w1 s).
Proof.
  intros Hp Ht Hf Hpos. unfold cheriostest_spawn_child_args.
  destruct (mk_exec_args_run s path ctp argv Hp Ht) as (a & Hrun & _).
  erewrite test_bind by exact Hrun.
  erewrite test_bind.
  2: { unfold start_child, world_op, mbind, eff_bind. cbn. by rewrite Hf. }
  replace (pid =? -1) with false by lia. replace (pid =? 0) with false by lia. done.
Qed.

(** The tests of the mechanism pass exactly when there is a child and its wait
    status is 0. *)
Lemma internal_spawn_child_spec (ctp : option (cheri_test cap W)) mode s s1 pid :
  shared s1 ->
  cheriostest_spawn_child g o ctp mode s = (Val (Pid pid), s1) ->
  succeeds (internal_spawn_child g o ctp mode) s
  <-> 0 < pid /\ (os_waitpid pid (p_world s1)).1 = 0.
Proof.
  intros Hs1 Hp. unfold internal_spawn_child.
  rewrite (succeeds_bind _ _ _ _ _ Hp), (succeeds_checks _ _ _ _ _ Hs1).
  simpl forallb. rewrite andb_true_r, Z.ltb_lt. apply and_iff_compat_l.
  destruct (os_waitpid pid (p_world s1)) as [res w'] eqn:Hw.
  rewrite (succeeds_bind _ _ _ res (set_world w' s1))
    by (unfold world_op; by rewrite Hw).
  rewrite (succeeds_checks _ _ _ (set_world w' s1) _ Hs1). simpl.
  rewrite andb_true_r, negb_involutive, Z.eqb_eq.
  split; [by intros [? _]|]. intros ->. split; [done|]. by apply succeeds_success.
Qed.
End SpawnFacts.

(** ** Concrete runs *)

#[export] Instance toy_spawn : SpawnOS unit := {|
  os_exe_path _ := inl "/usr/bin/cheriostest"%string;
  os_aux_execpath _ := inl "/usr/bin/cheriostest"%string;
  os_environ := ["PATH=/bin"%string];
  os_posix_spawn _ _ _ w := (inl 7, w);
  os_forks _ w := (inl 0, w);
  os_execve _ _ _ w := (None, w);
  os_waitpid _ w := (0, w);
  os_stat _ w := (None, w);
|}.

(** A forked child replaces itself with a program that gets no environment. *)
Example toy_fork_environment :
  (cheriostest_spawn_child toy_config options0
     (Some (toy_test "t" cheriostest_success)) SC_MODE_FORK toy_proc).1
  = Val (Replaced "/usr/bin/cheriostest" ["/usr/bin/cheriostest"; "-E"; "t"] None).
Proof. vm_compute. done. Qed.

Example toy_helper_dir :
  (cheriostest_get_helper_dir toy_config "" toy_proc).1
  = Val "/usr/bin/../libexec"%string.
Proof. vm_compute. done. Qed.

Lemma mk_exec_args_bounds_witness :
  let t := toy_test "t" cheriostest_success in
  let o := Options false false false false false false false false false true
             false 2 false in
  is_linux toy_config = true /\
  (exists a, mk_exec_args toy_config o (Some t) None toy_proc = (Val a, toy_proc) /\
     cargv a = ["/usr/bin/cheriostest"; "-E"; "-c"; "-v"; "t"]%string) /\
  mk_exec_args toy_config o (Some t) (Some ["x"%string]) toy_proc = (Undef, toy_proc).
Proof.
  split; [reflexivity|]. split.
  - apply (proj1 (mk_exec_args_bounds (SO := toy_spawn) toy_config
      (Options false false false false false false false false false true
             false 2 false) (toy_test "t" cheriostest_success) None toy_proc
      "/usr/bin/cheriostest" eq_refl eq_refl)).
    split; [apply Nat.ltb_lt; by vm_compute|reflexivity].
  - apply (proj2 (mk_exec_args_bounds (SO := toy_spawn) toy_config
      (Options false false false false false false false false false true
             false 2 false) (toy_test "t" cheriostest_success) (Some ["x"%string])
      toy_proc "/usr/bin/cheriostest" eq_refl eq_refl)).
    right. reflexivity.
Defined.

Lemma spawn_arguments_round_trip_witness :
  starts_with_dash "vm_reservation" = false /\
  parse_options toy_config None (child_arguments options0 "vm_reservation" ["7"%string])
  = inl (child_options options0 ["7"%string], ["vm_reservation"; "7"]%string) /\
  validate (child_options options0 ["7"%string]) 2 = DoChild.
Proof.
  split; [reflexivity|].
  exact (spawn_arguments_round_trip options0 toy_config None "vm_reservation"
           ["7"%string] eq_refl).
Defined.

Lemma spawned_child_runs_witness :
  let t := with_child (exec_child_cf options0) (toy_test "t" cheriostest_success) in
  starts_with_dash (ct_name t) = false /\
  main toy_config None 0 (fun _ _ => true) [t] Some None true true true
    (child_arguments options0 "t" []) toy_driver
  = as_child (child_options options0 []) (cheriostest_run_child t) toy_driver.
Proof.
  split; [reflexivity|].
  exact (spawned_child_runs options0 toy_config None None 0 (fun _ _ => true)
    [with_child (exec_child_cf options0) (toy_test "t" cheriostest_success)]
    true true (with_child (exec_child_cf options0) (toy_test "t" cheriostest_success))
    [] toy_driver eq_refl eq_refl).
Defined.
