(* ===== verification/AddrGap.v ===== *)
(** * AddrGap: the search for free address space (cheriostest_util_vm.c)

    [find_address_space_gap] reads the memory map of its process and returns
    the start of a hole of a given length.  The two systems have two versions:
    on FreeBSD the map comes as an array in ascending order (procstat(3)), on
    Linux as the lines of /proc/self/maps, which the code pushes on a list and
    so searches from the top.

    [hole] is what a caller may rely on; the theorems say which hole each
    version finds, and that it gives up only when there is none. *)

From Stdlib Require Import Sorting.Sorted.
From S2P Require Import Prelude Printf Cheri Harness Toy.

(** An entry of the memory map: struct kinfo_vmentry, struct vma_attr_t. *)
Record vmentry := VmEntry { kve_start : Z; kve_end : Z }.

#[export] Instance vmentry_eq_dec : EqDecision vmentry.
Proof. solve_decision. Defined.

(** What libprocstat, fopen(3) and malloc(3) answer. *)
Class VmMap (W : Type) := {
  procstat_open_sysctl : W -> bool;              (* not NULL *)
  procstat_getprocs : W -> option Z;             (* not NULL, and [pcnt] *)
  procstat_getvmmap : W -> option (list vmentry);
  proc_self_maps : W -> Z + list string;         (* errno, or what getline reads *)
  malloc_vma_attr : W -> nat -> bool;            (* the n-th malloc is not NULL *)
}.

(** ** sscanf(line, "%llx-%llx", ...) *)

Definition isspace (c : ascii) : bool :=
  let n := Z.of_N (N_of_ascii c) in (n =? 32) || ((9 <=? n) && (n <=? 13)).

Fixpoint skip_space (s : string) : string :=
  match s with
  | String c s' => if isspace c then skip_space s' else s
  | EmptyString => s
  end.

(** An optional sign and an optional "0x". *)
Definition scan_sign (s : string) : bool * string :=
  match s with
  | String c s' =>
      if Ascii.eqb c "-" then (true, s')
      else if Ascii.eqb c "+" then (false, s') else (false, s)
  | EmptyString => (false, s)
  end.

Definition scan_0x (s : string) : string :=
  match s with
  | String a (String b s') =>
      if Ascii.eqb a "0" && (Ascii.eqb b "x" || Ascii.eqb b "X") then s' else s
  | _ => s
  end.

(** [%llx], with the saturation and the negation of strtoull(3). *)
Definition scan_llx (s : string) : option (Z * string) :=
  let '(neg, s1) := scan_sign (skip_space s) in
  match scan_0x s1 with
  | String c s2 =>
      match digit_val c with
      | Some d =>
          let '(v, rest) := strtou 16 d s2 in
          Some (if 2 ^ 64 <=? v then 2 ^ 64 - 1
                else if neg then u64 (- v) else v, rest)
      | None => None
      end
  | EmptyString => None
  end.

(** The members that it stores: one that does not match is left unset. *)
Definition sscanf_vma (line : string) : option Z * option Z :=
  match scan_llx line with
  | Some (start, String c rest) =>
      (Some start, if Ascii.eqb c "-" then fst <$> scan_llx rest else None)
  | Some (start, EmptyString) => (Some start, None)
  | None => (None, None)
  end.

(** ** The operations *)

Section Gap.
Context {cap W : Type} {CH : Cheri cap} {LC : Libc cap W} {VM : VmMap W}.
Context (g : config).

(** The body of both loops, between the end of an entry and the start of the
    one above it.  [None] goes on with the loop. *)
Definition try_gap (len align : Z) (lower_end upper_start : Z) : option Z :=
  let aligned_start := builtin_align_up lower_end align in
  let end_ := upper_start in
  if end_ <? aligned_start then None
  else if len <=? end_ - aligned_start then Some aligned_start
  else None.

(** [for (i = 1; i < vmcnt; i++)] over the array: [prev] is [kivp[i - 1]] and
    [kivp] what follows it.  The result is [addr], 0 if the loop ends. *)
Fixpoint scan_up (len align : Z) (prev : vmentry) (kivp : list vmentry) : Z :=
  match kivp with
  | [] => 0
  | cur :: kivp' =>
      match try_gap len align (kve_end prev) (kve_start cur) with
      | Some addr => addr
      | None => scan_up len align cur kivp'
      end
  end.

(** [for (i = 0; i < vmcnt - 1; i++)] over the list, [it] being the list from
    the current node.  To read a node that is not there, or a member that was
    never written, is undefined. *)
Fixpoint scan_down (len align : Z) (i bound : Z) (it : list (option Z * option Z))
    : test cap W Z :=
  if i <? bound then
    match it with
    | (Some end_, _) :: it' =>
        match it' with
        | (_, Some lower_end) :: _ =>
            match try_gap len align lower_end end_ with
            | Some addr => mret addr
            | None => scan_down len align (i + 1) bound it'
            end
        | _ => undef
        end
    | _ => undef
    end
  else mret 0.

(** [align == 0] asks for a region that a capability can represent. *)
Definition representable (len align : Z) : Z * Z :=
  if align =? 0 then
    let len := cheri_representable_length len in
    (len, CHERITEST_CHERI_REPRESENTABLE_ALIGNMENT len)
  else (len, align).

Definition check_found (addr len : Z) : test cap W Z :=
  fail_if (addr =? 0) "no free region of length %#jx
" [AInt len] ;;
  mret addr.

Definition find_address_space_gap_freebsd (len align : Z) : test cap W Z :=
  w ← gets p_world;
  CHERIOSTEST_VERIFY (procstat_open_sysctl w) "psp != NULL" ;;
  CHERIOSTEST_VERIFY (bool_decide (is_Some (procstat_getprocs w)))
    "kipp != NULL" ;;
  CHERIOSTEST_VERIFY (bool_decide (procstat_getprocs w = Some 1)) "pcnt == 1" ;;
  CHERIOSTEST_VERIFY (bool_decide (is_Some (procstat_getvmmap w)))
    "kivp != NULL" ;;
  let '(len, align) := representable len align in
  let addr := match procstat_getvmmap w with
              | Some (first :: kivp) => scan_up len align first kivp
              | _ => 0
              end in
  check_found addr len.

(** The list of the lines, each new node in front: a failed malloc is a null
    dereference. *)
Fixpoint read_maps (w : W) (n : nat) (lines : list string)
    (lh : list (option Z * option Z)) : test cap W (list (option Z * option Z)) :=
  match lines with
  | [] => mret lh
  | line :: lines' =>
      if malloc_vma_attr w n
      then read_maps w (S n) lines' (sscanf_vma line :: lh)
      else undef
  end.

Definition find_address_space_gap_linux (len align : Z) : test cap W Z :=
  w ← gets p_world;
  match proc_self_maps w with
  | inl errno =>
      modify (set_errno errno) ;;
      cheriostest_failure_errx "fopen: %s" [AStr (strerror errno)]
  | inr lines =>
      lh ← read_maps w 0 lines [];
      let vmcnt := u32 (Z.of_nat (length lh)) in
      let '(len, align) := representable len align in
      addr ← scan_down len align 0 (u32 (vmcnt - 1)) lh;
      check_found addr len
  end.

Definition find_address_space_gap (len align : Z) : test cap W Z :=
  if is_linux g then find_address_space_gap_linux len align
  else find_address_space_gap_freebsd len align.
End Gap.

(** ** Holes of a memory map *)

(** An aligned region of [len] bytes that no entry of the map touches, with an
    entry below it and an entry above it. *)
Record hole (len align : Z) (maps : list vmentry) (addr : Z) : Prop := {
  hole_aligned : addr mod align = 0;
  hole_free : forall m, m ∈ maps -> addr + len <= kve_start m \/ kve_end m <= addr;
  hole_lower : exists m, m ∈ maps /\ kve_end m <= addr;
  hole_upper : exists m, m ∈ maps /\ addr + len <= kve_start m;
}.

(** An entry is not empty, and rounding its end up stays in the address space. *)
Definition entry_ok (align : Z) (m : vmentry) : Prop :=
  0 <= kve_start m < kve_end m /\ kve_end m + (align - 1) < 2 ^ 64.

Definition below (m n : vmentry) : Prop := kve_end m <= kve_start n.

(** The map as the kernel reports it. *)
Definition well_mapped (align : Z) (maps : list vmentry) : Prop :=
  StronglySorted below maps /\ Forall (entry_ok align) maps.

(** A multiple of the alignment that is not below [e] is not below [e]
    rounded up. *)
Lemma align_up_least (e k a : Z) :
  0 <= k -> 0 <= e -> e + (2 ^ k - 1) < 2 ^ 64 -> e <= a -> a mod 2 ^ k = 0 ->
  builtin_align_up e (2 ^ k) <= a.
Proof.
  intros Hk He Hfit Ha Hal.
  destruct (builtin_align_up_spec e k Hk He Hfit) as [Hr Hm].
  set (y := builtin_align_up e (2 ^ k)) in *.
  assert (0 < 2 ^ k) as Hp by (apply Z.pow_pos_nonneg; lia).
  apply Z.mod_divide in Hal as [q ->]; [|lia].
  apply Z.mod_divide in Hm as [r Hy]; [|lia]. rewrite Hy in *.
  apply Z.mul_le_mono_nonneg_r; [lia|]. apply Z.le_ngt. intros Hlt.
  assert ((q + 1) * 2 ^ k <= r * 2 ^ k)
    by (apply Z.mul_le_mono_nonneg_r; lia). lia.
Qed.

Section Scan.
Context (len k : Z) (Hlen : 0 <= len) (Hk : 0 <= k).

Lemma try_gap_some (lower upper : vmentry) addr :
  entry_ok (2 ^ k) lower ->
  try_gap len (2 ^ k) (kve_end lower) (kve_start upper) = Some addr ->
  addr mod 2 ^ k = 0 /\ 0 < addr /\ kve_end lower <= addr /\
  addr + len <= kve_start upper /\
  forall a, a mod 2 ^ k = 0 -> kve_end lower <= a -> addr <= a.
Proof.
  intros [Hs Hf]. unfold try_gap.
  destruct (builtin_align_up_spec (kve_end lower) k) as [Hr Hm]; [lia..|].
  repeat case_match; intros; simplify_eq.
  split_and!; [done|lia|lia|lia|]. intros a Ha Hle. apply align_up_least; lia.
Qed.

Lemma try_gap_none (lower upper : vmentry) a :
  entry_ok (2 ^ k) lower ->
  try_gap len (2 ^ k) (kve_end lower) (kve_start upper) = None ->
  a mod 2 ^ k = 0 -> kve_end lower <= a -> kve_start upper < a + len.
Proof.
  intros [Hs Hf] Hg Ha Hle.
  assert (builtin_align_up (kve_end lower) (2 ^ k) <= a)
    by (apply align_up_least; lia).
  revert Hg. unfold try_gap. repeat case_match; intros; simplify_eq; lia.
Qed.

Lemma below_trans l m n :
  entry_ok (2 ^ k) m -> below l m -> below m n -> below l n.
Proof. unfold entry_ok, below. lia. Qed.

(** A hole above the first entry, when the first gap is too small, is a hole of
    the rest of the map. *)
Lemma hole_tail (m n : vmentry) (l : list vmentry) a :
  well_mapped (2 ^ k) (m :: n :: l) ->
  try_gap len (2 ^ k) (kve_end m) (kve_start n) = None ->
  hole len (2 ^ k) (m :: n :: l) a -> hole len (2 ^ k) (n :: l) a.
Proof.
  intros [Hs Hok] Hg [Ha Hf [lo [Hlo Hlo']] [up [Hup Hup']]].
  apply StronglySorted_inv in Hs as [_ Hm].
  rewrite !Forall_cons in Hok. destruct Hok as (Hokm & Hokn & Hok).
  assert (kve_end m <= a) as Hma.
  { apply elem_of_cons in Hlo as [->|Hlo]; [done|].
    rewrite Forall_forall in Hm. specialize (Hm lo Hlo).
    assert (entry_ok (2 ^ k) lo) as [? _].
    { apply elem_of_cons in Hlo as [->|Hlo]; [done|].
      rewrite Forall_forall in Hok. auto. }
    unfold below in Hm. lia. }
  pose proof (try_gap_none m n a Hokm Hg Ha Hma) as Hna.
  split; [done| | |].
  - intros x Hx. apply Hf. by right.
  - exists n. split; [by left|]. destruct (Hf n) as [?|?]; [by right; left|lia|done].
  - exists up. split; [|done]. apply elem_of_cons in Hup as [->|Hup]; [|done].
    destruct Hokm. lia.
Qed.

Lemma hole_cons (m : vmentry) (l : list vmentry) a :
  well_mapped (2 ^ k) (m :: l) ->
  hole len (2 ^ k) l a -> hole len (2 ^ k) (m :: l) a.
Proof.
  intros [Hs Hok] [Ha Hf [lo [Hlo Hlo']] [up [Hup Hup']]].
  apply StronglySorted_inv in Hs as [_ Hm]. rewrite Forall_forall in Hm.
  rewrite Forall_cons in Hok. destruct Hok as [_ Hok].
  rewrite Forall_forall in Hok.
  split; [done| | |].
  - intros x [->|Hx]%elem_of_cons; [|by apply Hf]. right.
    specialize (Hm lo Hlo). destruct (Hok lo Hlo). unfold below in Hm. lia.
  - exists lo. split; [by right|done].
  - exists up. split; [by right|done].
Qed.

Lemma well_mapped_tail (m : vmentry) (l : list vmentry) :
  well_mapped (2 ^ k) (m :: l) -> well_mapped (2 ^ k) l.
Proof.
  intros [Hs Hok]. apply StronglySorted_inv in Hs as [Hs _].
  rewrite Forall_cons in Hok. by destruct Hok.
Qed.

(** The gap that a step of the loop accepts is a hole of the whole map. *)
Lemma hole_first (m n : vmentry) (l : list vmentry) addr :
  well_mapped (2 ^ k) (m :: n :: l) ->
  try_gap len (2 ^ k) (kve_end m) (kve_start n) = Some addr ->
  hole len (2 ^ k) (m :: n :: l) addr.
Proof.
  intros [Hs Hok] Hg.
  apply StronglySorted_inv in Hs as [Hs _].
  apply StronglySorted_inv in Hs as [_ Hn]. rewrite Forall_forall in Hn.
  rewrite !Forall_cons in Hok. destruct Hok as (Hokm & Hokn & _).
  destruct (try_gap_some m n addr Hokm Hg)
    as (Ha & Hpos & Hlo & Hup & _).
  split; [done| | |].
  - intros x Hx. rewrite !elem_of_cons in Hx.
    destruct Hx as [->|[->|Hx]]; [by right|by left|left].
    specialize (Hn x Hx). destruct Hokn. unfold below in Hn. lia.
  - exists m. split; [by left|done].
  - exists n. split; [by right; left|done].
Qed.

(** *** The ascending search *)

Lemma no_hole_single (m : vmentry) a :
  entry_ok (2 ^ k) m -> ~ hole len (2 ^ k) [m] a.
Proof.
  intros [Hm _] [_ _ [lo [Hlo Hlo']] [up [Hup Hup']]].
  apply list_elem_of_singleton in Hlo as ->.
  apply list_elem_of_singleton in Hup as ->. lia.
Qed.

(** The lowest hole of a map. *)
Definition lowest_hole (maps : list vmentry) (addr : Z) : Prop :=
  0 < addr /\ hole len (2 ^ k) maps addr /\
  forall a, hole len (2 ^ k) maps a -> addr <= a.

Lemma scan_up_spec (l : list vmentry) (prev : vmentry) :
  well_mapped (2 ^ k) (prev :: l) ->
  let addr := scan_up len (2 ^ k) prev l in
  (addr = 0 /\ forall a, ~ hole len (2 ^ k) (prev :: l) a) \/
  lowest_hole (prev :: l) addr.
Proof.
  revert prev. induction l as [|cur l IH]; intros prev Hwm; simpl.
  { left. split; [done|]. intros a. apply no_hole_single.
    destruct Hwm as [_ Hok]. by apply Forall_cons in Hok as [? _]. }
  pose proof (proj2 Hwm) as Hok. apply Forall_cons in Hok as [Hokp Hok].
  destruct (try_gap _ _ _ _) as [addr|] eqn:Hg.
  - right. destruct (try_gap_some prev cur addr Hokp Hg)
      as (_ & Hpos & _ & _ & Hleast).
    split; [done|]. split; [by apply hole_first|].
    intros a Ha. apply Hleast; [apply Ha|].
    destruct (hole_lower _ _ _ _ Ha) as (lo & Hlo & Hloa).
    apply elem_of_cons in Hlo as [->|Hlo]; [done|].
    destruct Hwm as [Hs _]. apply StronglySorted_inv in Hs as [_ Hs].
    rewrite Forall_forall in Hs, Hok. specialize (Hs lo Hlo).
    destruct (Hok lo Hlo). unfold below in Hs. lia.
  - pose proof (well_mapped_tail _ _ Hwm) as Hwm'.
    destruct (IH cur Hwm') as [[-> Hno]|(Hpos & Hh & Hleast)].
    + left. split; [done|]. intros a Ha. apply (Hno a).
      by apply (hole_tail prev).
    + right. split; [done|]. split; [by apply hole_cons|].
      intros a Ha. apply Hleast. by apply (hole_tail prev).
Qed.

(** *** The descending search *)

(** The list of the nodes, the last line of the file first: the entries of the
    map in descending order. *)
Definition node (m : vmentry) : option Z * option Z :=
  (Some (kve_start m), Some (kve_end m)).

Definition well_mapped_down (maps : list vmentry) : Prop :=
  StronglySorted (fun m n => below n m) maps /\ Forall (entry_ok (2 ^ k)) maps.

(** The topmost gap with a hole, and the lowest hole in it: no entry of the map
    lies between it and a hole further up. *)
Definition topmost_hole (maps : list vmentry) (addr : Z) : Prop :=
  0 < addr /\ hole len (2 ^ k) maps addr /\
  forall a, hole len (2 ^ k) maps a ->
    (forall m, m ∈ maps -> addr <= kve_start m -> a + len <= kve_start m).

Lemma hole_down_tail (n m : vmentry) (l : list vmentry) a :
  well_mapped_down (n :: m :: l) ->
  try_gap len (2 ^ k) (kve_end m) (kve_start n) = None ->
  hole len (2 ^ k) (n :: m :: l) a ->
  hole len (2 ^ k) (m :: l) a.
Proof.
  intros [Hs Hok] Hg [Ha Hf [lo [Hlo Hlo']] [up [Hup Hup']]].
  apply StronglySorted_inv in Hs as [_ Hn]. rewrite Forall_forall in Hn.
  rewrite !Forall_cons in Hok. destruct Hok as (Hokn & Hokm & Hok).
  assert (a + len <= kve_start n) as Han.
  { apply elem_of_cons in Hup as [->|Hup]; [done|].
    specialize (Hn up Hup).
    assert (entry_ok (2 ^ k) up) as [? _].
    { apply elem_of_cons in Hup as [->|Hup]; [done|].
      rewrite Forall_forall in Hok. auto. }
    unfold below in Hn. lia. }
  assert (~ kve_end m <= a) as Hma.
  { intros Hma. pose proof (try_gap_none m n a Hokm Hg Ha Hma). lia. }
  split; [done| | |].
  - intros x Hx. apply Hf. by right.
  - exists lo. split; [|done]. apply elem_of_cons in Hlo as [->|Hlo]; [|done].
    destruct Hokn. lia.
  - exists m. split; [by left|].
    destruct (Hf m) as [?|?]; [by right; left|done|lia].
Qed.

Lemma well_mapped_down_tail (n : vmentry) (l : list vmentry) :
  well_mapped_down (n :: l) -> well_mapped_down l.
Proof.
  intros [Hs Hok]. apply StronglySorted_inv in Hs as [Hs _].
  rewrite Forall_cons in Hok. by destruct Hok.
Qed.

Lemma hole_down_cons (n : vmentry) (l : list vmentry) a :
  well_mapped_down (n :: l) ->
  hole len (2 ^ k) l a -> hole len (2 ^ k) (n :: l) a.
Proof.
  intros [Hs Hok] [Ha Hf [lo [Hlo Hlo']] [up [Hup Hup']]].
  apply StronglySorted_inv in Hs as [_ Hn]. rewrite Forall_forall in Hn.
  rewrite Forall_cons in Hok. destruct Hok as [_ Hok].
  rewrite Forall_forall in Hok.
  split; [done| | |].
  - intros x [->|Hx]%elem_of_cons; [|by apply Hf]. left.
    specialize (Hn up Hup). destruct (Hok up Hup). unfold below in Hn. lia.
  - exists lo. split; [by right|done].
  - exists up. split; [by right|done].
Qed.

Lemma hole_down_first (n m : vmentry) (l : list vmentry) addr :
  well_mapped_down (n :: m :: l) ->
  try_gap len (2 ^ k) (kve_end m) (kve_start n) = Some addr ->
  topmost_hole (n :: m :: l) addr.
Proof.
  intros [Hs Hok] Hg.
  apply StronglySorted_inv in Hs as [Hs Hn].
  apply StronglySorted_inv in Hs as [_ Hm].
  rewrite Forall_forall in Hn, Hm.
  rewrite !Forall_cons in Hok. destruct Hok as (Hokn & Hokm & Hok).
  rewrite Forall_forall in Hok.
  destruct (try_gap_some m n addr Hokm Hg) as (Ha & Hpos & Hlo & Hup & _).
  assert (forall x, x ∈ m :: l -> kve_start x < kve_end x <= addr) as Hl.
  { intros x Hx. apply elem_of_cons in Hx as [->|Hx]; [destruct Hokm; lia|].
    specialize (Hm x Hx). destruct (Hok x Hx), Hokm. unfold below in Hm. lia. }
  split; [done|]. split.
  - split; [done| | |].
    + intros x Hx. apply elem_of_cons in Hx as [->|Hx]; [by left|right].
      by apply Hl.
    + exists m. split; [by right; left|done].
    + exists n. split; [by left|done].
  - intros a [_ _ _ [up [Hinup Hupa]]] x Hx Hax.
    apply elem_of_cons in Hx as [->|Hx]; [|specialize (Hl x Hx); lia].
    apply elem_of_cons in Hinup as [->|Hinup]; [done|].
    specialize (Hl up Hinup). lia.
Qed.

Context {cap W : Type}.

Lemma scan_down_spec (l : list vmentry) (n : vmentry) (i : Z) (s : proc cap W) :
  well_mapped_down (n :: l) ->
  exists addr,
    scan_down len (2 ^ k) i (i + Z.of_nat (length l)) (map node (n :: l)) s
      = (Val addr, s) /\
    ((addr = 0 /\ forall a, ~ hole len (2 ^ k) (n :: l) a) \/
     topmost_hole (n :: l) addr).
Proof.
  revert n i. induction l as [|m l IH]; intros n i Hwm.
  { exists 0. simpl. rewrite Z.add_0_r, Z.ltb_irrefl. split; [done|left].
    split; [done|]. intros a. apply no_hole_single.
    destruct Hwm as [_ Hok]. by apply Forall_cons in Hok as [? _]. }
  cbn [map scan_down node].
  rewrite (proj2 (Z.ltb_lt _ _)) by (simpl; lia).
  destruct (try_gap _ _ _ _) as [addr|] eqn:Hg.
  { exists addr. split; [done|]. right. by apply hole_down_first. }
  pose proof (well_mapped_down_tail _ _ Hwm) as Hwm'.
  destruct (IH m (i + 1) Hwm') as (addr & Hrun & Hres).
  replace (i + Z.of_nat (length (m :: l)))
    with (i + 1 + Z.of_nat (length l)) by (simpl; lia).
  exists addr. split; [exact Hrun|].
  destruct Hres as [[-> Hno]|(Hpos & Hh & Htop)]; [left|right].
  { split; [done|]. intros a Ha. apply (Hno a). by apply (hole_down_tail n). }
  split; [done|]. split; [by apply hole_down_cons|].
  intros a Ha x Hx Hax. pose proof (hole_down_tail _ _ _ _ Hwm Hg Ha) as Ha'.
  apply elem_of_cons in Hx as [->|Hx]; [|by apply Htop].
  destruct (hole_upper _ _ _ _ Ha') as (up & Hup & Hupa).
  destruct Hwm as [Hs Hok]. apply StronglySorted_inv in Hs as [_ Hs].
  rewrite Forall_forall in Hs, Hok. specialize (Hs up Hup).
  destruct (Hok up) as [? _]; [by right|]. unfold below in Hs. lia.
Qed.
End Scan.

(** ** The text of /proc/self/maps *)

Definition hex_digit (c : ascii) : Prop := is_Some (digit_val c).

Lemma hex_digit_plain (c : ascii) (d : Z) :
  digit_val c = Some d ->
  isspace c = false /\ Ascii.eqb c "-" = false /\ Ascii.eqb c "+" = false /\
  Ascii.eqb c "x" || Ascii.eqb c "X" = false /\ 0 <= d < 16.
Proof.
  destruct c as [[] [] [] [] [] [] [] []]; vm_compute; intros; simplify_eq;
    repeat split; congruence.
Qed.

Lemma hex_digit_digit (upper : bool) (d : Z) :
  0 <= d < 16 -> hex_digit (digit upper d).
Proof. intros Hd. eexists. by apply digit_val_digit. Qed.

(** A numeral: a first digit, more digits. *)
Definition numeral (s : string) : Prop :=
  s ≠ EmptyString /\ Forall hex_digit (bytes_of s).

Lemma numeral_digits (upper : bool) (fuel : nat) (n : Z) (acc : string) :
  0 <= n -> Forall hex_digit (bytes_of acc) ->
  numeral (digits upper 16 (S fuel) n acc).
Proof.
  revert n acc. induction fuel as [|fuel IH]; intros n acc Hn Hacc.
  - assert (hex_digit (digit upper (n mod 16)))
      by (apply hex_digit_digit, Z.mod_pos_bound; lia).
    cbn [digits]. case_match; (split; [done|by constructor]).
  - assert (hex_digit (digit upper (n mod 16)))
      by (apply hex_digit_digit, Z.mod_pos_bound; lia).
    cbn [digits]. case_match; [split; [done|by constructor]|].
    apply IH; [apply Z.div_pos; lia|by constructor].
Qed.

Fixpoint zeros (n : nat) : string :=
  match n with O => EmptyString | S n => String "0" (zeros n) end.

(** A number as [%08lx] prints it, with some zeros in front. *)
Definition hex (z : nat) (n : Z) : string := zeros z +:+ utoa false 16 n.

Lemma numeral_hex (z : nat) (n : Z) : 0 <= n -> numeral (hex z n).
Proof.
  intros Hn. unfold hex. induction z as [|z [_ IH]].
  - by apply numeral_digits.
  - split; [done|]. cbn [zeros]. constructor; [by exists 0|done].
Qed.

Lemma strtou_hex (z : nat) (n : Z) (tl : string) :
  0 <= n < 2 ^ 64 -> strtou 16 0 (hex z n +:+ tl) = strtou 16 n tl.
Proof.
  intros Hn. unfold hex. induction z as [|z IH]; [by apply strtou_utoa|].
  exact IH.
Qed.

Lemma string_app_nil (t : string) : EmptyString +:+ t = t.
Proof. done. Qed.

Lemma string_app_cons (c : ascii) (s t : string) :
  String c s +:+ t = String c (s +:+ t).
Proof. done. Qed.

(** What [%llx] reads of a numeral and of what follows it. *)
Lemma scan_llx_hex (z : nat) (n : Z) (c : ascii) (tl : string) :
  0 <= n < 2 ^ 64 -> digit_val c = None ->
  Ascii.eqb c "x" || Ascii.eqb c "X" = false ->
  scan_llx (hex z n +:+ String c tl) = Some (n, String c tl).
Proof.
  intros Hn Hc Hx. pose proof (strtou_hex z n (String c tl) Hn) as Hs.
  destruct (numeral_hex z n) as [Hne Hall]; [lia|].
  destruct (hex z n) as [|a s]; [done|]. clear Hne.
  cbn [bytes_of] in Hall. apply Forall_cons in Hall as [[d Hd] Hall].
  destruct (hex_digit_plain a d Hd) as (Hsp & Hmin & Hplus & _ & Hr).
  assert (scan_0x (String a (s +:+ String c tl)) = String a (s +:+ String c tl))
    as H0.
  { destruct s as [|b s].
    - rewrite string_app_nil. cbn [scan_0x]. by rewrite Hx, andb_false_r.
    - rewrite string_app_cons. cbn [scan_0x].
      cbn [bytes_of] in Hall. apply Forall_cons in Hall as [[e He] _].
      destruct (hex_digit_plain b e He) as (_ & _ & _ & Hb & _).
      by rewrite Hb, andb_false_r. }
  unfold scan_llx. rewrite string_app_cons in *. cbn [skip_space]. rewrite Hsp.
  cbn [scan_sign]. rewrite Hmin, Hplus. rewrite H0, Hd.
  cbn [strtou] in Hs. rewrite Hd in Hs.
  rewrite (proj2 (Z.ltb_lt d 16)) in Hs by lia.
  rewrite Z.mul_0_l, Z.add_0_l in Hs. rewrite Hs, Hc.
  by rewrite (proj2 (Z.leb_gt _ _)) by lia.
Qed.

(** A line of the file: the bounds, then the permissions and the rest. *)
Definition maps_line (m : vmentry) (line : string) : Prop :=
  exists z1 z2 rest,
    line = hex z1 (kve_start m) +:+ String "-" (hex z2 (kve_end m) +:+
             String " " rest).

Definition entry_range (m : vmentry) : Prop :=
  0 <= kve_start m < 2 ^ 64 /\ 0 <= kve_end m < 2 ^ 64.

Lemma sscanf_line (m : vmentry) (line : string) :
  entry_range m -> maps_line m line -> sscanf_vma line = node m.
Proof.
  intros [Hs He] (z1 & z2 & rest & ->). unfold sscanf_vma.
  rewrite scan_llx_hex by done. by rewrite scan_llx_hex.
Qed.

(** ** What the search returns *)

Section Theorems.
Context {cap W : Type} {CH : Cheri cap} {LC : Libc cap W} {VM : VmMap W}.
Context (g : config).

Abbreviation no_region L :=
  (report "no free region of length %#jx
" [AInt L]).

Lemma check_found_pos addr len (s : proc cap W) :
  0 < addr -> check_found addr len s = (Val addr, s).
Proof.
  intros Ha. unfold check_found, fail_if.
  by rewrite (proj2 (Z.eqb_neq _ _)) by lia.
Qed.

Lemma check_found_zero len (s : proc cap W) :
  shared s -> verdict_of (check_found 0 len s) = Failed (no_region len).
Proof.
  intros Hs. rewrite <- (verdict_failure_errx (A := unit)
    "no free region of length %#jx
" [AInt len] s Hs).
  unfold check_found, fail_if, verdict_of. simpl.
  unfold cheriostest_failure_errx, mbind, eff_bind.
  by destruct (vcheriostest_failure_errx _ _ s) as [[] ?].
Qed.

Lemma read_maps_all (w : W) (lines : list string) (n : nat) lh (s : proc cap W) :
  (forall i, malloc_vma_attr w i = true) ->
  read_maps w n lines lh s = (Val (rev_append (map sscanf_vma lines) lh), s).
Proof.
  intros Hm. revert n lh. induction lines as [|line lines IH]; intros n lh;
    simpl; [done|]. by rewrite Hm, IH.
Qed.

Lemma freebsd_search_run (len align L k : Z) (maps : list vmentry)
    (s : proc cap W)
    (Hos : is_linux g = false)
    (Hopen : procstat_open_sysctl (p_world s) = true)
    (Hproc : procstat_getprocs (p_world s) = Some 1)
    (Hmaps : procstat_getvmmap (p_world s) = Some maps)
    (Hrep : representable (cap := cap) len align = (L, 2 ^ k))
    (Hk : 0 <= k) (HL : 0 <= L) (Hwm : well_mapped (2 ^ k) maps)
    (Hs : shared s) :
  let r := find_address_space_gap g len align s in
  (exists addr, r = (Val addr, s) /\ lowest_hole L k maps addr) \/
  (verdict_of r = Failed (no_region L) /\ forall a, ~ hole L (2 ^ k) maps a).
Proof.
  intros r. unfold r, find_address_space_gap. rewrite Hos.
  unfold find_address_space_gap_freebsd, gets, mbind, eff_bind.
  rewrite Hopen, Hproc, Hmaps, Hrep. simpl.
  destruct maps as [|m maps].
  { right. split; [by apply check_found_zero|].
    intros a Ha. destruct (hole_lower _ _ _ _ Ha) as (lo & Hlo & _).
    by apply not_elem_of_nil in Hlo. }
  destruct (scan_up_spec L k HL Hk maps m Hwm) as [[-> Hno]|Hlow].
  - right. split; [by apply check_found_zero|done].
  - left. eexists. split; [|done]. apply check_found_pos, Hlow.
Qed.

(** C22: on CheriBSD the search returns the lowest hole of the memory map that
    lies between two mappings, rounded as the alignment asks, and declares a
    failure exactly when the map has no such hole. *)
Theorem find_address_space_gap_lowest (len align L k : Z) (maps : list vmentry)
    (s : proc cap W)
    (Hos : is_linux g = false)
    (Hopen : procstat_open_sysctl (p_world s) = true)
    (Hproc : procstat_getprocs (p_world s) = Some 1)
    (Hmaps : procstat_getvmmap (p_world s) = Some maps)
    (Hrep : representable (cap := cap) len align = (L, 2 ^ k))
    (Hk : 0 <= k) (HL : 0 <= L) (Hwm : well_mapped (2 ^ k) maps)
    (Hs : shared s) :
  let r := find_address_space_gap g len align s in
  (exists addr, r = (Val addr, s) /\ lowest_hole L k maps addr) \/
  (verdict_of r = Failed (no_region L) /\ forall a, ~ hole L (2 ^ k) maps a).
Proof. by apply freebsd_search_run. Qed.

(** The map of the file, read from its last line up. *)
Lemma read_maps_nodes (w : W) (lines : list string) (maps : list vmentry)
    (s : proc cap W) :
  (forall i, malloc_vma_attr w i = true) ->
  Forall entry_range maps -> Forall2 maps_line maps lines ->
  read_maps w 0 lines [] s = (Val (map node (rev maps)), s).
Proof.
  intros Hm Hr Hl. rewrite read_maps_all by done. do 2 f_equal.
  rewrite rev_append_rev, app_nil_r, map_rev. f_equal.
  induction Hl as [|m line maps lines Hline _ IH]; [done|].
  apply Forall_cons in Hr as [Hm0 Hr]. cbn. rewrite (sscanf_line m) by done.
  f_equal. by apply IH.
Qed.

(** The map from the top down. *)
Lemma below_rev (k : Z) (maps : list vmentry) :
  well_mapped (2 ^ k) maps -> well_mapped_down k (rev maps).
Proof.
  intros [Hs Hok]. split; [|by apply Forall_rev].
  induction Hs as [|m maps Hs IH Hm]; simpl; [constructor|].
  apply Forall_cons in Hok as [_ Hok]. specialize (IH Hok).
  apply Forall_rev in Hm. revert IH Hm. generalize (rev maps). clear.
  intros l Hl Hm. induction Hl as [|n l Hl IH Hn]; simpl.
  - constructor; constructor.
  - apply Forall_cons in Hm as [Hmn Hm]. constructor; [by apply IH|].
    apply Forall_app. by split; [|constructor].
Qed.

Lemma hole_rev (len align : Z) (maps : list vmentry) a :
  hole len align (rev maps) a <-> hole len align maps a.
Proof.
  assert (forall m, m ∈ rev maps <-> m ∈ maps) as Hr.
  { intros m. rewrite !list_elem_of_In. symmetry. apply in_rev. }
  split; intros [Ha Hf (lo & Hlo & ?) (up & Hup & ?)]; split; try done.
  all: try (exists lo; split; [by apply Hr|done]).
  all: try (exists up; split; [by apply Hr|done]).
  all: intros m Hm; apply Hf; by apply Hr.
Qed.

Lemma topmost_rev (len k : Z) (maps : list vmentry) a :
  topmost_hole len k (rev maps) a -> topmost_hole len k maps a.
Proof.
  intros (Hpos & Hh & Htop). split; [done|]. split; [by apply hole_rev|].
  intros b Hb m Hm. apply Htop; [by apply hole_rev|].
  rewrite list_elem_of_In in *. by apply -> in_rev.
Qed.

Lemma linux_search_run (len align L k : Z)
    (maps : list vmentry) (lines : list string) (s : proc cap W)
    (Hos : is_linux g = true)
    (Hfile : proc_self_maps (p_world s) = inr lines)
    (Hmalloc : forall i, malloc_vma_attr (p_world s) i = true)
    (Hlines : Forall2 maps_line maps lines) (Hne : maps ≠ [])
    (Hlen : Z.of_nat (length maps) < 2 ^ 32)
    (Hrep : representable (cap := cap) len align = (L, 2 ^ k))
    (Hk : 0 <= k) (HL : 0 <= L) (Hwm : well_mapped (2 ^ k) maps)
    (Hs : shared s) :
  let r := find_address_space_gap g len align s in
  (exists addr, r = (Val addr, s) /\ topmost_hole L k maps addr) \/
  (verdict_of r = Failed (no_region L) /\ forall a, ~ hole L (2 ^ k) maps a).
Proof.
  intros r. unfold r, find_address_space_gap. rewrite Hos.
  unfold find_address_space_gap_linux, gets, mbind, eff_bind. rewrite Hfile.
  assert (Forall entry_range maps) as Hr.
  { eapply Forall_impl; [apply Hwm|]. unfold entry_ok, entry_range.
    assert (0 < 2 ^ k) by (apply Z.pow_pos_nonneg; lia). lia. }
  rewrite (read_maps_nodes _ _ maps) by done. rewrite Hrep.
  apply below_rev in Hwm.
  assert (length (rev maps) = length maps) as Hrl by apply length_rev.
  destruct (rev maps) as [|n l] eqn:Hrev; [destruct maps; simpl in Hrl; done|].
  rewrite length_map, Hrl.
  rewrite (wrapu_small 32 (Z.of_nat _)) by lia.
  rewrite wrapu_small by (rewrite <- Hrl in *; simpl in *; lia).
  replace (Z.of_nat (length maps) - 1) with (0 + Z.of_nat (length l))
    by (rewrite <- Hrl; simpl; lia).
  destruct (scan_down_spec L k HL Hk l n 0 s Hwm) as (addr & Hrun & Hres).
  rewrite Hrun. rewrite <- Hrev in Hres.
  destruct Hres as [[-> Hno]|Htop].
  - right. split; [by apply check_found_zero|].
    intros a Ha. apply (Hno a). by apply hole_rev.
  - left. exists addr. split; [apply check_found_pos, Htop|].
    by apply topmost_rev.
Qed.

(** C23: on Linux the search reads the lines of /proc/self/maps and returns a
    hole in the topmost gap of the map that has one; it declares a failure
    exactly when there is no hole. *)
Theorem find_address_space_gap_topmost (len align L k : Z)
    (maps : list vmentry) (lines : list string) (s : proc cap W)
    (Hos : is_linux g = true)
    (Hfile : proc_self_maps (p_world s) = inr lines)
    (Hmalloc : forall i, malloc_vma_attr (p_world s) i = true)
    (Hlines : Forall2 maps_line maps lines) (Hne : maps ≠ [])
    (Hlen : Z.of_nat (length maps) < 2 ^ 32)
    (Hrep : representable (cap := cap) len align = (L, 2 ^ k))
    (Hk : 0 <= k) (HL : 0 <= L) (Hwm : well_mapped (2 ^ k) maps)
    (Hs : shared s) :
  let r := find_address_space_gap g len align s in
  (exists addr, r = (Val addr, s) /\ topmost_hole L k maps addr) \/
  (verdict_of r = Failed (no_region L) /\ forall a, ~ hole L (2 ^ k) maps a).
Proof. by eapply linux_search_run. Qed.

(** An empty map is not an error of the Linux version: the bound of the loop
    wraps and the code follows the null head of the list. *)
Lemma find_address_space_gap_no_lines (len align : Z) (s : proc cap W) :
  is_linux g = true -> proc_self_maps (p_world s) = inr [] ->
  (find_address_space_gap g len align s).1 = Undef.
Proof.
  intros Hos Hfile. unfold find_address_space_gap. rewrite Hos.
  unfold find_address_space_gap_linux, gets, mbind, eff_bind. rewrite Hfile.
  simpl. by destruct (representable len align).
Qed.
End Theorems.

(** ** Concrete maps *)

Definition toy_maps : list vmentry :=
  [VmEntry 0x10000 0x12000; VmEntry 0x14000 0x20000; VmEntry 0x30000 0x31000].

#[export] Instance toy_vm_map : VmMap unit := {|
  procstat_open_sysctl _ := true;
  procstat_getprocs _ := Some 1;
  procstat_getvmmap _ := Some toy_maps;
  proc_self_maps _ := inr ["00010000-00012000 r-xp 0"; "00014000-00020000 rw-p 0";
                           "00030000-31000 rw-p 0"]%string;
  malloc_vma_attr _ _ := true;
|}.

Definition toy_cheribsd : config :=
  Config FreeBSD Aarch64 true false false false "cheriostest" "-purecap"
    "../libexec".

Example gap_freebsd_ex :
  (find_address_space_gap toy_cheribsd 0x1000 0x1000 toy_proc).1 = Val 0x12000.
Proof. vm_compute. done. Qed.

Example gap_freebsd_ex2 :
  (find_address_space_gap toy_cheribsd 0x3000 0 toy_proc).1 = Val 0x20000.
Proof. vm_compute. done. Qed.

Example gap_linux_ex :
  (find_address_space_gap toy_config 0x1000 0x1000 toy_proc).1 = Val 0x20000.
Proof. vm_compute. done. Qed.

Example gap_none_ex :
  (find_address_space_gap toy_config 0x10001 0 toy_proc).1 = Exited EX_SOFTWARE.
Proof. vm_compute. done. Qed.

Lemma toy_well_mapped : well_mapped (2 ^ 12) toy_maps.
Proof.
  split.
  - repeat constructor; vm_compute; congruence.
  - repeat constructor; vm_compute; congruence.
Qed.

Lemma find_address_space_gap_lowest_witness :
  let r := find_address_space_gap toy_cheribsd 0x1000 0x1000 toy_proc in
  (exists addr, r = (Val addr, toy_proc) /\ lowest_hole 0x1000 12 toy_maps addr) \/
  (verdict_of r = Failed (report (W := unit) "no free region of length %#jx
" [AInt 0x1000]) /\ forall a, ~ hole 0x1000 (2 ^ 12) toy_maps a).
Proof.
  apply (find_address_space_gap_lowest toy_cheribsd 0x1000 0x1000 0x1000 12
    toy_maps toy_proc); try done.
  - apply toy_well_mapped.
  - apply toy_shared.
Defined.

Lemma find_address_space_gap_topmost_witness :
  let r := find_address_space_gap toy_config 0x1000 0x1000 toy_proc in
  (exists addr, r = (Val addr, toy_proc) /\ topmost_hole 0x1000 12 toy_maps addr) \/
  (verdict_of r = Failed (report (W := unit) "no free region of length %#jx
" [AInt 0x1000]) /\ forall a, ~ hole 0x1000 (2 ^ 12) toy_maps a).
Proof.
  eapply (find_address_space_gap_topmost toy_config 0x1000 0x1000 0x1000 12
    toy_maps _ toy_proc); try done.
  - constructor; [exists 3%nat, 3%nat, "r-xp 0"%string; reflexivity|].
    constructor; [exists 3%nat, 3%nat, "rw-p 0"%string; reflexivity|].
    constructor; [exists 3%nat, 0%nat, "rw-p 0"%string; reflexivity|constructor].
  - apply toy_well_mapped.
  - apply toy_shared.
Defined.
