(* ===== verification/Kernel.v ===== *)
(** * Kernel: system calls on files and mappings, loads and stores

    The interface of the calls that the tests of virtual memory and of the
    system call interface make.  A call is a function of the world that gives a
    result or an error number; a load or a store gives a value or the fault
    that it raises.  [sys] and [access] make them steps of a test body.

    The lemmas run a body along the results of its calls. *)

From S2P Require Import Prelude Printf Cheri Harness.

(** An argument of shm_open(2): [SHM_ANON] or a name. *)
Inductive shm_path := ShmAnon | ShmNamed (name : string).

Class Kernel (cap W : Type) := {
  getpagesize : Z;
  sys_mmap : cap -> Z -> Z -> Z -> Z -> Z -> W -> (cap + Z) * W;
  sys_munmap : cap -> Z -> W -> (Z + Z) * W;
  sys_mprotect : cap -> Z -> Z -> W -> (Z + Z) * W;
  sys_minherit : cap -> Z -> Z -> W -> (Z + Z) * W;
  sys_shmget : Z -> Z -> Z -> W -> (Z + Z) * W;
  sys_shmat : Z -> cap -> Z -> W -> (cap + Z) * W;
  sys_shmdt : cap -> W -> (Z + Z) * W;
  sys_shm_open : shm_path -> Z -> Z -> W -> (Z + Z) * W;
  sys_shm_unlink : string -> W -> (Z + Z) * W;
  sys_memfd_create : string -> Z -> W -> (Z + Z) * W;
  sys_open : string -> Z -> W -> (Z + Z) * W;
  sys_mkstemp : string -> W -> ((Z * string) + Z) * W;   (* and the name made *)
  sys_unlink : string -> W -> (Z + Z) * W;
  sys_ftruncate : Z -> Z -> W -> (Z + Z) * W;
  sys_close : Z -> W -> (Z + Z) * W;
  os_random : W -> Z * W;
  mem_load_cap : cap -> Z -> W -> (cap + siginfo cap) * W;
  mem_store_cap : cap -> Z -> cap -> W -> (unit + siginfo cap) * W;
  mem_store_byte : cap -> Z -> Z -> W -> (unit + siginfo cap) * W;
  stack_local : Z -> cap;                  (* [&v], of that size *)
}.

(** The numbers of sys/mman.h, fcntl.h, sys/ipc.h, errno.h and signal.h. *)
Class VmConsts := {
  PROT_NONE : Z;
  PROT_READ : Z;
  PROT_WRITE : Z;
  PROT_EXEC : Z;
  PROT_CAP : Z;
  PROT_NO_CAP : Z;
  PROT_MAX : Z -> Z;
  MAP_ANON : Z;
  MAP_PRIVATE : Z;
  MAP_SHARED : Z;
  MAP_FIXED : Z;
  MAP_EXCL : Z;
  MAP_GUARD : Z;
  MAP_PREFAULT_READ : Z;
  MAP_POPULATE : Z;
  INHERIT_NONE : Z;
  INHERIT_SHARE : Z;
  IPC_PRIVATE : Z;
  O_RDWR : Z;
  O_CREAT : Z;
  O_EXCL : Z;
  EPROT : Z;
  EINVAL : Z;
  ENOMEM : Z;
  EACCES : Z;
  ENOTSUP : Z;
  SEGV_ACCERR : Z;
  SEGV_STORETAG : Z;
  TRAPNO_STORE_PF : Z;
  TRAPNO_STORE_CAP_PF : Z;
}.

Section Steps.
Context {cap W : Type} {CH : Cheri cap} {LC : Libc cap W}.

(** A system call. *)
Definition sys {A} (f : W -> (A + Z) * W) : test cap W (A + Z) :=
  fun s => let '(r, w) := f (p_world s) in (Val r, set_world w s).

(** A load or a store. *)
Definition access {A} (f : W -> (A + siginfo cap) * W) : test cap W A :=
  fun s => let '(r, w) := f (p_world s) in
           (match r with inl a => Val a | inr si => Raised si end, set_world w s).

(** A library call that cannot fail. *)
Definition libcall {A} (f : W -> A * W) : test cap W A :=
  fun s => let '(a, w) := f (p_world s) in (Val a, set_world w s).

(** A call whose result -1 the code tests itself: errno is set. *)
Definition try_sys {A} (f : W -> (A + Z) * W) : test cap W (option A) :=
  r ← sys f;
  match r with
  | inl a => mret (Some a)
  | inr e => modify (set_errno e) ;; mret None
  end.

Lemma try_sys_run {A} (f : W -> (A + Z) * W) (s : proc cap W) r w' :
  f (p_world s) = (r, w') ->
  try_sys f s = match r with
                | inl a => (Val (Some a), set_world w' s)
                | inr e => (Val None, set_errno e (set_world w' s))
                end.
Proof. intros H. unfold try_sys, sys, mbind, eff_bind. rewrite H. by destruct r. Qed.

Lemma set_world_idemp w w' (s : proc cap W) :
  set_world w' (set_world w s) = set_world w' s.
Proof. done. Qed.

Lemma run_check2 {A B} (f : W -> (A + Z) * W) msg ap (k : A -> test cap W B) s a w' :
  f (p_world s) = (inl a, w') ->
  (CHERIOSTEST_CHECK_SYSCALL2 (sys f) msg ap ≫= k) s = k a (set_world w' s).
Proof.
  intros H. unfold CHERIOSTEST_CHECK_SYSCALL2, sys, mbind, eff_bind. by rewrite H.
Qed.

Lemma run_check {A B} (f : W -> (A + Z) * W) text (k : A -> test cap W B) s a w' :
  f (p_world s) = (inl a, w') ->
  (CHERIOSTEST_CHECK_SYSCALL (sys f) text ≫= k) s = k a (set_world w' s).
Proof. apply run_check2. Qed.

(** A call that fails is not a success, whatever follows. *)
Lemma fail_check2 {A B} (f : W -> (A + Z) * W) msg ap (k : A -> test cap W B) s e w' :
  f (p_world s) = (inr e, w') ->
  ~ succeeds (CHERIOSTEST_CHECK_SYSCALL2 (sys f) msg ap ≫= k) s.
Proof.
  intros H [v Hv]. revert Hv. unfold CHERIOSTEST_CHECK_SYSCALL2, sys, modify, mbind,
    eff_bind. rewrite H. intros Hv.
  apply (not_succeeds_failure_err (A := B) msg ap (set_errno e (set_world w' s))).
  exists v. revert Hv. unfold cheriostest_failure_err, vcheriostest_failure_errc, gets,
    mbind, eff_bind, report_on_stderr. by destruct (p_ccsp (set_errno e (set_world w' s))).
Qed.

Lemma fail_check {A B} (f : W -> (A + Z) * W) text (k : A -> test cap W B) s e w' :
  f (p_world s) = (inr e, w') ->
  ~ succeeds (CHERIOSTEST_CHECK_SYSCALL (sys f) text ≫= k) s.
Proof. apply fail_check2. Qed.

Lemma run_access {A B} (f : W -> (A + siginfo cap) * W) (k : A -> test cap W B) s a w' :
  f (p_world s) = (inl a, w') -> (access f ≫= k) s = k a (set_world w' s).
Proof. intros H. unfold access, mbind, eff_bind. by rewrite H. Qed.

Lemma run_fault {A B} (f : W -> (A + siginfo cap) * W) (k : A -> test cap W B) s si w' :
  f (p_world s) = (inr si, w') -> (access f ≫= k) s = (Raised si, set_world w' s).
Proof. intros H. unfold access, mbind, eff_bind. by rewrite H. Qed.

Lemma run_verify2 {B} (b : bool) msg ap (k : test cap W B) s :
  b = true -> (CHERIOSTEST_VERIFY2 b msg ap ;; k) s = k s.
Proof. by intros ->. Qed.

(** A call that must fail with the error number [e], and does. *)
Lemma run_call_error {A B} (f : W -> (A + Z) * W) text show e (k : test cap W B) s w' :
  f (p_world s) = (inr e, w') ->
  (CHERIOSTEST_CHECK_CALL_ERROR (sys f) text show e ;; k) s
  = k (set_errno e (set_world w' s)).
Proof.
  intros H. unfold CHERIOSTEST_CHECK_CALL_ERROR, sys, cheriostest_check_errno,
    mbind, eff_bind, modify. simpl. rewrite H. by rewrite Z.eqb_refl.
Qed.

(** A failure that a body declares is not a success, whatever follows. *)
Lemma failure_prefix {A B} msg ap (k : A -> test cap W B) s :
  ~ succeeds (cheriostest_failure_errx msg ap ≫= k) s.
Proof.
  intros H. apply (not_succeeds_failure_errx (A := B) msg ap s). revert H.
  unfold succeeds, cheriostest_failure_errx, mbind, eff_bind, exit.
  by destruct (vcheriostest_failure_errx msg ap s) as [[] ?].
Qed.

(** A checked call: the body goes on exactly when the call succeeds, or, for
    [call_error_iff], when it fails with the error number that is expected. *)
Lemma check_iff {A B} (f : W -> (A + Z) * W) text (k : A -> test cap W B) s r w' :
  f (p_world s) = (r, w') ->
  succeeds (CHERIOSTEST_CHECK_SYSCALL (sys f) text ≫= k) s <->
  exists a, r = inl a /\ succeeds (k a) (set_world w' s).
Proof.
  intros Hf. destruct r as [a|e].
  - unfold succeeds. rewrite (run_check _ _ _ _ _ _ Hf). split.
    + intros H. by exists a.
    + by intros (? & [= <-] & H).
  - split; [intros H; by apply (fail_check _ _ _ _ _ _ Hf) in H|by intros (? & ? & _)].
Qed.

Lemma call_error_iff {A B} (f : W -> (A + Z) * W) text show e (k : test cap W B) s r w' :
  f (p_world s) = (r, w') ->
  succeeds (CHERIOSTEST_CHECK_CALL_ERROR (sys f) text show e ;; k) s <->
  r = inr e /\ succeeds k (set_errno e (set_world w' s)).
Proof.
  intros Hf. unfold succeeds at 1, CHERIOSTEST_CHECK_CALL_ERROR.
  rewrite test_assoc. erewrite test_bind by reflexivity.
  rewrite test_assoc. erewrite (test_bind (sys f)).
  2: { unfold sys. cbn [p_world set_errno]. by rewrite Hf. }
  destruct r as [a|x].
  - split; [|by intros [? _]]. intros H. by apply failure_prefix in H.
  - cbn beta iota. rewrite test_assoc. erewrite test_bind by reflexivity.
    unfold cheriostest_check_errno. destruct (Z.eqb_spec e x) as [->|Hne].
    + split; [intros H; split; [done|exact H]|by intros [_ H]].
    + split; [|intros [? _]; congruence]. intros H. by apply failure_prefix in H.
Qed.

(** The page and the output of a process. *)
Definition same_page (s s' : proc cap W) : Prop :=
  p_ccsp s' = p_ccsp s /\ p_stdout s' = p_stdout s /\ p_handlers s' = p_handlers s.

#[export] Instance same_page_preorder : PreOrder same_page.
Proof.
  split; [done|]. intros s1 s2 s3 (H1 & H2 & H3) (G1 & G2 & G3).
  repeat split; congruence.
Qed.

Lemma same_page_world w (s : proc cap W) : same_page s (set_world w s).
Proof. done. Qed.

Lemma same_page_errno e (s : proc cap W) : same_page s (set_errno e s).
Proof. done. Qed.
End Steps.

#[export] Hint Resolve same_page_world same_page_errno : harness.
