(* ===== verification/VmTags.v ===== *)
(** * VmTags: which mappings hold tags (cheriostest_vm.c, first part)

    The names of shared-memory objects, temporary files, and the tests that map
    a page of some object and store a capability in it: the tag must survive,
    be lost, or the store must fault, as the object, the protection and the
    flags say.

    The theorems: the name generator has one result only; the retry loop over
    it ends, and never with its tenth attempt; and a run of each tag test files
    a pass exactly when the kernel's policy is the one that the test states. *)

From S2P Require Import Prelude Printf Cheri Harness Runner Toy RunnerFacts Faults Kernel.

(** The static variables of [skip_need_writable_tmp], in the controller. *)
Class TmpStatics (W : Type) := {
  tmp_checked : W -> bool;
  tmp_reason : W -> option string;
  set_tmp_statics : bool -> option string -> W -> W;
}.

Section VmTags.
Context {cap W : Type} {CH : Cheri cap} {LC : Libc cap W} {KE : Kernel cap W}
  {VC : VmConsts} {TS : TmpStatics W}.
Context (g : config).

Definition SHARED_MAPPING_XFAIL : string :=
  "CheriBSD still adds capability permissions to shared mappings implicitly.".

(** ** Names of shared-memory objects *)

Definition charset : string := "abcdefghijklmnopqrstuvwxyz0123456789".

(** [sizeof(charset)], [charset] being a pointer. *)
Definition sizeof_charset : Z := if cfg_purecap g then 16 else 8.

(** [for (i = ...; ...) shm_obj_name[i] = charset[random() % ...]] *)
Fixpoint fill_random (idx : list nat) (buf : bytes) : test cap W bytes :=
  match idx with
  | [] => mret buf
  | i :: idx' =>
      r ← libcall os_random;
      let k := Z.to_nat (u64 r mod (sizeof_charset - 1)) in
      fill_random idx' (<[i := default NUL (bytes_of charset !! k)]> buf)
  end.

Definition gen_shm_obj_name (len : nat) : test cap W bytes :=
  CHERIOSTEST_VERIFY2 (32 <=? len)%nat "Buffer for shm object name too small"
    [] ;;
  let buf := replicate len NUL in
  let buf := splice buf 0 (bytes_of "/cheriostest_shm-" ++ [NUL]) in
  buf ← fill_random (seq 18 (len - 1 - 18)) buf;
  mret (<[(len - 1)%nat := NUL]> buf).

Definition shm_mode : Z := 384.                                    (* 0600 *)

(** [while (!created)], with the attempts made so far: ten at most. *)
Fixpoint create_loop (fuel : nat) (attempts : Z) (len : nat)
    : test cap W (bytes * Z) :=
  match fuel with
  | O => undef
  | S fuel' =>
      name ← gen_shm_obj_name len;
      fd ← try_sys (sys_shm_open (ShmNamed (cstr name))
                      (Z.lor (Z.lor O_CREAT O_EXCL) O_RDWR) shm_mode);
      let attempts := attempts + 1 in
      when (attempts =? 10)
        (cheriostest_failure_errx "Couldn't create shared memory object" []) ;;
      match fd with
      | Some fd => mret (name, fd)
      | None => create_loop fuel' attempts len
      end
  end.

(** The name and the descriptor. *)
Definition create_named_shm_obj (len : nat) : test cap W (bytes * Z) :=
  create_loop 10 0 len.

(** ** Temporary files *)

Definition skip_need_writable_tmp (name : string) (w : W) : option string * W :=
  if tmp_checked w then (tmp_reason w, w)
  else
    let w := set_tmp_statics true (tmp_reason w) w in
    match sys_mkstemp "/tmp/cheriostest.XXXXXXXX" w with
    | (inl (fd, template), w) =>
        let w := (sys_close fd w).2 in
        (None, (sys_unlink template w).2)
    | (inr _, w) =>
        (Some "/tmp is not writable"%string,
         set_tmp_statics true (Some "/tmp is not writable"%string) w)
    end.

Definition create_tempfile : test cap W Z :=
  let template := "/tmp/cheribsdtest.XXXXXXXX"%string in
  f ← CHERIOSTEST_CHECK_SYSCALL2 (sys (sys_mkstemp template)) "mkstemp %s"
        [AStr template];
  let '(fd, template) := f in
  _ ← CHERIOSTEST_CHECK_SYSCALL (sys (sys_unlink template)) "unlink(template)";
  _ ← CHERIOSTEST_CHECK_SYSCALL (sys (sys_ftruncate fd getpagesize))
        "ftruncate(fd, getpagesize())";
  mret fd.

(** ** Storing a capability in a mapping *)

(** [cp_value = cheri_ptr(&v, sizeof(v))], [v] an int. *)
Definition cap_to_local : cap := cheri_ptr (stack_local 4) 4.

Definition mmap_and_check_tag_stored (fd protflags mapflags : Z)
    (expect_tag_loss : bool) : test cap W unit :=
  cp ← CHERIOSTEST_CHECK_SYSCALL
         (sys (sys_mmap (if fd =? -1 then cap_null else cap_of_int fd)
                 getpagesize protflags mapflags fd 0))
         "mmap(fd == -1 ? NULL : fd, getpagesize(), protflags, mapflags, fd, 0)";
  access (mem_store_cap cp 0 cap_to_local) ;;
  cp_value ← access (mem_load_cap cp 0);
  (if expect_tag_loss
   then CHERIOSTEST_VERIFY2 (negb (cheri_tag_get cp_value)) "tag not lost" []
   else CHERIOSTEST_VERIFY2 (cheri_tag_get cp_value) "tag lost" []) ;;
  _ ← CHERIOSTEST_CHECK_SYSCALL (sys (sys_munmap cp getpagesize))
        "munmap(__DEVOLATILE(void *, cp), getpagesize())";
  if fd =? -1 then mret tt
  else (_ ← CHERIOSTEST_CHECK_SYSCALL (sys (sys_close fd)) "close(fd)"; mret tt).

Definition anon_flags : Z :=
  if is_linux g then Z.lor MAP_ANON MAP_PRIVATE else MAP_ANON.

Definition PROT_RW : Z := Z.lor PROT_READ PROT_WRITE.
Definition PROT_RWC : Z := Z.lor PROT_RW PROT_CAP.

Definition PROT_CAP_missing {A} : test cap W A :=
  cheriostest_failure_errx "PROT_CAP is not defined" [].

(** A mapping of a descriptor, then success. *)
Definition check_stored (fd prot flags : Z) (expect_tag_loss : bool)
    : test cap W unit :=
  mmap_and_check_tag_stored fd prot flags expect_tag_loss ;;
  cheriostest_success.

Definition vm_tag_mmap_anon : cheri_test cap W :=
  CHERIOSTEST "vm_tag_mmap_anon" "check tags are stored for MAP_ANON pages"
    (check_stored (-1) PROT_RW anon_flags false).

Definition vm_tag_mmap_anon_cap : cheri_test cap W :=
  CHERIOSTEST "vm_tag_mmap_anon_cap"
    "check tags are stored for MAP_ANON pages with explicit permissions"
    (if cfg_prot_cap g then check_stored (-1) PROT_RWC anon_flags false
     else PROT_CAP_missing).

(** [.ct_check_skip = skip_need_writable_tmp] *)
Definition with_tmp (t : cheri_test cap W) : cheri_test cap W :=
  with_skip skip_need_writable_tmp t.

Definition fault_flags : Z :=
  Z.lor (Z.lor (Z.lor CT_FLAG_SIGNAL CT_FLAG_SI_CODE) CT_FLAG_SI_TRAPNO)
    CT_FLAG_SI_ADDR.

(** The signal of the tests of pages without capability permission. *)
Definition with_storetag_fault (t : cheri_test cap W) : cheri_test cap W :=
  if is_freebsd g
  then with_signal fault_flags (SIGSEGV (cap := cap) (W := W)) SEGV_STORETAG
         TRAPNO_STORE_CAP_PF t
  else with_signal fault_flags (SIGSEGV (cap := cap) (W := W)) 0 0 t.

(** The store that must fault, at the announced address. *)
Definition store_must_fault (cp : cap) : test cap W unit :=
  cheriostest_set_expected_si_addr g (NULL_DERIVED_VOIDP cp) ;;
  access (mem_store_cap cp 0 cap_to_local) ;;
  cheriostest_failure_errx "tagged store succeeded" [].

Definition PROT_NO_CAP_missing {A} : test cap W A :=
  cheriostest_failure_errx "PROT_NO_CAP is not defined" [].

Definition vm_notag_mmap_no_cap : cheri_test cap W :=
  with_tmp (with_storetag_fault
    (CHERIOSTEST "vm_notag_mmap_no_cap"
       "check tags are not stored if we request no capability permissions"
       (if cfg_prot_cap g then
          cp ← CHERIOSTEST_CHECK_SYSCALL
                 (sys (sys_mmap cap_null getpagesize
                   (Z.lor (PROT_MAX PROT_RWC) (Z.lor PROT_RW PROT_NO_CAP))
                   anon_flags (-1) 0))
                 "mmap(NULL, getpagesize(), PROT_MAX(PROT_READ | PROT_WRITE | PROT_CAP) | PROT_READ | PROT_WRITE | PROT_NO_CAP, flags, -1, 0)";
          store_must_fault cp
        else PROT_NO_CAP_missing))).

Definition vm_notag_mprotect_no_cap : cheri_test cap W :=
  with_tmp (with_storetag_fault
    (CHERIOSTEST "vm_notag_mprotect_no_cap"
       "check tags are not stored if we remove capability page permissions"
       (if cfg_prot_cap g then
          cp ← CHERIOSTEST_CHECK_SYSCALL
                 (sys (sys_mmap cap_null getpagesize PROT_RW anon_flags (-1) 0))
                 "mmap(NULL, getpagesize(), PROT_READ | PROT_WRITE, flags, -1, 0)";
          _ ← CHERIOSTEST_CHECK_SYSCALL
                (sys (sys_mprotect cp getpagesize (Z.lor PROT_RW PROT_NO_CAP)))
                "mprotect(__DEVOLATILE(void *, cp), getpagesize(), PROT_READ | PROT_WRITE | PROT_NO_CAP)";
          store_must_fault cp
        else PROT_NO_CAP_missing))).

(** ** Protections that mmap(2) must refuse *)

Definition PTR_FMT : string := if cfg_purecap g then "%#p" else "%p".

Definition mmap_check_bad_protections_fd (prot fd expected_errno : Z)
    : test cap W unit :=
  CHERIOSTEST_CHECK_CALL_ERROR
    (sys (sys_mmap cap_null getpagesize prot
            (if fd =? -1 then anon_flags else MAP_SHARED) fd 0))
    (if is_linux g
     then "mmap(NULL, getpagesize(), prot, fd == -1 ? MAP_ANON | MAP_PRIVATE : MAP_SHARED, fd, 0)"
     else "mmap(NULL, getpagesize(), prot, fd == -1 ? MAP_ANON : MAP_SHARED, fd, 0)")
    (fun c => (PTR_FMT, APtr c)) expected_errno.

Definition mmap_check_bad_protections (prot expected_errno : Z)
    : test cap W unit :=
  mmap_check_bad_protections_fd prot (-1) expected_errno.

Definition vm_mmap_disallowed_prot : cheri_test cap W :=
  CHERIOSTEST "vm_mmap_disallowed_prot"
    "check that disallowed protection combinations are rejected"
    (mmap_check_bad_protections (Z.lor PROT_RW (PROT_MAX PROT_READ)) ENOTSUP ;;
     when (cfg_prot_cap g)
       (mmap_check_bad_protections
          (Z.lor (Z.lor PROT_READ PROT_CAP) (PROT_MAX PROT_READ)) ENOTSUP ;;
        mmap_check_bad_protections PROT_CAP ENOTSUP ;;
        mmap_check_bad_protections (PROT_MAX PROT_CAP) ENOTSUP ;;
        fd ← create_tempfile;
        _ ← CHERIOSTEST_CHECK_SYSCALL (sys (sys_ftruncate fd getpagesize))
              "ftruncate(fd, getpagesize())";
        mmap_check_bad_protections_fd PROT_RWC fd EACCES) ;;
     cheriostest_success).

(** ** The objects that the tests map *)

Definition ftruncate_page (fd : Z) : test cap W unit :=
  _ ← CHERIOSTEST_CHECK_SYSCALL (sys (sys_ftruncate fd getpagesize))
        "ftruncate(fd, getpagesize())";
  mret tt.

Definition open_shm_anon : test cap W Z :=
  CHERIOSTEST_CHECK_SYSCALL (sys (sys_shm_open ShmAnon O_RDWR shm_mode))
    "shm_open(SHM_ANON, O_RDWR, 0600)".

(** A named object of the size of a page, its name removed again. *)
Definition open_named_shm : test cap W Z :=
  p ← create_named_shm_obj 32;
  let '(shm_name, fd) := p in
  _ ← CHERIOSTEST_CHECK_SYSCALL (sys (sys_shm_unlink (cstr shm_name)))
        "shm_unlink(shm_name)";
  mret fd.

Definition open_memfd (func : string) : test cap W Z :=
  CHERIOSTEST_CHECK_SYSCALL (sys (sys_memfd_create func 0))
    "memfd_create(__func__, 0)".

Definition open_dev_zero : test cap W Z :=
  CHERIOSTEST_CHECK_SYSCALL (sys (sys_open "/dev/zero" O_RDWR))
    ("open(" +:+ quote +:+ "/dev/zero" +:+ quote +:+ ", O_RDWR)").

(** The end of the tests whose store must fault; with the
    __riscv_zcheripurecap ISA the store drops the tag instead. *)
Definition check_not_stored (fd prot flags : Z) (msg : string) : test cap W unit :=
  if is_zcheri g then check_stored fd prot flags true
  else mmap_and_check_tag_stored fd prot flags false ;;
       cheriostest_failure_errx msg [].

(** The description of a test of that kind: on Linux nothing but the signal,
    on CheriBSD with the code, and the trap number where [trapno] is set. *)
Definition with_shared_fault (trapno : bool) (t : cheri_test cap W)
    : cheri_test cap W :=
  if is_zcheri g then t
  else if is_freebsd g
  then with_signal
         (if trapno
          then Z.lor (Z.lor CT_FLAG_SIGNAL CT_FLAG_SI_CODE) CT_FLAG_SI_TRAPNO
          else Z.lor CT_FLAG_SIGNAL CT_FLAG_SI_CODE)
         (SIGSEGV (cap := cap) (W := W)) SEGV_STORETAG
         (if trapno then TRAPNO_STORE_CAP_PF else 0) t
  else with_signal CT_FLAG_SIGNAL (SIGSEGV (cap := cap) (W := W)) 0 0 t.

Definition with_shared_xfail (t : cheri_test cap W) : cheri_test cap W :=
  if is_freebsd g then with_xfail (Some SHARED_MAPPING_XFAIL) t else t.

(** ** Shared memory *)

Definition vm_tag_shm_open_anon_shared : cheri_test cap W :=
  CHERIOSTEST "vm_tag_shm_open_anon_shared"
    "check tags are stored for SHM_ANON MAP_SHARED pages when requested"
    (fd ← open_shm_anon; ftruncate_page fd ;;
     check_stored fd PROT_RWC MAP_SHARED false).

Definition vm_tag_shm_open_named_shared_no_implied_cap : cheri_test cap W :=
  with_shared_xfail (with_shared_fault false
    (CHERIOSTEST "vm_tag_shm_open_named_shared_no_implied_cap"
       "check tags are stored for named MAP_SHARED pages"
       (fd ← open_named_shm; ftruncate_page fd ;;
        check_not_stored fd PROT_RW MAP_SHARED "tagged store succeeded"))).

Definition vm_tag_shm_open_anon_shared_no_implied_cap : cheri_test cap W :=
  let t := CHERIOSTEST "vm_tag_shm_open_anon_shared_no_implied_cap"
    "check tags are not stored for SHM_ANON MAP_SHARED pages by default"
    (fd ← open_shm_anon; ftruncate_page fd ;;
     check_not_stored fd PROT_RW MAP_SHARED "store succeeded") in
  with_xfail (Some SHARED_MAPPING_XFAIL)
    (if is_zcheri g then t else with_tmp (with_shared_fault true t)).

Definition vm_tag_anon_shared_no_implied_cap : cheri_test cap W :=
  with_tmp (with_shared_xfail (with_shared_fault true
    (CHERIOSTEST "vm_tag_anon_shared_no_implied_cap"
       "check tags are not stored for anonymous MAP_SHARED pages by default"
       (check_not_stored (-1) PROT_RW (Z.lor MAP_SHARED MAP_ANON)
          "store succeeded")))).

Definition vm_tag_memfd_create_shared : cheri_test cap W :=
  with_shared_xfail (with_shared_fault false
    (CHERIOSTEST "vm_tag_memfd_create_shared"
       "check tags are stored for SHM_ANON MAP_SHARED pages"
       (fd ← open_memfd "vm_tag_memfd_create_shared";
        ftruncate_page fd ;;
        check_not_stored fd PROT_RW MAP_SHARED "tagged store succeeded"))).

Definition vm_tag_shm_open_anon_private : cheri_test cap W :=
  CHERIOSTEST "vm_tag_shm_open_anon_private"
    "check tags are stored for SHM_ANON MAP_PRIVATE pages"
    (fd ← open_shm_anon; ftruncate_page fd ;;
     check_stored fd PROT_RW MAP_PRIVATE false).

Definition vm_tag_shm_open_named_private : cheri_test cap W :=
  CHERIOSTEST "vm_tag_shm_open_named_private"
    "check tags are stored for named MAP_PRIVATE pages"
    (fd ← open_named_shm; ftruncate_page fd ;;
     check_stored fd PROT_RW MAP_PRIVATE false).

(** ** Devices and files *)

Definition vm_tag_dev_zero_shared : cheri_test cap W :=
  CHERIOSTEST "vm_tag_dev_zero_shared"
    "check tags are stored for /dev/zero MAP_SHARED pages"
    (if cfg_prot_cap g then
       fd ← open_dev_zero; check_stored fd PROT_RWC MAP_SHARED false
     else PROT_CAP_missing).

Definition vm_tag_dev_zero_private : cheri_test cap W :=
  CHERIOSTEST "vm_tag_dev_zero_private"
    "check tags are stored for /dev/zero MAP_PRIVATE pages"
    (fd ← open_dev_zero; check_stored fd PROT_RW MAP_PRIVATE false).

Definition vm_notag_tmpfile_shared : cheri_test cap W :=
  let t := CHERIOSTEST "vm_notag_tmpfile_shared"
    "check tags are not stored for tmpfile() MAP_SHARED pages"
    (fd ← create_tempfile;
     cp ← CHERIOSTEST_CHECK_SYSCALL
            (sys (sys_mmap cap_null getpagesize PROT_RW MAP_SHARED fd 0))
            "mmap(NULL, getpagesize(), PROT_READ | PROT_WRITE, MAP_SHARED, fd, 0)";
     cheriostest_set_expected_si_addr g (NULL_DERIVED_VOIDP cp) ;;
     access (mem_store_cap cp 0 cap_to_local) ;;
     if is_zcheri g then
       cp_value ← access (mem_load_cap cp 0);
       CHERIOSTEST_VERIFY2 (negb (cheri_tag_get cp_value)) "tag not lost" [] ;;
       cheriostest_success
     else cheriostest_failure_errx "tagged store succeeded" []) in
  with_tmp
    (if is_zcheri g then t
     else if is_freebsd g
     then with_signal fault_flags (SIGSEGV (cap := cap) (W := W)) SEGV_STORETAG
            TRAPNO_STORE_CAP_PF t
     else with_signal (Z.lor CT_FLAG_SIGNAL CT_FLAG_SI_ADDR)
            (SIGSEGV (cap := cap) (W := W)) 0 0 t).

Definition vm_tag_tmpfile_private : cheri_test cap W :=
  with_tmp (CHERIOSTEST "vm_tag_tmpfile_private"
    "check tags are stored for tmpfile() MAP_PRIVATE pages"
    (fd ← create_tempfile; check_stored fd PROT_RW MAP_PRIVATE false)).

Definition prefault_flags : Z :=
  Z.lor MAP_PRIVATE (if is_linux g then MAP_POPULATE else MAP_PREFAULT_READ).

Definition vm_tag_tmpfile_private_prefault : cheri_test cap W :=
  with_tmp (CHERIOSTEST "vm_tag_tmpfile_private_prefault"
    "check tags are stored for tmpfile() MAP_PRIVATE, MAP_PREFAULT_READ pages"
    (fd ← create_tempfile; check_stored fd PROT_RW prefault_flags false)).
End VmTags.

(** ** What the kernel is assumed to do *)

Inductive vm_object := OAnon | OShm | OMemfd | ODevZero | OFile.

(** The policy of a kernel: whether a mapping of that protection and these
    flags of such an object holds tags, or the error number if it is refused;
    and whether a private anonymous mapping holds tags after mprotect(2). *)
Class TagPolicy := {
  tags_allowed : Z -> Z -> vm_object -> bool + Z;
  tags_after_mprotect : Z -> bool;
}.

Section TagLaws.
Context {cap W : Type} {CH : Cheri cap} {LC : Libc cap W} {KE : Kernel cap W}
  {VC : VmConsts} {TS : TmpStatics W}.
Context (g : config).

(** A store of a capability to a page without capability permission. *)
Definition storetag_fault (c : cap) : siginfo cap :=
  Siginfo (SIGSEGV (cap := cap) (W := W)) SEGV_STORETAG TRAPNO_STORE_CAP_PF
    (cap_of_int (cheri_address_get c)).

(** Calls on objects succeed, a mapping holds tags as the policy says, and a
    store of a tagged capability to one that does not faults, or drops the tag
    on the ISA of __riscv_zcheripurecap. *)
Class TagLaws {TP : TagPolicy} := {
  obj_of : W -> Z -> vm_object;
  cap_page : W -> cap -> bool -> Prop;
  anon_obj w : obj_of w (-1) = OAnon;
  mmap_page hint prot flags fd w b :
    tags_allowed prot flags (obj_of w fd) = inl b -> exists c w',
    sys_mmap hint getpagesize prot flags fd 0 w = (inl c, w') /\ cap_page w' c b;
  mmap_refused hint prot flags fd w e :
    tags_allowed prot flags (obj_of w fd) = inr e -> exists w',
    sys_mmap hint getpagesize prot flags fd 0 w = (inr e, w') /\
    forall fd, obj_of w' fd = obj_of w fd;
  mprotect_page c b prot w : cap_page w c b -> exists w',
    sys_mprotect c getpagesize prot w = (inl 0, w') /\
    cap_page w' c (tags_after_mprotect prot);
  shm_open_obj p flags w : exists fd w',
    sys_shm_open p flags shm_mode w = (inl fd, w') /\ obj_of w' fd = OShm /\ 0 <= fd;
  memfd_obj f w : exists fd w',
    sys_memfd_create f 0 w = (inl fd, w') /\ obj_of w' fd = OMemfd /\ 0 <= fd;
  dev_zero_obj w : exists fd w',
    sys_open "/dev/zero" O_RDWR w = (inl fd, w') /\ obj_of w' fd = ODevZero /\ 0 <= fd;
  mkstemp_obj t w : exists fd t' w',
    sys_mkstemp t w = (inl (fd, t'), w') /\ obj_of w' fd = OFile /\ 0 <= fd;
  unlink_obj t w : exists w', sys_unlink t w = (inl 0, w') /\
    forall fd, obj_of w' fd = obj_of w fd;
  shm_unlink_obj t w : exists w', sys_shm_unlink t w = (inl 0, w') /\
    forall fd, obj_of w' fd = obj_of w fd;
  ftruncate_obj fd len w : exists w', sys_ftruncate fd len w = (inl 0, w') /\
    forall fd, obj_of w' fd = obj_of w fd;
  close_fd fd w : exists w', sys_close fd w = (inl 0, w');
  store_allowed c v w : cap_page w c true -> exists w' w'',
    mem_store_cap c 0 v w = (inl tt, w') /\
    mem_load_cap c 0 w' = (inl v, w'') /\ cap_page w'' c true;
  store_dropped c v w : cap_page w c false -> is_zcheri g = true -> exists w' w'',
    mem_store_cap c 0 v w = (inl tt, w') /\
    mem_load_cap c 0 w' = (inl (cheri_tag_clear v), w'') /\ cap_page w'' c false;
  store_faults c v w : cap_page w c false -> is_zcheri g = false ->
    cheri_tag_get v = true -> exists w',
    mem_store_cap c 0 v w = (inr (storetag_fault c), w');
  munmap_page c b w : cap_page w c b -> exists w',
    sys_munmap c getpagesize w = (inl 0, w');
  local_tagged : cheri_tag_get (cap_to_local (cap := cap) (W := W)) = true;
  tmp_writable name w : (skip_need_writable_tmp name w).1 = None;
  sigsegv_pos : 0 < SIGSEGV (cap := cap) (W := W);
}.
End TagLaws.
Arguments TagLaws {cap W _ _ _ _ _} g {_}.
Arguments storetag_fault {cap W _ _ _} c.

(** ** The names and the retry loop *)

Section Names.
Context {cap W : Type} {CH : Cheri cap} {LC : Libc cap W} {KE : Kernel cap W}
  {VC : VmConsts}.
Context (g : config).

(** The generator never fails, and takes some random numbers from the world. *)
Lemma fill_random_run (idx : list nat) buf (s : proc cap W) :
  exists buf' w', fill_random g idx buf s = (Val buf', set_world w' s) /\
    length buf' = length buf /\
    (forall i, i ∉ idx -> buf' !! i = buf !! i).
Proof.
  revert buf s. induction idx as [|i idx IH]; intros buf s; simpl.
  { exists buf, (p_world s). by destruct s. }
  unfold libcall, mbind, eff_bind. destruct (os_random (p_world s)) as [r w1].
  destruct (IH (<[i:=default NUL
    (bytes_of charset !! Z.to_nat (u64 r mod (sizeof_charset g - 1)))]> buf)
    (set_world w1 s)) as (buf' & w' & Hrun & Hlen & Hsame).
  exists buf', w'. split; [exact Hrun|].
  split; [by rewrite Hlen, length_insert|].
  intros j Hj. rewrite Hsame by set_solver.
  apply list_lookup_insert_ne. set_solver.
Qed.

Lemma gen_name_run (len : nat) (s : proc cap W) :
  (32 <= len)%nat -> exists buf w',
    gen_shm_obj_name g len s = (Val buf, set_world w' s) /\
    length buf = len /\
    take 18 buf = bytes_of "/cheriostest_shm-" ++ [NUL].
Proof.
  intros Hlen. unfold gen_shm_obj_name. rewrite run_verify2 by (by apply Nat.leb_le).
  set (buf0 := splice _ _ _).
  destruct (fill_random_run (seq 18 (len - 1 - 18)) buf0 s)
    as (buf & w' & Hrun & Hl & Hsame).
  eexists _, w'. erewrite test_bind by exact Hrun. split; [done|].
  assert (length buf0 = len) as Hl0.
  { unfold buf0. rewrite length_splice, length_replicate; [done|].
    rewrite length_replicate. simpl. lia. }
  split; [rewrite length_insert; lia|].
  apply list_eq. intros i. destruct (decide (i < 18)%nat) as [Hi|Hi].
  - rewrite lookup_take_lt, list_lookup_insert_ne, Hsame by (rewrite ?elem_of_seq; lia).
    unfold buf0, splice. rewrite take_0. cbn [app].
    by rewrite lookup_app_l by (simpl; lia).
  - rewrite lookup_take_ge by lia.
    symmetry. apply lookup_ge_None. simpl. lia.
Qed.

Definition shm_prefix : string := "/cheriostest_shm-".

Lemma name_is_prefix (buf : bytes) :
  take 18 buf = bytes_of shm_prefix ++ [NUL] -> cstr buf = shm_prefix.
Proof.
  intros Hb. rewrite <- (take_drop 18 buf), Hb, <- app_assoc. cbn [app].
  apply bytes_of_inj, cstr_bytes_nul.
  repeat constructor; intros E; apply (f_equal N_of_ascii) in E; by vm_compute in E.
Qed.

(** For every buffer that it accepts, the generator of object names fills
    the buffer, ends, and leaves the same name: the random characters are
    written behind the terminator of the prefix. *)
Theorem gen_shm_obj_name_constant (len : nat) (s : proc cap W) :
  (32 <= len)%nat -> exists buf w',
    gen_shm_obj_name g len s = (Val buf, set_world w' s) /\
    length buf = len /\ cstr buf = shm_prefix.
Proof.
  intros Hlen. destruct (gen_name_run len s Hlen) as (buf & w' & Hrun & Hl & Hb).
  exists buf, w'. split; [done|]. split; [done|]. by apply name_is_prefix.
Qed.

(** One turn of the loop, without the count. *)
Definition attempt (len : nat) : test cap W (bytes * option Z) :=
  name ← gen_shm_obj_name g len;
  fd ← try_sys (sys_shm_open (ShmNamed (cstr name))
                  (Z.lor (Z.lor O_CREAT O_EXCL) O_RDWR) shm_mode);
  mret (name, fd).

Inductive failing (len : nat) : nat -> proc cap W -> proc cap W -> Prop :=
  | failing_O s : failing len 0 s s
  | failing_S n name s s1 s2 :
      attempt len s = (Val (name, None), s1) -> failing len n s1 s2 ->
      failing len (S n) s s2.

(** A turn ends, keeps the page, and has tried the one name. *)
Lemma attempt_run (len : nat) (s : proc cap W) :
  (32 <= len)%nat -> exists name r s',
    attempt len s = (Val (name, r), s') /\ p_ccsp s' = p_ccsp s /\
    cstr name = shm_prefix.
Proof.
  intros Hlen. destruct (gen_name_run len s Hlen) as (name & w & Hgen & _ & Hb).
  apply name_is_prefix in Hb. unfold attempt. erewrite test_bind by exact Hgen.
  unfold try_sys, sys, mbind, eff_bind. simpl.
  destruct (sys_shm_open _ _ _ w) as [[fd|e] w']; simpl; by eexists _, _, _.
Qed.

Lemma create_loop_step (fuel : nat) (n : Z) (len : nat) (s : proc cap W) :
  create_loop g (S fuel) n len s =
  (p ← attempt len;
   when (n + 1 =? 10)
     (cheriostest_failure_errx "Couldn't create shared memory object" []) ;;
   match p.2 with
   | Some fd => mret (p.1, fd)
   | None => create_loop g fuel (n + 1) len
   end) s.
Proof.
  cbn [create_loop]. unfold attempt, mbind, eff_bind.
  destruct (gen_shm_obj_name g len s) as [[buf| | |] s1]; try done.
  by destruct (try_sys _ s1) as [[] ?].
Qed.

Lemma create_loop_run (m : nat) (len : nat) (s : proc cap W) :
  (32 <= len)%nat -> shared s ->
  let r := create_loop g (S m) (9 - Z.of_nat m) len s in
  (exists n s1 name fd s2, (n < m)%nat /\ failing len n s s1 /\
     attempt len s1 = (Val (name, Some fd), s2) /\ cstr name = shm_prefix /\
     r = (Val (name, fd), s2)) \/
  (exists s1, failing len m s s1 /\
     verdict_of r = Failed (report "Couldn't create shared memory object" [])).
Proof.
  intros Hlen. revert s. induction m as [|m IH]; intros s Hs r; unfold r;
    rewrite create_loop_step;
    destruct (attempt_run len s Hlen) as (name & res & s1 & Hat & Hp & Hname);
    erewrite test_bind by exact Hat; cbn [fst snd].
  - right. exists s. split; [constructor|]. simpl when.
    rewrite <- (verdict_failure_errx (A := unit) "Couldn't create shared memory object"
      [] s1) by (by destruct Hs as (c & Hc & Hl); exists c; rewrite Hp).
    unfold cheriostest_failure_errx, verdict_of, mbind, eff_bind.
    by destruct (vcheriostest_failure_errx _ _ s1) as [[] ?].
  - unfold when. rewrite (proj2 (Z.eqb_neq _ _)) by lia.
    erewrite test_bind by reflexivity. destruct res as [fd|].
    + left. exists 0%nat, s, name, fd, s1. split_and!; [lia|constructor|done..].
    + replace (9 - Z.of_nat (S m) + 1) with (9 - Z.of_nat m) by lia.
      destruct (IH s1) as [(n & s2 & nm & fd & s3 & Hn & Hf & H)|(s2 & Hf & H)].
      * by destruct Hs as (c & Hc & Hl); exists c; rewrite Hp.
      * left. exists (S n), s2, nm, fd, s3. split; [lia|]. split; [|exact H].
        by eapply failing_S.
      * right. exists s2. split; [|exact H]. by eapply failing_S.
Qed.

(** The loop that creates a named object ends: it returns the descriptor
    of the first attempt that succeeds among the first nine, all of them with
    the one name; after nine failures it declares a failure, whatever the
    tenth attempt gives. *)
Theorem create_named_shm_obj_ends (len : nat) (s : proc cap W) :
  (32 <= len)%nat -> shared s ->
  let r := create_named_shm_obj g len s in
  (exists n s1 name fd s2, (n < 9)%nat /\ failing len n s s1 /\
     attempt len s1 = (Val (name, Some fd), s2) /\ cstr name = shm_prefix /\
     r = (Val (name, fd), s2)) \/
  (exists s1, failing len 9 s s1 /\
     verdict_of r = Failed (report "Couldn't create shared memory object" [])).
Proof. intros Hlen Hs. by apply (create_loop_run 9). Qed.
End Names.

Section TagFacts.
Context {cap W : Type} {CH : Cheri cap} {CL : CheriLaws cap} {LC : Libc cap W}
  {KE : Kernel cap W} {VC : VmConsts} {TS : TmpStatics W}.
Context (g : config) {TP : TagPolicy} {TL : TagLaws (cap := cap) (W := W) g}.

(** *** The ends of a body, from one state *)

(** The page holds nothing but the address [e], and nothing was printed. *)
Definition fresh (e : cap * bool) (s : proc cap W) : Prop :=
  p_ccsp s = Some (expected_page e) /\ p_stdout s = EmptyString.

Definition ends_ok (m : test cap W unit) (s : proc cap W) : Prop :=
  exists s' e str, m s = (Exited 0, s') /\
    p_ccsp s' = Some (set_result TESTRESULT_SUCCESS str false (expected_page e)) /\
    p_stdout s' = EmptyString.

Definition ends_fail (m : test cap W unit) (s : proc cap W) : Prop :=
  exists s' c, m s = (Exited EX_SOFTWARE, s') /\ p_ccsp s' = Some c /\
    ccs_testresult c = TESTRESULT_FAILURE.

(** The address that the tests announce for a fault on [c]. *)
Definition announced (c : cap) : cap * bool := stored_addr g (storetag_fault (W := W) c).

Definition ends_fault (ann : bool) (m : test cap W unit) (s : proc cap W) : Prop :=
  exists c, raises_at m (if ann then announced c else no_addr) (storetag_fault c) s.

Lemma ends_ok_success e s : fresh e s -> ends_ok cheriostest_success s.
Proof.
  intros [Hp Ho]. unfold cheriostest_success, with_ccsp, ends_ok, mbind, eff_bind.
  rewrite Hp. by eexists _, e, _.
Qed.

Lemma ends_fail_errx msg ap e s :
  fresh e s -> ends_fail (cheriostest_failure_errx msg ap) s.
Proof.
  intros [Hp _]. unfold cheriostest_failure_errx, vcheriostest_failure_errx,
    ends_fail, mbind, eff_bind. rewrite Hp. by eexists _, _.
Qed.

Lemma ends_fail_err msg ap e s :
  fresh e s -> ends_fail (cheriostest_failure_err msg ap) s.
Proof.
  intros [Hp _]. unfold cheriostest_failure_err, vcheriostest_failure_errc,
    ends_fail, mbind, eff_bind, gets. rewrite Hp. by eexists _, _.
Qed.

(** A call that fails, or a check that does, ends the body whatever follows. *)
Lemma ends_fail_prefix {A} (m : test cap W unit) (k : unit -> test cap W A)
    (f : A -> test cap W unit) s :
  ends_fail m s -> ends_fail ((m ≫= k) ≫= f) s.
Proof.
  intros (s' & c & Hm & Hc). exists s', c. unfold mbind, eff_bind. by rewrite Hm.
Qed.

Lemma failure_exits {A} msg ap s :
  (exists c, p_ccsp s = Some c) -> exists s' c,
    cheriostest_failure_errx (A := A) msg ap s = (Exited EX_SOFTWARE, s') /\
    p_ccsp s' = Some c /\ ccs_testresult c = TESTRESULT_FAILURE.
Proof.
  intros [c Hp]. unfold cheriostest_failure_errx, vcheriostest_failure_errx,
    mbind, eff_bind. rewrite Hp. by eexists _, _.
Qed.

Lemma failure_err_exits {A} msg ap e s :
  fresh e s -> exists s' c,
    cheriostest_failure_err (A := A) msg ap s = (Exited EX_SOFTWARE, s') /\
    p_ccsp s' = Some c /\ ccs_testresult c = TESTRESULT_FAILURE.
Proof.
  intros [Hp _]. unfold cheriostest_failure_err, vcheriostest_failure_errc,
    mbind, eff_bind, gets. rewrite Hp. by eexists _, _.
Qed.

Lemma ends_fail_call {A} (f : W -> (A + Z) * W) text k e x s w' :
  fresh x s -> f (p_world s) = (inr e, w') ->
  ends_fail (CHERIOSTEST_CHECK_SYSCALL (sys f) text ≫= k) s.
Proof.
  intros Hs Hf. unfold ends_fail, CHERIOSTEST_CHECK_SYSCALL, CHERIOSTEST_CHECK_SYSCALL2,
    sys, modify, mbind, eff_bind. rewrite Hf.
  destruct (failure_err_exits (A := A) ("Call '" +:+ text +:+ "' failed") [] x
    (set_errno e (set_world w' s)) Hs) as (s' & c & -> & Hc). by exists s', c.
Qed.

Lemma ends_fail_verify2 msg ap (k : unit -> test cap W unit) x s :
  fresh x s -> ends_fail (CHERIOSTEST_VERIFY2 false msg ap ≫= k) s.
Proof.
  intros Hs. unfold ends_fail, CHERIOSTEST_VERIFY2, mbind at 1, eff_bind.
  destruct (failure_exits (A := unit) msg ap s) as (s' & c & -> & Hc);
    [by destruct Hs; eexists|].
  by exists s', c.
Qed.

(** *** The page that the tests map *)

Lemma store_load c b v w :
  cap_page g w c b -> b || is_zcheri g = true -> exists w' w'',
    mem_store_cap c 0 v w = (inl tt, w') /\
    mem_load_cap c 0 w' = (inl (if b then v else cheri_tag_clear v), w'') /\
    cap_page g w'' c b.
Proof.
  intros Hp Hb. destruct b; [by apply store_allowed|by apply store_dropped].
Qed.

(** What the two calls of a test read back: the tag of the page. *)
Lemma tag_read_back (b : bool) (v : cap) :
  cheri_tag_get v = true ->
  cheri_tag_get (if b then v else cheri_tag_clear v) = b.
Proof. intros Hv. destruct b; [done|by rewrite tag_clear_tag]. Qed.

Section Body.
Context (fd prot flags : Z) (loss : bool) (k : test cap W unit) (s : proc cap W).
Context (Hs : fresh no_addr s).

Lemma mmap_check_passes b :
  tags_allowed prot flags (obj_of g (p_world s) fd) = inl b ->
  b || is_zcheri g = true -> b = negb loss -> exists w',
    (mmap_and_check_tag_stored fd prot flags loss ;; k) s = k (set_world w' s).
Proof.
  intros Ha Hz Hl. unfold mmap_and_check_tag_stored.
  destruct (mmap_page g (if fd =? -1 then cap_null else cap_of_int fd)
    prot flags fd _ b Ha) as (c & w1 & Hmap & Hp1).
  destruct (store_load c b cap_to_local w1 Hp1 Hz) as (w2 & w3 & Hst & Hld & Hp3).
  destruct (munmap_page g c b w3 Hp3) as (w4 & Hun).
  rewrite test_assoc. erewrite run_check by exact Hmap.
  rewrite test_assoc. erewrite run_access by exact Hst.
  rewrite test_assoc. erewrite run_access by exact Hld.
  rewrite test_assoc.
  pose proof (tag_read_back b cap_to_local (local_tagged g)) as Htag.
  erewrite (test_bind _ _ _ tt); [|by destruct loss; simpl in Hl; subst b;
    unfold CHERIOSTEST_VERIFY2; rewrite Htag].
  rewrite test_assoc. erewrite run_check by exact Hun.
  destruct (fd =? -1); [by eexists|].
  rewrite test_assoc.
  destruct (close_fd g fd w4) as (w5 & Hcl).
  erewrite run_check by exact Hcl. by eexists.
Qed.

Lemma mmap_check_fails b :
  tags_allowed prot flags (obj_of g (p_world s) fd) = inl b ->
  b || is_zcheri g = true -> b = loss ->
  ends_fail (mmap_and_check_tag_stored fd prot flags loss ;; k) s.
Proof.
  intros Ha Hz Hl. unfold mmap_and_check_tag_stored.
  destruct (mmap_page g (if fd =? -1 then cap_null else cap_of_int fd)
    prot flags fd _ b Ha) as (c & w1 & Hmap & Hp1).
  destruct (store_load c b cap_to_local w1 Hp1 Hz) as (w2 & w3 & Hst & Hld & Hp3).
  pose proof (tag_read_back b cap_to_local (local_tagged g)) as Htag.
  unfold ends_fail.
  rewrite test_assoc. erewrite run_check by exact Hmap.
  rewrite test_assoc. erewrite run_access by exact Hst.
  rewrite test_assoc. erewrite run_access by exact Hld.
  rewrite test_assoc. rewrite Htag.
  destruct loss; subst b; simpl negb; cbv iota;
    by apply ends_fail_verify2 with (x := no_addr).
Qed.

Lemma mmap_check_faults :
  tags_allowed prot flags (obj_of g (p_world s) fd) = inl false ->
  is_zcheri g = false ->
  ends_fault false (mmap_and_check_tag_stored fd prot flags loss ;; k) s.
Proof.
  intros Ha Hz. unfold mmap_and_check_tag_stored.
  destruct (mmap_page g (if fd =? -1 then cap_null else cap_of_int fd)
    prot flags fd _ false Ha) as (c & w1 & Hmap & Hp1).
  destruct (store_faults g c cap_to_local w1 Hp1 Hz (local_tagged g)) as (w2 & Hst).
  exists c. unfold raises_at. destruct Hs as [Hpage _].
  rewrite test_assoc. erewrite run_check by exact Hmap.
  rewrite test_assoc. erewrite run_fault by exact Hst.
  eexists. by split.
Qed.

Lemma mmap_check_refused e :
  tags_allowed prot flags (obj_of g (p_world s) fd) = inr e ->
  ends_fail (mmap_and_check_tag_stored fd prot flags loss ;; k) s.
Proof.
  intros Ha. unfold mmap_and_check_tag_stored, ends_fail.
  destruct (mmap_refused g (if fd =? -1 then cap_null else cap_of_int fd)
    prot flags fd _ e Ha) as (w1 & Hmap & _).
  rewrite test_assoc. by apply (ends_fail_call _ _ _ e no_addr s w1).
Qed.
End Body.

(** *** Opening the objects *)

Definition opens (m : test cap W Z) (obj : vm_object) : Prop :=
  forall s, exists fd w', m s = (Val fd, set_world w' s) /\
    obj_of g w' fd = obj /\ 0 <= fd.

Lemma opens_check (f : W -> (Z + Z) * W) text obj :
  (forall w, exists fd w', f w = (inl fd, w') /\ obj_of g w' fd = obj /\ 0 <= fd) ->
  opens (CHERIOSTEST_CHECK_SYSCALL (sys f) text) obj.
Proof.
  intros Hf s. destruct (Hf (p_world s)) as (fd & w' & H & Ho). exists fd, w'.
  split; [|done]. unfold CHERIOSTEST_CHECK_SYSCALL, CHERIOSTEST_CHECK_SYSCALL2, sys,
    mbind, eff_bind. by rewrite H.
Qed.

Lemma opens_shm_anon : opens open_shm_anon OShm.
Proof. apply opens_check. intros w. apply shm_open_obj. Qed.

Lemma opens_memfd f : opens (open_memfd f) OMemfd.
Proof. apply opens_check. intros w. apply memfd_obj. Qed.

Lemma opens_dev_zero : opens open_dev_zero ODevZero.
Proof. apply opens_check. intros w. apply dev_zero_obj. Qed.

Lemma opens_tempfile : opens create_tempfile OFile.
Proof.
  intros s. unfold create_tempfile.
  destruct (mkstemp_obj g "/tmp/cheribsdtest.XXXXXXXX" (p_world s))
    as (fd & t & w1 & H1 & Ho & Hfd).
  destruct (unlink_obj g t w1) as (w2 & H2 & Ho2).
  destruct (ftruncate_obj g fd getpagesize w2) as (w3 & H3 & Ho3).
  erewrite run_check2 by exact H1. cbv beta iota. erewrite run_check by exact H2.
  erewrite run_check by exact H3. exists fd, w3. split; [done|].
  by rewrite Ho3, Ho2.
Qed.

Lemma opens_named_shm : opens (open_named_shm g) OShm.
Proof.
  intros s. unfold open_named_shm, create_named_shm_obj.
  destruct (gen_name_run g 32 s ltac:(lia)) as (buf & w1 & Hgen & _).
  destruct (shm_open_obj g (ShmNamed (cstr buf))
    (Z.lor (Z.lor O_CREAT O_EXCL) O_RDWR) w1) as (fd & w2 & Hopen & Ho & Hfd).
  destruct (shm_unlink_obj g (cstr buf) w2) as (w3 & Hun & Ho3).
  cbn [create_loop]. rewrite test_assoc. erewrite test_bind by exact Hgen.
  rewrite test_assoc. erewrite (test_bind _ _ _ (Some fd)).
  2: { unfold try_sys, sys, mbind, eff_bind. simpl. by rewrite Hopen. }
  simpl. erewrite test_bind by reflexivity.
  cbv beta iota. erewrite run_check by exact Hun. exists fd, w3. split; [done|].
  by rewrite Ho3.
Qed.

(** *** The end of a body, by what it wants and what the policy says *)

(** [want]: the test wants the tag to be there; [have]: the policy. *)
Definition tag_end (ann want : bool) (have : bool + Z) (m : test cap W unit)
    (s : proc cap W) : Prop :=
  match have with
  | inr _ => ends_fail m s
  | inl b =>
      if b || is_zcheri g then
        if eqb b want then ends_ok m s else ends_fail m s
      else ends_fault ann m s
  end.

Lemma tag_end_step ann want have (m m' : test cap W unit) w s :
  m s = m' (set_world w s) -> tag_end ann want have m' (set_world w s) ->
  tag_end ann want have m s.
Proof.
  intros Hm. unfold tag_end, ends_ok, ends_fail, ends_fault, raises_at. by rewrite Hm.
Qed.

Lemma tag_end_open ann want have (m : test cap W Z) (k : Z -> test cap W unit) obj s :
  opens m obj -> fresh no_addr s ->
  (forall fd s, fresh no_addr s -> obj_of g (p_world s) fd = obj -> 0 <= fd ->
   tag_end ann want have (k fd) s) ->
  tag_end ann want have (m ≫= k) s.
Proof.
  intros Hm Hs Hk. destruct (Hm s) as (fd & w' & Hrun & Ho & Hfd).
  apply (tag_end_step _ _ _ _ (k fd) w'); [by apply test_bind|].
  by apply Hk.
Qed.

Lemma tag_end_ftruncate ann want have fd' (k : test cap W unit) s :
  fresh no_addr s ->
  (forall s', fresh no_addr s' ->
   (forall fd, obj_of g (p_world s') fd = obj_of g (p_world s) fd) ->
   tag_end ann want have k s') ->
  tag_end ann want have (ftruncate_page fd' ;; k) s.
Proof.
  intros Hs Hk. unfold ftruncate_page.
  destruct (ftruncate_obj g fd' getpagesize (p_world s)) as (w' & Hrun & Ho).
  apply (tag_end_step _ _ _ _ k w'); [|by apply Hk].
  rewrite test_assoc. by erewrite run_check by exact Hrun.
Qed.

(** A test that wants the tag. *)
Lemma check_stored_end fd prot flags s :
  fresh no_addr s ->
  tag_end false true (tags_allowed prot flags (obj_of g (p_world s) fd))
    (check_stored fd prot flags false) s.
Proof.
  intros Hs. unfold check_stored, tag_end.
  destruct (tags_allowed _ _ _) as [b|e] eqn:Ha.
  - destruct (b || is_zcheri g) eqn:Hz; [destruct b; simpl eqb; cbv iota|].
    + destruct (mmap_check_passes fd prot flags false cheriostest_success s true Ha Hz eq_refl)
        as (w' & Hrun). unfold ends_ok. rewrite Hrun.
      by apply (ends_ok_success no_addr).
    + by apply (mmap_check_fails fd prot flags false _ s Hs false).
    + apply orb_false_iff in Hz as [-> Hz]. by apply mmap_check_faults.
  - by apply (mmap_check_refused fd prot flags false _ s Hs e).
Qed.

(** A test that wants the store to fault, or to lose the tag. *)
Lemma check_not_stored_end fd prot flags msg s :
  fresh no_addr s ->
  tag_end false false (tags_allowed prot flags (obj_of g (p_world s) fd))
    (check_not_stored g fd prot flags msg) s.
Proof.
  intros Hs. unfold check_not_stored, check_stored, tag_end.
  destruct (tags_allowed _ _ _) as [b|e] eqn:Ha.
  - destruct (is_zcheri g) eqn:Hz; [rewrite orb_true_r; destruct b; simpl eqb; cbv iota|].
    + apply (mmap_check_fails fd prot flags true _ s Hs true); [done|by rewrite Hz|done].
    + destruct (mmap_check_passes fd prot flags true cheriostest_success s false Ha)
        as (w' & Hrun); [by rewrite Hz|done|]. unfold ends_ok. rewrite Hrun.
      by apply (ends_ok_success no_addr).
    + destruct b; simpl; [|by apply mmap_check_faults].
      destruct (mmap_check_passes fd prot flags false
        (cheriostest_failure_errx msg []) s true Ha eq_refl eq_refl) as (w' & Hrun).
      unfold ends_fail. rewrite Hrun. by apply (ends_fail_errx _ _ no_addr).
  - destruct (is_zcheri g); by apply (mmap_check_refused fd prot flags _ _ s Hs e).
Qed.

(** The announcement of the address, then the store that must fault. *)
Lemma announce_run c s :
  fresh no_addr s -> exists s',
    cheriostest_set_expected_si_addr g (NULL_DERIVED_VOIDP c) s = (Val tt, s') /\
    fresh (announced c) s' /\ p_world s' = p_world s /\
    p_handlers s' = p_handlers s /\ p_stdout s' = p_stdout s.
Proof.
  intros [Hp Ho]. unfold cheriostest_set_expected_si_addr, with_ccsp. rewrite Hp.
  eexists. split; [done|]. split; [|done]. split; [|done]. simpl.
  unfold announced, stored_addr, storetag_fault, NULL_DERIVED_VOIDP, expected_page.
  by destruct (cfg_purecap g).
Qed.

Lemma announced_store_end c b (k : test cap W unit) s :
  fresh no_addr s -> cap_page g (p_world s) c b ->
  let m := (cheriostest_set_expected_si_addr g (NULL_DERIVED_VOIDP c) ;;
            access (mem_store_cap c 0 cap_to_local) ;; k) in
  if b || is_zcheri g
  then exists s' w'', m s = k s' /\ fresh (announced c) s' /\
    mem_load_cap c 0 (p_world s') =
      (inl (if b then cap_to_local else cheri_tag_clear cap_to_local), w'')
  else ends_fault true m s.
Proof.
  intros Hs Hp m. destruct (announce_run c s Hs) as (s1 & H1 & Hf & Hw & Hh & Ho).
  destruct (b || is_zcheri g) eqn:Hz.
  - destruct (store_load c b cap_to_local _ Hp Hz) as (w2 & w3 & Hst & Hld & _).
    exists (set_world w2 s1), w3. split; [|done]. unfold m.
    erewrite test_bind by exact H1.
    erewrite run_access by (rewrite Hw; exact Hst). done.
  - apply orb_false_iff in Hz as [-> Hz].
    destruct (store_faults g c cap_to_local _ Hp Hz (local_tagged g)) as (w2 & Hst).
    exists c, (set_world w2 s1). unfold m. erewrite test_bind by exact H1.
    erewrite run_fault by (rewrite Hw; exact Hst). by destruct Hf.
Qed.

Lemma announced_failure_end c b msg s :
  fresh no_addr s -> cap_page g (p_world s) c b -> is_zcheri g = false ->
  tag_end true false (inl b)
    (cheriostest_set_expected_si_addr g (NULL_DERIVED_VOIDP c) ;;
     access (mem_store_cap c 0 cap_to_local) ;;
     cheriostest_failure_errx msg []) s.
Proof.
  intros Hs Hp Hz.
  pose proof (announced_store_end c b (cheriostest_failure_errx msg []) s Hs Hp) as H.
  unfold tag_end. rewrite Hz in *. destruct b; simpl in *; [|done].
  destruct H as (s' & w'' & Hrun & Hf & _). unfold ends_fail. rewrite Hrun.
  by apply (ends_fail_errx _ _ (announced c)).
Qed.

(** ** The tests, the tag that each wants, and the policy that decides it *)

Record tag_row := TagRow {
  row_test : cheri_test cap W;
  row_announced : bool;
  row_want : bool;
  row_have : bool + Z;
}.

(** A test that needs PROT_CAP has nothing to rely on without it. *)
Definition needs_prot_cap (b : bool + Z) : bool + Z :=
  if cfg_prot_cap g then b else inr ENOTSUP.

Definition tag_rows : list tag_row :=
  [TagRow (vm_tag_mmap_anon g) false true (tags_allowed PROT_RW (anon_flags g) OAnon);
   TagRow (vm_tag_mmap_anon_cap g) false true
     (needs_prot_cap (tags_allowed PROT_RWC (anon_flags g) OAnon));
   TagRow (vm_tag_shm_open_named_shared_no_implied_cap g) false false
     (tags_allowed PROT_RW MAP_SHARED OShm);
   TagRow (vm_tag_anon_shared_no_implied_cap g) false false
     (tags_allowed PROT_RW (Z.lor MAP_SHARED MAP_ANON) OAnon);
   TagRow (vm_tag_memfd_create_shared g) false false
     (tags_allowed PROT_RW MAP_SHARED OMemfd);
   TagRow (vm_tag_shm_open_named_private g) false true
     (tags_allowed PROT_RW MAP_PRIVATE OShm);
   TagRow (vm_tag_dev_zero_shared g) false true
     (needs_prot_cap (tags_allowed PROT_RWC MAP_SHARED ODevZero));
   TagRow vm_tag_dev_zero_private false true
     (tags_allowed PROT_RW MAP_PRIVATE ODevZero);
   TagRow (vm_notag_tmpfile_shared g) true false
     (tags_allowed PROT_RW MAP_SHARED OFile);
   TagRow vm_tag_tmpfile_private false true (tags_allowed PROT_RW MAP_PRIVATE OFile);
   TagRow (vm_tag_tmpfile_private_prefault g) false true
     (tags_allowed PROT_RW (prefault_flags g) OFile)].

(** Those that only CheriBSD has, or can pass. *)
Definition tag_rows_freebsd : list tag_row :=
  [TagRow vm_tag_shm_open_anon_shared false true (tags_allowed PROT_RWC MAP_SHARED OShm);
   TagRow (vm_tag_shm_open_anon_shared_no_implied_cap g) false false
     (tags_allowed PROT_RW MAP_SHARED OShm);
   TagRow vm_tag_shm_open_anon_private false true (tags_allowed PROT_RW MAP_PRIVATE OShm)].

(** Those that expect a fault on every ISA: where a store drops the tag they
    cannot pass. *)
Definition tag_rows_no_cap : list tag_row :=
  [TagRow (vm_notag_mmap_no_cap g) true false
     (needs_prot_cap (tags_allowed (Z.lor (PROT_MAX PROT_RWC) (Z.lor PROT_RW PROT_NO_CAP))
                        (anon_flags g) OAnon));
   TagRow (vm_notag_mprotect_no_cap g) true false
     (needs_prot_cap match tags_allowed PROT_RW (anon_flags g) OAnon with
                     | inl _ => inl (tags_after_mprotect (Z.lor PROT_RW PROT_NO_CAP))
                     | inr e => inr e
                     end)].

Definition all_tag_rows : list tag_row :=
  tag_rows ++
  if is_freebsd g
  then tag_rows_freebsd ++ if is_zcheri g then [] else tag_rows_no_cap
  else [].

(** The description fits: no flags for a test that must declare success, the
    fault of the store for one that must be killed. *)
Definition row_described (r : tag_row) : Prop :=
  disallowed_prefix (ct_name (row_test r)) = None /\
  (ct_check_skip (row_test r) = None \/
   ct_check_skip (row_test r) = Some skip_need_writable_tmp) /\
  flag_set (ct_flags (row_test r)) CT_FLAG_SLOW = false /\
  if row_want r || is_zcheri g then ct_flags (row_test r) = 0
  else fault_test (row_test r) /\
       forall c, expected_signal g (row_test r)
         (if row_announced r then announced c else no_addr) (storetag_fault c).

Lemma expected_announced c :
  cheri_ptr_equal_exact g (announced c).1 (stored_addr g (storetag_fault (W := W) c)).1
  = true.
Proof.
  unfold announced, cheri_ptr_equal_exact.
  destruct (cfg_purecap g); [apply equal_exact_refl|apply Z.eqb_refl].
Qed.

(** The description does not depend on the body. *)
Ltac forget_bodies :=
  repeat match goal with
  | |- context [CHERIOSTEST ?n ?d ?b] =>
      tryif is_var b then fail else (generalize b; intro)
  end.

Ltac described :=
  unfold row_described; cbn [row_want row_announced];
  unfold vm_tag_mmap_anon, vm_tag_mmap_anon_cap,
    vm_tag_shm_open_named_shared_no_implied_cap, vm_tag_anon_shared_no_implied_cap,
    vm_tag_memfd_create_shared, vm_tag_shm_open_named_private, vm_tag_dev_zero_shared,
    vm_tag_dev_zero_private, vm_notag_tmpfile_shared, vm_tag_tmpfile_private,
    vm_tag_tmpfile_private_prefault, vm_tag_shm_open_anon_shared,
    vm_tag_shm_open_anon_shared_no_implied_cap, vm_tag_shm_open_anon_private,
    vm_notag_mmap_no_cap, vm_notag_mprotect_no_cap,
    with_tmp, with_shared_fault, with_shared_xfail, with_storetag_fault;
  cbv zeta; forget_bodies; cbn [row_test];
  destruct (is_zcheri g); destruct (is_freebsd g);
  (split; [done|]); (split; [by (left + right)|]); (split; [done|]);
  first [done | split; [by repeat split|]; intros c; repeat split; intros;
                first [done | apply expected_announced]].

Ltac described_no_cap :=
  cbn [row_want row_announced row_test orb];
  unfold vm_notag_mmap_no_cap, vm_notag_mprotect_no_cap, with_tmp, with_storetag_fault;
  forget_bodies;
  match goal with Hf : is_freebsd g = true |- _ => rewrite Hf end;
  (split; [done|]); (split; [by right|]); (split; [done|]);
  split; [by repeat split|]; intros c; repeat split; intros;
  first [done | apply expected_announced].

Lemma rows_described r : r ∈ all_tag_rows -> row_described r.
Proof.
  unfold all_tag_rows. rewrite elem_of_app. intros [Hr|Hr].
  - unfold tag_rows in Hr. rewrite !elem_of_cons in Hr.
    destruct_or? Hr; try (by apply not_elem_of_nil in Hr); subst r; described.
  - destruct (is_freebsd g) eqn:Hf; [|by apply not_elem_of_nil in Hr].
    rewrite elem_of_app in Hr. destruct Hr as [Hr|Hr].
    + unfold tag_rows_freebsd in Hr. rewrite !elem_of_cons in Hr.
      destruct_or? Hr; try (by apply not_elem_of_nil in Hr); subst r; described.
    + destruct (is_zcheri g) eqn:Hz; [by apply not_elem_of_nil in Hr|].
      unfold tag_rows_no_cap in Hr. rewrite !elem_of_cons in Hr.
      destruct_or? Hr; try (by apply not_elem_of_nil in Hr); subst r;
        unfold row_described; rewrite Hz; described_no_cap.
Qed.

Lemma ct_func_with_tmp (t : cheri_test cap W) : ct_func (with_tmp t) = ct_func t.
Proof. done. Qed.

Lemma ct_func_shared_fault b (t : cheri_test cap W) :
  ct_func (with_shared_fault g b t) = ct_func t.
Proof. unfold with_shared_fault. by destruct (is_zcheri g), (is_freebsd g). Qed.

Lemma ct_func_shared_xfail (t : cheri_test cap W) :
  ct_func (with_shared_xfail g t) = ct_func t.
Proof. unfold with_shared_xfail. by destruct (is_freebsd g). Qed.

(** A descriptor of an object, a page of it, and the check. *)
Lemma open_page_end want have (m : test cap W Z) obj (k : Z -> test cap W unit) s :
  opens m obj -> fresh no_addr s ->
  (forall fd s, fresh no_addr s -> obj_of g (p_world s) fd = obj ->
   tag_end false want have (k fd) s) ->
  tag_end false want have (fd ← m; ftruncate_page fd ;; k fd) s.
Proof.
  intros Hm Hs Hk. apply (tag_end_open _ _ _ _ _ obj); [done..|].
  intros fd s1 Hs1 Ho _. apply tag_end_ftruncate; [done|].
  intros s2 Hs2 Ho2. apply Hk; [done|]. by rewrite Ho2.
Qed.

Lemma stored_obj_end fd prot flags obj s :
  fresh no_addr s -> obj_of g (p_world s) fd = obj ->
  tag_end false true (tags_allowed prot flags obj) (check_stored fd prot flags false) s.
Proof. intros Hs <-. by apply check_stored_end. Qed.

Lemma not_stored_obj_end fd prot flags msg obj s :
  fresh no_addr s -> obj_of g (p_world s) fd = obj ->
  tag_end false false (tags_allowed prot flags obj) (check_not_stored g fd prot flags msg) s.
Proof. intros Hs <-. by apply check_not_stored_end. Qed.

Lemma prot_cap_end have (m : test cap W unit) s :
  fresh no_addr s -> tag_end false true have m s ->
  tag_end false true (needs_prot_cap have) (if cfg_prot_cap g then m else PROT_CAP_missing) s.
Proof.
  intros Hs Hm. unfold needs_prot_cap, PROT_CAP_missing.
  destruct (cfg_prot_cap g); [done|]. by apply (ends_fail_errx _ _ no_addr).
Qed.

Lemma tmpfile_shared_end s :
  fresh no_addr s ->
  tag_end true false (tags_allowed PROT_RW MAP_SHARED OFile)
    (ct_func (vm_notag_tmpfile_shared g)) s.
Proof.
  intros Hs. unfold vm_notag_tmpfile_shared. rewrite ct_func_with_tmp.
  cbv zeta. set (body := _ ≫= _).
  assert (ct_func (if is_zcheri g
    then CHERIOSTEST "vm_notag_tmpfile_shared"
           "check tags are not stored for tmpfile() MAP_SHARED pages" body
    else if is_freebsd g
    then with_signal fault_flags SIGSEGV SEGV_STORETAG TRAPNO_STORE_CAP_PF
           (CHERIOSTEST "vm_notag_tmpfile_shared"
             "check tags are not stored for tmpfile() MAP_SHARED pages" body)
    else with_signal (Z.lor CT_FLAG_SIGNAL CT_FLAG_SI_ADDR) SIGSEGV 0 0
           (CHERIOSTEST "vm_notag_tmpfile_shared"
             "check tags are not stored for tmpfile() MAP_SHARED pages" body)) = body)
    as -> by (by clearbody body; destruct (is_zcheri g), (is_freebsd g)).
  unfold body. apply (tag_end_open _ _ _ _ _ OFile); [apply opens_tempfile|done|].
  clear s Hs body. intros fd s Hs Ho _.
  destruct (tags_allowed PROT_RW MAP_SHARED OFile) as [b|e] eqn:Ha.
  2: { destruct (mmap_refused g cap_null PROT_RW MAP_SHARED fd (p_world s) e)
         as (w1 & Hmap & _); [by rewrite Ho|].
       by apply (ends_fail_call _ _ _ e no_addr s w1). }
  destruct (mmap_page g cap_null PROT_RW MAP_SHARED fd (p_world s) b)
    as (c & w1 & Hmap & Hp); [by rewrite Ho|].
  eapply (tag_end_step _ _ _ _ _ w1); [by erewrite run_check by exact Hmap|].
  destruct (is_zcheri g) eqn:Hz; [|by apply announced_failure_end].
  pose proof (announced_store_end c b
    (cp_value ← access (mem_load_cap c 0);
     CHERIOSTEST_VERIFY2 (negb (cheri_tag_get cp_value)) "tag not lost" [] ;;
     cheriostest_success) (set_world w1 s) Hs Hp) as H.
  rewrite Hz, orb_true_r in H. destruct H as (s' & w2 & Hrun & Hf & Hld).
  unfold tag_end. rewrite Hz, orb_true_r. unfold ends_ok, ends_fail. rewrite Hrun.
  erewrite run_access by exact Hld.
  rewrite (tag_read_back b cap_to_local (local_tagged g)).
  destruct b; simpl negb; simpl eqb; cbv iota.
  - by apply ends_fail_verify2 with (x := announced c).
  - rewrite run_verify2 by done. by apply (ends_ok_success (announced c)).
Qed.

(** The tests that open an object; [H] is the lemma on the call that opens it. *)
Ltac object_end :=
  intros; first [apply stored_obj_end; done | apply not_stored_obj_end; done].
Ltac page_test H :=
  apply (open_page_end _ _ _ _ _ _ H); [done|]; object_end.
Ltac file_test H :=
  apply (tag_end_open _ _ _ _ _ _ _ H); [done|]; object_end.

Lemma ct_func_storetag_fault (t : cheri_test cap W) :
  ct_func (with_storetag_fault g t) = ct_func t.
Proof. unfold with_storetag_fault. by destruct (is_freebsd g). Qed.

Lemma no_cap_rows_end r s :
  r ∈ tag_rows_no_cap -> is_zcheri g = false -> fresh no_addr s ->
  tag_end (row_announced r) (row_want r) (row_have r) (ct_func (row_test r)) s.
Proof.
  intros Hr Hz Hs. unfold tag_rows_no_cap in Hr. rewrite !elem_of_cons in Hr.
  destruct_or? Hr; try (by apply not_elem_of_nil in Hr); subst r;
    cbn [row_announced row_want row_have row_test];
    unfold vm_notag_mmap_no_cap, vm_notag_mprotect_no_cap, needs_prot_cap;
    rewrite ct_func_with_tmp, ct_func_storetag_fault; cbn [ct_func CHERIOSTEST];
    (destruct (cfg_prot_cap g) eqn:Hc; [|by apply (ends_fail_errx _ _ no_addr)]);
    destruct (tags_allowed _ (anon_flags g) OAnon) as [b|e] eqn:Ha;
    rewrite <- (anon_obj g (p_world s)) in Ha.
  - destruct (mmap_page g cap_null _ _ _ _ b Ha) as (c & w1 & Hmap & Hp).
    eapply (tag_end_step _ _ _ _ _ w1); [by erewrite run_check by exact Hmap|].
    by apply announced_failure_end.
  - destruct (mmap_refused g cap_null _ _ _ _ e Ha) as (w1 & Hmap & _).
    by apply (ends_fail_call _ _ _ e no_addr s w1).
  - destruct (mmap_page g cap_null _ _ _ _ b Ha) as (c & w1 & Hmap & Hp).
    destruct (mprotect_page g c b (Z.lor PROT_RW PROT_NO_CAP) w1 Hp)
      as (w2 & Hprot & Hp2).
    eapply (tag_end_step _ _ _ _ _ w2).
    { erewrite run_check by exact Hmap. erewrite run_check by exact Hprot. done. }
    by apply announced_failure_end.
  - destruct (mmap_refused g cap_null _ _ _ _ e Ha) as (w1 & Hmap & _).
    by apply (ends_fail_call _ _ _ e no_addr s w1).
Qed.

Lemma rows_end r s :
  r ∈ all_tag_rows -> fresh no_addr s ->
  tag_end (row_announced r) (row_want r) (row_have r) (ct_func (row_test r)) s.
Proof.
  intros Hr Hs. unfold all_tag_rows in Hr. rewrite elem_of_app in Hr.
  destruct Hr as [Hr|Hr].
  - unfold tag_rows in Hr. rewrite !elem_of_cons in Hr.
    destruct_or? Hr; try (by apply not_elem_of_nil in Hr); subst r;
      cbn [row_announced row_want row_have row_test].
    + apply stored_obj_end; [done|apply anon_obj].
    + apply (prot_cap_end _ _ s Hs). apply stored_obj_end; [done|apply anon_obj].
    + unfold vm_tag_shm_open_named_shared_no_implied_cap.
      rewrite ct_func_shared_xfail, ct_func_shared_fault.
      page_test (opens_named_shm).
    + unfold vm_tag_anon_shared_no_implied_cap.
      rewrite ct_func_with_tmp, ct_func_shared_xfail, ct_func_shared_fault.
      apply not_stored_obj_end; [done|apply anon_obj].
    + unfold vm_tag_memfd_create_shared.
      rewrite ct_func_shared_xfail, ct_func_shared_fault.
      page_test (opens_memfd "vm_tag_memfd_create_shared").
    + page_test opens_named_shm.
    + apply (prot_cap_end _ _ s Hs). file_test opens_dev_zero.
    + file_test opens_dev_zero.
    + by apply tmpfile_shared_end.
    + file_test opens_tempfile.
    + file_test opens_tempfile.
  - destruct (is_freebsd g); [|by apply not_elem_of_nil in Hr].
    rewrite elem_of_app in Hr. destruct Hr as [Hr|Hr].
    2: { destruct (is_zcheri g) eqn:Hz; [by apply not_elem_of_nil in Hr|].
         by apply no_cap_rows_end. }
    unfold tag_rows_freebsd in Hr. rewrite !elem_of_cons in Hr.
    destruct_or? Hr; try (by apply not_elem_of_nil in Hr); subst r;
      cbn [row_announced row_want row_have row_test].
    + page_test opens_shm_anon.
    + unfold vm_tag_shm_open_anon_shared_no_implied_cap. cbv zeta.
      set (t := CHERIOSTEST _ _ _).
      assert (ct_func (with_xfail (Some SHARED_MAPPING_XFAIL)
        (if is_zcheri g then t else with_tmp (with_shared_fault g true t))) = ct_func t)
        as ->.
      { clearbody t. change (ct_func (if is_zcheri g then t
          else with_tmp (with_shared_fault g true t)) = ct_func t).
        destruct (is_zcheri g); [done|].
        by rewrite ct_func_with_tmp, ct_func_shared_fault. }
      page_test opens_shm_anon.
    + page_test opens_shm_anon.
Qed.

(** *** Refused protections *)

(** A state with the page, and the objects of [s]. *)
Definition after (s s' : proc cap W) : Prop :=
  shared s' /\ forall fd, obj_of g (p_world s') fd = obj_of g (p_world s) fd.

Lemma bad_protection_iff {A} prot fd e (k : test cap W A) (P : Prop) s :
  shared s -> (forall s', after s s' -> (succeeds k s' <-> P)) ->
  (succeeds (mmap_check_bad_protections_fd g prot fd e ;; k) s <->
   tags_allowed prot (if fd =? -1 then anon_flags g else MAP_SHARED)
     (obj_of g (p_world s) fd) = inr e /\ P).
Proof.
  intros Hs Hk. unfold mmap_check_bad_protections_fd.
  set (flags := if fd =? -1 then anon_flags g else MAP_SHARED).
  destruct (tags_allowed prot flags (obj_of g (p_world s) fd)) as [b|x] eqn:Ha.
  - destruct (mmap_page g cap_null prot flags fd _ b Ha) as (c & w1 & Hmap & _).
    rewrite (call_error_iff _ _ _ _ _ _ _ _ Hmap). split; intros [? _]; done.
  - destruct (mmap_refused g cap_null prot flags fd _ x Ha) as (w1 & Hmap & Ho).
    rewrite (call_error_iff _ _ _ _ _ _ _ _ Hmap), Hk by (by split).
    split; intros [? ?]; by simplify_eq.
Qed.

Lemma bad_anon_iff {A} prot e (k : test cap W A) (P : Prop) s :
  shared s -> (forall s', shared s' -> (succeeds k s' <-> P)) ->
  (succeeds (mmap_check_bad_protections g prot e ;; k) s <->
   tags_allowed prot (anon_flags g) OAnon = inr e /\ P).
Proof.
  intros Hs Hk. unfold mmap_check_bad_protections.
  rewrite (bad_protection_iff prot (-1) e k P) by (try done; intros s' []; auto).
  by rewrite anon_obj.
Qed.

Lemma bad_file_iff {A} (k : test cap W A) s :
  shared s -> (forall s', shared s' -> succeeds k s') ->
  (succeeds ((fd ← create_tempfile;
              _ ← CHERIOSTEST_CHECK_SYSCALL (sys (sys_ftruncate fd getpagesize))
                    "ftruncate(fd, getpagesize())";
              mmap_check_bad_protections_fd g PROT_RWC fd EACCES) ;; k) s <->
   tags_allowed PROT_RWC MAP_SHARED OFile = inr EACCES).
Proof.
  intros Hs Hk. destruct (opens_tempfile s) as (fd & w1 & Hopen & Ho & Hfd).
  destruct (ftruncate_obj g fd getpagesize w1) as (w2 & Htr & Ho2).
  unfold succeeds at 1. rewrite test_assoc. erewrite test_bind by exact Hopen.
  rewrite test_assoc. erewrite run_check by exact Htr.
  change (succeeds (mmap_check_bad_protections_fd g PROT_RWC fd EACCES ;; k)
            (set_world w2 s) <-> tags_allowed PROT_RWC MAP_SHARED OFile = inr EACCES).
  rewrite (bad_protection_iff PROT_RWC fd EACCES k True)
    by (try done; intros s' []; split; auto).
  rewrite (proj2 (Z.eqb_neq fd (-1))) by lia. simpl p_world.
  rewrite Ho2, Ho. tauto.
Qed.

(** The test of refused protections passes exactly when the kernel refuses
    each of them with the error number that the test names: a protection above
    the maximum and, where PROT_CAP exists, implied and explicit capability
    permissions together, capability permission without any other, and
    capability permission on a shared file. *)
Theorem vm_mmap_disallowed_prot_verdict (s : proc cap W) :
  shared s ->
  (succeeds (ct_func (vm_mmap_disallowed_prot g)) s <->
   tags_allowed (Z.lor PROT_RW (PROT_MAX PROT_READ)) (anon_flags g) OAnon = inr ENOTSUP /\
   (cfg_prot_cap g = true ->
    tags_allowed (Z.lor (Z.lor PROT_READ PROT_CAP) (PROT_MAX PROT_READ)) (anon_flags g)
      OAnon = inr ENOTSUP /\
    tags_allowed PROT_CAP (anon_flags g) OAnon = inr ENOTSUP /\
    tags_allowed (PROT_MAX PROT_CAP) (anon_flags g) OAnon = inr ENOTSUP /\
    tags_allowed PROT_RWC MAP_SHARED OFile = inr EACCES)).
Proof.
  intros Hs. unfold vm_mmap_disallowed_prot, CHERIOSTEST. cbn [ct_func].
  apply bad_anon_iff; [done|]. clear s Hs. intros s Hs. unfold when.
  destruct (cfg_prot_cap g).
  2: { split; [done|]. intros _. unfold succeeds. erewrite test_bind by reflexivity.
       by apply succeeds_success. }
  trans (tags_allowed (Z.lor (Z.lor PROT_READ PROT_CAP) (PROT_MAX PROT_READ)) (anon_flags g)
           OAnon = inr ENOTSUP /\
         tags_allowed PROT_CAP (anon_flags g) OAnon = inr ENOTSUP /\
         tags_allowed (PROT_MAX PROT_CAP) (anon_flags g) OAnon = inr ENOTSUP /\
         tags_allowed PROT_RWC MAP_SHARED OFile = inr EACCES); [|tauto].
  unfold succeeds at 1. rewrite test_assoc. apply bad_anon_iff; [done|].
  clear s Hs. intros s Hs. unfold succeeds at 1. rewrite test_assoc.
  apply bad_anon_iff; [done|].
  clear s Hs. intros s Hs. unfold succeeds at 1. rewrite test_assoc.
  apply bad_anon_iff; [done|].
  clear s Hs. intros s Hs. apply bad_file_iff; [done|].
  intros s' Hs'. by apply succeeds_success.
Qed.

Context {RO : RunnerOS W} {RL : RunnerOSLaws LC RO}.
Context (o : options) (indet_flaky : option string) (indet_fd : Z).

Lemma sigsegv_handled c :
  handled g (si_signo (storetag_fault (cap := cap) (W := W) c)).
Proof.
  unfold handled, child_signals. simpl si_signo.
  rewrite !fmap_app, !elem_of_app. right. right. left. left.
Qed.

(** C24: a run of each of the tests of tags in mappings, on a kernel where the
    calls succeed: the test passes exactly when the policy of the kernel for
    the object, the protection and the flags that it maps is the one that it
    states; otherwise it files a failure, which its description may expect. *)
Theorem vm_tag_tests_result (r : tag_row) (d : driver cap W) :
  o_qtrace o = false -> o_debugger_enabled o = false -> r ∈ all_tag_rows ->
  let t := row_test r in
  let t0 := count_run (expect (xfail_reason_of t) (d_tally d)) in
  wp (cheriostest_run_test g o indet_flaky indet_fd t) (fun _ d' =>
    if decide (row_have r = inl (row_want r))
    then d_tally d' = file_pass (ct_name t) (xfail_reason_of t) None t0
    else exists reason, d_tally d' =
           file_fail (ct_name t) reason (xfail_reason_of t) (ct_flaky_reason t) t0) d.
Proof.
  intros Hq Hd Hin. cbv zeta.
  destruct (rows_described r Hin) as (Hname & Hskip & Hslow & Hdesc).
  assert (runs o (row_test r)) as Hruns.
  { split; [done|]. split; [|by rewrite Hslow, andb_false_r].
    intros f w Hf. destruct Hskip as [E|E]; rewrite E in Hf; simplify_eq.
    apply (tmp_writable g). }
  assert (forall s, at_start g s ->
    tag_end (row_announced r) (row_want r) (row_have r) (ct_func (row_test r)) s)
    as Hend.
  { intros s (Hp & Ho & _). by apply rows_end. }
  unfold tag_end in Hend. destruct (row_have r) as [b|e].
  2: { destruct (decide _) as [E|_]; [done|]. by apply failure_files_fail. }
  destruct (b || is_zcheri g) eqn:Hz.
  - destruct (eqb b (row_want r)) eqn:Hb.
    + apply eqb_prop in Hb as ->. destruct (decide _) as [_|E]; [|done].
      rewrite Hz in Hdesc. by apply success_files_pass.
    + destruct (decide _) as [E|_]; [|by apply failure_files_fail].
      injection E as ->. by rewrite eqb_reflx in Hb.
  - apply orb_false_iff in Hz as [-> Hz].
    destruct (row_want r); simpl in Hdesc.
    + destruct (decide _) as [E|_]; [done|]. apply stray_fault_files_fail; try done.
      intros s Hs. destruct (Hend s Hs) as [c Hc]. eexists _, _. split; [exact Hc|].
      split; [apply sigsegv_handled|]. pose proof (sigsegv_pos g). simpl. lia.
    + rewrite Hz in Hdesc. destruct Hdesc as [Hft Hexp].
      destruct (decide _) as [_|E]; [|done]. apply expected_fault_files_pass; try done.
      intros s Hs. destruct (Hend s Hs) as [c Hc]. eexists _, _. split; [exact Hc|].
      split; [apply sigsegv_handled|]. split; [|apply Hexp].
      pose proof (sigsegv_pos g). simpl. lia.
Qed.
End TagFacts.

(** ** A concrete kernel *)

(** A policy as the tests want it: tags in private mappings, and in shared ones
    with PROT_CAP, but never in a shared file. *)
#[export] Instance toy_vm_consts : VmConsts := {|
  PROT_NONE := 0; PROT_READ := 1; PROT_WRITE := 2; PROT_EXEC := 4;
  PROT_CAP := 8; PROT_NO_CAP := 16; PROT_MAX p := Z.shiftl p 16;
  MAP_ANON := 0x1000; MAP_PRIVATE := 2; MAP_SHARED := 1; MAP_FIXED := 0x10;
  MAP_EXCL := 0x4000; MAP_GUARD := 0x2000; MAP_PREFAULT_READ := 0x40000;
  MAP_POPULATE := 0x8000; INHERIT_NONE := 2; INHERIT_SHARE := 0; IPC_PRIVATE := 0;
  O_RDWR := 2; O_CREAT := 0x200; O_EXCL := 0x800;
  EPROT := 96; EINVAL := 22; ENOMEM := 12; EACCES := 13; ENOTSUP := 45;
  SEGV_ACCERR := 2; SEGV_STORETAG := 0x11; TRAPNO_STORE_PF := 15;
  TRAPNO_STORE_CAP_PF := 27;
|}.

#[export] Instance toy_policy : TagPolicy := {|
  tags_allowed prot flags obj := inl
    (if flag_set flags MAP_SHARED
     then match obj with OFile => false | _ => flag_set prot PROT_CAP end
     else negb (flag_set prot PROT_NO_CAP));
  tags_after_mprotect prot := negb (flag_set prot PROT_NO_CAP);
|}.

Record kworld := KWorld {
  kw_next : Z;                        (* the next page to map *)
  kw_tags : Z -> bool;                (* the pages that hold tags *)
  kw_mem : Z -> scap;                 (* the capability stored at an address *)
  kw_fds : Z -> vm_object;
  kw_nfd : nat;
}.

Definition kw_open {A} (obj : vm_object) (r : Z -> A) (w : kworld) : (A + Z) * kworld :=
  let fd := Z.of_nat (kw_nfd w) in
  (inl (r fd), KWorld (kw_next w) (kw_tags w) (kw_mem w)
                 (fun x => if x =? fd then obj else kw_fds w x) (S (kw_nfd w))).

Definition kw_object (w : kworld) (fd : Z) : vm_object :=
  if fd =? -1 then OAnon else kw_fds w fd.

Definition kw_set {A} (f : Z -> A) (a : Z) (v : A) : Z -> A :=
  fun x => if x =? a then v else f x.

Definition kw_done (w : kworld) : (Z + Z) * kworld := (inl 0, w).

Definition kw_mmap (prot flags fd : Z) (w : kworld) : (scap + Z) * kworld :=
  match tags_allowed prot flags (kw_object w fd) with
  | inl b => (inl (toy_cap (u64 (kw_next w)) 4096 0 0),
              KWorld (kw_next w + 4096) (kw_set (kw_tags w) (u64 (kw_next w)) b)
                (kw_mem w) (kw_fds w) (kw_nfd w))
  | inr e => (inr e, w)
  end.

Definition kw_store (c v : scap) (w : kworld) : (unit + siginfo scap) * kworld :=
  if kw_tags w (cheri_address_get c)
  then (inl tt, KWorld (kw_next w) (kw_tags w)
                  (kw_set (kw_mem w) (cheri_address_get c) v) (kw_fds w) (kw_nfd w))
  else (inr (Siginfo 11 SEGV_STORETAG TRAPNO_STORE_CAP_PF
               (cap_of_int (cheri_address_get c))), w).

#[export] Instance toy_kernel : Kernel scap kworld := {|
  getpagesize := 4096;
  sys_mmap _ _ prot flags fd _ := kw_mmap prot flags fd;
  sys_munmap _ _ := kw_done;
  sys_mprotect c _ prot w :=
    (inl 0, KWorld (kw_next w)
              (kw_set (kw_tags w) (cheri_address_get c) (tags_after_mprotect prot))
              (kw_mem w) (kw_fds w) (kw_nfd w));
  sys_minherit _ _ _ := kw_done;
  sys_shmget _ _ _ := kw_done;
  sys_shmat _ _ _ w := (inr 22, w);
  sys_shmdt _ := kw_done;
  sys_shm_open _ _ _ := kw_open OShm id;
  sys_shm_unlink _ := kw_done;
  sys_memfd_create _ _ := kw_open OMemfd id;
  sys_open _ _ := kw_open ODevZero id;
  sys_mkstemp t := kw_open OFile (fun fd => (fd, t));
  sys_unlink _ := kw_done;
  sys_ftruncate _ _ := kw_done;
  sys_close _ := kw_done;
  os_random w := (7, w);
  mem_load_cap c _ w := (inl (kw_mem w (cheri_address_get c)), w);
  mem_store_cap c _ := kw_store c;
  mem_store_byte _ _ _ w := (inl tt, w);
  stack_local size := toy_cap 0x7000 size 0 0;
|}.

#[export] Instance toy_tmp : TmpStatics kworld := {|
  tmp_checked _ := false; tmp_reason _ := None; set_tmp_statics _ _ w := w;
|}.

Lemma toy_open_spec {A} obj (r : Z -> A) (w : kworld) :
  exists fd w', kw_open obj r w = (inl (r fd), w') /\ kw_object w' fd = obj /\ 0 <= fd.
Proof.
  eexists _, _. split; [reflexivity|]. split; [|lia].
  unfold kw_object. simpl. rewrite (proj2 (Z.eqb_neq _ _)) by lia.
  by rewrite Z.eqb_refl.
Qed.

#[export] Instance toy_tag_laws : TagLaws (cap := scap) (W := kworld) toy_config.
Proof.
  refine {| obj_of := kw_object;
            cap_page w c b := kw_tags w (cheri_address_get c) = b |};
    try done; try (intros; by eexists).
  - intros hint prot flags fd w b Ha. simpl. unfold kw_mmap. rewrite Ha.
    eexists _, _. split; [reflexivity|]. simpl. unfold kw_set.
    by rewrite Z.add_0_r, wrapu_idemp, Z.eqb_refl.
  - intros c b prot w Hp. eexists. split; [reflexivity|]. simpl. unfold kw_set.
    by rewrite Z.eqb_refl.
  - intros p flags w. apply (toy_open_spec OShm id).
  - intros f w. apply (toy_open_spec OMemfd id).
  - intros w. apply (toy_open_spec ODevZero id).
  - intros t w. destruct (toy_open_spec OFile (fun fd => (fd, t)) w) as (fd & w' & H).
    by exists fd, t, w'.
  - intros c v w Hp. simpl in *. unfold kw_store.
    change (cheri_address_get c) with (u64 (sc_addr c)) in *. rewrite Hp.
    eexists _, _. split; [reflexivity|]. simpl. unfold kw_set. by rewrite Z.eqb_refl.
  - intros c v w Hp _ _. unfold mem_store_cap, toy_kernel, kw_store. rewrite Hp.
    by eexists.
Qed.

Definition kworld0 : kworld :=
  KWorld 0x10000 (fun _ => false) (fun _ => cap_null) (fun _ => OFile) 3.

Definition kworld_driver : driver scap kworld :=
  Driver tally0 child_state_zero [] 0 kworld0.

Definition kworld_proc : proc scap kworld :=
  Proc (Some child_state_zero) 0 ∅ "" "" 0 kworld0.

Definition toy_tag_row : tag_row (cap := scap) (W := kworld) :=
  TagRow (vm_notag_tmpfile_shared toy_config) true false
    (tags_allowed PROT_RW MAP_SHARED OFile).

Lemma vm_tag_tests_result_witness :
  row_have toy_tag_row = inl (row_want toy_tag_row) /\
  wp (cheriostest_run_test toy_config options0 None 0 (row_test toy_tag_row))
    (fun _ d' => d_tally d' = file_pass "vm_notag_tmpfile_shared" None None
                                (count_run tally0)) kworld_driver.
Proof.
  split; [reflexivity|].
  exact (vm_tag_tests_result toy_config options0 None 0 toy_tag_row kworld_driver
    eq_refl eq_refl
    ltac:(apply elem_of_app; left; do 8 right; left)).
Defined.

Lemma gen_shm_obj_name_constant_witness :
  exists buf w',
    gen_shm_obj_name toy_config 32 kworld_proc = (Val buf, set_world w' kworld_proc) /\
    length buf = 32%nat /\ cstr buf = shm_prefix.
Proof. apply (gen_shm_obj_name_constant toy_config 32 kworld_proc). lia. Defined.

Lemma kworld_shared : shared kworld_proc.
Proof. by eexists. Qed.

Lemma create_named_shm_obj_ends_witness :
  let r := create_named_shm_obj toy_config 32 kworld_proc in
  (exists n s1 name fd s2, (n < 9)%nat /\ failing toy_config 32 n kworld_proc s1 /\
     attempt toy_config 32 s1 = (Val (name, Some fd), s2) /\ cstr name = shm_prefix /\
     r = (Val (name, fd), s2)) \/
  (exists s1, failing toy_config 32 9 kworld_proc s1 /\
     verdict_of r = Failed (report (W := kworld)
       "Couldn't create shared memory object" [])).
Proof.
  apply (create_named_shm_obj_ends toy_config 32 kworld_proc); [lia|].
  apply kworld_shared.
Defined.

Lemma vm_mmap_disallowed_prot_verdict_witness :
  succeeds (ct_func (vm_mmap_disallowed_prot toy_config)) kworld_proc <->
  tags_allowed (Z.lor PROT_RW (PROT_MAX PROT_READ)) (anon_flags toy_config) OAnon
    = inr ENOTSUP /\
  (cfg_prot_cap toy_config = true ->
   tags_allowed (Z.lor (Z.lor PROT_READ PROT_CAP) (PROT_MAX PROT_READ))
     (anon_flags toy_config) OAnon = inr ENOTSUP /\
   tags_allowed PROT_CAP (anon_flags toy_config) OAnon = inr ENOTSUP /\
   tags_allowed (PROT_MAX PROT_CAP) (anon_flags toy_config) OAnon = inr ENOTSUP /\
   tags_allowed PROT_RWC MAP_SHARED OFile = inr EACCES).
Proof. apply (vm_mmap_disallowed_prot_verdict toy_config kworld_proc), kworld_shared. Defined.
