(* ===== verification/MmapPerms.v ===== *)
(** * MmapPerms: what mmap(2) returns (cheriostest_cheriabi.c, first part)

    The tests of the permissions and of the length of the capability that
    mmap(2) returns.  The permissions tests are rows of one table: a
    protection, and the permissions that it must give.  The test of
    unrepresentable lengths first searches such a length. *)

From S2P Require Import Prelude Printf Cheri Perms Harness Toy Kernel VmTags Registers.

Section MmapPerms.
Context {cap W : Type} {CH : Cheri cap} {LC : Libc cap W} {KE : Kernel cap W}
  {VC : VmConsts} {HP : Perms}.
Context (g : config).

(** ** Permissions *)

(** [int perms = cheri_perms_get(cap)] *)
Definition mmap_and_get_perms (prot : Z) : test cap W Z :=
  c ← CHERIOSTEST_CHECK_SYSCALL
        (sys (sys_mmap cap_null getpagesize prot (Z.lor MAP_ANON MAP_PRIVATE) (-1) 0))
        "mmap(NULL, CHERITEST_PAGE_SIZE, prot, MAP_ANON | MAP_PRIVATE, -1, 0)";
  let perms := i32 (cheri_perms_get c) in
  _ ← CHERIOSTEST_CHECK_SYSCALL (sys (sys_munmap c getpagesize))
        "munmap(cap, CHERITEST_PAGE_SIZE)";
  mret perms.

(** A protection as the messages write it, and what it must give. *)
Record perms_row := PermsRow {
  pr_prot : Z;
  pr_text : string;
  pr_write : bool;
  pr_exec : bool;
  pr_cap : bool;
}.

(** [CHERIOSTEST_VERIFY2((perms & p) != 0, ...)], or [== 0]. *)
Definition check_perm (perms : Z) (want : bool) (p : perm) (name text : string)
    : test cap W unit :=
  if want
  then CHERIOSTEST_VERIFY2 (flag_set perms (mask p))
         ("Missing " +:+ name +:+ " on " +:+ text +:+ " mapping") []
  else CHERIOSTEST_VERIFY2 (negb (flag_set perms (mask p)))
         ("Found " +:+ name +:+ " on " +:+ text +:+ " mapping") [].

Definition check_load_mutable (perms : Z) (r : perms_row) : test cap W unit :=
  when (HAS_CHERI_PERM_LOAD_MUTABLE g)
    (check_perm perms (pr_cap r) PLoadMutable "PERM_LOAD_MUTABLE" (pr_text r)).

Definition check_store (perms : Z) (r : perms_row) : test cap W unit :=
  check_perm perms (pr_write r) PStore "PERM_STORE" (pr_text r).

(** [#ifdef HAS_CHERI_PERM_LOAD_STORE_CAP ... #elif HAS_CHERI_PERM_CAP ...] and
    the execute permission. *)
Definition check_cap_exec (perms : Z) (r : perms_row) : test cap W unit :=
  (if HAS_CHERI_PERM_LOAD_STORE_CAP g then
     check_perm perms (pr_cap r) PLoadCap "PERM_LOAD_CAP" (pr_text r) ;;
     check_perm perms (pr_cap r && pr_write r) PStoreCap "PERM_STORE_CAP" (pr_text r)
   else if HAS_CHERI_PERM_CAP g then
     check_perm perms (pr_cap r) PCap "PERM_CAP" (pr_text r)
   else mret tt) ;;
  check_perm perms (pr_exec r) PExecute "PERM_EXEC" (pr_text r).

(** A row of [cheriabi_mmap_perms]. *)
Definition check_row (r : perms_row) : test cap W unit :=
  perms ← mmap_and_get_perms (pr_prot r);
  check_perm perms true PLoad "PERM_LOAD" (pr_text r) ;;
  check_load_mutable perms r ;;
  check_store perms r ;;
  check_cap_exec perms r.

(** A row of the other two tests, which check the store permission first. *)
Definition check_row_store_first (r : perms_row) : test cap W unit :=
  perms ← mmap_and_get_perms (pr_prot r);
  check_perm perms true PLoad "PERM_LOAD" (pr_text r) ;;
  check_store perms r ;;
  check_load_mutable perms r ;;
  check_cap_exec perms r.

Definition PROT_RWX : Z := Z.lor PROT_RW PROT_EXEC.

Definition implied_rows : list perms_row :=
  [PermsRow PROT_READ "PROT_READ" false false true;
   PermsRow PROT_RW "PROT_RW" true false true;
   PermsRow PROT_RWX "PROT_RWX" true true true].

Definition explicit_rows : list perms_row :=
  [PermsRow (Z.lor PROT_READ PROT_CAP) "PROT_READ | PROT_CAP" false false true;
   PermsRow (Z.lor PROT_RW PROT_CAP) "PROT_RW | PROT_CAP" true false true;
   PermsRow (Z.lor PROT_RWX PROT_CAP) "PROT_RWX | PROT_CAP" true true true].

Definition no_cap_rows : list perms_row :=
  [PermsRow (Z.lor PROT_READ PROT_NO_CAP) "PROT_READ | PROT_NO_CAP" false false false;
   PermsRow (Z.lor PROT_RW PROT_NO_CAP) "PROT_RW | PROT_NO_CAP" true false false;
   PermsRow (Z.lor PROT_RWX PROT_NO_CAP) "PROT_RWX | PROT_NO_CAP" true true false].

(** [PROT_MAX(p | PROT_CAP) | p | PROT_NO_CAP] *)
Definition maxprot (p : Z) : Z :=
  Z.lor (Z.lor (PROT_MAX (Z.lor p PROT_CAP)) p) PROT_NO_CAP.

Definition maxprot_rows : list perms_row :=
  [PermsRow (maxprot PROT_READ) "PROT_MAX(PROT_READ | PROT_CAP)" false false true;
   PermsRow (maxprot PROT_RW) "PROT_MAX(PROT_RW | PROT_CAP)" true false true;
   PermsRow (maxprot PROT_RWX) "PROT_MAX(PROT_RWX | PROT_CAP)" true true true].

Definition mmap_perms_rows : list perms_row :=
  implied_rows ++ if cfg_prot_cap g then explicit_rows else [].

Definition cheriabi_mmap_perms : cheri_test cap W :=
  CHERIOSTEST "cheriabi_mmap_perms"
    "Verify that mmap returns the correct permissions on capabilities"
    (foreach mmap_perms_rows check_row ;; cheriostest_success).

Definition cheriabi_mmap_no_cap_perms : cheri_test cap W :=
  CHERIOSTEST "cheriabi_mmap_no_cap_perms"
    "Verify that mmap PROT_NO_CAP does not return capability permissions"
    (foreach no_cap_rows check_row_store_first ;; cheriostest_success).

Definition cheriabi_mmap_maxprot_perms : cheri_test cap W :=
  CHERIOSTEST "cheriabi_mmap_maxprot_perms"
    "Verify that mmap PROT_MAX are honored for capability permissions"
    (foreach maxprot_rows check_row_store_first ;; cheriostest_success).

(** ** Lengths *)

(** [1 << n] of type int is undefined when the result does not fit. *)
Definition int_shl1 (n : Z) : option Z :=
  if (0 <=? n) && (n <? 31) then Some (Z.shiftl 1 n) else None.

(** [do { ... } while (...)], from [shift]: [fuel] turns at most. *)
Fixpoint shortest_unrepresentable (fuel : nat) (shift : Z) : option Z :=
  match fuel with
  | O => None
  | S fuel' =>
      match int_shl1 (CHERITEST_PAGE_SHIFT (getpagesize (cap := cap) (W := W)) + shift) with
      | None => None
      | Some n =>
          let len := n + 1 in
          let r := cheritest_round_page (getpagesize (cap := cap) (W := W)) len in
          if r =? cheri_representable_length (cap := cap) r
          then shortest_unrepresentable fuel' (shift + 1)
          else Some len
      end
  end.

Definition cheriabi_mmap_unrepresentable : cheri_test cap W :=
  CHERIOSTEST "cheriabi_mmap_unrepresentable"
    "Test CheriABI mmap() with unrepresentable lengths"
    (match shortest_unrepresentable 32 0 with
     | None => undef
     | Some len =>
         let expected_len := cheri_representable_length (cap := cap) len in
         let prot := if is_linux g then PROT_RW else PROT_RWX in
         let flags := if is_linux g then Z.lor MAP_ANON MAP_PRIVATE else MAP_ANON in
         c ← try_sys (sys_mmap cap_null len prot flags (-1) 0);
         match c with
         | None =>
             cheriostest_failure_errx
               "mmap() failed to return a pointer when given an unrepresentable length (%zu)"
               [AInt len]
         | Some c =>
             fail_if (negb (cheri_length_get c =? expected_len))
               "mmap() returned a pointer with an unexpected length (%zu vs %zu) when given an unrepresentable length (%zu): %#p"
               [AInt (cheri_length_get c); AInt expected_len; AInt len; APtr c] ;;
             cheriostest_success
         end
     end).
End MmapPerms.

(** ** When the tests pass *)

(** A kernel in which mmap(2) of a page gives [perms_of prot], or fails. *)
Class MmapPolicy {cap W} `{Cheri cap, !Kernel cap W, !VmConsts} := {
  perms_of : Z -> Z + Z;
  mmap_perms prot v w : perms_of prot = inl v -> exists c w',
    sys_mmap cap_null getpagesize prot (Z.lor MAP_ANON MAP_PRIVATE) (-1) 0 w
      = (inl c, w') /\ cheri_perms_get c = v /\
    exists w'', sys_munmap c getpagesize w' = (inl 0, w'');
  mmap_perms_refused prot e w : perms_of prot = inr e -> exists w',
    sys_mmap cap_null getpagesize prot (Z.lor MAP_ANON MAP_PRIVATE) (-1) 0 w
      = (inr e, w');
}.
Arguments MmapPolicy cap W {_ _ _}.

Section PermsFacts.
Context {cap W : Type} {CH : Cheri cap} {LC : Libc cap W} {KE : Kernel cap W}
  {VC : VmConsts} {HP : Perms} {PL : PermLaws} {MP : MmapPolicy cap W}.
Context (g : config).

(** The permissions that a row asks for, of the value the test looks at. *)
Definition row_ok (r : perms_row) : Prop :=
  exists v, perms_of (cap := cap) (W := W) (pr_prot r) = inl v /\
  let has p := Z.testbit (i32 v) (bit p) in
  has PLoad = true /\ has PStore = pr_write r /\ has PExecute = pr_exec r /\
  (HAS_CHERI_PERM_LOAD_MUTABLE g = true -> has PLoadMutable = pr_cap r) /\
  (HAS_CHERI_PERM_LOAD_STORE_CAP g = true ->
   has PLoadCap = pr_cap r /\ has PStoreCap = pr_cap r && pr_write r) /\
  (HAS_CHERI_PERM_LOAD_STORE_CAP g = false -> HAS_CHERI_PERM_CAP g = true ->
   has PCap = pr_cap r).

Lemma flag_set_mask v p : flag_set v (mask p) = Z.testbit v (bit p).
Proof. unfold flag_set. by rewrite land_mask, negb_involutive. Qed.

(** A check of one permission, then the rest. *)
Lemma check_perm_iff {A} v want p name text (k : test cap W A) s :
  shared s ->
  (succeeds (check_perm v want p name text ;; k) s <->
   Z.testbit v (bit p) = want /\ succeeds k s).
Proof.
  intros Hs. unfold check_perm. rewrite flag_set_mask.
  destruct want; rewrite (succeeds_checks _ _ _ _ _ Hs); simpl;
    rewrite andb_true_r; [tauto|]. by rewrite negb_true_iff.
Qed.

Lemma when_iff {A} (b : bool) (m : test cap W unit) (k : test cap W A) (P : Prop) s :
  (b = true -> succeeds (m ;; k) s <-> P /\ succeeds k s) ->
  (succeeds (when b m ;; k) s <-> (b = true -> P) /\ succeeds k s).
Proof.
  intros H. destruct b; simpl.
  - rewrite H by done. naive_solver.
  - change (succeeds k s <-> (false = true -> P) /\ succeeds k s). naive_solver.
Qed.

Lemma cap_exec_iff {A} v r (k : test cap W A) s :
  shared s ->
  (succeeds (check_cap_exec g v r ;; k) s <->
   (let has p := Z.testbit v (bit p) in
    (HAS_CHERI_PERM_LOAD_STORE_CAP g = true ->
     has PLoadCap = pr_cap r /\ has PStoreCap = pr_cap r && pr_write r) /\
    (HAS_CHERI_PERM_LOAD_STORE_CAP g = false -> HAS_CHERI_PERM_CAP g = true ->
     has PCap = pr_cap r) /\ has PExecute = pr_exec r) /\ succeeds k s).
Proof.
  intros Hs. unfold check_cap_exec. rewrite succeeds_assoc.
  destruct (HAS_CHERI_PERM_LOAD_STORE_CAP g).
  - rewrite succeeds_assoc, !check_perm_iff by done. naive_solver.
  - destruct (HAS_CHERI_PERM_CAP g).
    + rewrite !check_perm_iff by done. naive_solver.
    + rewrite succeeds_ret, check_perm_iff by done. naive_solver.
Qed.

Lemma check_row_iff {A} (sf : bool) r (k : test cap W A) (P : Prop) s :
  shared s -> (forall s', shared s' -> (succeeds k s' <-> P)) ->
  (succeeds ((if sf then check_row_store_first g r else check_row g r) ;; k) s <->
   row_ok r /\ P).
Proof.
  intros Hs Hk. unfold row_ok.
  destruct (perms_of (cap := cap) (W := W) (pr_prot r)) as [v|e] eqn:Hp.
  - destruct (mmap_perms _ v (p_world s) Hp) as (c & w1 & Hmap & Hc & w2 & Hun).
    assert (mmap_and_get_perms (pr_prot r) s = (Val (i32 v), set_world w2 s)) as Hrun.
    { unfold mmap_and_get_perms. erewrite run_check by exact Hmap.
      cbv zeta. erewrite run_check by exact Hun. by rewrite Hc. }
    trans ((let has p := Z.testbit (i32 v) (bit p) in
      has PLoad = true /\ has PStore = pr_write r /\ has PExecute = pr_exec r /\
      (HAS_CHERI_PERM_LOAD_MUTABLE g = true -> has PLoadMutable = pr_cap r) /\
      (HAS_CHERI_PERM_LOAD_STORE_CAP g = true ->
       has PLoadCap = pr_cap r /\ has PStoreCap = pr_cap r && pr_write r) /\
      (HAS_CHERI_PERM_LOAD_STORE_CAP g = false -> HAS_CHERI_PERM_CAP g = true ->
       has PCap = pr_cap r)) /\ P); [|naive_solver].
    destruct sf; unfold check_row, check_row_store_first, check_store, check_load_mutable;
      rewrite succeeds_assoc, (succeeds_bind _ _ _ _ _ Hrun);
      rewrite succeeds_assoc, check_perm_iff by done;
      rewrite succeeds_assoc.
    + rewrite check_perm_iff by done. rewrite succeeds_assoc.
      rewrite (when_iff _ _ _ (Z.testbit (i32 v) (bit PLoadMutable) = pr_cap r))
        by (intros _; by apply check_perm_iff).
      rewrite cap_exec_iff, Hk by done. cbv zeta. tauto.
    + rewrite (when_iff _ _ _ (Z.testbit (i32 v) (bit PLoadMutable) = pr_cap r))
        by (intros _; by apply check_perm_iff).
      rewrite succeeds_assoc, check_perm_iff by done.
      rewrite cap_exec_iff, Hk by done. cbv zeta. tauto.
  - split; [|by intros [(v & ? & _) _]].
    destruct (mmap_perms_refused _ e (p_world s) Hp) as (w1 & Hmap).
    intros H. exfalso. revert H.
    destruct sf; unfold check_row, check_row_store_first, mmap_and_get_perms;
      rewrite succeeds_assoc, succeeds_assoc; by eapply fail_check.
Qed.

Lemma rows_iff {A} (sf : bool) rows (k : test cap W A) (P : Prop) s :
  shared s -> (forall s', shared s' -> (succeeds k s' <-> P)) ->
  (succeeds (foreach rows (if sf then check_row_store_first g else check_row g) ;; k) s <->
   Forall row_ok rows /\ P).
Proof.
  intros Hs Hk. revert s Hs. induction rows as [|r rows IH]; intros s Hs.
  { simpl. rewrite succeeds_ret, Hk by done. split; [by split; [constructor|]|tauto]. }
  rewrite Forall_cons. cbn [foreach]. rewrite succeeds_assoc.
  trans (row_ok r /\ Forall row_ok rows /\ P); [|tauto].
  pose proof (check_row_iff sf r (foreach rows
    (if sf then check_row_store_first g else check_row g) ;; k)
    (Forall row_ok rows /\ P) s Hs IH) as H.
  destruct sf; exact H.
Qed.

(** C28: each of the three tests of the permissions of mappings passes exactly
    when every one of its protections is accepted and gives the permissions of
    its row: load always, store, execute and capability permissions exactly
    when the protection has them (or its PROT_MAX, for the last). *)
Theorem mmap_perms_verdict (s : proc cap W) :
  shared s ->
  (succeeds (ct_func (cheriabi_mmap_perms g)) s <-> Forall row_ok (mmap_perms_rows g)) /\
  (succeeds (ct_func (cheriabi_mmap_no_cap_perms g)) s <-> Forall row_ok no_cap_rows) /\
  (succeeds (ct_func (cheriabi_mmap_maxprot_perms g)) s <-> Forall row_ok maxprot_rows).
Proof.
  intros Hs.
  assert (forall s', shared s' ->
    succeeds (cheriostest_success (A := unit) (cap := cap) (W := W)) s' <-> True) as Hk
    by (intros s' Hs'; split; [done|]; intros _; by apply succeeds_success).
  split_and!; unfold cheriabi_mmap_perms, cheriabi_mmap_no_cap_perms,
    cheriabi_mmap_maxprot_perms, CHERIOSTEST; cbn [ct_func].
  - rewrite (rows_iff false _ _ True) by done. tauto.
  - rewrite (rows_iff true _ _ True) by done. tauto.
  - rewrite (rows_iff true _ _ True) by done. tauto.
Qed.
End PermsFacts.

Section Lengths.
Context {cap W : Type} {CH : Cheri cap} {LC : Libc cap W} {KE : Kernel cap W}
  {VC : VmConsts}.
Context (g : config).

Abbreviation page_shift := (CHERITEST_PAGE_SHIFT (getpagesize (cap := cap) (W := W))).

(** The candidate of the turn [k], and whether it fits after rounding. *)
Definition candidate (k : Z) : Z := 2 ^ (page_shift + k) + 1.

Definition fits (k : Z) : Prop :=
  let r := cheritest_round_page (getpagesize (cap := cap) (W := W)) (candidate k) in
  r = cheri_representable_length (cap := cap) r.

Lemma int_shl1_some n : 0 <= n < 31 -> int_shl1 n = Some (2 ^ n).
Proof.
  intros Hn. unfold int_shl1. rewrite (proj2 (Z.leb_le _ _)), (proj2 (Z.ltb_lt _ _)) by lia.
  simpl. by rewrite Z.shiftl_1_l.
Qed.

Lemma shortest_spec (fuel : nat) (shift : Z) :
  0 <= page_shift -> 0 <= shift -> 31 < page_shift + shift + Z.of_nat fuel ->
  (exists k, shift <= k /\ page_shift + k < 31 /\ ~ fits k /\
     (forall j, shift <= j < k -> fits j) /\
     shortest_unrepresentable (cap := cap) (W := W) fuel shift = Some (candidate k)) \/
  ((forall k, shift <= k -> page_shift + k < 31 -> fits k) /\
   shortest_unrepresentable (cap := cap) (W := W) fuel shift = None).
Proof.
  intros Hp. revert shift. induction fuel as [|fuel IH]; intros shift H0 Hf.
  { right. split; [intros; lia|done]. }
  cbn [shortest_unrepresentable].
  destruct (decide (page_shift + shift < 31)) as [Hlt|Hge].
  2: { right. split; [intros; lia|]. unfold int_shl1.
       by rewrite (proj2 (Z.ltb_ge _ _)), andb_false_r by lia. }
  rewrite int_shl1_some by lia. cbv zeta. fold (candidate shift).
  destruct (Z.eqb_spec
    (cheritest_round_page (getpagesize (cap := cap) (W := W)) (candidate shift))
    (cheri_representable_length (cap := cap)
       (cheritest_round_page (getpagesize (cap := cap) (W := W)) (candidate shift))))
    as [Hfit|Hnf].
  - destruct (IH (shift + 1) ltac:(lia) ltac:(lia)) as [(k & Hk & Hlt' & Hn & Hall & Hr)|[Hall Hr]].
    + left. exists k. split; [lia|]. split; [done|]. split; [done|]. split; [|done].
      intros j Hj. destruct (decide (j = shift)) as [->|]; [done|]. apply Hall. lia.
    + right. split; [|done]. intros k Hk Hlt'.
      destruct (decide (k = shift)) as [->|]; [done|]. apply Hall; lia.
  - left. exists shift. split; [lia|]. split; [done|]. split; [done|].
    split; [intros; lia|done].
Qed.

(** C29: the search of the test of unrepresentable lengths ends.  If some
    length [2^n + 1], [n] from the page shift to 30, is not representable once
    rounded to pages, the least is used, and the test passes exactly when mmap
    gives a capability with the length that the machine rounds it to.  On a
    machine where all of them are representable the shift leaves the int. *)
Theorem mmap_unrepresentable_verdict (s : proc cap W) :
  0 <= page_shift -> shared s ->
  let body := ct_func (cheriabi_mmap_unrepresentable g) in
  (exists k, 0 <= k /\ page_shift + k < 31 /\ ~ fits k /\
     (forall j, 0 <= j < k -> fits j) /\
     (succeeds body s <-> exists c w',
        sys_mmap cap_null (candidate k) (if is_linux g then PROT_RW else PROT_RWX)
          (if is_linux g then Z.lor MAP_ANON MAP_PRIVATE else MAP_ANON) (-1) 0
          (p_world s) = (inl c, w') /\
        cheri_length_get c = cheri_representable_length (cap := cap) (candidate k))) \/
  ((forall k, 0 <= k -> page_shift + k < 31 -> fits k) /\ (body s).1 = Undef).
Proof.
  intros Hp Hs body. unfold body, cheriabi_mmap_unrepresentable, CHERIOSTEST.
  cbn [ct_func].
  destruct (shortest_spec 32 0 Hp ltac:(lia) ltac:(lia))
    as [(k & H0 & Hlt & Hn & Hall & ->)|[Hall ->]]; [left|by right].
  exists k. do 4 (split; [done|]). cbv zeta.
  destruct (sys_mmap _ _ _ _ _ _ (p_world s)) as [[c|e] w'] eqn:Hmap.
  - assert (forall A (f : option cap -> test cap W A),
      (try_sys (sys_mmap cap_null (candidate k) (if is_linux g then PROT_RW else PROT_RWX)
        (if is_linux g then Z.lor MAP_ANON MAP_PRIVATE else MAP_ANON) (-1) 0) ≫= f) s
      = f (Some c) (set_world w' s)) as Hrun.
    { intros A f. unfold try_sys, sys, mbind, eff_bind. by rewrite Hmap. }
    unfold succeeds. rewrite Hrun.
    match goal with |- (exists w, verdict_of (?m ?s') = Passed w) <-> _ =>
      change (succeeds m s' <-> exists c0 w0, (inl c : cap + Z, w') = (inl c0, w0) /\
        cheri_length_get c0 = cheri_representable_length (cap := cap) (candidate k)) end.
    rewrite (succeeds_checks _ _ _ (set_world w' s) _ Hs). simpl.
    rewrite andb_true_r, negb_involutive, Z.eqb_eq. split.
    + intros [H _]. by exists c, w'.
    + intros (c' & w'' & E & H). simplify_eq. split; [done|]. by apply succeeds_success.
  - split; [|by intros (c & w'' & ? & _)]. intros H. exfalso. revert H.
    unfold succeeds, try_sys, sys, modify, mbind, eff_bind. rewrite Hmap.
    intros H. by apply not_succeeds_failure_errx in H.
Qed.
End Lengths.

(** ** A concrete kernel *)

(** Capability permissions are implied unless PROT_NO_CAP is given, and PROT_MAX
    counts. *)
Definition toy_prot_perms (prot : Z) : Z :=
  let c := negb (flag_set prot PROT_NO_CAP) || flag_set prot (PROT_MAX PROT_CAP) in
  let p (b : bool) (x : perm) := if b then mask x else 0 in
  ors [mask PLoad; p c PLoadCap; p c PLoadMutable; p (flag_set prot PROT_WRITE) PStore;
       p (c && flag_set prot PROT_WRITE) PStoreCap; p (flag_set prot PROT_EXEC) PExecute].

#[export] Instance toy_mmap_kernel : Kernel scap unit := {|
  getpagesize := 4096;
  sys_mmap _ len prot _ _ _ w := (inl (toy_cap 0x10000 len 0 (toy_prot_perms prot)), w);
  sys_munmap _ _ w := (inl 0, w);
  sys_mprotect _ _ _ w := (inl 0, w);
  sys_minherit _ _ _ w := (inl 0, w);
  sys_shmget _ _ _ w := (inl 0, w);
  sys_shmat _ _ _ w := (inr 22, w);
  sys_shmdt _ w := (inl 0, w);
  sys_shm_open _ _ _ w := (inl 3, w);
  sys_shm_unlink _ w := (inl 0, w);
  sys_memfd_create _ _ w := (inl 3, w);
  sys_open _ _ w := (inl 3, w);
  sys_mkstemp t w := (inl (3, t), w);
  sys_unlink _ w := (inl 0, w);
  sys_ftruncate _ _ w := (inl 0, w);
  sys_close _ w := (inl 0, w);
  os_random w := (7, w);
  mem_load_cap c _ w := (inl c, w);
  mem_store_cap _ _ _ w := (inl tt, w);
  mem_store_byte _ _ _ w := (inl tt, w);
  stack_local size := toy_cap 0x7000 size 0 0;
|}.

#[export] Instance toy_mmap_policy : MmapPolicy scap unit.
Proof.
  refine {| perms_of prot := inl (u64 (toy_prot_perms prot)) |}.
  - intros prot v w [= <-]. eexists _, w. split; [reflexivity|].
    split; [reflexivity|by exists w].
  - done.
Defined.

(** The kernel passes all three tests. *)
Lemma mmap_perms_verdict_witness :
  succeeds (ct_func (cheriabi_mmap_perms toy_freebsd)) toy_proc /\
  succeeds (ct_func (cheriabi_mmap_no_cap_perms toy_freebsd)) toy_proc /\
  succeeds (ct_func (cheriabi_mmap_maxprot_perms toy_freebsd)) toy_proc.
Proof.
  destruct (mmap_perms_verdict (PL := toy_perm_laws) toy_freebsd toy_proc toy_shared)
    as (H1 & H2 & H3).
  split_and!; [apply H1|apply H2|apply H3];
    repeat constructor; (eexists; split; [reflexivity|]); vm_compute;
    repeat split; congruence.
Defined.

Lemma mmap_unrepresentable_verdict_witness :
  let body := ct_func (cheriabi_mmap_unrepresentable (cap := scap) (W := unit) toy_config) in
  (exists k, 0 <= k /\ CHERITEST_PAGE_SHIFT 4096 + k < 31 /\ ~ fits (cap := scap) (W := unit) k /\
     (forall j, 0 <= j < k -> fits (cap := scap) (W := unit) j) /\
     (succeeds body toy_proc <-> exists c w',
        sys_mmap cap_null (candidate (cap := scap) (W := unit) k) PROT_RW
          (Z.lor MAP_ANON MAP_PRIVATE) (-1) 0 tt = (inl c, w') /\
        cheri_length_get c = cheri_representable_length (cap := scap)
                               (candidate (cap := scap) (W := unit) k))) \/
  ((forall k, 0 <= k -> CHERITEST_PAGE_SHIFT 4096 + k < 31 -> fits (cap := scap) (W := unit) k) /\
   (body toy_proc).1 = Undef).
Proof.
  exact (mmap_unrepresentable_verdict (KE := toy_mmap_kernel) toy_config toy_proc
    ltac:(vm_compute; congruence) toy_shared).
Defined.
