(* ===== verification/Argv.v ===== *)
(** * Argv: bounds of the argument and environment vectors (cheriostest_cheriabi.c)

    The end of the file: three tests start the program again with large vectors,
    and the child checks the capabilities that the kernel gave it.  The child has
    no shared page, its verdict is its exit status. *)

From S2P Require Import Prelude Printf Cheri Harness Runner Toy RunnerFacts Main Spawn.

(** [entrystate.es_argv], [environ], a load of the pointer [argp\[i\]], and the
    bytes, up to the first NUL, behind the 49999 that memset(3) wrote to a
    block of 50000. *)
Class ArgOS (cap W : Type) := {
  es_argv : W -> cap;
  environ : W -> cap;
  load_ptr : cap -> Z -> W -> (cap + siginfo cap) * W;
  sizeof_ptr : Z;
  heap_rest : W -> string;
}.

Section Argv.
Context {cap W : Type} {CH : Cheri cap} {LC : Libc cap W} {AO : ArgOS cap W}
  {SO : SpawnOS W}.
Context (g : config) (o : options).
Context (running_test : option (cheri_test cap W)).

(** ** The child *)

(** [argp\[i\]] *)
Definition elem (argp : cap) (i : Z) : test cap W cap :=
  fun s => let '(r, w) := load_ptr argp i (p_world s) in
           (match r with inl c => Val c | inr si => Raised si end, set_world w s).

Definition is_null (c : cap) : bool := cheri_address_get c =? 0.

(** [for (i = 0; argp\[i\] != NULL; i++)] from [i] on, [fuel] turns at most. *)
Fixpoint string_loop (fuel : nat) (i : Z) (argp : cap) : test cap W unit :=
  match fuel with
  | O => undef
  | S fuel' =>
      c ← elem argp i;
      if is_null c then mret tt else
      arg ← elem argp i;
      CHERIOSTEST_VERIFY2 (cheri_base_get arg =? cheri_address_get arg)
        "unexpected argp[%d] addr and base %#p" [AInt i; APtr arg] ;;
      c1 ← elem argp (i + 1);
      (if is_null c1 then mret tt else
       next ← elem argp (i + 1);
       CHERIOSTEST_VERIFY2 (cheri_base_get arg <? cheri_base_get next)
         "Invalid argp[%d] base: expect %#p < %#p" [AInt i; APtr arg; APtr next] ;;
       CHERIOSTEST_VERIFY2
         (u64 (cheri_base_get arg + cheri_length_get arg) <=? cheri_base_get next)
         "Invalid argp[%d] top: %#p overlaps %#p" [AInt i; APtr arg; APtr next]) ;;
      string_loop fuel' (i + 1) argp
  end.

(** An array holds at most as many pointers as its bounds have room for: a load
    behind them faults. *)
Definition check_string_array_bounds (argp : cap) : test cap W unit :=
  string_loop (S (Z.to_nat (cheri_length_get argp / sizeof_ptr (W := W)))) 0 argp.

(** Both vectors are precisely bounded and do not overlap. *)
Definition vector_checks (argv environ : cap) : test cap W unit :=
  let argv_top := u64 (cheri_base_get argv + cheri_length_get argv - 1) in
  let envv_top := u64 (cheri_base_get environ + cheri_length_get environ - 1) in
  CHERIOSTEST_VERIFY2 (cheri_base_get argv =? cheri_address_get argv)
    "invalid argv base %#p" [APtr argv] ;;
  CHERIOSTEST_VERIFY2 (cheri_base_get environ =? cheri_address_get environ)
    "invalid envv base %#p" [APtr environ] ;;
  CHERIOSTEST_VERIFY2
    (negb (cheritest_cheri_is_address_inbounds environ argv_top) &&
     negb (cheritest_cheri_is_address_inbounds argv envv_top))
    "invalid argv bounds %#p overlaps envv %#p" [APtr argv; APtr environ].

Definition cheriabi_check_argv_envv_bounds : test cap W unit :=
  w ← gets p_world;
  verbose ← gets p_verbose;
  when (negb (verbose =? 0)) (report_on_stderr "argv=%#p" [APtr (es_argv w)]) ;;
  vector_checks (es_argv w) (environ w) ;;
  check_string_array_bounds (es_argv w) ;;
  check_string_array_bounds (environ w) ;;
  exit 0.

(** ** The parent *)

Fixpoint string_of_char (n : nat) (c : ascii) : string :=
  match n with O => EmptyString | S n' => String c (string_of_char n' c) end.

Definition large_entry_size : Z := 50000.
Definition large_argv_size : Z := 5000.

(** The end of the three bodies.  A process that has become the new program
    does not go on. *)
Definition spawn_and_check (argv envv : option (list string))
    (msg : string) (ap : Z -> list (arg cap)) : test cap W unit :=
  r ← cheriostest_spawn_child_args g o running_test SC_MODE_FORK argv envv;
  match r with
  | Replaced _ _ _ => mret tt
  | Pid pid =>
      CHERIOSTEST_VERIFY2 (0 <? pid) "spawning child process failed" [] ;;
      res ← world_op (os_waitpid pid);
      fail_if (negb (res =? 0)) msg (ap res) ;;
      cheriostest_success
  end.

Definition cheriabi_argv_bounds : cheri_test cap W :=
  with_child cheriabi_check_argv_envv_bounds
    (CHERIOSTEST "cheriabi_argv_bounds"
       "Check that argv strings are aligned for representability"
       (let large_entry := string_of_char (Z.to_nat (large_entry_size - 1)) "A" in
        spawn_and_check (Some [large_entry]) (Some [])
          "argv bounds check failed: %d" (fun res => [AInt res]))).

(** memset(3) fills all of [large_entry] but its last byte. *)
Definition cheriabi_envv_bounds : cheri_test cap W :=
  with_child cheriabi_check_argv_envv_bounds
    (CHERIOSTEST "cheriabi_envv_bounds"
       "Check that envv strings are aligned for representability"
       (w ← gets p_world;
        let large_entry := string_of_char (Z.to_nat (large_entry_size - 1)) "A"
                           +:+ heap_rest w in
        spawn_and_check None (Some ["XX"; large_entry]%string) 
          "envv bounds check failed" (fun _ => []))).

Definition cheriabi_argv_array_bounds : cheri_test cap W :=
  with_child cheriabi_check_argv_envv_bounds
    (CHERIOSTEST "cheriabi_argv_array_bounds"
       "Check that the argv capability is precisely bounded"
       (spawn_and_check (Some (replicate (Z.to_nat large_argv_size) EmptyString))
          (Some [EmptyString])
          "argv array bounds check failed" (fun _ => []))).
End Argv.

(** ** What the child accepts *)

Section ArgvFacts.
Context {cap W : Type} {CH : Cheri cap} {CL : CheriLaws cap} {LC : Libc cap W}
  {AO : ArgOS cap W} {SO : SpawnOS W}.

(** A vector in memory: its pointers, the terminator, and room for them. *)
Record vector (w : W) (argp : cap) (l : list cap) : Prop := {
  vector_loads i c : l !! i = Some c -> load_ptr argp (Z.of_nat i) w = (inl c, w);
  vector_end : exists c, load_ptr argp (Z.of_nat (length l)) w = (inl c, w) /\
                         is_null c = true;
  vector_not_null : Forall (fun c => is_null c = false) l;
  vector_room : Z.of_nat (length l) <= cheri_length_get argp / sizeof_ptr (W := W);
}.

(** A capability whose bounds do not reach the end of the address space. *)
Definition inside (c : cap) : Prop := cheri_base_get c + cheri_length_get c < 2 ^ 64.

Definition precise (c : cap) : Prop := cheri_base_get c = cheri_address_get c.

(** [c] ends before [d] starts. *)
Definition before (c d : cap) : Prop :=
  cheri_base_get c < cheri_base_get d /\
  cheri_base_get c + cheri_length_get c <= cheri_base_get d.

Definition strings_ok (l : list cap) : Prop :=
  Forall precise l /\ forall i j c d, (i < j)%nat -> l !! i = Some c -> l !! j = Some d ->
    before c d.

Definition in_bounds (c : cap) (a : Z) : Prop :=
  cheri_base_get c <= a < cheri_base_get c + cheri_length_get c.

Definition vectors_ok (argv env : cap) (args envs : list cap) : Prop :=
  precise argv /\ precise env /\ (forall a, ~ (in_bounds argv a /\ in_bounds env a)) /\
  strings_ok args /\ strings_ok envs.

(** The checks that the loop makes. *)
Fixpoint string_checks (i : Z) (l : list cap) : list (probe cap) :=
  match l with
  | [] => []
  | arg :: l' =>
      Check (cheri_base_get arg =? cheri_address_get arg)
        "unexpected argp[%d] addr and base %#p" [AInt i; APtr arg] ::
      match l' with
      | [] => []
      | next :: _ =>
          [Check (cheri_base_get arg <? cheri_base_get next)
             "Invalid argp[%d] base: expect %#p < %#p" [AInt i; APtr arg; APtr next];
           Check (u64 (cheri_base_get arg + cheri_length_get arg) <=? cheri_base_get next)
             "Invalid argp[%d] top: %#p overlaps %#p" [AInt i; APtr arg; APtr next]]
      end ++ string_checks (i + 1) l'
  end.

#[export] Instance before_transitive : Transitive before.
Proof.
  intros a b c [H1 H2] [H3 H4]. pose proof (length_range b). split; lia.
Qed.

Lemma strings_ok_cons c l :
  strings_ok (c :: l) <->
  precise c /\ (forall d, head l = Some d -> before c d) /\ strings_ok l.
Proof.
  unfold strings_ok. rewrite Forall_cons. split.
  - intros [[Hp Hl] H]. split; [done|]. split.
    + intros d Hd. apply (H 0 1 c d)%nat; [lia|done|]. by destruct l.
    + split; [done|]. intros i j. intros a b Hij. apply (H (S i) (S j)). lia.
  - intros (Hp & Hc & Hl & H). split; [done|].
    assert (forall j d, l !! j = Some d -> before c d) as Hall.
    { intros j d Hj. destruct l as [|e l]; [done|]. specialize (Hc e eq_refl).
      destruct j as [|j]; [by simplify_eq/=|]. etrans; [exact Hc|].
      apply (H 0 (S j))%nat; [lia|done|done]. }
    intros [|i] [|j] a b Hij Ha Hb; simplify_eq/=; [lia| |lia|].
    + by eapply Hall.
    + apply (H i j); [lia|done|done].
Qed.

Lemma string_checks_spec i l :
  Forall inside l -> forallb chk_ok (string_checks i l) = true <-> strings_ok l.
Proof.
  intros Hl. revert i. induction Hl as [|c l Hc Hl IH]; intros i.
  { split; [|done]. intros _. split; [constructor|]. by intros ? ? ? ? _. }
  rewrite strings_ok_cons, <- (IH (i + 1)). cbn [string_checks forallb chk_ok].
  rewrite forallb_app, !andb_true_iff, Z.eqb_eq.
  apply and_iff_compat_l, and_iff_compat_r. destruct l as [|d l]; [done|].
  pose proof (base_range c). pose proof (length_range c). unfold inside in Hc.
  cbn. rewrite !andb_true_iff, wrapu_small by lia. unfold before.
  rewrite Z.ltb_lt, Z.leb_le. split; [|intros H'; specialize (H' d eq_refl)]; intros; simplify_eq; tauto.
Qed.

(** *** The loop makes these checks *)

Lemma verify2_cong {A} b msg ap (m1 m2 : test cap W A) s :
  m1 s = m2 s -> (CHERIOSTEST_VERIFY2 b msg ap ;; m1) s
                 = (CHERIOSTEST_VERIFY2 b msg ap ;; m2) s.
Proof.
  intros H. destruct b; [exact H|]. unfold CHERIOSTEST_VERIFY2,
    cheriostest_failure_errx, mbind, eff_bind.
  by destruct (vcheriostest_failure_errx msg ap s) as [[] ?].
Qed.

Lemma elem_run argp i c w (s : proc cap W) :
  p_world s = w -> load_ptr argp i w = (inl c, w) -> elem argp i s = (Val c, s).
Proof. intros Hw Hl. unfold elem. rewrite Hw, Hl. destruct s. by simpl in *; subst. Qed.

Lemma string_loop_run w argp l (s : proc cap W) (fuel i : nat) :
  vector w argp l -> p_world s = w -> (length l < fuel + i)%nat -> (i <= length l)%nat ->
  string_loop fuel (Z.of_nat i) argp s
  = run_checks (string_checks (Z.of_nat i) (drop i l)) s.
Proof.
  intros Hv Hw. revert i. induction fuel as [|fuel IH]; intros i Hf Hi; [lia|].
  assert (forall j c, l !! j = Some c -> elem argp (Z.of_nat j) s = (Val c, s) /\
            is_null c = false) as Hel.
  { intros j c Hj. split; [by eapply elem_run, vector_loads|].
    eapply (Forall_lookup_1 (fun c => is_null c = false)), Hj. by eapply vector_not_null. }
  destruct (vector_end _ _ _ Hv) as (e & He & Hnull).
  apply (elem_run _ _ _ _ s Hw) in He. cbn [string_loop].
  destruct (drop i l) as [|c rest] eqn:Hd.
  { assert (i = length l) as ->.
    { apply (f_equal length) in Hd. rewrite length_drop in Hd. simpl in Hd. lia. }
    erewrite test_bind by exact He. by rewrite Hnull. }
  assert (l !! i = Some c) as Hc by (rewrite <- (Nat.add_0_r i), <- lookup_drop; by rewrite Hd).
  assert (drop (S i) l = rest) as Hd' by (rewrite <- Nat.add_1_r, <- drop_drop; by rewrite Hd).
  pose proof (lookup_lt_Some _ _ _ Hc).
  destruct (Hel i c Hc) as [Hrun Hn].
  erewrite test_bind by exact Hrun. rewrite Hn. erewrite test_bind by exact Hrun.
  unfold run_checks. cbn [string_checks foreach]. apply verify2_cong.
  specialize (IH (S i) ltac:(lia) ltac:(lia)). rewrite Hd', Nat2Z.inj_succ in IH.
  unfold Z.succ in IH. destruct rest as [|d rest].
  - assert (length l = S i) as Hlen.
    { apply (f_equal length) in Hd'. rewrite length_drop in Hd'. simpl in Hd'. lia. }
    rewrite Hlen, Nat2Z.inj_succ in He. unfold Z.succ in He.
    erewrite test_bind by exact He. rewrite Hnull. exact IH.
  - assert (l !! S i = Some d) as Hsd
      by (rewrite <- (Nat.add_0_r (S i)), <- lookup_drop; by rewrite Hd').
    destruct (Hel _ _ Hsd) as [Hrun' Hn']. rewrite Nat2Z.inj_succ in Hrun'.
    unfold Z.succ in Hrun'. erewrite test_bind by exact Hrun'. rewrite Hn', test_assoc.
    erewrite test_bind by exact Hrun'. rewrite test_assoc. cbn [app foreach].
    by do 2 apply verify2_cong.
Qed.

Lemma check_string_array_run w argp l (s : proc cap W) :
  vector w argp l -> p_world s = w ->
  check_string_array_bounds argp s = run_checks (string_checks 0 l) s.
Proof.
  intros Hv Hw. pose proof (vector_room _ _ _ Hv).
  apply (string_loop_run w argp l s _ 0 Hv Hw); lia.
Qed.

(** Checks either all hold and change nothing, or end the process. *)
Lemma run_checks_outcome (l : list (probe cap)) (s : proc cap W) :
  if forallb chk_ok l then run_checks l s = (Val tt, s)
  else exists s', run_checks l s = (Exited EX_SOFTWARE, s').
Proof.
  induction l as [|k l IH]; [done|]. unfold run_checks in *. simpl.
  destruct (chk_ok k); [exact IH|]. unfold CHERIOSTEST_VERIFY2,
    cheriostest_failure_errx, vcheriostest_failure_errx, mbind, eff_bind.
  destruct (p_ccsp s); by eexists.
Qed.

(** The exit status of a process that makes some checks and leaves with 0. *)
Lemma run_checks_exit (l : list (probe cap)) (s : proc cap W) :
  ((run_checks l ;; (exit 0 : test cap W unit)) s).1
  = Exited (if forallb chk_ok l then 0 else EX_SOFTWARE).
Proof.
  pose proof (run_checks_outcome l s) as H. unfold mbind, eff_bind.
  destruct (forallb chk_ok l); [by rewrite H|]. by destruct H as [s' ->].
Qed.

(** A part that makes the checks [l], before others. *)
Lemma run_checks_cons_part {A} (m : test cap W unit) l l' (k k' : test cap W A) s :
  m s = run_checks l s ->
  (forall s', p_world s' = p_world s -> k s' = (run_checks l' ;; k') s') ->
  (m ;; k) s = (run_checks (l ++ l') ;; k') s.
Proof.
  intros Hm Hk. trans ((run_checks l ;; run_checks l' ;; k') s).
  - pose proof (run_checks_outcome l s) as H. unfold mbind at 1 2, eff_bind. rewrite Hm.
    destruct (forallb chk_ok l); [rewrite H; by apply Hk|]. by destruct H as [s' ->].
  - unfold run_checks. etrans; [symmetry; apply test_assoc|].
    unfold mbind, eff_bind. by rewrite foreach_app.
Qed.

(** *** Disjointness, from the last bytes *)

Lemma inbounds_iff (c : cap) a :
  inside c -> cheritest_cheri_is_address_inbounds c a = true <-> in_bounds c a.
Proof.
  intros Hc. pose proof (base_range c). pose proof (length_range c). unfold inside in Hc.
  unfold cheritest_cheri_is_address_inbounds, in_bounds.
  rewrite wrapu_small by lia. rewrite andb_true_iff. lia.
Qed.

Lemma disjoint_tops (c d : cap) :
  inside c -> inside d -> 0 < cheri_length_get c -> 0 < cheri_length_get d ->
  negb (cheritest_cheri_is_address_inbounds d
          (u64 (cheri_base_get c + cheri_length_get c - 1))) &&
  negb (cheritest_cheri_is_address_inbounds c
          (u64 (cheri_base_get d + cheri_length_get d - 1))) = true
  <-> forall a, ~ (in_bounds c a /\ in_bounds d a).
Proof.
  intros Hc Hd Hlc Hld.
  rewrite andb_true_iff, !negb_true_iff, <- !not_true_iff_false, !inbounds_iff by done.
  pose proof (base_range c). pose proof (base_range d). unfold inside in *.
  rewrite !wrapu_small by lia. unfold in_bounds. split.
  - intros [H1 H2] a. lia.
  - intros H'.
    pose proof (H' (cheri_base_get c + cheri_length_get c - 1)).
    pose proof (H' (cheri_base_get d + cheri_length_get d - 1)). lia.
Qed.

(** The kernel laid out the vectors of a process. *)
Record laid_out (w : W) (args envs : list cap) : Prop := {
  lo_args : vector w (es_argv w) args;
  lo_envs : vector w (environ w) envs;
  lo_inside : Forall inside (es_argv w :: environ w :: args ++ envs);
  lo_nonempty : 0 < cheri_length_get (es_argv w) /\ 0 < cheri_length_get (environ w);
}.

Lemma argv_child_exit (s : proc cap W) args envs :
  laid_out (p_world s) args envs ->
  let ok := vectors_ok (es_argv (p_world s)) (environ (p_world s)) args envs in
  let r := (cheriabi_check_argv_envv_bounds s).1 in
  exists b : bool, r = Exited (if b then 0 else EX_SOFTWARE) /\ (b = true <-> ok).
Proof.
  intros [Ha He Hin [Hla Hle]] ok r. rewrite !Forall_cons, Forall_app in Hin.
  destruct Hin as (Hia & Hie & Hargs & Henvs).
  set (argv := es_argv (p_world s)) in *. set (env := environ (p_world s)) in *.
  set (s0 := if p_verbose s =? 0 then s else
               (report_on_stderr "argv=%#p" [APtr argv] s).2).
  assert (p_world s0 = p_world s) as Hw by (unfold s0; by destruct (p_verbose s =? 0)).
  assert (exists l, Checks (vector_checks argv env) l /\
            (forallb chk_ok l = true <->
             precise argv /\ precise env /\
             forall a, ~ (in_bounds argv a /\ in_bounds env a))) as (l & Hl & Hok).
  { eexists. split; [apply _|]. cbn [app forallb chk_ok].
    rewrite !andb_true_iff, !Z.eqb_eq, <- disjoint_tops by done. rewrite andb_true_iff.
    unfold precise. tauto. }
  assert (r = Exited (if forallb chk_ok (l ++ string_checks 0 args ++
                           string_checks 0 envs ++ []) then 0 else EX_SOFTWARE)) as ->.
  { unfold r. rewrite <- (run_checks_exit _ s0). f_equal.
    trans ((vector_checks argv env ;; check_string_array_bounds argv ;;
            check_string_array_bounds env ;; (exit 0 : test cap W unit)) s0).
    { unfold cheriabi_check_argv_envv_bounds.
      etrans; [by apply test_bind|]. etrans; [by apply test_bind|].
      etrans; [apply (test_bind _ _ _ tt s0)|reflexivity].
      unfold s0, when, report_on_stderr, modify. by destruct (p_verbose s =? 0), s. }
    refine (run_checks_cons_part _ l _ _ _ s0 (Hl s0) _). intros s1 Hs1.
    refine (run_checks_cons_part _ _ _ _ _ s1
      (check_string_array_run _ _ _ _ Ha (eq_trans Hs1 Hw)) _). intros s2 Hs2.
    refine (run_checks_cons_part _ _ [] _ _ s2
      (check_string_array_run _ _ _ _ He (eq_trans Hs2 (eq_trans Hs1 Hw))) _). done. }
  assert (forallb chk_ok (l ++ string_checks 0 args ++ string_checks 0 envs ++ []) = true
          <-> ok) as Hiff.
  { rewrite !forallb_app, !andb_true_iff, Hok, !string_checks_spec by done.
    unfold ok, vectors_ok. simpl. tauto. }
  eexists. split; [reflexivity|exact Hiff].
Qed.

(** The child ends with the status 0 exactly when the two vectors are
    precisely based and disjoint, and the strings of each are precisely based
    and laid out in order without any overlap; otherwise it ends with
    EX_SOFTWARE.  The comparison of neighbours is thus a check of all pairs. *)
Theorem argv_child_verdict (s : proc cap W) (args envs : list cap) :
  laid_out (p_world s) args envs ->
  let ok := vectors_ok (es_argv (p_world s)) (environ (p_world s)) args envs in
  let r := (cheriabi_check_argv_envv_bounds s).1 in
  (ok -> r = Exited 0) /\ (~ ok -> r = Exited EX_SOFTWARE).
Proof.
  intros Hlo. destruct (argv_child_exit s args envs Hlo) as (b & -> & Hb).
  destruct b; split; intros H; try done.
  - destruct H. by apply Hb.
  - apply Hb in H. done.
Qed.
End ArgvFacts.

(** ** The tests, from the parent to the child *)

Section ArgvTests.
Context {cap W : Type} {CH : Cheri cap} {CL : CheriLaws cap} {LC : Libc cap W}
  {AO : ArgOS cap W} {SO : SpawnOS W} {RO : RunnerOS W}.
Context (g : config) (o : options).

(** The status that waitpid(2) stores for a process with this end. *)
Definition wait_status (r : outcome cap unit) : Z :=
  match r with
  | Exited code => Z.shiftl (Z.land code 255) 8
  | Raised si => Z.land (si_signo si) 127
  | _ => SIGSEGV (cap := cap) (W := W)
  end.

(** A test, and the extra arguments of its child. *)
Record argv_test := ArgvTest { at_test : cheri_test cap W; at_extra : list string }.

Definition argv_tests (rt : option (cheri_test cap W)) : list argv_test :=
  [ArgvTest (cheriabi_argv_bounds g o rt)
     [string_of_char (Z.to_nat (large_entry_size - 1)) "A"];
   ArgvTest (cheriabi_envv_bounds g o rt) [];
   ArgvTest (cheriabi_argv_array_bounds g o rt)
     (replicate (Z.to_nat large_argv_size) EmptyString)].

Lemma spawn_and_check_run (rt : cheri_test cap W) argv envv msg ap (s : proc cap W)
    path pid w1 :
  get_execpath (cap := cap) g (PATH_MAX g) s = (Val path, s) ->
  too_many_flags o (default [] argv) = false ->
  os_forks Fork (p_world s) = (inl pid, w1) -> 0 < pid -> shared s ->
  succeeds (spawn_and_check g o (Some rt) argv envv msg ap) s <->
  (os_waitpid pid w1).1 = 0.
Proof.
  intros Hp Ht Hf Hpos Hs. unfold spawn_and_check.
  rewrite (succeeds_bind _ _ _ _ _ (spawn_fork_parent g o s path rt argv envv pid w1 Hp Ht Hf Hpos)).
  rewrite (succeeds_checks _ _ _ (set_world w1 s) _ Hs). simpl forallb.
  replace (0 <? pid) with true by lia. destruct (os_waitpid pid w1) as [res w2] eqn:Hw.
  rewrite (succeeds_bind _ _ _ res (set_world w2 s))
    by (unfold world_op; simpl; by rewrite Hw).
  rewrite (succeeds_checks _ _ _ (set_world w2 s) _ Hs). simpl.
  rewrite andb_true_r, negb_involutive, Z.eqb_eq.
  split; [by intros (_ & ? & _)|]. intros ->. split_and!; try done.
  by apply succeeds_success.
Qed.

(** C31: each of the three tests passes exactly when the kernel lays out the
    vectors of the child it starts as [argv_child_verdict] says: the parent starts the program
    again with the arguments of the test, main of the child reaches the check
    function, and the wait status carries its verdict back. *)
Theorem argv_tests_verdict (fg : config) (qemu : option bool) (fl : option string)
    (fd : Z) (fnmatch : string -> string -> bool) (tests : list (cheri_test cap W))
    (shp rl : bool) (rt : cheri_test cap W) (t : argv_test) (s : proc cap W)
    (path : string) (pid : Z) (w1 : W) (d : driver cap W) (args envs : list cap) :
  t ∈ argv_tests (Some rt) -> ct_name rt = ct_name (at_test t) ->
  head (filter (fun t' => ct_name t' = ct_name (at_test t)) tests) = Some (at_test t) ->
  get_execpath (cap := cap) g (PATH_MAX g) s = (Val path, s) ->
  too_many_flags o (at_extra t) = false -> shared s ->
  os_forks Fork (p_world s) = (inl pid, w1) -> 0 < pid ->
  laid_out (d_world d) args envs ->
  (os_waitpid pid w1).1 = wait_status
    (main fg fl fd fnmatch tests Some qemu true shp rl
       (child_arguments o (ct_name rt) (at_extra t)) d).1 ->
  succeeds (ct_func (at_test t)) s <->
  vectors_ok (es_argv (d_world d)) (environ (d_world d)) args envs.
Proof.
  intros Ht Hname Hhd Hpath Hflags Hs Hfork Hpid Hlo Hwait.
  assert (succeeds (ct_func (at_test t)) s <-> (os_waitpid pid w1).1 = 0) as ->.
  { revert Hflags. clear Hwait Hhd Hname. unfold argv_tests in Ht.
    rewrite !elem_of_cons, elem_of_nil in Ht.
    destruct Ht as [-> | [-> | [-> | []]]]; cbn [at_test at_extra]; intros Hflags;
      unfold cheriabi_argv_bounds, cheriabi_envv_bounds, cheriabi_argv_array_bounds,
        with_child, CHERIOSTEST; cbn [ct_func].
    - apply (spawn_and_check_run _ _ _ _ _ s path); done.
    - rewrite (succeeds_bind _ _ _ (p_world s) s) by done.
      apply (spawn_and_check_run _ _ _ _ _ s path); done.
    - apply (spawn_and_check_run _ _ _ _ _ s path); done. }
  assert (starts_with_dash (ct_name (at_test t)) = false /\
          ct_child_func (at_test t) = Some cheriabi_check_argv_envv_bounds) as [Hdash Hchild].
  { unfold argv_tests in Ht. rewrite !elem_of_cons, elem_of_nil in Ht.
    by destruct Ht as [-> | [-> | [-> | []]]]. }
  rewrite Hwait, Hname, child_main_run by done.
  set (s0 := Proc (cap := cap) None (d_errno d) ∅ EmptyString EmptyString
               (o_verbose (child_options o (at_extra t))) (d_world d)).
  destruct (argv_child_exit s0 args envs Hlo) as (b & Hr & Hb).
  change (p_world s0) with (d_world d) in Hb. rewrite <- Hb.
  unfold as_child. fold s0. unfold cheriostest_run_child. rewrite Hchild.
  unfold mbind, eff_bind. destruct (cheriabi_check_argv_envv_bounds s0) as [r s1].
  simpl in Hr. subst r. by destruct b.
Qed.
End ArgvTests.

(** ** Concrete vectors *)

Definition toy_strings (argp : scap) : list scap :=
  if cheri_base_get argp =? 0x1000
  then [toy_cap 0x3000 5 0 0; toy_cap 0x3005 3 0 0; toy_cap 0x3010 1 0 0]
  else [toy_cap 0x4000 20 0 0].

#[export] Instance toy_argv : ArgOS scap unit := {|
  es_argv _ := toy_cap 0x1000 64 0 0;
  environ _ := toy_cap 0x1040 32 0 0;
  load_ptr argp i w := (inl (nth (Z.to_nat i) (toy_strings argp) cap_null), w);
  sizeof_ptr := 16;
  heap_rest _ := "junk";
|}.

#[export] Instance toy_spawn_parent : SpawnOS unit := {|
  os_exe_path _ := inl "/usr/bin/cheriostest"%string;
  os_aux_execpath _ := inl "/usr/bin/cheriostest"%string;
  os_environ := [];
  os_posix_spawn _ _ _ w := (inl 7, w);
  os_forks _ w := (inl 7, w);
  os_execve _ _ _ w := (None, w);
  os_waitpid _ w := (0, w);
  os_stat _ w := (None, w);
|}.

Definition toy_args : list scap := toy_strings (toy_cap 0x1000 64 0 0).
Definition toy_envs : list scap := toy_strings (toy_cap 0x1040 32 0 0).

Lemma toy_laid_out : laid_out (CH := scap_cheri) tt toy_args toy_envs.
Proof.
  split.
  - split; [|by eexists|by repeat constructor|vm_compute; congruence].
    intros [|[|[|i]]] c Hc; by simplify_eq/=.
  - split; [|by eexists|by repeat constructor|vm_compute; congruence].
    intros [|i] c Hc; by simplify_eq/=.
  - repeat constructor.
  - split; reflexivity.
Defined.

Lemma toy_vectors_ok :
  vectors_ok (es_argv (cap := scap) tt) (environ tt) toy_args toy_envs.
Proof.
  split; [reflexivity|]. split; [reflexivity|]. split.
  { intros a [[_ H2] [H3 _]]. change (a < 0x1040) in H2. change (0x1040 <= a) in H3. lia. }
  split; apply (string_checks_spec 0); by repeat constructor.
Defined.

Lemma argv_child_verdict_witness :
  (cheriabi_check_argv_envv_bounds toy_proc).1 = Exited 0.
Proof.
  apply (argv_child_verdict toy_proc toy_args toy_envs toy_laid_out). apply toy_vectors_ok.
Defined.

Lemma argv_tests_verdict_witness :
  succeeds (ct_func (cheriabi_envv_bounds toy_config options0
    (Some (toy_test "cheriabi_envv_bounds" cheriostest_success)))) toy_proc.
Proof.
  set (rt := toy_test "cheriabi_envv_bounds" cheriostest_success).
  set (t := ArgvTest (cheriabi_envv_bounds toy_config options0 (Some rt)) []).
  apply (argv_tests_verdict (SO := toy_spawn_parent) toy_config options0 toy_config None
    None 0 (fun _ _ => true) [at_test t] true true rt t toy_proc "/usr/bin/cheriostest" 7
    tt toy_driver toy_args toy_envs); try reflexivity.
  - right. left.
  - apply toy_shared.
  - apply toy_laid_out.
  - apply toy_vectors_ok.
Defined.
