(* ===== verification/Mappings.v ===== *)
(** * Mappings: arguments of the mapping calls (cheriostest_cheriabi.c, middle part)

    The tests that give munmap, mprotect, minherit and shmdt capabilities that
    do not cover the range of the call, or have no tag, next to valid mappings;
    the tests of the permissions that mprotect restores; mincore, and mmap over
    several entries of the map.

    [MapRules] is what the tests rely on: how a kernel treats a call by the
    capability that it is given.  The theorems say which kernels pass. *)

From S2P Require Import Prelude Printf Cheri Perms Harness Runner Toy RunnerFacts Faults AddrGap Kernel VmTags MmapPerms.

(** What else this part of the file calls. *)
Class MapOS (cap W : Type) := {
  sys_mincore : cap -> Z -> W -> (Z + Z) * W;      (* the vector apart *)
  MAP_ALIGNED : Z -> Z;
  cheri_perm_sw_vmem_defined : bool;               (* #if defined(CHERI_PERM_SW_VMEM) *)
}.

Section Mappings.
Context {cap W : Type} {CH : Cheri cap} {LC : Libc cap W} {KE : Kernel cap W}
  {VC : VmConsts} {VM : VmMap W} {MO : MapOS cap W} {HP : Perms}.
Context (g : config).

(** [p + d] of a [char *]. *)
Definition ptr_add (p : cap) (d : Z) : cap :=
  cheri_address_set p (u64 (cheri_address_get p + d)).

(** ** Three adjacent mappings *)

Record adjacent_mappings := AdjacentMappings {
  am_first : cap;
  am_middle : cap;
  am_last : cap;
  am_maplen : Z;
}.

Definition fixed_flags : Z := Z.lor (Z.lor MAP_ANON MAP_FIXED) MAP_PRIVATE.

(** [CHERIOSTEST_CHECK_SYSCALL2(call, "Failed to create mapping ...", addr)] *)
Definition create_at (call : cap -> W -> (cap + Z) * W) (requested_addr : cap)
    : test cap W cap :=
  CHERIOSTEST_CHECK_SYSCALL2 (sys (call requested_addr))
    "Failed to create mapping at address %p" [APtr requested_addr].

Definition create_adjacent_mappings : test cap W adjacent_mappings :=
  let len := u64 (getpagesize (cap := cap) (W := W) * 2) in
  let map_fixed c := sys_mmap c len PROT_RW fixed_flags (-1) 0 in
  addr ← find_address_space_gap g (u64 (len * 3)) 0;
  first ← CHERIOSTEST_CHECK_SYSCALL (sys (map_fixed (cap_of_int addr)))
    "mmap(requested_addr, len, PROT_READ | PROT_WRITE, MAP_ANON | MAP_FIXED | MAP_PRIVATE, -1, 0)";
  CHERIOSTEST_VERIFY (cheri_tag_get first) "cheri_tag_get(mappings->first)" ;;
  middle ← create_at map_fixed (cap_of_int (u64 (cheri_address_get first + len)));
  CHERIOSTEST_CHECK_EQ_LONG (cheri_address_get middle) (u64 (cheri_address_get first + len))
    "(ptraddr_t)mappings->middle" "(ptraddr_t)mappings->first + len" ;;
  CHERIOSTEST_VERIFY (cheri_tag_get middle) "cheri_tag_get(mappings->middle)" ;;
  last ← create_at map_fixed (cap_of_int (u64 (cheri_address_get middle + len)));
  CHERIOSTEST_CHECK_EQ_LONG (cheri_address_get last) (u64 (cheri_address_get middle + len))
    "(ptraddr_t)mappings->last" "(ptraddr_t)mappings->middle + len" ;;
  CHERIOSTEST_VERIFY (cheri_tag_get last) "cheri_tag_get(mappings->last)" ;;
  mret (AdjacentMappings first middle last len).

Definition free_adjacent_mappings (m : adjacent_mappings) : test cap W unit :=
  _ ← CHERIOSTEST_CHECK_SYSCALL (sys (sys_munmap (am_first m) (am_maplen m)))
        "munmap(mappings->first, mappings->maplen)";
  _ ← CHERIOSTEST_CHECK_SYSCALL (sys (sys_munmap (am_middle m) (am_maplen m)))
        "munmap(mappings->middle, mappings->maplen)";
  _ ← CHERIOSTEST_CHECK_SYSCALL (sys (sys_munmap (am_last m) (am_maplen m)))
        "munmap(mappings->last, mappings->maplen)";
  mret tt.

(** ** The refused calls *)

Definition expected_errno : Z := if is_freebsd g then EPROT else EINVAL.

Definition show_int (r : Z) : string * arg cap := ("%d"%string, AInt r).

(** [p\[0\] = 'a'] *)
Definition poke (p : cap) : test cap W unit := access (mem_store_byte p 0 97).

(** A call that must be refused: its arguments as the source writes them, and
    the mapping whose first byte is written afterwards, if any. *)
Record bad_call := BadCall {
  bc_ptr : cap;
  bc_len : Z;
  bc_text : string;
  bc_poke : cap;
}.

(** The calls of the three tests, in order. *)
Definition bad_calls (m : adjacent_mappings) : list bad_call :=
  let len := am_maplen m in
  [BadCall (am_middle m) (u64 (len * 2)) "mappings.middle, mappings.maplen * 2"
     (am_middle m);
   BadCall (am_middle m) (u64 (len + 1)) "mappings.middle, mappings.maplen + 1"
     (am_middle m);
   BadCall (cheri_tag_clear (am_middle m)) len
     "cheri_tag_clear(mappings.middle), mappings.maplen" (am_middle m);
   BadCall (ptr_add (am_middle m) (- len)) len
     "mappings.middle - mappings.maplen, mappings.maplen" (am_first m);
   BadCall (ptr_add (am_middle m) len) len
     "mappings.middle + mappings.maplen, mappings.maplen" (am_last m)].

(** [CHERIOSTEST_CHECK_CALL_ERROR(fn(args tail), err); p\[0\] = 'a';] *)
Definition refused (fn tail : string) (call : cap -> Z -> W -> (Z + Z) * W) (err : Z)
    (pokes : bool) (c : bad_call) : test cap W unit :=
  CHERIOSTEST_CHECK_CALL_ERROR (sys (call (bc_ptr c) (bc_len c)))
    (fn +:+ "(" +:+ bc_text c +:+ tail +:+ ")") show_int err ;;
  when pokes (poke (bc_poke c)).

Definition cheriabi_munmap_invalid_ptr : cheri_test cap W :=
  CHERIOSTEST "cheriabi_munmap_invalid_ptr"
    "Check that munmap() rejects invalid pointer arguments"
    (m ← create_adjacent_mappings;
     foreach (bad_calls m) (refused "munmap" "" sys_munmap expected_errno true) ;;
     free_adjacent_mappings m ;;
     cheriostest_success).

Definition cheriabi_mprotect_invalid_ptr : cheri_test cap W :=
  CHERIOSTEST "cheriabi_mprotect_invalid_ptr"
    "Check that mprotect() rejects invalid pointer arguments"
    (m ← create_adjacent_mappings;
     foreach (bad_calls m)
       (refused "mprotect" ", PROT_NONE" (fun c n => sys_mprotect c n PROT_NONE)
          expected_errno true) ;;
     _ ← CHERIOSTEST_CHECK_SYSCALL (sys (sys_mprotect (am_middle m) (am_maplen m) PROT_NONE))
           "mprotect(mappings.middle, mappings.maplen, PROT_NONE)";
     _ ← CHERIOSTEST_CHECK_SYSCALL (sys (sys_mprotect (am_middle m) (am_maplen m) PROT_READ))
           "mprotect(mappings.middle, mappings.maplen, PROT_READ)";
     free_adjacent_mappings m ;;
     cheriostest_success).

(** On FreeBSD only. *)
Definition cheriabi_minherit_invalid_ptr : cheri_test cap W :=
  CHERIOSTEST "cheriabi_minherit_invalid_ptr"
    "Check that minherit() rejects invalid pointer arguments"
    (m ← create_adjacent_mappings;
     foreach (bad_calls m)
       (refused "minherit" ", INHERIT_NONE" (fun c n => sys_minherit c n INHERIT_NONE)
          EPROT false) ;;
     _ ← CHERIOSTEST_CHECK_SYSCALL
           (sys (sys_minherit (am_middle m) (am_maplen m) INHERIT_NONE))
           "minherit(mappings.middle, mappings.maplen, INHERIT_NONE)";
     _ ← CHERIOSTEST_CHECK_SYSCALL
           (sys (sys_minherit (am_middle m) (am_maplen m) INHERIT_SHARE))
           "minherit(mappings.middle, mappings.maplen, INHERIT_SHARE)";
     free_adjacent_mappings m ;;
     cheriostest_success).

(** ** System V shared memory *)

Definition create_adjacent_mappings_shm : test cap W adjacent_mappings :=
  let len := u64 (getpagesize (cap := cap) (W := W) * 2) in
  shmid ← CHERIOSTEST_CHECK_SYSCALL (sys (sys_shmget IPC_PRIVATE len 0x180))
            "shmget(IPC_PRIVATE, len, 0600)";
  addr ← find_address_space_gap g (u64 (len * 3)) 0;
  let attach c := sys_shmat shmid c 0 in
  first ← CHERIOSTEST_CHECK_SYSCALL (sys (attach (cap_of_int addr)))
            "shmat(shmid, requested_addr, 0)";
  CHERIOSTEST_VERIFY (cheri_tag_get first) "cheri_tag_get(mappings->first)" ;;
  let requested := u64 (cheri_address_get first + len) in
  middle ← create_at attach (cap_of_int requested);
  CHERIOSTEST_CHECK_EQ_LONG (cheri_address_get middle) (cheri_address_get (cap_of_int requested))
    "(ptraddr_t)mappings->middle" "(ptraddr_t)requested_addr" ;;
  CHERIOSTEST_VERIFY (cheri_tag_get middle) "cheri_tag_get(mappings->middle)" ;;
  let requested := u64 (cheri_address_get middle + len) in
  last ← create_at attach (cap_of_int requested);
  CHERIOSTEST_CHECK_EQ_LONG (cheri_address_get last) (cheri_address_get (cap_of_int requested))
    "(ptraddr_t)mappings->last" "(ptraddr_t)requested_addr" ;;
  CHERIOSTEST_VERIFY (cheri_tag_get last) "cheri_tag_get(mappings->last)" ;;
  mret (AdjacentMappings first middle last len).

Definition free_adjacent_mappings_shm (m : adjacent_mappings) : test cap W unit :=
  _ ← CHERIOSTEST_CHECK_SYSCALL (sys (sys_shmdt (am_first m))) "shmdt(mappings->first)";
  _ ← CHERIOSTEST_CHECK_SYSCALL (sys (sys_shmdt (am_middle m))) "shmdt(mappings->middle)";
  _ ← CHERIOSTEST_CHECK_SYSCALL (sys (sys_shmdt (am_last m))) "shmdt(mappings->last)";
  mret tt.

(** shmdt(2) has no length. *)
Definition bad_shmdt_calls (m : adjacent_mappings) : list bad_call :=
  let len := am_maplen m in
  [BadCall (cheri_tag_clear (am_middle m)) len "cheri_tag_clear(mappings.middle)"
     (am_middle m);
   BadCall (ptr_add (am_middle m) (- len)) len "mappings.middle - mappings.maplen"
     (am_first m);
   BadCall (ptr_add (am_middle m) len) len "mappings.middle + mappings.maplen"
     (am_last m)].

Definition cheriabi_shmdt_invalid_ptr : cheri_test cap W :=
  CHERIOSTEST "cheriabi_shmdt_invalid_ptr"
    "Check that shmdt() rejects invalid pointer arguments"
    (m ← create_adjacent_mappings_shm;
     foreach (bad_shmdt_calls m)
       (refused "shmdt" "" (fun c _ => sys_shmdt c) expected_errno true) ;;
     free_adjacent_mappings_shm m ;;
     cheriostest_success).

(** ** Capability permissions and mprotect *)

Definition map_page (prot : Z) (text : string) : test cap W cap :=
  CHERIOSTEST_CHECK_SYSCALL
    (sys (sys_mmap cap_null getpagesize prot (Z.lor MAP_ANON MAP_PRIVATE) (-1) 0))
    ("mmap(NULL, CHERITEST_PAGE_SIZE, " +:+ text +:+ ", MAP_ANON | MAP_PRIVATE, -1, 0)").

Definition protect_page (p : cap) (prot : Z) (text : string) : test cap W Z :=
  CHERIOSTEST_CHECK_SYSCALL (sys (sys_mprotect p getpagesize prot))
    ("mprotect(__DEVOLATILE(void *, p), CHERITEST_PAGE_SIZE, " +:+ text +:+ ")").

(** [*p = __DEVOLATILE(void *, p)] *)
Definition store_self (p : cap) : test cap W unit := access (mem_store_cap p 0 p).

Definition cheriabi_mprotect_upgrade_prot_cap : cheri_test cap W :=
  CHERIOSTEST "cheriabi_mprotect_upgrade_prot_cap"
    "Check that upgrading from PROT_NONE includes capability permissions"
    (p ← map_page (Z.lor PROT_NONE (PROT_MAX PROT_RW))
           "PROT_NONE | PROT_MAX(PROT_READ | PROT_WRITE)";
     _ ← protect_page p PROT_RW "PROT_READ | PROT_WRITE";
     store_self p ;;
     cheriostest_success).

Definition cheriabi_mprotect_restore_prot_cap : cheri_test cap W :=
  CHERIOSTEST "cheriabi_mprotect_restore_prot_cap"
    "Check that downgrading and then upgrading restores capability permissions"
    (p ← map_page PROT_RW "PROT_READ | PROT_WRITE";
     _ ← protect_page p PROT_NONE "PROT_NONE";
     _ ← protect_page p PROT_RW "PROT_READ | PROT_WRITE";
     store_self p ;;
     cheriostest_success).

(** On FreeBSD only. *)
Definition cheriabi_mprotect_downgrade_prot_cap : cheri_test cap W :=
  with_signal (Z.lor (Z.lor (Z.lor CT_FLAG_SIGNAL CT_FLAG_SI_CODE) CT_FLAG_SI_TRAPNO)
                 CT_FLAG_SI_ADDR)
    (SIGSEGV (cap := cap) (W := W)) SEGV_ACCERR TRAPNO_STORE_PF
    (CHERIOSTEST "cheriabi_mprotect_downgrade_prot_cap"
       "Check that downgrading to PROT_MAX(PROT_READ) includes capability read"
       (p ← map_page PROT_RW "PROT_READ | PROT_WRITE";
        store_self p ;;
        _ ← protect_page p (Z.lor PROT_READ (PROT_MAX PROT_READ))
              "PROT_READ | PROT_MAX(PROT_READ)";
        v ← access (mem_load_cap p 0);
        CHERIOSTEST_VERIFY (cheri_tag_get v) "cheri_tag_get(*p)" ;;
        cheriostest_set_expected_si_addr g (NULL_DERIVED_VOIDP p) ;;
        store_self p ;;
        cheriostest_failure_errx "tagged store succeeded after downgrade" [])).

(** ** mmap over several entries of the map *)

(** Comparing two pointers compares their addresses; [None] is MAP_FAILED. *)
Definition same_pointer (p : cap) (q : option cap) : bool :=
  match q with Some q => cheri_address_get p =? cheri_address_get q | None => false end.

Definition cheriabi_mmap_fixed : cheri_test cap W :=
  CHERIOSTEST "cheriabi_mmap_fixed"
    "Verify that we can MAP_FIXED over multiple vm map entries"
    (p1 ← try_sys (sys_mmap cap_null 0x200000 PROT_RW
            (if is_freebsd g
             then Z.lor (Z.lor MAP_PRIVATE MAP_ANON) (MAP_ALIGNED (cap := cap) (W := W) 21)
             else Z.lor MAP_PRIVATE MAP_ANON) (-1) 0);
     match p1 with
     | None => CHERIOSTEST_VERIFY false "p1 != MAP_FAILED"
     | Some p1 =>
         let flags := Z.lor (Z.lor MAP_PRIVATE MAP_FIXED) MAP_ANON in
         p2 ← try_sys (sys_mmap p1 0x20000 PROT_RW flags (-1) 0);
         CHERIOSTEST_VERIFY (same_pointer p1 p2) "p1 == p2" ;;
         p2 ← try_sys (sys_mmap p1 0x40000 PROT_RW flags (-1) 0);
         CHERIOSTEST_VERIFY (same_pointer p1 p2) "p1 == p2" ;;
         cheriostest_success
     end).

(** ** mincore *)

Definition MINCORE_PAGES : Z := 3.

Definition CHERITEST_CHERI_PERMS_SECOND_RESERVED_BLOCK : Z :=
  if is_zcheri g then ors (map (Z.shiftl 1) [10; 11; 12; 13; 14; 15]) else 0.

(** [EXEC_ONLY], [READ_ONLY] and [WRITE_ONLY] *)
Definition only_perm (p : perm) : Z :=
  if is_aarch64 g then Z.lor (mask p) (mask PGlobal)
  else Z.lor (Z.lor (mask p) (CHERITEST_CHERI_PERMS_FIRST_RESERVED_BLOCK g))
         CHERITEST_CHERI_PERMS_SECOND_RESERVED_BLOCK.

(** A call that must succeed. *)
Definition mincore_ok (c : cap) (len : Z) (msg : string) : test cap W unit :=
  _ ← CHERIOSTEST_CHECK_SYSCALL2 (sys (sys_mincore c len)) msg [];
  mret tt.

Definition EXCEPT_VMEM : Z := Z.lnot CHERI_PERM_SW_VMEM.

(** The calls after the first two: capability, length and message. *)
Definition mincore_calls (pages : cap) : list (cap * Z * string) :=
  let page_sz := getpagesize (cap := cap) (W := W) in
  let pages_len := u64 (page_sz * MINCORE_PAGES) in
  let inner := cheri_bounds_set (ptr_add pages (page_sz - 1))
                 (u64 (pages_len - u64 (2 * (page_sz - 1)))) in
  let c := cheri_address_set inner
             (cheritest_trunc_page page_sz (cheri_address_get inner)) in
  [(cheri_perms_and pages (only_perm PExecute), pages_len,
    "whole allocation from mmap with only CHERI_PERM_EXECUTE");
   (cheri_perms_and pages (only_perm PLoad), pages_len,
    "whole allocation from mmap with only CHERI_PERM_LOAD");
   (cheri_perms_and pages (only_perm PStore), pages_len,
    "whole allocation from mmap with only CHERI_PERM_STORE");
   (c, pages_len, "whole allocation with reduced bounds");
   (c, page_sz, "first page (last byte inbounds)");
   (ptr_add c page_sz, page_sz, "second page (all in bounds)");
   (ptr_add (ptr_add c pages_len) (- page_sz), page_sz, "last page (first byte in bounds)")]%string ++
  (if is_freebsd g then
     [(cheri_offset_set c 0, 1, "last byte of first page");
      (cheri_offset_set c 0, cheri_length_get c, "whole in-bounds region")]%string
   else []).

Definition cheriabi_mincore : cheri_test cap W :=
  CHERIOSTEST "cheriabi_mincore"
    "Test CheriABI mincore() with various permissions and bounds"
    (let pages_len := u64 (getpagesize (cap := cap) (W := W) * MINCORE_PAGES) in
     pages ← CHERIOSTEST_CHECK_SYSCALL
               (sys (sys_mmap cap_null pages_len (Z.lor (PROT_MAX PROT_RWX) PROT_NONE)
                       (Z.lor MAP_ANON MAP_PRIVATE) (-1) 0))
               "mmap(NULL, pages_len, PROT_MAX(PROT_READ | PROT_WRITE | PROT_EXEC) | PROT_NONE, MAP_ANON | MAP_PRIVATE, -1, 0)";
     mincore_ok pages pages_len "whole allocation from mmap" ;;
     (if cheri_perm_sw_vmem_defined (cap := cap) (W := W)
      then mincore_ok (cheri_perms_and pages EXCEPT_VMEM) pages_len
             "whole allocation from mmap without VMEM perm"
      else cheriostest_failure_errx "CHERI_PERM_SW_VMEM is not defined" []) ;;
     foreach (mincore_calls pages) (fun '(c, len, msg) => mincore_ok c len msg) ;;
     cheriostest_success).
End Mappings.

(** ** What a kernel may do with these calls *)

(** A call on the range of a capability. *)
Inductive map_call := CMunmap | CMprotect (prot : Z) | CMinherit (inherit : Z) | CShmdt.

Section Rules.
Context {cap W : Type} {CH : Cheri cap} {LC : Libc cap W} {KE : Kernel cap W}
  {VC : VmConsts} {VM : VmMap W}.

Definition run_call (k : map_call) : cap -> Z -> W -> (Z + Z) * W :=
  match k with
  | CMunmap => sys_munmap
  | CMprotect prot => fun c n => sys_mprotect c n prot
  | CMinherit inherit => fun c n => sys_minherit c n inherit
  | CShmdt => fun c _ => sys_shmdt c
  end.

Definition range (c : cap) (n a : Z) : Prop :=
  cheri_address_get c <= a < cheri_address_get c + n.

(** The addresses that a call takes out of the map. *)
Definition removed (k : map_call) (c : cap) (n a : Z) : Prop :=
  match k with CMunmap | CShmdt => range c n a | _ => False end.

(** The length of a mapping and of a shared memory segment of the tests. *)
Definition adj_len : Z := u64 (getpagesize (cap := cap) (W := W) * 2).

(** A kernel refuses a call by its capability and its length, and then changes
    nothing; a call on mapped addresses that it does not refuse succeeds.
    Mappings are made where the map is free. *)
Class MapRules := {
  rule : map_call -> cap -> Z -> option Z;
  mapped : W -> Z -> Prop;
  writable : W -> cap -> Prop;
  call_refused k c n e w : rule k c n = Some e -> (k = CShmdt -> n = adj_len) -> exists w',
    run_call k c n w = (inr e, w') /\
    (forall a, mapped w a -> mapped w' a) /\ (forall x, writable w x -> writable w' x);
  call_accepted k c n w :
    rule k c n = None -> (k = CShmdt -> n = adj_len) ->
    (forall a, range c n a -> mapped w a) -> exists v w',
    run_call k c n w = (inl v, w') /\
    (forall a, mapped w a -> ~ removed k c n a -> mapped w' a);
  poke_writable c w : writable w c -> exists w',
    mem_store_byte c 0 97 w = (inl tt, w') /\
    (forall a, mapped w a -> mapped w' a) /\ (forall x, writable w x -> writable w' x);
  map_free a w :
    0 < a -> a + adj_len < 2 ^ 64 -> (forall x, a <= x < a + adj_len -> ~ mapped w x) ->
    exists c w', sys_mmap (cap_of_int a) adj_len PROT_RW fixed_flags (-1) 0 w = (inl c, w') /\
      cheri_tag_get c = true /\ cheri_address_get c = a /\
      cheri_base_get c = a /\ cheri_length_get c = adj_len /\
      writable w' c /\ (forall x, writable w x -> writable w' x) /\
      forall x, mapped w' x <-> mapped w x \/ a <= x < a + adj_len;
  shmget_segment w : exists id w', sys_shmget IPC_PRIVATE adj_len 0x180 w = (inl id, w') /\
    (forall x, mapped w' x <-> mapped w x);
  attach_free id a w :
    0 < a -> a + adj_len < 2 ^ 64 -> (forall x, a <= x < a + adj_len -> ~ mapped w x) ->
    exists c w', sys_shmat id (cap_of_int a) 0 w = (inl c, w') /\
      cheri_tag_get c = true /\ cheri_address_get c = a /\
      cheri_base_get c = a /\ cheri_length_get c = adj_len /\
      writable w' c /\ (forall x, writable w x -> writable w' x) /\
      forall x, mapped w' x <-> mapped w x \/ a <= x < a + adj_len;
}.

(** What the search for free address space promises to its callers: from the
    states whose map is that of [w], it returns the start of a free region. *)
Definition gap_promise `{MapRules} (g : config) (len : Z) (s : proc cap W) : Prop :=
  forall s', shared s' -> (forall x, mapped (p_world s') x <-> mapped (p_world s) x) ->
  exists a, find_address_space_gap g len 0 s' = (Val a, s') /\
    0 < a /\ a + len < 2 ^ 64 /\ forall x, a <= x < a + len -> ~ mapped (p_world s') x.
End Rules.

(** ** Which kernels pass *)

Section MapFacts.
Context {cap W : Type} {CH : Cheri cap} {CL : CheriLaws cap} {LC : Libc cap W}
  {KE : Kernel cap W} {VC : VmConsts} {VM : VmMap W} {MR : MapRules (cap := cap) (W := W)}.
Context (g : config).

Abbreviation alen := (adj_len (cap := cap) (W := W)).

(** The promise is kept when the search finds a hole of a map that lists all
    mapped addresses. *)
Lemma hole_keeps_promise (len L k : Z)
    (maps : list vmentry) (s : proc cap W) :
  len <= L -> 0 <= k -> well_mapped (2 ^ k) maps ->
  (forall x, mapped (p_world s) x -> exists m, m ∈ maps /\ kve_start m <= x < kve_end m) ->
  (forall s', shared s' -> (forall x, mapped (p_world s') x <-> mapped (p_world s) x) ->
   exists a, find_address_space_gap g len 0 s' = (Val a, s') /\ hole L (2 ^ k) maps a) ->
  gap_promise g len s.
Proof.
  intros HL Hk [_ Hok] Hmaps Hfind s' Hs' Hw. destruct (Hfind s' Hs' Hw) as (a & Hrun & Hh).
  exists a. split; [done|]. rewrite Forall_forall in Hok.
  assert (0 < 2 ^ k) by (by apply Z.pow_pos_nonneg).
  destruct (hole_lower _ _ _ _ Hh) as (lo & Hlo & Hlo'). destruct (Hok lo Hlo).
  destruct (hole_upper _ _ _ _ Hh) as (up & Hup & Hup'). destruct (Hok up Hup).
  split; [lia|]. split; [lia|]. intros x Hx Hm.
  apply Hw, Hmaps in Hm as (m & Hm & Hxm).
  destruct (hole_free _ _ _ _ Hh m Hm); lia.
Qed.

Definition adjacent (m : adjacent_mappings (cap := cap)) : Prop :=
  am_maplen m = alen /\
  0 < cheri_address_get (am_first m) /\ cheri_address_get (am_first m) + 3 * alen < 2 ^ 64 /\
  cheri_address_get (am_middle m) = cheri_address_get (am_first m) + alen /\
  cheri_address_get (am_last m) = cheri_address_get (am_first m) + 2 * alen /\
  Forall (fun c => cheri_tag_get c = true /\ cheri_base_get c = cheri_address_get c /\
                   cheri_length_get c = alen) [am_first m; am_middle m; am_last m].

(** The addresses of [R] are mapped. *)
Definition holds (R : Z -> Prop) (s : proc cap W) : Prop :=
  shared s /\ forall a, R a -> mapped (p_world s) a.

Definition arena (m : adjacent_mappings (cap := cap)) (a : Z) : Prop :=
  cheri_address_get (am_first m) <= a < cheri_address_get (am_first m) + 3 * alen.

Definition ready (m : adjacent_mappings (cap := cap)) (s : proc cap W) : Prop :=
  holds (arena m) s /\
  Forall (writable (p_world s)) [am_first m; am_middle m; am_last m].

(** A bad call stays in the arena. *)
Definition call_inside (k : map_call) (m : adjacent_mappings) (c : bad_call (cap := cap))
    : Prop :=
  (forall a, range (bc_ptr c) (bc_len c) a -> arena m a) /\
  (k = CShmdt -> bc_len c = alen) /\
  bc_poke c ∈ [am_first m; am_middle m; am_last m].

(** A row of calls that must be refused. *)
Lemma refused_iff {A} k fn tail err pokes l m (kk : test cap W A) (P : Prop) s :
  ready m s -> Forall (call_inside k m) l ->
  (forall s', ready m s' -> (succeeds kk s' <-> P)) ->
  (succeeds (foreach l (refused fn tail (run_call k) err pokes) ;; kk) s <->
   Forall (fun c => rule k (bc_ptr c) (bc_len c) = Some err) l /\ P).
Proof.
  intros Hs Hl Hk. revert s Hs. induction Hl as [|c l (Hin & Hlen & Hpoke) Hl IH]; intros s Hs.
  { cbn [foreach]. rewrite succeeds_ret, Hk by done. split; [by split|tauto]. }
  cbn [foreach]. rewrite succeeds_assoc, Forall_cons.
  change (refused fn tail (run_call k) err pokes c) with
    (CHERIOSTEST_CHECK_CALL_ERROR (sys (run_call k (bc_ptr c) (bc_len c)))
       (fn +:+ "(" +:+ bc_text c +:+ tail +:+ ")") show_int err ;;
     when pokes (poke (W := W) (bc_poke c))).
  rewrite succeeds_assoc.
  destruct Hs as [[Hsh Hmap] Hw].
  destruct (rule k (bc_ptr c) (bc_len c)) as [e|] eqn:Hr.
  - destruct (call_refused k _ _ e (p_world s) Hr Hlen) as (w1 & Hcall & Hm1 & Hw1).
    rewrite (call_error_iff _ _ _ _ _ _ _ _ Hcall).
    set (s1 := set_errno err (set_world w1 s)).
    assert (ready m s1) as Hs1.
    { split; [split; [done|]; intros a Ha; by apply Hm1, Hmap|].
      eapply Forall_impl; [exact Hw|]. intros x. apply Hw1. }
    assert (succeeds (when pokes (poke (bc_poke c)) ≫= (fun a : () =>
              foreach l (refused fn tail (run_call k) err pokes) ≫= (fun _ => kk))) s1 <->
            Forall (fun c => rule k (bc_ptr c) (bc_len c) = Some err) l /\ P) as Hrest.
    { destruct pokes; [|cbn [when]; rewrite succeeds_ret; by apply IH].
      destruct Hs1 as [[Hsh1 Hmap1] Hww1]. rewrite Forall_forall in Hww1.
      destruct (poke_writable (bc_poke c) (p_world s1) (Hww1 _ Hpoke)) as (w2 & Hst & Hm2 & Hw2).
      cbn [when]. unfold poke, succeeds. erewrite run_access by exact Hst. apply IH.
      split; [split; [done|]; intros a Ha; by apply Hm2, Hmap1|].
      apply Forall_forall. intros x Hx. by apply Hw2, Hww1. }
    rewrite Hrest.
    split; intros H; destruct_and!; simplify_eq; done.
  - destruct (call_accepted k _ _ (p_world s) Hr Hlen) as (v & w1 & Hcall & _).
    { intros a Ha. by apply Hmap, Hin. }
    rewrite (call_error_iff _ _ _ _ _ _ _ _ Hcall). split; [by intros [? _]|].
    by intros [[? _] _].
Qed.

(** A call that must be accepted. *)
Lemma valid_iff {A} k c n text (kk : Z -> test cap W A) (R : Z -> Prop) (P : Prop) s :
  holds R s -> (k = CShmdt -> n = alen) -> (forall a, range c n a -> R a) ->
  (forall s' v, holds (fun a => R a /\ ~ removed k c n a) s' -> (succeeds (kk v) s' <-> P)) ->
  (succeeds (CHERIOSTEST_CHECK_SYSCALL (sys (run_call k c n)) text ≫= kk) s <->
   rule k c n = None /\ P).
Proof.
  intros [Hs HR] Hlen Hin Hk. destruct (rule k c n) as [e|] eqn:Hr.
  - destruct (call_refused k _ _ e (p_world s) Hr Hlen) as (w1 & Hcall & _).
    rewrite (check_iff _ _ _ _ _ _ Hcall). split; [by intros (? & ? & _)|by intros [? _]].
  - destruct (call_accepted k _ _ (p_world s) Hr Hlen) as (v & w1 & Hcall & Hm).
    { intros a Ha. by apply HR, Hin. }
    rewrite (check_iff _ _ _ _ _ _ Hcall). split.
    + intros (? & [= <-] & H). split; [done|]. revert H. apply Hk.
      split; [done|]. intros a [Ha Hn]. by apply Hm; [apply HR|].
    + intros [_ H]. exists v. split; [done|]. apply Hk; [|done].
      split; [done|]. intros a [Ha Hn]. by apply Hm; [apply HR|].
Qed.

(** The three mappings are given back one by one. *)
Lemma free_iff {A} k t1 t2 t3 m (kk : test cap W A) (P : Prop) s :
  adjacent m -> holds (arena m) s -> (forall s', shared s' -> (succeeds kk s' <-> P)) ->
  (succeeds ((_ ← CHERIOSTEST_CHECK_SYSCALL (sys (run_call k (am_first m) (am_maplen m))) t1;
              _ ← CHERIOSTEST_CHECK_SYSCALL (sys (run_call k (am_middle m) (am_maplen m))) t2;
              _ ← CHERIOSTEST_CHECK_SYSCALL (sys (run_call k (am_last m) (am_maplen m))) t3;
              mret tt) ;; kk) s <->
   Forall (fun c => rule k c (am_maplen m) = None) [am_first m; am_middle m; am_last m] /\ P).
Proof.
  intros (Hlen & H0 & Htop & Hmid & Hlast & _) Hs Hk.
  rewrite !Forall_cons, Forall_nil, succeeds_assoc. unfold range, removed in *.
  assert (forall c a, range c (am_maplen m) a <-> cheri_address_get c <= a < cheri_address_get c + alen)
    as Hrange by (intros; unfold range; by rewrite Hlen).
  trans (rule k (am_first m) (am_maplen m) = None /\
         rule k (am_middle m) (am_maplen m) = None /\
         rule k (am_last m) (am_maplen m) = None /\ P); [|tauto].
  assert (forall c a, removed k c (am_maplen m) a -> range c (am_maplen m) a) as Hrem
    by (intros c a; by destruct k).
  eapply valid_iff; [exact Hs|by intros ->| |].
  { intros a. rewrite Hrange. unfold arena. lia. }
  intros s1 _ Hs1. rewrite succeeds_assoc. eapply valid_iff; [exact Hs1|by intros ->| |].
  { intros a Ha. split; [|intros Hr%Hrem]; rewrite Hrange in *; [unfold arena|]; lia. }
  intros s2 _ Hs2. rewrite succeeds_assoc. eapply valid_iff; [exact Hs2|by intros ->| |].
  { intros a Ha. split; [split|]; [|intros Hr%Hrem|intros Hr%Hrem];
      rewrite Hrange in *; [unfold arena| |]; lia. }
  intros s3 _ Hs3. rewrite succeeds_ret. apply Hk, Hs3.
Qed.

(** *** The mappings are made *)

Context (Hpage : 0 < alen) (Htotal : 3 * alen < 2 ^ 64).

Lemma verify_true {A} text (kk : test cap W A) s :
  (CHERIOSTEST_VERIFY true text ;; kk) s = kk s.
Proof. done. Qed.

Lemma check_eq_long_refl {A} a b t1 t2 (kk : test cap W A) s :
  a = b -> (CHERIOSTEST_CHECK_EQ_LONG a b t1 t2 ;; kk) s = kk s.
Proof.
  intros ->. unfold CHERIOSTEST_CHECK_EQ_LONG, CHERIOSTEST_CHECK_EQ. by rewrite Z.eqb_refl.
Qed.

Lemma of_int_small (a : Z) : 0 < a < 2 ^ 64 -> cheri_address_get (cap_of_int (cap := cap) a) = a.
Proof. intros Ha. rewrite of_int_address. by apply wrapu_small; lia. Qed.

(** Both ways of making a mapping make it where it is asked for. *)
Definition maker (call : cap -> W -> (cap + Z) * W) : Prop :=
  forall a w, 0 < a -> a + alen < 2 ^ 64 -> (forall x, a <= x < a + alen -> ~ mapped w x) ->
  exists c w', call (cap_of_int a) w = (inl c, w') /\
    cheri_tag_get c = true /\ cheri_address_get c = a /\
    cheri_base_get c = a /\ cheri_length_get c = alen /\
    writable w' c /\ (forall x, writable w x -> writable w' x) /\
    forall x, mapped w' x <-> mapped w x \/ a <= x < a + alen.

(** Three makes in a row. *)
Lemma make_three call a w :
  maker call -> 0 < a -> a + 3 * alen < 2 ^ 64 ->
  (forall x, a <= x < a + 3 * alen -> ~ mapped w x) ->
  exists c1 w1 c2 w2 c3 w3,
    call (cap_of_int a) w = (inl c1, w1) /\
    call (cap_of_int (u64 (cheri_address_get c1 + alen))) w1 = (inl c2, w2) /\
    call (cap_of_int (u64 (cheri_address_get c2 + alen))) w2 = (inl c3, w3) /\
    adjacent (AdjacentMappings c1 c2 c3 alen) /\
    (forall s, shared s -> ready (AdjacentMappings c1 c2 c3 alen) (set_world w3 s)).
Proof.
  intros Hmk H0 Htop Hfree.
  destruct (Hmk a w H0 ltac:(lia)) as (c1 & w1 & Hc1 & T1 & A1 & B1 & L1 & W1 & P1 & M1).
  { intros x Hx. apply Hfree. lia. }
  destruct (Hmk (a + alen) w1)
    as (c2 & w2 & Hc2 & T2 & A2 & B2 & L2 & W2 & P2 & M2); [lia|lia| |].
  { intros x Hx. rewrite M1. intros [Hm|Hm]; [apply (Hfree x); [lia|done]|lia]. }
  destruct (Hmk (a + 2 * alen) w2)
    as (c3 & w3 & Hc3 & T3 & A3 & B3 & L3 & W3 & P3 & M3); [lia|lia| |].
  { intros x Hx. rewrite M2, M1.
    intros [[Hm|Hm]|Hm]; [apply (Hfree x); [lia|done]|lia|lia]. }
  exists c1, w1, c2, w2, c3, w3. rewrite A1, A2. rewrite !wrapu_small by lia.
  replace (a + alen + alen) with (a + 2 * alen) by lia.
  split_and!; try done.
  - unfold adjacent. cbn. rewrite A1, A2, A3. split_and!; try done; try lia.
    rewrite !Forall_cons, Forall_nil, A1, A2, A3. split_and!; done.
  - intros s Hs. split; [split; [done|]|].
    + intros x Hx. unfold arena in Hx. cbn in *. rewrite A1 in Hx. rewrite M3, M2, M1. lia.
    + cbn. rewrite !Forall_cons, Forall_nil. split_and!; auto.
Qed.

(** The result of a call, without the address that the message reports. *)
Lemma create_adjacent_run s :
  gap_promise g (u64 (alen * 3)) s -> shared s ->
  exists m s', create_adjacent_mappings g s = (Val m, s') /\ adjacent m /\ ready m s'.
Proof.
  intros Hgap Hs. rewrite (wrapu_small 64 (alen * 3)) in Hgap by lia.
  destruct (Hgap s Hs) as (a & Hrun & H0 & Htop & Hfree); [done|].
  destruct (make_three (fun c => sys_mmap c alen PROT_RW fixed_flags (-1) 0) a (p_world s))
    as (c1 & w1 & c2 & w2 & c3 & w3 & H1 & H2 & H3 & Hadj & Hready).
  { intros a' w. apply map_free. }
  { done. } { lia. } { intros x Hx. apply Hfree. lia. }
  pose proof Hadj as (_ & Hf0 & Hft & Hmid & Hlast & Hcaps). cbn in Hf0, Hft, Hmid, Hlast.
  rewrite !Forall_cons in Hcaps.
  destruct Hcaps as ((T1 & _) & (T2 & _) & (T3 & _) & _). cbn in T1, T2, T3.
  exists (AdjacentMappings c1 c2 c3 alen), (set_world w3 s). split; [|split; [done|]].
  - unfold create_adjacent_mappings. fold alen. rewrite (wrapu_small 64 (alen * 3)) by lia.
    erewrite test_bind by (replace (alen * 3) with (alen * 3) by done; exact Hrun).
    erewrite run_check by exact H1. rewrite T1, verify_true.
    unfold create_at. erewrite run_check2 by exact H2.
    rewrite check_eq_long_refl, T2, verify_true
      by (rewrite Hmid, wrapu_small by lia; done).
    erewrite run_check2 by exact H3.
    rewrite check_eq_long_refl, T3, verify_true; [done|].
    rewrite Hmid, Hlast, wrapu_small by lia. lia.
  - by apply Hready.
Qed.

Lemma create_adjacent_shm_run s :
  gap_promise g (u64 (alen * 3)) s -> shared s ->
  exists m s', create_adjacent_mappings_shm g s = (Val m, s') /\ adjacent m /\ ready m s'.
Proof.
  intros Hgap Hs. rewrite (wrapu_small 64 (alen * 3)) in Hgap by lia.
  destruct (shmget_segment (p_world s)) as (id & w0 & Hget & Hm0).
  destruct (Hgap (set_world w0 s) Hs Hm0) as (a & Hrun & H0 & Htop & Hfree).
  destruct (make_three (fun c => sys_shmat id c 0) a w0)
    as (c1 & w1 & c2 & w2 & c3 & w3 & H1 & H2 & H3 & Hadj & Hready).
  { intros a' w. apply attach_free. }
  { done. } { lia. } { intros x Hx. apply Hfree. lia. }
  pose proof Hadj as (_ & Hf0 & Hft & Hmid & Hlast & Hcaps). cbn in Hf0, Hft, Hmid, Hlast.
  rewrite !Forall_cons in Hcaps.
  destruct Hcaps as ((T1 & _) & (T2 & _) & (T3 & _) & _). cbn in T1, T2, T3.
  exists (AdjacentMappings c1 c2 c3 alen), (set_world w3 s). split; [|split; [done|]].
  - unfold create_adjacent_mappings_shm. fold alen. rewrite (wrapu_small 64 (alen * 3)) by lia.
    erewrite run_check by exact Hget. erewrite test_bind by exact Hrun.
    erewrite run_check by exact H1. rewrite T1, verify_true.
    unfold create_at. erewrite run_check2 by exact H2.
    rewrite check_eq_long_refl, T2, verify_true
      by (rewrite Hmid, !wrapu_small, of_int_small by lia; done).
    erewrite run_check2 by exact H3.
    rewrite check_eq_long_refl, T3, verify_true; [done|].
    rewrite Hmid, Hlast, !wrapu_small, of_int_small by lia. lia.
  - by apply Hready.
Qed.

(** *** The bad calls *)

Lemma ptr_add_address (c : cap) d :
  0 <= cheri_address_get c + d < 2 ^ 64 ->
  cheri_address_get (ptr_add c d) = cheri_address_get c + d.
Proof.
  intros H. unfold ptr_add. rewrite address_set_address, wrapu_idemp by lia.
  by apply wrapu_small.
Qed.

Lemma bad_calls_inside k m :
  adjacent m -> k ≠ CShmdt -> Forall (call_inside k m) (bad_calls m).
Proof.
  intros (Hlen & H0 & Htop & Hmid & Hlast & _) Hk. unfold bad_calls.
  rewrite !Forall_cons, Forall_nil. unfold call_inside, range, arena.
  cbn [bc_ptr bc_len bc_poke].
  rewrite ?Hlen, ?wrapu_small, ?tag_clear_address, ?ptr_add_address by lia.
  split_and!; try done; try (intros; lia); set_solver.
Qed.

Lemma bad_shmdt_inside m : adjacent m -> Forall (call_inside CShmdt m) (bad_shmdt_calls m).
Proof.
  intros (Hlen & H0 & Htop & Hmid & Hlast & _). unfold bad_shmdt_calls.
  rewrite !Forall_cons, Forall_nil. unfold call_inside, range, arena.
  cbn [bc_ptr bc_len bc_poke].
  rewrite ?Hlen, ?wrapu_small, ?tag_clear_address, ?ptr_add_address by lia.
  split_and!; try done; try (intros; lia); set_solver.
Qed.

(** The capability has authority over the range of the call. *)
Definition covers (c : cap) (n : Z) : bool :=
  cheri_tag_get c && (cheri_base_get c <=? cheri_address_get c) &&
  (cheri_address_get c + n <=? cheri_base_get c + cheri_length_get c).

(** The rule of a CHERI kernel. *)
Definition capability_rule (err : Z) : Prop :=
  forall k c n, rule k c n = if covers c n then None else Some err.

Lemma bad_not_covered m c :
  adjacent m -> c ∈ bad_calls m ++ bad_shmdt_calls m -> covers (bc_ptr c) (bc_len c) = false.
Proof.
  intros (Hlen & H0 & Htop & Hmid & Hlast & Hcaps) Hc. rewrite !Forall_cons in Hcaps.
  destruct Hcaps as (_ & (_ & Hb & Hl) & _). unfold bad_calls, bad_shmdt_calls in Hc.
  cbn [app] in Hc. rewrite !elem_of_cons, elem_of_nil in Hc. unfold covers.
  apply not_true_iff_false. rewrite !andb_true_iff, !Z.leb_le. intros [[Ht Hge] Htop'].
  assert (forall d, (d = alen \/ d = - alen) ->
    ~ (cheri_tag_get (ptr_add (am_middle m) d) = true /\
       cheri_base_get (ptr_add (am_middle m) d) <= cheri_address_get (ptr_add (am_middle m) d) /\
       cheri_address_get (ptr_add (am_middle m) d) + alen
       <= cheri_base_get (ptr_add (am_middle m) d) + cheri_length_get (ptr_add (am_middle m) d)))
    as Hadd.
  { intros d Hd (Ht' & Hge' & Hle'). rewrite !ptr_add_address in * by lia.
    destruct (address_set_bounds _ _ Ht') as [Hb' Hl']. unfold ptr_add in *.
    rewrite Hb', ?Hl', Hb, ?Hl in *. lia. }
  rewrite Hlen in *.
  destruct Hc as [-> | [-> | [-> | [-> | [-> | [-> | [-> | [-> | []]]]]]]]]; cbn in *;
    rewrite ?wrapu_small in * by lia; rewrite ?tag_clear_tag in *; try done; try lia;
    first [by apply (Hadd alen); auto | by apply (Hadd (- alen)); auto].
Qed.

(** The calls of [l] are refused with [err]. *)
Definition refuses (k : map_call) (err : Z) (l : list (bad_call (cap := cap))) : Prop :=
  Forall (fun c => rule k (bc_ptr c) (bc_len c) = Some err) l.

Definition accepts (k : map_call) (m : adjacent_mappings (cap := cap)) : Prop :=
  Forall (fun c => rule k c (am_maplen m) = None) [am_first m; am_middle m; am_last m].

Lemma success_iff s :
  shared s -> succeeds (cheriostest_success (A := unit) (cap := cap) (W := W)) s <-> True.
Proof. intros Hs. split; [done|]. intros _. by apply succeeds_success. Qed.

(** The middle of the tests of mprotect and minherit: two calls on the middle
    mapping that must succeed, before the three are unmapped. *)
Lemma valid_pair_iff k1 k2 t1 t2 m s :
  adjacent m -> ready m s -> k1 ≠ CShmdt -> k2 ≠ CShmdt ->
  (forall c n a, ~ removed k1 c n a) -> (forall c n a, ~ removed k2 c n a) ->
  (succeeds (_ ← CHERIOSTEST_CHECK_SYSCALL (sys (run_call k1 (am_middle m) (am_maplen m))) t1;
             _ ← CHERIOSTEST_CHECK_SYSCALL (sys (run_call k2 (am_middle m) (am_maplen m))) t2;
             free_adjacent_mappings m ;; (cheriostest_success : test cap W unit)) s <->
   (rule k1 (am_middle m) (am_maplen m) = None /\ rule k2 (am_middle m) (am_maplen m) = None) /\
   accepts CMunmap m).
Proof.
  intros Hadj [Hs _] Hk1 Hk2 Hr1 Hr2.
  trans (rule k1 (am_middle m) (am_maplen m) = None /\
         rule k2 (am_middle m) (am_maplen m) = None /\ accepts CMunmap m); [|tauto].
  assert (forall a, range (am_middle m) (am_maplen m) a -> arena m a) as Hin.
  { destruct Hadj as (Hlen & H0 & Htop & Hmid & _). intros a. unfold range, arena.
    rewrite Hlen. lia. }
  eapply valid_iff; [exact Hs|done|done|]. intros s1 _ Hs1.
  eapply valid_iff; [exact Hs1|done|by intros a Ha; split; auto|]. intros s2 _ Hs2.
  trans (accepts CMunmap m /\ True); [|tauto].
  apply (free_iff CMunmap); [done| |exact success_iff].
  destruct Hs2 as [Hsh Hm]. split; [done|]. intros a Ha. apply Hm. split; [split|]; auto.
Qed.

Lemma rule_passes m :
  capability_rule (expected_errno g) -> adjacent m ->
  (forall k, refuses k (expected_errno g) (bad_calls m)) /\
  (forall k, refuses k (expected_errno g) (bad_shmdt_calls m)) /\
  (forall k, accepts k m) /\ (forall k, rule k (am_middle m) (am_maplen m) = None).
Proof.
  intros Hrule Hadj.
  assert (forall k, accepts k m) as Hacc.
  { intros k. destruct Hadj as (Hlen & _ & _ & _ & _ & Hcaps). unfold accepts.
    eapply Forall_impl; [exact Hcaps|]. intros c (Ht & Hb & Hl). rewrite Hrule, Hlen.
    unfold covers. rewrite Ht, Hb, Hl, !(proj2 (Z.leb_le _ _)) by lia. done. }
  split_and!; try done.
  - intros k. apply Forall_forall. intros c Hc.
    by rewrite Hrule, (bad_not_covered m) by (try apply elem_of_app; auto).
  - intros k. apply Forall_forall. intros c Hc.
    by rewrite Hrule, (bad_not_covered m) by (try apply elem_of_app; auto).
  - intros k. specialize (Hacc k). unfold accepts in Hacc. rewrite !Forall_cons in Hacc. tauto.
Qed.

(** C32: given a kernel that refuses calls by their capability and length, and
    the promise of the search for free address space, the four tests end with
    three adjacent mappings, and each of them passes exactly when the kernel
    refuses every bad call of its table with the expected error number and
    accepts the valid calls.  A kernel that refuses exactly the calls whose
    capability does not cover the range passes all of them. *)
Theorem invalid_ptr_verdict (s : proc cap W) :
  gap_promise g (u64 (alen * 3)) s -> shared s ->
  (exists m, adjacent m /\
     (succeeds (ct_func (cheriabi_munmap_invalid_ptr g)) s <->
      refuses CMunmap (expected_errno g) (bad_calls m) /\ accepts CMunmap m) /\
     (succeeds (ct_func (cheriabi_mprotect_invalid_ptr g)) s <->
      refuses (CMprotect PROT_NONE) (expected_errno g) (bad_calls m) /\
      (rule (CMprotect PROT_NONE) (am_middle m) (am_maplen m) = None /\
       rule (CMprotect PROT_READ) (am_middle m) (am_maplen m) = None) /\ accepts CMunmap m) /\
     (succeeds (ct_func (cheriabi_minherit_invalid_ptr g)) s <->
      refuses (CMinherit INHERIT_NONE) EPROT (bad_calls m) /\
      (rule (CMinherit INHERIT_NONE) (am_middle m) (am_maplen m) = None /\
       rule (CMinherit INHERIT_SHARE) (am_middle m) (am_maplen m) = None) /\
      accepts CMunmap m)) /\
  (exists m, adjacent m /\
     (succeeds (ct_func (cheriabi_shmdt_invalid_ptr g)) s <->
      refuses CShmdt (expected_errno g) (bad_shmdt_calls m) /\ accepts CShmdt m)) /\
  (capability_rule (expected_errno g) ->
   succeeds (ct_func (cheriabi_munmap_invalid_ptr g)) s /\
   succeeds (ct_func (cheriabi_mprotect_invalid_ptr g)) s /\
   (is_freebsd g = true -> succeeds (ct_func (cheriabi_minherit_invalid_ptr g)) s) /\
   succeeds (ct_func (cheriabi_shmdt_invalid_ptr g)) s).
Proof.
  intros Hgap Hs.
  destruct (create_adjacent_run s Hgap Hs) as (m & s1 & Hrun & Hadj & Hready).
  destruct (create_adjacent_shm_run s Hgap Hs) as (m' & s1' & Hrun' & Hadj' & Hready').
  assert (succeeds (ct_func (cheriabi_munmap_invalid_ptr g)) s <->
          refuses CMunmap (expected_errno g) (bad_calls m) /\ accepts CMunmap m) as H1.
  { unfold cheriabi_munmap_invalid_ptr, CHERIOSTEST. cbn [ct_func].
    rewrite (succeeds_bind _ _ _ _ _ Hrun).
    apply (refused_iff CMunmap _ _ _ _ _ m); [done|by apply bad_calls_inside|]. intros s2 [Hs2 _].
    trans (accepts CMunmap m /\ True); [|tauto].
    apply (free_iff CMunmap); [done|done|exact success_iff]. }
  assert (succeeds (ct_func (cheriabi_mprotect_invalid_ptr g)) s <->
      refuses (CMprotect PROT_NONE) (expected_errno g) (bad_calls m) /\
      (rule (CMprotect PROT_NONE) (am_middle m) (am_maplen m) = None /\
       rule (CMprotect PROT_READ) (am_middle m) (am_maplen m) = None) /\ accepts CMunmap m)
    as H2.
  { unfold cheriabi_mprotect_invalid_ptr, CHERIOSTEST. cbn [ct_func].
    rewrite (succeeds_bind _ _ _ _ _ Hrun).
    apply (refused_iff (CMprotect PROT_NONE) _ _ _ _ _ m); [done|by apply bad_calls_inside|].
    intros s2 Hs2. by apply (valid_pair_iff (CMprotect PROT_NONE) (CMprotect PROT_READ)); auto. }
  assert (succeeds (ct_func (cheriabi_minherit_invalid_ptr g)) s <->
      refuses (CMinherit INHERIT_NONE) EPROT (bad_calls m) /\
      (rule (CMinherit INHERIT_NONE) (am_middle m) (am_maplen m) = None /\
       rule (CMinherit INHERIT_SHARE) (am_middle m) (am_maplen m) = None) /\
      accepts CMunmap m) as H3.
  { unfold cheriabi_minherit_invalid_ptr, CHERIOSTEST. cbn [ct_func].
    rewrite (succeeds_bind _ _ _ _ _ Hrun).
    apply (refused_iff (CMinherit INHERIT_NONE) _ _ _ _ _ m); [done|by apply bad_calls_inside|].
    intros s2 Hs2. by apply (valid_pair_iff (CMinherit INHERIT_NONE) (CMinherit INHERIT_SHARE)); auto. }
  assert (succeeds (ct_func (cheriabi_shmdt_invalid_ptr g)) s <->
      refuses CShmdt (expected_errno g) (bad_shmdt_calls m') /\ accepts CShmdt m') as H4.
  { unfold cheriabi_shmdt_invalid_ptr, CHERIOSTEST. cbn [ct_func].
    rewrite (succeeds_bind _ _ _ _ _ Hrun').
    apply (refused_iff CShmdt _ _ _ _ _ m'); [done|by apply bad_shmdt_inside|]. intros s2 [Hs2 _].
    trans (accepts CShmdt m' /\ True); [|tauto].
    apply (free_iff CShmdt); [done|done|exact success_iff]. }
  split; [by exists m|]. split; [by exists m'|]. intros Hrule.
  destruct (rule_passes m Hrule Hadj) as (Hbad & _ & Hacc & Hmid).
  destruct (rule_passes m' Hrule Hadj') as (_ & Hbad' & Hacc' & _).
  rewrite H1, H2, H3, H4. unfold expected_errno in *.
  split_and!; try done; intros Hf; rewrite ?Hf in *; split_and!; auto.
Qed.
End MapFacts.

(** ** A concrete kernel with the capability rule *)

Record mworld := MWorld { mw_mapped : Z -> bool }.

Definition in_range (a n x : Z) : bool := (a <=? x) && (x <? a + n).

Definition mw_map (c : scap) (n : Z) (w : mworld) : (scap + Z) * mworld :=
  (inl (SCap true (sc_addr c) (sc_addr c) n 0 (-1)),
   MWorld (fun x => mw_mapped w x || in_range (sc_addr c) n x)).

(** A checked call, that takes [n] bytes out of the map if [rm]. *)
Definition mw_call (rm : bool) (c : scap) (n : Z) (len : Z) (w : mworld)
    : (Z + Z) * mworld :=
  if covers c n
  then (inl 0, if rm then MWorld (fun x => mw_mapped w x && negb (in_range (u64 (sc_addr c)) len x))
               else w)
  else (inr 22, w).

#[export] Instance mworld_kernel : Kernel scap mworld := {|
  getpagesize := 4096;
  sys_mmap c len _ _ _ _ w := mw_map c len w;
  sys_munmap c n w := mw_call true c n n w;
  sys_mprotect c n _ w := mw_call false c n n w;
  sys_minherit c n _ w := mw_call false c n n w;
  sys_shmget _ _ _ w := (inl 5, w);
  sys_shmat _ c _ w := mw_map c 8192 w;
  sys_shmdt c w := mw_call true c 8192 8192 w;
  sys_shm_open _ _ _ w := (inl 3, w);
  sys_shm_unlink _ w := (inl 0, w);
  sys_memfd_create _ _ w := (inl 3, w);
  sys_open _ _ w := (inl 3, w);
  sys_mkstemp t w := (inl (3, t), w);
  sys_unlink _ w := (inl 0, w);
  sys_ftruncate _ _ w := (inl 0, w);
  sys_close _ w := (inl 0, w);
  os_random w := (7, w);
  mem_load_cap c _ w := (inl c, w);
  mem_store_cap _ _ _ w := (inl tt, w);
  mem_store_byte _ _ _ w := (inl tt, w);
  stack_local size := toy_cap 0x7000 size 0 0;
|}.

Definition toy_lines : list string :=
  ["00010000-00012000 r-xp 0"; "00014000-00020000 rw-p 0"; "00030000-31000 rw-p 0"].

#[export] Instance mworld_vm_map : VmMap mworld := {|
  procstat_open_sysctl _ := true;
  procstat_getprocs _ := Some 1;
  procstat_getvmmap _ := Some toy_maps;
  proc_self_maps _ := inr toy_lines;
  malloc_vma_attr _ _ := true;
|}.

Definition toy_rule (k : map_call) (c : scap) (n : Z) : option Z :=
  if covers c n then None else Some 22.

Lemma toy_map_spec (a : Z) (w : mworld) :
  0 < a -> a + 8192 < 2 ^ 64 ->
  exists c w', mw_map (cap_of_int a) 8192 w = (inl c, w') /\
    cheri_tag_get c = true /\ cheri_address_get c = a /\
    cheri_base_get c = a /\ cheri_length_get c = 8192 /\ True /\
    (forall x : scap, True -> True) /\
    forall x, mw_mapped w' x = true <-> mw_mapped w x = true \/ a <= x < a + 8192.
Proof.
  intros Ha Htop. eexists _, _. split; [reflexivity|]. cbn.
  rewrite (wrapu_small 64 a) by lia. rewrite (wrapu_small 64 a) by lia.
  split_and!; try done. intros x. rewrite ?(wrapu_small 64 a) by lia.
  unfold in_range. rewrite orb_true_iff, andb_true_iff, Z.leb_le, Z.ltb_lt. tauto.
Qed.

#[export] Instance mworld_rules : MapRules (cap := scap) (W := mworld).
Proof.
  refine {| rule := toy_rule; mapped w x := mw_mapped w x = true; writable _ _ := True |}.
  - intros k c n e w Hr Hlen. exists w. split; [|done]. unfold toy_rule in Hr.
    destruct k; simpl; unfold mw_call; try (by destruct (covers _ _); simplify_eq).
    rewrite (Hlen eq_refl) in Hr. change adj_len with 8192 in Hr.
    by destruct (covers _ _); simplify_eq.
  - intros k c n w Hr Hlen _. unfold toy_rule in Hr.
    destruct (covers _ _) eqn:Hc; [|done]. exists 0.
    destruct k; try (rewrite (Hlen eq_refl) in *; change adj_len with 8192 in * );
      simpl; unfold mw_call; rewrite ?Hc; (eexists; split; [reflexivity|]);
      intros a Ha Hn; simpl in *; try done; rewrite Ha; simpl;
      apply negb_true_iff, not_true_iff_false; unfold in_range, range in *; simpl in Hn; lia.
  - intros c w _. by exists w.
  - intros a w Ha Htop _. by apply toy_map_spec.
  - intros w. by eexists _, _.
  - intros id a w Ha Htop _. by apply toy_map_spec.
Defined.

Definition toy_mapped (x : Z) : bool :=
  existsb (fun m => in_range (kve_start m) (kve_end m - kve_start m) x) toy_maps.

Definition mworld_proc : proc scap mworld :=
  Proc (Some child_state_zero) 0 ∅ "" "" 0 (MWorld toy_mapped).

Lemma toy_well_mapped1 : well_mapped (2 ^ 0) toy_maps.
Proof. split; repeat constructor; vm_compute; congruence. Qed.

Lemma mworld_promise : gap_promise toy_config 24576 mworld_proc.
Proof.
  apply (hole_keeps_promise toy_config 24576 24576 0 toy_maps).
  - done.
  - done.
  - apply toy_well_mapped1.
  - intros x Hx. simpl in Hx. unfold toy_mapped in Hx. apply existsb_exists in Hx as (m & Hm & Hx).
    exists m. split; [by apply list_elem_of_In|]. unfold in_range in Hx. lia.
  - intros s' Hs' _.
    destruct (linux_search_run (VM := mworld_vm_map) toy_config 24576 0 24576 0 toy_maps toy_lines s' eq_refl eq_refl)
      as [(a & Hrun & _ & Hh & _)|[_ Hno]]; try done.
    + constructor; [exists 3%nat, 3%nat, "r-xp 0"%string; reflexivity|].
      constructor; [exists 3%nat, 3%nat, "rw-p 0"%string; reflexivity|].
      constructor; [exists 3%nat, 0%nat, "rw-p 0"%string; reflexivity|constructor].
    + apply toy_well_mapped1.
    + by exists a.
    + destruct (Hno 0x20000). split; [reflexivity| | |].
      * intros m Hm. unfold toy_maps in Hm. rewrite !elem_of_cons, elem_of_nil in Hm.
        destruct Hm as [-> | [-> | [-> | []]]]; simpl; lia.
      * exists (VmEntry 0x10000 0x12000). split; [left|simpl; lia].
      * exists (VmEntry 0x30000 0x31000). split; [right; right; left|simpl; lia].
Defined.

Lemma invalid_ptr_verdict_witness :
  succeeds (ct_func (cheriabi_munmap_invalid_ptr toy_config)) mworld_proc /\
  succeeds (ct_func (cheriabi_mprotect_invalid_ptr toy_config)) mworld_proc /\
  (is_freebsd toy_config = true ->
   succeeds (ct_func (cheriabi_minherit_invalid_ptr toy_config)) mworld_proc) /\
  succeeds (ct_func (cheriabi_shmdt_invalid_ptr toy_config)) mworld_proc.
Proof.
  destruct (invalid_ptr_verdict (MR := mworld_rules) toy_config ltac:(reflexivity) ltac:(reflexivity)
    mworld_proc mworld_promise ltac:(by eexists)) as (_ & _ & H).
  apply H. intros k c n. reflexivity.
Defined.
