(* ===== verification/Reservations.v ===== *)
(** * Reservations: hints, reservations and padding (cheriostest_vm.c, purecap part)

    A CHERI kernel keeps, for every mmap(2), a reservation of the address space
    whose bounds a capability can have.  The tests here call mmap with hints of
    every kind (null-derived, untagged, with and without the permission to remap,
    left over from a reservation that is gone) and look at the result; others
    look at the alignment, the length and the padding of a mapping whose length no
    capability has.

    [ResvRules] is a kernel described by a table of answers, [policy]; the
    theorems say which entries of the table each test checks. *)

From S2P Require Import Prelude Printf Cheri Perms Harness Runner Toy Registers RunnerFacts Faults AddrGap Kernel VmTags MmapPerms Mappings.

(** What else these tests and the skip functions of cheriostest_util.c use. *)
Class ResvOS (cap W : Type) := {
  mem_load_int : cap -> W -> (Z + siginfo cap) * W;
  cheri_pcc_get : cap;
  test_bufferp : cap;                      (* the global of that name *)
  CHERI_ALIGN_SHIFT : Z -> Z;
  feature_present : string -> W -> bool;
  sysctl_runtime_revocation_default : W -> Z + Z;
  sysctl_quarantine_unmapped : W -> Z + Z; (* a uint8_t, or errno *)
  cheri_revoke_get_shadow_info : W -> (Z + Z) * W;
  ENOENT : Z;
}.

Section Reservations.
Context {cap W : Type} {CH : Cheri cap} {LC : Libc cap W} {KE : Kernel cap W}
  {VC : VmConsts} {VM : VmMap W} {HP : Perms} {MO : MapOS cap W} {RV : ResvOS cap W}.
Context (g : config).

(** ** Skipping where revocation is missing (cheriostest_util.c) *)

Definition REVOCATION_IS_NOT_SUPPORTED_MSG : string := "Revocation is not supported".

Definition skip_need_cheri_revoke (name : string) (w : W) : option string * W :=
  (if is_freebsd g then
     if feature_present (cap := cap) "cheri_revoke" w then None
     else Some "Kernel does not support revocation"%string
   else Some REVOCATION_IS_NOT_SUPPORTED_MSG, w).

Definition skip_need_default_cheri_revoke (name : string) (w : W) : option string * W :=
  (if is_freebsd g then
     match sysctl_runtime_revocation_default (cap := cap) w with
     | inr _ => Some "System does not support revocation"%string
     | inl value => if value =? 0 then Some "System disables revocation"%string else None
     end
   else Some REVOCATION_IS_NOT_SUPPORTED_MSG, w).

(** ** Helpers *)

Definition page : Z := getpagesize (cap := cap) (W := W).

(** The loop of [cheriabi_mmap_unrepresentable]; [None]: it leaves the int. *)
Definition get_unrepresentable_length : option Z :=
  shortest_unrepresentable (cap := cap) (W := W) 32 0.

(** [map = mmap(...); VERIFY2(map == MAP_FAILED, m1); VERIFY2(errno == e, m2)] *)
Definition must_fail (call : W -> (cap + Z) * W) (e : Z) (m1 m2 : string)
    : test cap W unit :=
  map ← try_sys call;
  CHERIOSTEST_VERIFY2 (match map with None => true | Some _ => false end) m1 [] ;;
  errno ← gets p_errno;
  CHERIOSTEST_VERIFY2 (errno =? e) m2 [AInt errno].

(** [CHERIOSTEST_CHECK_SYSCALL(mmap(...))], then [VERIFY2(tag, msg)]. *)
Definition map_tagged (hint : cap) (len prot flags : Z) (text msg : string)
    : test cap W cap :=
  map ← CHERIOSTEST_CHECK_SYSCALL (sys (sys_mmap hint len prot flags (-1) 0)) text;
  CHERIOSTEST_VERIFY2 (cheri_tag_get map) msg [] ;;
  mret map.

Definition fixed_anon : Z := Z.lor (anon_flags g) MAP_FIXED.
Definition fixed_private : Z := Z.lor (Z.lor MAP_ANON MAP_FIXED) MAP_PRIVATE.

(** The reservation of three pages without access. *)
Definition map_guard : test cap W cap :=
  if is_freebsd g
  then map_tagged cap_null (3 * page) (PROT_MAX PROT_RW) MAP_GUARD
         "mmap(NULL, 3 * CHERITEST_PAGE_SIZE, PROT_MAX(PROT_READ | PROT_WRITE), MAP_GUARD, -1, 0)"
         "mmap failed to return valid capability"
  else map_tagged cap_null (3 * page) (Z.lor PROT_NONE (PROT_MAX PROT_RW))
         (Z.lor MAP_ANON MAP_PRIVATE)
         "mmap(NULL, 3 * CHERITEST_PAGE_SIZE, PROT_NONE | PROT_MAX(PROT_READ | PROT_WRITE), MAP_ANON | MAP_PRIVATE, -1, 0)"
         "mmap failed to return valid capability".

Definition vmem_check (map : cap) : test cap W unit :=
  CHERIOSTEST_VERIFY2 (flag_set (cheri_perms_get map) CHERI_PERM_SW_VMEM)
    "mmap failed to return capability with VMEM perm" [].

(** An untagged hint that is not null-derived. *)
Definition invalid_hint : cap :=
  cheri_tag_clear (cheri_address_set (cheri_pcc_get (W := W)) 0x4300beef).

Definition invalid_msg : string := "mmap with invalid capability succeeded".
Definition invalid_errno_msg : string :=
  "mmap with invalid capability failed with %d instead of EINVAL".

(** ** The tests of hints *)

Definition vm_sw_perm_on_capreloc : cheri_test cap W :=
  CHERIOSTEST "vm_sw_perm_on_capreloc"
    "Check that the SW_VMEM permission is not present on globals."
    (CHERIOSTEST_VERIFY (cheri_tag_get (test_bufferp (W := W))) "cheri_tag_get(test_bufferp)" ;;
     CHERIOSTEST_VERIFY
       (negb (flag_set (cheri_perms_get (test_bufferp (W := W))) CHERI_PERM_SW_VMEM))
       "(cheri_perms_get(test_bufferp) & CHERI_PERM_SW_VMEM) == 0" ;;
     cheriostest_success).

Definition vm_reservation_reuse : cheri_test cap W :=
  CHERIOSTEST "vm_reservation_reuse"
    "check that we can not remap over a partially-unmapped reservation"
    (map ← map_tagged cap_null (page * 2) PROT_RW (anon_flags g)
             "mmap(NULL, CHERITEST_PAGE_SIZE * 2, PROT_READ | PROT_WRITE, flags, -1, 0)"
             "mmap() failed to return a pointer";
     _ ← CHERIOSTEST_CHECK_SYSCALL (sys (sys_munmap (ptr_add map page) page))
           "munmap((char *)map + CHERITEST_PAGE_SIZE, CHERITEST_PAGE_SIZE)";
     map2 ← try_sys (sys_mmap (cap_of_int (u64 (cheri_address_get map + page))) (page * 2)
                       PROT_RW fixed_anon (-1) 0);
     match map2 with
     | None =>
         errno ← gets p_errno;
         CHERIOSTEST_VERIFY2 (errno =? ENOMEM) "Unexpected errno %d instead of ENOMEM"
           [AInt errno] ;;
         cheriostest_success
     | Some _ => cheriostest_failure_errx "mmap over reservation succeeded" []
     end).

(** The flags of this test are MAP_ANON alone on both systems. *)
Definition vm_mmap_invalid_cap : cheri_test cap W :=
  CHERIOSTEST "vm_mmap_invalid_cap"
    "check that mmap with invalid capability hint fails"
    (must_fail (sys_mmap invalid_hint page PROT_RW MAP_ANON (-1) 0) EINVAL
       invalid_msg invalid_errno_msg ;;
     cheriostest_success).

Definition vm_mmap_invalid_cap_fixed : cheri_test cap W :=
  CHERIOSTEST "vm_mmap_invalid_cap_fixed"
    "check that mmap MAP_FIXED with invalid capability hint fails"
    (must_fail (sys_mmap invalid_hint page PROT_RW fixed_anon (-1) 0) EINVAL
       invalid_msg invalid_errno_msg ;;
     cheriostest_success).

Definition vm_reservation_mmap_invalid_cap : cheri_test cap W :=
  CHERIOSTEST "vm_reservation_mmap_invalid_cap"
    "check that mmap over existing reservation with invalid capability hint fails"
    (map ← CHERIOSTEST_CHECK_SYSCALL (sys (sys_mmap cap_null page PROT_RW (anon_flags g) (-1) 0))
             "mmap(NULL, CHERITEST_PAGE_SIZE, PROT_READ | PROT_WRITE, flags, -1, 0)";
     must_fail (sys_mmap (cheri_tag_clear map) page PROT_RW (anon_flags g) (-1) 0) EINVAL
       invalid_msg invalid_errno_msg ;;
     cheriostest_success).

Definition vm_reservation_mmap : cheri_test cap W :=
  CHERIOSTEST "vm_reservation_mmap" "check mmap with NULL-derived hint address"
    (hint ← find_address_space_gap g page 0;
     _ ← map_tagged (cap_of_int hint) page PROT_RW (anon_flags g)
           "mmap((void *)hint, CHERITEST_PAGE_SIZE, PROT_READ | PROT_WRITE, flags, -1, 0)"
           "mmap with null-derived hint failed to return valid capability";
     cheriostest_success).

Definition vm_reservation_mmap_fixed_unreserved : cheri_test cap W :=
  CHERIOSTEST "vm_reservation_mmap_fixed_unreserved"
    "check mmap MAP_FIXED with NULL-derived hint address"
    (hint ← find_address_space_gap g (page * 2) 0;
     _ ← map_tagged (cap_of_int (u64 (hint + page))) page (PROT_MAX PROT_RW) fixed_anon
           "mmap((void *)(hint + CHERITEST_PAGE_SIZE), CHERITEST_PAGE_SIZE, PROT_MAX(PROT_READ | PROT_WRITE), flags, -1, 0)"
           "mmap fixed with NULL-derived hint failed to return valid capability";
     must_fail (sys_mmap (cap_of_int hint) (2 * page) PROT_RW fixed_anon (-1) 0) ENOMEM
       "mmap fixed with NULL-derived hint does not imply MAP_EXCL"
       "mmap fixed with NULL-derived hint failed with %d instead of ENOMEM" ;;
     cheriostest_success).

Definition vm_reservation_mmap_insert_null_derived : cheri_test cap W :=
  CHERIOSTEST "vm_reservation_mmap_insert_null_derived"
    "check that mmap with NULL-derived hint address over existing reservation fails"
    (map ← map_guard;
     must_fail (sys_mmap (cap_of_int (cheri_address_get map)) page PROT_RW fixed_private (-1) 0)
       ENOMEM "mmap fixed with NULL-derived hint succeded"
       "mmap fixed with NULL-derived hint failed with %d instead of ENOMEM" ;;
     cheriostest_success).

(** The last check looks at the first mapping again. *)
Definition vm_reservation_mmap_fixed_insert : cheri_test cap W :=
  CHERIOSTEST "vm_reservation_mmap_fixed_insert"
    "check mmap MAP_FIXED into an existing reservation with a SW_VMEM perm capability"
    (map ← map_guard;
     vmem_check map ;;
     _ ← CHERIOSTEST_CHECK_SYSCALL
           (sys (sys_mmap (ptr_add map page) page PROT_RW fixed_private (-1) 0))
           "mmap((char *)(map) + CHERITEST_PAGE_SIZE, CHERITEST_PAGE_SIZE, PROT_READ | PROT_WRITE, MAP_ANON | MAP_FIXED | MAP_PRIVATE, -1, 0)";
     CHERIOSTEST_VERIFY2 (cheri_tag_get map)
       "mmap fixed failed to return valid capability" [] ;;
     cheriostest_success).

Definition vm_reservation_mmap_fixed_insert_noperm : cheri_test cap W :=
  CHERIOSTEST "vm_reservation_mmap_fixed_insert_noperm"
    "check that mmap MAP_FIXED into an existing reservation with a capability missing SW_VMEM permission fails"
    (map ← map_guard;
     vmem_check map ;;
     let not_enough_perm := cheri_perms_and map EXCEPT_VMEM in
     must_fail (sys_mmap (ptr_add not_enough_perm page) page PROT_RW fixed_private (-1) 0)
       EACCES "mmap fixed with capability missing VMEM perm succeeds"
       "mmap fixed with capability missing VMEM perm failed with %d instead of EACCES" ;;
     cheriostest_success).

(** ** Reservations that are gone (CheriBSD) *)

Definition reservations_are_quarantined : test cap W bool :=
  w ← gets p_world;
  match sysctl_quarantine_unmapped (cap := cap) w with
  | inr e =>
      modify (set_errno e) ;;
      if e =? ENOENT (cap := cap) (W := W) then mret false
      else cheriostest_failure_err
             "sysctlbyname(vm.cheri_revoke.quarantine_unmapped_reservations)" []
  | inl v => mret (negb (v =? 0))
  end.

(** A page that is mapped and unmapped. *)
Definition map_unmap : test cap W cap :=
  map ← CHERIOSTEST_CHECK_SYSCALL (sys (sys_mmap cap_null page PROT_RW MAP_ANON (-1) 0))
          "mmap(NULL, CHERITEST_PAGE_SIZE, PROT_READ | PROT_WRITE, MAP_ANON, -1, 0)";
  _ ← CHERIOSTEST_CHECK_SYSCALL (sys (sys_munmap map page))
        "munmap((char *)map, CHERITEST_PAGE_SIZE)";
  mret map.

Definition vm_reservation_mmap_after_free_fixed : cheri_test cap W :=
  with_skip skip_need_cheri_revoke
    (CHERIOSTEST "vm_reservation_mmap_after_free_fixed"
       "check that an old capability can not be used to mmap with MAP_FIXED after the reservation has been deleted"
       (_ ← CHERIOSTEST_CHECK_SYSCALL (sys (cheri_revoke_get_shadow_info (cap := cap)))
              "cheri_revoke_get_shadow(CHERI_REVOKE_SHADOW_INFO_STRUCT, NULL, __DEQUALIFY(void **, &cri))";
        map ← map_unmap;
        map ← try_sys (sys_mmap map page PROT_RW (Z.lor MAP_ANON MAP_FIXED) (-1) 0);
        CHERIOSTEST_VERIFY2 (match map with None => true | Some _ => false end)
          "mmap after free succeeded" [] ;;
        q ← reservations_are_quarantined;
        errno ← gets p_errno;
        (if (q : bool)
         then CHERIOSTEST_VERIFY2 (errno =? ENOMEM)
                "mmap after free failed with %d instead of ENOMEM" [AInt errno]
         else CHERIOSTEST_VERIFY2 (errno =? EPROT)
                "mmap after free failed with %d instead of EPROT" [AInt errno]) ;;
        cheriostest_success)).

Definition vm_reservation_mmap_after_free : cheri_test cap W :=
  with_skip skip_need_cheri_revoke
    (CHERIOSTEST "vm_reservation_mmap_after_free"
       "check that an old capability can not be used to mmap after the reservation has been deleted"
       (map ← map_unmap;
        must_fail (sys_mmap map page PROT_RW MAP_ANON (-1) 0) EPROT
          "mmap after free succeeded" "mmap after free failed with %d instead of EPROT" ;;
        cheriostest_success)).

(** ** Alignment, length and padding *)

Definition aligned_to (mask : Z) (c : cap) : bool := Z.land (cheri_address_get c) mask =? 0.

Definition vm_reservation_access_fault : cheri_test cap W :=
  with_signal (Z.lor CT_FLAG_SIGNAL CT_FLAG_SI_CODE) (SIGSEGV (cap := cap) (W := W))
    SEGV_ACCERR 0
    (CHERIOSTEST "vm_reservation_access_fault"
       "check that we fault when accessing padding of a reservation"
       (match get_unrepresentable_length with
        | None => undef
        | Some len =>
            let expected_len := cheri_representable_length (cap := cap) len in
            CHERIOSTEST_VERIFY2 (cheritest_round_page page len <? expected_len)
              "test precondition failed: padding for length (%lx) must exceed one page, found %lx"
              [AInt len; AInt expected_len] ;;
            map ← CHERIOSTEST_CHECK_SYSCALL
                    (sys (sys_mmap cap_null len PROT_RW (anon_flags g) (-1) 0))
                    (if is_freebsd g
                     then "mmap(NULL, len, PROT_READ | PROT_WRITE, MAP_ANON, -1, 0)"
                     else "mmap(NULL, len, PROT_READ | PROT_WRITE, MAP_ANON | MAP_PRIVATE, -1, 0)");
            CHERIOSTEST_VERIFY2 (cheri_tag_get map)
              "mmap() failed to return a pointer when given unrepresentable length (%zu)"
              [AInt len] ;;
            CHERIOSTEST_VERIFY2 (cheri_length_get map =? expected_len)
              "mmap() returned a pointer with an unrepresentable length (%zu vs %zu): %#p"
              [AInt (cheri_length_get map); AInt expected_len; APtr map] ;;
            _ ← access (mem_load_int (ptr_add (ptr_add map expected_len) (-4)));
            cheriostest_failure_errx "reservation padding access allowed" []
        end)).

(** A mapping of [len] bytes whose start the mask must leave zero. *)
Definition map_aligned (len flags mask : Z) (text msg : string) (ap : list (arg cap))
    : test cap W unit :=
  map ← CHERIOSTEST_CHECK_SYSCALL (sys (sys_mmap cap_null len PROT_RW flags (-1) 0)) text;
  CHERIOSTEST_VERIFY2 (aligned_to mask map) msg (ap ++ [APtr map]).

Definition vm_reservation_align : cheri_test cap W :=
  CHERIOSTEST "vm_reservation_align" "check that mmap correctly aligns mappings"
    (match get_unrepresentable_length with
     | None => undef
     | Some len =>
         let align_mask := CHERITEST_CHERI_ALIGN_MASK (cap := cap) len in
         map_aligned len (anon_flags g) align_mask
           (if is_freebsd g
            then "mmap(NULL, len, PROT_READ | PROT_WRITE, MAP_ANON, -1, 0)"
            else "mmap(NULL, len, PROT_READ | PROT_WRITE, MAP_ANON | MAP_PRIVATE, -1, 0)")
           "mmap failed to align representable region for %p" [] ;;
         when (is_freebsd g)
           (let align_shift := CHERI_ALIGN_SHIFT (cap := cap) (W := W) len in
            let MAP_ALIGNED := MAP_ALIGNED (cap := cap) (W := W) in
            map_aligned len (Z.lor MAP_ANON (MAP_ALIGNED (align_shift - 1))) align_mask
              "mmap(NULL, len, PROT_READ | PROT_WRITE, MAP_ANON | MAP_ALIGNED(align_shift - 1), -1, 0)"
              "mmap failed to align representable region with requested alignment %lx for %p"
              [AInt (align_shift - 1)] ;;
            match int_shl1 (align_shift + 1) with
            | None => undef
            | Some n =>
                map_aligned len (Z.lor MAP_ANON (MAP_ALIGNED (align_shift + 1))) (n - 1)
                  "mmap(NULL, len, PROT_READ | PROT_WRITE, MAP_ANON | MAP_ALIGNED(align_shift + 1), -1, 0)"
                  "mmap failed to align representable region with requested alignment %lx for %p"
                  [AInt (align_shift + 1)]
            end) ;;
         cheriostest_success
     end).

Definition vm_reservation_mmap_shared (fd : Z) : test cap W unit :=
  match get_unrepresentable_length with
  | None => undef
  | Some len =>
      let align_mask := CHERITEST_CHERI_ALIGN_MASK (cap := cap) len in
      let expected_len := cheri_representable_length (cap := cap) len in
      _ ← CHERIOSTEST_CHECK_SYSCALL (sys (sys_ftruncate fd len)) "ftruncate(fd, len)";
      map ← CHERIOSTEST_CHECK_SYSCALL (sys (sys_mmap cap_null len PROT_RW MAP_SHARED fd 0))
              "mmap(NULL, len, PROT_READ | PROT_WRITE, MAP_SHARED, fd, 0)";
      CHERIOSTEST_VERIFY2 (aligned_to align_mask map)
        "mmap failed to align shared regiont for representability" [] ;;
      CHERIOSTEST_VERIFY2 (cheri_length_get map =? expected_len)
        "mmap returned pointer with unrepresentable length" [] ;;
      cheriostest_success
  end.

Definition vm_reservation_mmap_shared_shm_open : cheri_test cap W :=
  CHERIOSTEST "vm_reservation_mmap_shared_shm_open"
    "check reservation alignment and bounds for shared mappings created with shm_open"
    (fd ← open_shm_anon; vm_reservation_mmap_shared fd).

Definition vm_reservation_mmap_shared_memfd_open : cheri_test cap W :=
  CHERIOSTEST "vm_reservation_mmap_shared_memfd_open"
    "check reservation alignment and bounds for shared mappings created with memfd_create"
    (fd ← open_memfd "vm_reservation_mmap_shared_memfd_open";
     vm_reservation_mmap_shared fd).
End Reservations.

(** ** A kernel as a table of answers *)

(** What the hint is: null-derived, untagged otherwise, a capability to a live
    reservation with or without SW_VMEM, or to one that is gone. *)
Inductive hint_kind := KNull | KUntagged | KVmem | KNoVmem | KDangling.

(** Where the mapping goes: anywhere, or, with MAP_FIXED, to addresses that no
    reservation or some reservation contains. *)
Inductive place := Anywhere | FixedFree | FixedBusy.

(** Monotone operations on an unsealed capability. *)
Class CapOps (cap : Type) `{!Cheri cap} := {
  address_set_tag (c : cap) (a : Z) :
    cheri_tag_get c = true -> cheri_is_sealed c = false ->
    cheri_base_get c <= a < cheri_base_get c + cheri_length_get c -> a < 2 ^ 64 ->
    cheri_tag_get (cheri_address_set c a) = true;
  address_set_perms (c : cap) (a : Z) :
    cheri_perms_get (cheri_address_set c a) = cheri_perms_get c;
  perms_and_perms (c : cap) (p : Z) :
    cheri_perms_get (cheri_perms_and c p) = u64 (Z.land (cheri_perms_get c) p);
  perms_and_keeps (c : cap) (p : Z) : cheri_is_sealed c = false ->
    cheri_tag_get (cheri_perms_and c p) = cheri_tag_get c /\
    cheri_is_sealed (cheri_perms_and c p) = false /\
    cheri_address_get (cheri_perms_and c p) = cheri_address_get c /\
    cheri_base_get (cheri_perms_and c p) = cheri_base_get c /\
    cheri_length_get (cheri_perms_and c p) = cheri_length_get c;
  tag_clear_perms (c : cap) : cheri_perms_get (cheri_tag_clear c) = cheri_perms_get c;
  of_int_perms (a : Z) : cheri_perms_get (cap_of_int a) = 0;
}.

Section ResvRules.
Context {cap W : Type} {CH : Cheri cap} {LC : Libc cap W} {KE : Kernel cap W}
  {VC : VmConsts} {HP : Perms} {RV : ResvOS cap W}.
Context {g : config}.

Definition in_bounds (c : cap) (x : Z) : Prop :=
  cheri_base_get c <= x < cheri_base_get c + cheri_length_get c.

Definition null_derived (c : cap) : Prop := exists a, c = cap_of_int a.

Definition has_vmem (c : cap) : bool := flag_set (cheri_perms_get c) CHERI_PERM_SW_VMEM.

Definition kind_is (reserved : Z -> Prop) (k : hint_kind) (c : cap) : Prop :=
  match k with
  | KNull => null_derived c
  | KUntagged => cheri_tag_get c = false /\ ~ null_derived c
  | KVmem => cheri_tag_get c = true /\ has_vmem c = true /\ reserved (cheri_base_get c)
  | KNoVmem => cheri_tag_get c = true /\ has_vmem c = false /\ reserved (cheri_base_get c)
  | KDangling => cheri_tag_get c = true /\ ~ reserved (cheri_base_get c)
  end.

Definition guard_flags (g : config) : Z :=
  if is_freebsd g then MAP_GUARD else Z.lor MAP_ANON MAP_PRIVATE.

(** The protections that the tests map with. *)
Definition test_prots : list Z :=
  [PROT_RW; PROT_MAX PROT_RW; Z.lor PROT_NONE (PROT_MAX PROT_RW)].

Class ResvRules := {
  reserved : W -> Z -> Prop;
  busy : W -> Z -> Z -> bool;              (* a reservation meets the range *)
  policy : hint_kind -> place -> option Z;
  flags_ok : Z -> bool;
  map_length : Z -> Z;
  busy_spec w a n : busy w a n = true <-> exists x, a <= x < a + n /\ reserved w x;
  mmap_refused hint k len prot flags e w :
    let p := if flag_set flags MAP_FIXED
             then if busy w (cheri_address_get hint) len then FixedBusy else FixedFree
             else Anywhere in
    prot ∈ test_prots -> flags_ok flags = true -> kind_is (reserved w) k hint ->
    policy k p = Some e -> exists w',
    sys_mmap hint len prot flags (-1) 0 w = (inr e, w') /\
    forall x, reserved w' x <-> reserved w x;
  mmap_granted hint k len prot flags w :
    let p := if flag_set flags MAP_FIXED
             then if busy w (cheri_address_get hint) len then FixedBusy else FixedFree
             else Anywhere in
    prot ∈ test_prots -> flags_ok flags = true -> kind_is (reserved w) k hint ->
    policy k p = None -> exists c w',
    sys_mmap hint len prot flags (-1) 0 w = (inl c, w') /\
    cheri_tag_get c = true /\ cheri_is_sealed c = false /\ has_vmem c = true /\
    cheri_base_get c = cheri_address_get c /\ cheri_length_get c = map_length len /\
    (p = Anywhere -> cheri_base_get c + cheri_length_get c < 2 ^ 64) /\
    (p ≠ Anywhere -> cheri_address_get c = cheri_address_get hint) /\
    forall x, reserved w' x <-> reserved w x \/ in_bounds c x;
  mmap_bad_flags hint len prot flags w : flags_ok flags = false -> exists w',
    sys_mmap hint len prot flags (-1) 0 w = (inr EINVAL, w');
  munmap_part c n w :
    cheri_tag_get c = true -> has_vmem c = true -> (forall x, in_bounds c x -> reserved w x) ->
    cheri_base_get c <= cheri_address_get c ->
    cheri_address_get c + n <= cheri_base_get c + cheri_length_get c ->
    exists w', sys_munmap c n w = (inl 0, w') /\ forall x,
      reserved w' x <->
      reserved w x /\ ~ (cheri_address_get c = cheri_base_get c /\
                         n = cheri_length_get c /\ in_bounds c x);
  shadow_info w : exists w', cheri_revoke_get_shadow_info (cap := cap) w = (inl 0, w') /\
    forall x, reserved w' x <-> reserved w x;
  page_length n : n = 1 \/ n = 2 \/ n = 3 ->
    map_length (n * page (cap := cap) (W := W)) = n * page (cap := cap) (W := W);
  page_pos : 0 < page (cap := cap) (W := W) < 2 ^ 32;
  pcc_hint_perms : cheri_perms_get (invalid_hint (cap := cap) (W := W)) <> 0;
  free_flags flags : flags ∈ [anon_flags g; guard_flags g] ->
    flags_ok flags = true /\ flag_set flags MAP_FIXED = false;
  fixed_flags_ok flags : flags ∈ [fixed_anon g; fixed_private] ->
    flags_ok flags = true /\ flag_set flags MAP_FIXED = true;
  anon_not_fixed : flag_set MAP_ANON MAP_FIXED = false;
}.
End ResvRules.
Arguments ResvRules cap W {_ _ _ _ _} g.

(** ** What each test checks *)

Section ResvFacts.
Context {cap W : Type} {CH : Cheri cap} {CL : CheriLaws cap} {CO : CapOps cap}
  {LC : Libc cap W} {KE : Kernel cap W} {VC : VmConsts} {VM : VmMap W} {HP : Perms}
  {PL : PermLaws} {RV : ResvOS cap W}.
Context (g : config) {RR : ResvRules cap W g}.

Abbreviation pg := (page (cap := cap) (W := W)).

(** A mapping that was granted, and the reservations after it. *)
Record granted (w w' : W) (hint : cap) (fixed : bool) (len : Z) (c : cap) : Prop := {
  gr_tag : cheri_tag_get c = true;
  gr_unsealed : cheri_is_sealed c = false;
  gr_vmem : has_vmem c = true;
  gr_base : cheri_base_get c = cheri_address_get c;
  gr_length : cheri_length_get c = map_length len;
  gr_top : fixed = false -> cheri_base_get c + cheri_length_get c < 2 ^ 64;
  gr_fixed : fixed = true -> cheri_address_get c = cheri_address_get hint;
  gr_reserved : forall x, reserved w' x <-> reserved w x \/ in_bounds c x;
}.

Definition place_of (w : W) (fixed : bool) (hint : cap) (len : Z) : place :=
  if fixed then if busy w (cheri_address_get hint) len then FixedBusy else FixedFree
  else Anywhere.

(** mmap answers as the table says. *)
Lemma mmap_answer hint k len prot flags fixed w :
  prot ∈ test_prots -> flags_ok flags = true -> flag_set flags MAP_FIXED = fixed ->
  kind_is (reserved w) k hint ->
  exists r w', sys_mmap hint len prot flags (-1) 0 w = (r, w') /\
    match policy k (place_of w fixed hint len) with
    | Some e => r = inr e /\ forall x, reserved w' x <-> reserved w x
    | None => exists c, r = inl c /\ granted w w' hint fixed len c
    end.
Proof.
  intros Hp Hf <- Hk. unfold place_of.
  destruct (policy k _) as [e|] eqn:Hpol.
  - destruct (mmap_refused hint k len prot flags e w Hp Hf Hk Hpol) as (w' & Hm & Hr).
    by exists (inr e), w'.
  - destruct (mmap_granted hint k len prot flags w Hp Hf Hk Hpol)
      as (c & w' & Hm & ? & ? & ? & ? & ? & Htop & Hfix & ?).
    exists (inl c), w'. split; [done|]. exists c. split; [done|]. split; try done.
    + intros Hfx. apply Htop. by rewrite Hfx.
    + intros Hfx. apply Hfix. rewrite Hfx. by destruct (busy _ _ _).
Qed.

(** The checked calls that must fail. *)
Lemma must_fail_iff {A} f e m1 m2 (kk : test cap W A) s r w' :
  f (p_world s) = (r, w') -> shared s ->
  succeeds (must_fail f e m1 m2 ;; kk) s <->
  r = inr e /\ succeeds kk (set_errno e (set_world w' s)).
Proof.
  intros Hf Hs. apply try_sys_run in Hf. unfold must_fail. rewrite succeeds_assoc.
  destruct r as [c|x]; rewrite (succeeds_bind _ _ _ _ _ Hf), succeeds_assoc.
  - rewrite (succeeds_checks _ _ _ (set_world w' s) _ Hs). by split; intros [? _].
  - set (s1 := set_errno x (set_world w' s)).
    trans (succeeds ((CHERIOSTEST_VERIFY2 (x =? e) m2 [AInt x]) ;; kk) s1); [done|].
    rewrite (succeeds_checks _ _ _ s1 _ Hs). simpl. rewrite andb_true_r, Z.eqb_eq.
    split; [by intros [-> ?]|by intros [[= ->] ?]].
Qed.

Lemma map_tagged_run {A} hint len prot flags text msg (kk : cap -> test cap W A) s c w' :
  sys_mmap hint len prot flags (-1) 0 (p_world s) = (inl c, w') -> cheri_tag_get c = true ->
  (map_tagged hint len prot flags text msg ≫= kk) s = kk c (set_world w' s).
Proof.
  intros Hm Ht. unfold map_tagged. rewrite test_assoc. erewrite run_check by exact Hm.
  rewrite Ht. done.
Qed.

(** *** Kinds of hints *)

Lemma kind_null (R : Z -> Prop) a : kind_is R KNull (cap_of_int (cap := cap) a).
Proof. by exists a. Qed.

Lemma vmem_perms (c : cap) : has_vmem c = true -> cheri_perms_get c <> 0.
Proof. unfold has_vmem, flag_set. intros H Hp. by rewrite Hp in H. Qed.

Lemma kind_untagged (R : Z -> Prop) (c : cap) :
  cheri_perms_get c <> 0 -> kind_is R KUntagged (cheri_tag_clear c).
Proof.
  intros Hc. split; [apply tag_clear_tag|]. intros [a Ha].
  apply Hc. rewrite <- (tag_clear_perms c), Ha. apply of_int_perms.
Qed.

Lemma vmem_bit v : flag_set v CHERI_PERM_SW_VMEM = Z.testbit v (bit (PSw sw_vmem)).
Proof. apply flag_set_mask. Qed.

Lemma without_vmem (c : cap) : has_vmem (cheri_perms_and c EXCEPT_VMEM) = false.
Proof.
  unfold has_vmem. rewrite vmem_bit, perms_and_perms. unfold wrapu, EXCEPT_VMEM.
  pose proof (bit_range (PSw sw_vmem)) as Hb.
  rewrite Z.mod_pow2_bits_low by lia. rewrite Z.land_spec, Z.lnot_spec by lia.
  unfold CHERI_PERM_SW_VMEM, mask. rewrite testbit_shiftl_1 by lia.
  by rewrite Z.eqb_refl, andb_false_r.
Qed.

(** Moving inside the bounds of an unsealed capability. *)
Lemma ptr_add_inside (c : cap) d :
  cheri_tag_get c = true -> cheri_is_sealed c = false ->
  cheri_base_get c = cheri_address_get c ->
  cheri_base_get c + cheri_length_get c < 2 ^ 64 -> 0 <= d < cheri_length_get c ->
  cheri_tag_get (ptr_add c d) = true /\ has_vmem (ptr_add c d) = has_vmem c /\
  cheri_address_get (ptr_add c d) = cheri_address_get c + d /\
  cheri_base_get (ptr_add c d) = cheri_base_get c /\
  cheri_length_get (ptr_add c d) = cheri_length_get c.
Proof.
  intros Ht Hu Hb Htop Hd. pose proof (base_range c).
  assert (cheri_tag_get (ptr_add c d) = true) as Ht'.
  { apply address_set_tag; [done|done| |]; rewrite wrapu_small by lia; lia. }
  destruct (address_set_bounds _ _ Ht') as [Hb' Hl']. unfold ptr_add, has_vmem in *.
  rewrite address_set_perms, address_set_address, wrapu_idemp by lia.
  rewrite wrapu_small in * by lia. done.
Qed.

Context (s : proc cap W) (Hs : shared s) (Hnull : policy KNull Anywhere = None).

Lemma one_page : map_length pg = pg.
Proof. rewrite <- (Z.mul_1_l pg). apply page_length. lia. Qed.

(** The first mapping of a test. *)
Lemma first_map len prot flags :
  prot ∈ test_prots -> flags ∈ [anon_flags g; guard_flags g] ->
  exists c w', sys_mmap cap_null len prot flags (-1) 0 (p_world s) = (inl c, w') /\
    granted (p_world s) w' cap_null false len c.
Proof.
  intros Hp Hf. destruct (free_flags flags Hf) as [Hok Hfree].
  destruct (mmap_answer cap_null KNull len prot flags false (p_world s) Hp Hok Hfree)
    as (r & w' & Hm & Hans); [apply kind_null|].
  unfold place_of in Hans. rewrite Hnull in Hans. destruct Hans as (c & -> & Hg).
  by exists c, w'.
Qed.

Lemma map_guard_run : exists c w', granted (p_world s) w' cap_null false (3 * pg) c /\
  forall A (kk : cap -> test cap W A), (map_guard g ≫= kk) s = kk c (set_world w' s).
Proof.
  unfold map_guard. destruct (is_freebsd g) eqn:Hos.
  - destruct (first_map (3 * pg) (PROT_MAX PROT_RW) MAP_GUARD) as (c & w' & Hm & Hg).
    { right. left. } { right. unfold guard_flags. rewrite Hos. left. }
    exists c, w'. split; [done|]. intros A kk.
    apply (map_tagged_run _ _ _ _ _ _ _ _ _ _ Hm), Hg.
  - destruct (first_map (3 * pg) (Z.lor PROT_NONE (PROT_MAX PROT_RW))
      (Z.lor MAP_ANON MAP_PRIVATE)) as (c & w' & Hm & Hg).
    { right. right. left. } { right. unfold guard_flags. rewrite Hos. left. }
    exists c, w'. split; [done|]. intros A kk.
    apply (map_tagged_run _ _ _ _ _ _ _ _ _ _ Hm), Hg.
Qed.

(** A last call that must fail with [e]. *)
Lemma must_fail_row hint k len prot flags fixed e m1 m2 s1 :
  prot ∈ test_prots -> flags_ok flags = true -> flag_set flags MAP_FIXED = fixed ->
  kind_is (reserved (p_world s1)) k hint -> shared s1 ->
  succeeds (must_fail (sys_mmap hint len prot flags (-1) 0) e m1 m2 ;;
            (cheriostest_success : test cap W unit)) s1 <->
  policy k (place_of (p_world s1) fixed hint len) = Some e.
Proof.
  intros Hp Hf Hfx Hk Hs1.
  destruct (mmap_answer hint k len prot flags fixed (p_world s1) Hp Hf Hfx Hk)
    as (r & w' & Hm & Hans).
  rewrite (must_fail_iff _ _ _ _ _ _ _ _ Hm Hs1).
  destruct (policy k _) as [x|].
  - destruct Hans as [-> _]. split; [by intros [[= ->] _]|]. intros [= ->].
    split; [done|]. by apply succeeds_success.
  - destruct Hans as (c & -> & _). by split; [intros [? _]|].
Qed.

Lemma rw_prot : PROT_RW ∈ test_prots.
Proof. left. Qed.

Lemma busy_true w a n x : a <= x < a + n -> reserved w x -> busy w a n = true.
Proof. intros Hx Hr. apply busy_spec. by exists x. Qed.

(** *** The tests *)

Lemma kind_invalid (R : Z -> Prop) : kind_is R KUntagged (invalid_hint (cap := cap) (W := W)).
Proof. apply kind_untagged. rewrite <- tag_clear_perms. apply pcc_hint_perms. Qed.

Lemma invalid_cap_iff :
  succeeds (ct_func vm_mmap_invalid_cap) s <->
  flags_ok MAP_ANON = false \/ policy KUntagged Anywhere = Some EINVAL.
Proof.
  unfold vm_mmap_invalid_cap, CHERIOSTEST. cbn [ct_func].
  destruct (flags_ok MAP_ANON) eqn:Hf.
  - rewrite (must_fail_row _ KUntagged _ _ _ false);
      [|apply rw_prot|done|apply anon_not_fixed|apply kind_invalid|done].
    split; [by right|]. by intros [|].
  - destruct (mmap_bad_flags invalid_hint pg PROT_RW MAP_ANON (p_world s) Hf) as (w' & Hm).
    rewrite (must_fail_iff _ _ _ _ _ _ _ _ Hm Hs). split; [by left|]. intros _.
    split; [done|]. by apply succeeds_success.
Qed.

Lemma invalid_cap_fixed_iff :
  succeeds (ct_func (vm_mmap_invalid_cap_fixed g)) s <->
  policy KUntagged (place_of (p_world s) true invalid_hint pg) = Some EINVAL.
Proof.
  destruct (fixed_flags_ok (fixed_anon g)) as [Hok Hfx]; [left|].
  by apply must_fail_row; [apply rw_prot| | |apply kind_invalid|].
Qed.

Lemma resv_invalid_cap_iff :
  succeeds (ct_func (vm_reservation_mmap_invalid_cap g)) s <->
  policy KUntagged Anywhere = Some EINVAL.
Proof.
  destruct (first_map pg PROT_RW (anon_flags g)) as (c & w' & Hm & Hg); [apply rw_prot|left|].
  destruct (free_flags (anon_flags g)) as [Hok Hfx]; [left|].
  unfold vm_reservation_mmap_invalid_cap, CHERIOSTEST. cbn [ct_func].
  unfold succeeds at 1. erewrite run_check by exact Hm.
  apply (must_fail_row _ _ _ _ _ false); [apply rw_prot|done|done| |done].
  apply kind_untagged, vmem_perms, Hg.
Qed.

Lemma insert_null_iff :
  succeeds (ct_func (vm_reservation_mmap_insert_null_derived g)) s <->
  policy KNull FixedBusy = Some ENOMEM.
Proof.
  destruct map_guard_run as (c & w' & Hg & Hrun).
  unfold vm_reservation_mmap_insert_null_derived, CHERIOSTEST. cbn [ct_func].
  unfold succeeds at 1. rewrite Hrun.
  destruct (fixed_flags_ok fixed_private) as [Hok Hfx]; [right; left|].
  trans (policy KNull (place_of (p_world (set_world w' s)) true
           (cap_of_int (cheri_address_get c)) pg) = Some ENOMEM).
  { apply (must_fail_row _ _ _ _ _ true); [apply rw_prot|done|done|apply kind_null|done]. }
  unfold place_of. rewrite (busy_true _ _ _ (cheri_address_get c)); [done| |].
  - rewrite of_int_address, wrapu_small by apply address_range. pose proof page_pos. lia.
  - apply Hg. right. unfold in_bounds. rewrite (gr_base _ _ _ _ _ _ Hg).
    pose proof page_pos. rewrite (gr_length _ _ _ _ _ _ Hg), page_length by lia. lia.
Qed.

(** A capability inside the first mapping, one page on. *)
Lemma inside_guard w' c :
  granted (p_world s) w' cap_null false (3 * pg) c ->
  forall c', cheri_tag_get c' = true -> cheri_is_sealed c' = false ->
  cheri_address_get c' = cheri_address_get c -> cheri_base_get c' = cheri_base_get c ->
  cheri_length_get c' = cheri_length_get c ->
  kind_is (reserved w') (if has_vmem c' then KVmem else KNoVmem) (ptr_add c' pg) /\
  place_of w' true (ptr_add c' pg) pg = FixedBusy.
Proof.
  intros Hg c' Ht Hu Ha Hb Hl. pose proof page_pos.
  pose proof (gr_length _ _ _ _ _ _ Hg) as Hlen. rewrite page_length in Hlen by lia.
  pose proof (gr_top _ _ _ _ _ _ Hg eq_refl) as Htop. pose proof (gr_base _ _ _ _ _ _ Hg) as Hbase.
  destruct (ptr_add_inside c' pg Ht Hu) as (Ht' & Hv' & Ha' & Hb' & Hl');
    [congruence|congruence|rewrite Hl, Hlen; lia|].
  assert (forall x, in_bounds (ptr_add c' pg) x -> reserved w' x) as Hr.
  { intros x Hx. apply Hg. right. unfold in_bounds in *. by rewrite Hb', Hl', Hb, Hl in Hx. }
  split.
  - assert (reserved w' (cheri_base_get (ptr_add c' pg))) as Hrb.
    { apply Hr. unfold in_bounds. rewrite Hl', Hl, Hlen. lia. }
    destruct (has_vmem c') eqn:Hv; simpl; rewrite Hv'; auto.
  - unfold place_of. rewrite (busy_true _ _ _ (cheri_address_get (ptr_add c' pg))); [done|lia|].
    apply Hr. unfold in_bounds. rewrite Ha', Hb', Hl', Ha, Hb, Hl, Hbase, Hlen. lia.
Qed.

Lemma fixed_insert_iff :
  succeeds (ct_func (vm_reservation_mmap_fixed_insert g)) s <->
  policy KVmem FixedBusy = None.
Proof.
  destruct map_guard_run as (c & w' & Hg & Hrun).
  unfold vm_reservation_mmap_fixed_insert, CHERIOSTEST. cbn [ct_func].
  unfold succeeds at 1. rewrite Hrun. unfold vmem_check.
  rewrite (run_verify2 _ _ _ _ _ (gr_vmem _ _ _ _ _ _ Hg)).
  destruct (fixed_flags_ok fixed_private) as [Hok Hfx]; [right; left|].
  destruct (inside_guard w' c Hg c) as [Hk Hpl]; try done; try apply Hg.
  rewrite (gr_vmem _ _ _ _ _ _ Hg) in Hk.
  destruct (mmap_answer (ptr_add c pg) KVmem pg PROT_RW fixed_private true w' rw_prot Hok Hfx Hk)
    as (r & w2 & Hm & Hans). rewrite Hpl in Hans.
  match goal with |- (exists w, verdict_of (?m ?st) = _) <-> _ =>
    change (succeeds m st <-> policy KVmem FixedBusy = None) end.
  rewrite (check_iff _ _ _ (set_world w' s) _ _ Hm).
  destruct (policy KVmem FixedBusy) as [e|].
  - destruct Hans as [-> _]. by split; [intros (? & ? & _)|].
  - destruct Hans as (c2 & -> & _). split; [done|]. intros _. exists c2. split; [done|].
    rewrite (succeeds_checks _ _ _ (set_world w2 (set_world w' s)) _ Hs). simpl.
    rewrite (gr_tag _ _ _ _ _ _ Hg). split; [done|]. by apply succeeds_success.
Qed.

Lemma fixed_insert_noperm_iff :
  succeeds (ct_func (vm_reservation_mmap_fixed_insert_noperm g)) s <->
  policy KNoVmem FixedBusy = Some EACCES.
Proof.
  destruct map_guard_run as (c & w' & Hg & Hrun).
  unfold vm_reservation_mmap_fixed_insert_noperm, CHERIOSTEST. cbn [ct_func].
  unfold succeeds at 1. rewrite Hrun. unfold vmem_check.
  rewrite (run_verify2 _ _ _ _ _ (gr_vmem _ _ _ _ _ _ Hg)).
  destruct (fixed_flags_ok fixed_private) as [Hok Hfx]; [right; left|].
  destruct (perms_and_keeps c EXCEPT_VMEM (gr_unsealed _ _ _ _ _ _ Hg)) as (Ht & Hu & Ha & Hb & Hl).
  destruct (inside_guard w' c Hg (cheri_perms_and c EXCEPT_VMEM)) as [Hk Hpl]; try done.
  { rewrite Ht. apply Hg. }
  rewrite without_vmem in Hk. rewrite <- Hpl.
  apply (must_fail_row _ _ _ _ _ true _ _ _ (set_world w' s)); [apply rw_prot|done|done|done|done].
Qed.

Lemma reuse_iff :
  succeeds (ct_func (vm_reservation_reuse g)) s <-> policy KNull FixedBusy = Some ENOMEM.
Proof.
  destruct (first_map (pg * 2) PROT_RW (anon_flags g)) as (c & w' & Hm & Hg);
    [apply rw_prot|left|].
  pose proof page_pos. pose proof (gr_length _ _ _ _ _ _ Hg) as Hlen.
  rewrite (Z.mul_comm pg 2), page_length in Hlen by lia.
  pose proof (gr_base _ _ _ _ _ _ Hg) as Hbase. pose proof (base_range c).
  pose proof (gr_top _ _ _ _ _ _ Hg eq_refl) as Htop.
  destruct (ptr_add_inside c pg) as (Ht' & Hv' & Ha' & Hb' & Hl');
    [apply Hg|apply Hg|done|done|lia|].
  destruct (munmap_part (ptr_add c pg) pg w') as (w2 & Hun & Hr2); [done| | |lia|lia|].
  { rewrite Hv'. apply Hg. }
  { intros x Hx. apply Hg. right. unfold in_bounds in *. by rewrite Hb', Hl' in Hx. }
  destruct (fixed_flags_ok (fixed_anon g)) as [Hok Hfx]; [left|].
  set (hint := cap_of_int (u64 (cheri_address_get c + pg))).
  destruct (mmap_answer hint KNull (pg * 2) PROT_RW (fixed_anon g) true w2 rw_prot Hok Hfx)
    as (r & w3 & Hm3 & Hans); [apply kind_null|].
  assert (place_of w2 true hint (pg * 2) = FixedBusy) as Hpl.
  { unfold place_of. rewrite (busy_true _ _ _ (cheri_address_get c + pg)); [done| |].
    - unfold hint. rewrite of_int_address, wrapu_idemp, wrapu_small by lia. lia.
    - apply Hr2. split; [|rewrite Hb', Ha', Hbase; lia].
      apply Hg. right. unfold in_bounds. lia. }
  rewrite Hpl in Hans. unfold vm_reservation_reuse, CHERIOSTEST. cbn [ct_func].
  unfold succeeds. erewrite (map_tagged_run _ _ _ _ _ _ _ s) by (exact Hm || apply Hg).
  erewrite run_check by exact Hun.
  set (s2 := set_world w2 (set_world w' s)) in *.
  apply (try_sys_run _ s2) in Hm3.
  destruct (policy KNull FixedBusy) as [e|].
  - destruct Hans as [-> _]. rewrite (test_bind _ _ _ _ _ Hm3).
    set (s3 := set_errno e (set_world w3 s2)).
    trans (succeeds ((CHERIOSTEST_VERIFY2 (e =? ENOMEM) "Unexpected errno %d instead of ENOMEM"
      [AInt e]) ;; (cheriostest_success : test cap W unit)) s3); [done|].
    rewrite (succeeds_checks _ _ _ s3 _ Hs). simpl. rewrite andb_true_r, Z.eqb_eq.
    split; [by intros [-> _]|]. intros [= ->]. split; [done|]. by apply succeeds_success.
  - destruct Hans as (c3 & -> & _). rewrite (test_bind _ _ _ _ _ Hm3).
    split; [|done]. intros Hf. by apply (not_succeeds_failure_errx (A := unit)) in Hf.
Qed.

(** The free region that the search promises. *)
Definition free_gap (n : Z) : Prop := exists a,
  find_address_space_gap g n 0 s = (Val a, s) /\ 0 < a /\ a + n < 2 ^ 64 /\
  forall x, a <= x < a + n -> ~ reserved (p_world s) x.

Lemma reservation_mmap_passes :
  free_gap pg -> succeeds (ct_func (vm_reservation_mmap g)) s.
Proof.
  intros (a & Hrun & _). destruct (free_flags (anon_flags g)) as [Hok Hfx]; [left|].
  destruct (mmap_answer (cap_of_int a) KNull pg PROT_RW (anon_flags g) false (p_world s)
    rw_prot Hok Hfx) as (r & w' & Hm & Hans); [apply kind_null|].
  unfold place_of in Hans. rewrite Hnull in Hans. destruct Hans as (c & -> & Hg).
  unfold vm_reservation_mmap, CHERIOSTEST. cbn [ct_func].
  rewrite (succeeds_bind _ _ _ _ _ Hrun). unfold succeeds.
  erewrite (map_tagged_run _ _ _ _ _ _ _ s) by (exact Hm || apply Hg).
  by apply succeeds_success.
Qed.

Lemma fixed_unreserved_iff :
  free_gap (pg * 2) ->
  succeeds (ct_func (vm_reservation_mmap_fixed_unreserved g)) s <->
  policy KNull FixedFree = None /\ policy KNull FixedBusy = Some ENOMEM.
Proof.
  intros (a & Hrun & H0 & Htop & Hfree). pose proof page_pos.
  destruct (fixed_flags_ok (fixed_anon g)) as [Hok Hfx]; [left|].
  set (hint := cap_of_int (cap := cap) (u64 (a + pg))).
  assert (cheri_address_get hint = a + pg) as Hha.
  { unfold hint. rewrite of_int_address, wrapu_idemp, wrapu_small by lia. done. }
  destruct (mmap_answer hint KNull pg (PROT_MAX PROT_RW) (fixed_anon g) true (p_world s))
    as (r & w' & Hm & Hans); [right; left|done|done|apply kind_null|].
  assert (place_of (p_world s) true hint pg = FixedFree) as Hpl.
  { unfold place_of. destruct (busy _ _ _) eqn:Hb; [|done].
    apply busy_spec in Hb as (x & Hx & Hr). rewrite Hha in Hx. apply Hfree in Hr; [done|lia]. }
  rewrite Hpl in Hans. unfold vm_reservation_mmap_fixed_unreserved, CHERIOSTEST. cbn [ct_func].
  rewrite (succeeds_bind _ _ _ _ _ Hrun).
  destruct (policy KNull FixedFree) as [e|].
  - destruct Hans as [-> _]. split; [|by intros [? _]]. intros Hsuc. exfalso. revert Hsuc.
    unfold map_tagged. rewrite succeeds_assoc. by apply (fail_check _ _ _ _ _ _ Hm).
  - destruct Hans as (c & -> & Hg). unfold succeeds.
    erewrite (map_tagged_run _ _ _ _ _ _ _ s) by (exact Hm || apply Hg).
    trans (policy KNull (place_of (p_world (set_world w' s)) true (cap_of_int a) (2 * pg))
           = Some ENOMEM).
    { apply (must_fail_row _ _ _ _ _ true); [apply rw_prot|done|done|apply kind_null|done]. }
    unfold place_of. rewrite (busy_true _ _ _ (a + pg)); [tauto| |].
    + rewrite of_int_address, wrapu_small by lia. lia.
    + apply Hg. right. unfold in_bounds.
      rewrite (gr_base _ _ _ _ _ _ Hg), (gr_fixed _ _ _ _ _ _ Hg eq_refl), Hha,
        (gr_length _ _ _ _ _ _ Hg).
      rewrite one_page. lia.
Qed.

(** *** After the reservation is gone *)

Context (Hbsd : is_freebsd g = true).

Lemma anon_is_plain : anon_flags g = MAP_ANON.
Proof.
  unfold anon_flags, is_freebsd, is_linux in *. by destruct (cfg_os g).
Qed.

Lemma map_unmap_run s0 : exists c w',
  (forall A (kk : cap -> test cap W A), (map_unmap ≫= kk) s0 = kk c (set_world w' s0)) /\
  kind_is (reserved w') KDangling c /\ place_of w' true c pg = FixedFree.
Proof.
  destruct (free_flags (anon_flags g)) as [Hok Hfx]; [left|]. rewrite anon_is_plain in *.
  destruct (mmap_answer cap_null KNull pg PROT_RW MAP_ANON false (p_world s0) rw_prot Hok Hfx)
    as (r & w' & Hm & Hans); [apply kind_null|].
  unfold place_of in Hans. rewrite Hnull in Hans. destruct Hans as (c & -> & Hg).
  pose proof (gr_length _ _ _ _ _ _ Hg) as Hlen. rewrite one_page in Hlen.
  pose proof (gr_base _ _ _ _ _ _ Hg) as Hbase.
  destruct (munmap_part c pg w') as (w2 & Hun & Hr2); try apply Hg; [|lia|lia|].
  { intros x Hx. apply Hg. by right. }
  exists c, w2. split_and!.
  - intros A kk. unfold map_unmap. rewrite test_assoc. erewrite run_check by exact Hm.
    rewrite test_assoc. erewrite run_check by exact Hun. done.
  - split; [apply Hg|]. intros Hr. apply Hr2 in Hr as [_ []].
    pose proof page_pos. unfold in_bounds. rewrite Hlen. split_and!; [done|done|lia|lia].
  - unfold place_of. destruct (busy _ _ _) eqn:Hb; [|done].
    apply busy_spec in Hb as (x & Hx & Hr). apply Hr2 in Hr as [_ []].
    split; [done|]. split; [done|]. unfold in_bounds. lia.
Qed.

Lemma after_free_iff :
  succeeds (ct_func (vm_reservation_mmap_after_free g)) s <->
  policy KDangling Anywhere = Some EPROT.
Proof.
  destruct (map_unmap_run s) as (c & w' & Hrun & Hk & _).
  unfold vm_reservation_mmap_after_free, with_skip, CHERIOSTEST. cbn [ct_func].
  destruct (free_flags (anon_flags g)) as [Hok Hfx]; [left|]. rewrite anon_is_plain in *.
  unfold succeeds at 1. rewrite Hrun.
  apply (must_fail_row c KDangling pg PROT_RW MAP_ANON false EPROT _ _ (set_world w' s));
    [apply rw_prot|done|done|done|done].
Qed.

(** The error number that the test looks at: that of sysctlbyname when the
    sysctl does not exist. *)
Definition errno_after (w : W) (e : Z) : Z :=
  match sysctl_quarantine_unmapped (cap := cap) w with inr x => x | inl _ => e end.

Definition wanted_errno (w : W) : option Z :=
  match sysctl_quarantine_unmapped (cap := cap) w with
  | inr x => if x =? ENOENT (cap := cap) (W := W) then Some EPROT else None
  | inl v => Some (if v =? 0 then EPROT else ENOMEM)
  end.

Context (Hsysctl : forall w, sysctl_quarantine_unmapped (cap := cap) w
                             = sysctl_quarantine_unmapped (cap := cap) (p_world s)).

Lemma errno_row s1 e want msg :
  shared s1 -> p_errno s1 = e ->
  succeeds (errno ← gets p_errno;
            CHERIOSTEST_VERIFY2 (errno =? want) msg [AInt errno] ;;
            (cheriostest_success : test cap W unit)) s1 <-> e = want.
Proof.
  intros Hs1 <-.
  trans (succeeds ((CHERIOSTEST_VERIFY2 (p_errno s1 =? want) msg [AInt (p_errno s1)]) ;;
                   (cheriostest_success : test cap W unit)) s1); [done|].
  rewrite (succeeds_checks _ _ _ s1 _ Hs1). simpl. rewrite andb_true_r, Z.eqb_eq.
  split; [by intros [? _]|]. intros ?. split; [done|]. by apply succeeds_success.
Qed.

Lemma after_free_fixed_iff :
  succeeds (ct_func (vm_reservation_mmap_after_free_fixed g)) s <->
  exists e, policy KDangling FixedFree = Some e /\
    wanted_errno (p_world s) = Some (errno_after (p_world s) e).
Proof.
  destruct (shadow_info (p_world s)) as (w0 & Hsh & _).
  set (s0 := set_world w0 s). destruct (map_unmap_run s0) as (c & w' & Hrun & Hk & Hpl).
  destruct (fixed_flags_ok (fixed_anon g)) as [Hok Hfx]; [left|].
  unfold fixed_anon in Hok, Hfx. rewrite anon_is_plain in Hok, Hfx.
  destruct (mmap_answer c KDangling pg PROT_RW (Z.lor MAP_ANON MAP_FIXED) true w' rw_prot Hok Hfx Hk)
    as (r & w2 & Hm & Hans). rewrite Hpl in Hans.
  unfold vm_reservation_mmap_after_free_fixed, with_skip, CHERIOSTEST. cbn [ct_func].
  unfold succeeds at 1. erewrite run_check by exact Hsh. fold s0. rewrite Hrun.
  set (s1 := set_world w' s0). apply (try_sys_run _ s1) in Hm.
  destruct (policy KDangling FixedFree) as [e|].
  - destruct Hans as [-> _]. rewrite (test_bind _ _ _ _ _ Hm).
    set (s2 := set_errno e (set_world w2 s1)).
    rewrite run_verify2 by done. unfold wanted_errno, errno_after.
    pose proof (Hsysctl (p_world s2)) as Hq.
    destruct (sysctl_quarantine_unmapped (cap := cap) (p_world s)) as [v|x].
    + assert (reservations_are_quarantined s2 = (Val (negb (v =? 0)), s2)) as Hrq.
      { unfold reservations_are_quarantined, gets, mbind, eff_bind. by rewrite Hq. }
      rewrite (test_bind _ _ _ _ _ Hrq).
      destruct (v =? 0); simpl negb; (etrans; [apply (errno_row s2 e _ _ Hs eq_refl)|]);
        (split; [intros ->; eauto|by intros (? & [= <-] & [= <-])]).
    + assert (reservations_are_quarantined s2 =
        if x =? ENOENT (cap := cap) (W := W) then (Val false, set_errno x s2)
        else cheriostest_failure_err
               "sysctlbyname(vm.cheri_revoke.quarantine_unmapped_reservations)" []
               (set_errno x s2)) as Hrq.
      { unfold reservations_are_quarantined, gets, modify, mbind, eff_bind. rewrite Hq.
        by destruct (x =? ENOENT). }
      destruct (x =? ENOENT).
      * rewrite (test_bind _ _ _ _ _ Hrq).
        etrans; [apply (errno_row (set_errno x s2) x _ _ Hs eq_refl)|].
        split; [intros ->; eauto|by intros (? & _ & [= <-])].
      * split; [|by intros (? & _ & ?)]. intros [v Hv]. exfalso. revert Hv.
        unfold mbind at 1, eff_bind. rewrite Hrq. unfold cheriostest_failure_err,
          vcheriostest_failure_errc, report_on_stderr, gets, mbind, eff_bind, verdict_of.
        destruct Hs as (pg0 & Hc & _). cbn. by rewrite Hc.
  - destruct Hans as (c2 & -> & _). rewrite (test_bind _ _ _ _ _ Hm).
    split; [|by intros (? & ? & _)]. intros Hsuc.
    by apply (failure_prefix "mmap after free succeeded" []) in Hsuc.
Qed.
End ResvFacts.

(** ** The table of the tests *)

Section Table.
Context {cap W : Type} {CH : Cheri cap} {CL : CheriLaws cap} {CO : CapOps cap}
  {LC : Libc cap W} {KE : Kernel cap W} {VC : VmConsts} {VM : VmMap W} {HP : Perms}
  {PL : PermLaws} {RV : ResvOS cap W}.
Context (g : config) {RR : ResvRules cap W g}.

(** A test, the builds that have it, and what it demands of the kernel. *)
Record resv_row := ResvRow {
  rr_test : cheri_test cap W;
  rr_build : bool;
  rr_demand : Prop;
}.

Definition resv_rows (s : proc cap W) : list resv_row :=
  [ResvRow (vm_reservation_reuse g) true (policy KNull FixedBusy = Some ENOMEM);
   ResvRow vm_mmap_invalid_cap true
     (flags_ok MAP_ANON = false \/ policy KUntagged Anywhere = Some EINVAL);
   ResvRow (vm_mmap_invalid_cap_fixed g) true
     (policy KUntagged (place_of g (p_world s) true invalid_hint page) = Some EINVAL);
   ResvRow (vm_reservation_mmap_invalid_cap g) true
     (policy KUntagged Anywhere = Some EINVAL);
   ResvRow (vm_reservation_mmap g) true True;
   ResvRow (vm_reservation_mmap_fixed_unreserved g) true
     (policy KNull FixedFree = None /\ policy KNull FixedBusy = Some ENOMEM);
   ResvRow (vm_reservation_mmap_insert_null_derived g) true
     (policy KNull FixedBusy = Some ENOMEM);
   ResvRow (vm_reservation_mmap_fixed_insert g) true (policy KVmem FixedBusy = None);
   ResvRow (vm_reservation_mmap_fixed_insert_noperm g) true
     (policy KNoVmem FixedBusy = Some EACCES);
   ResvRow (vm_reservation_mmap_after_free g) (is_freebsd g)
     (policy KDangling Anywhere = Some EPROT);
   ResvRow (vm_reservation_mmap_after_free_fixed g) (is_freebsd g)
     (exists e, policy KDangling FixedFree = Some e /\
        wanted_errno (p_world s) = Some (errno_after (p_world s) e))].

(** C33: on a kernel that answers mmap by the kind of the hint and the place,
    grants a mapping anywhere, and finds the free regions it is asked for, each
    test of reservations passes exactly when the kernel gives the answers that
    its row names.  Two rows show weak spots: the first test of an invalid hint
    also passes, whatever the hints do, on a kernel that refuses MAP_ANON
    without a sharing flag, and the test after a free never passes where the
    sysctl does not exist, because it looks at errno after sysctlbyname. *)
Theorem reservation_tests_verdict (s : proc cap W) :
  shared s -> policy KNull Anywhere = None ->
  free_gap g s page -> free_gap g s (page * 2) ->
  (forall w, sysctl_quarantine_unmapped (cap := cap) w
             = sysctl_quarantine_unmapped (cap := cap) (p_world s)) ->
  (forall r, r ∈ resv_rows s -> rr_build r = true ->
   (succeeds (ct_func (rr_test r)) s <-> rr_demand r)) /\
  (sysctl_quarantine_unmapped (cap := cap) (p_world s) = inr (ENOENT (cap := cap) (W := W)) ->
   ENOENT (cap := cap) (W := W) <> EPROT -> is_freebsd g = true ->
   ~ succeeds (ct_func (vm_reservation_mmap_after_free_fixed g)) s).
Proof.
  intros Hs Hnull Hgap1 Hgap2 Hsysctl. split.
  - intros r Hr Hb. unfold resv_rows in Hr. rewrite !elem_of_cons, elem_of_nil in Hr.
    destruct Hr as [-> | [-> | [-> | [-> | [-> | [-> | [-> | [-> | [-> | [-> | [-> | []]]]]]]]]]]];
      cbn [rr_test rr_demand rr_build] in *.
    + by apply (reuse_iff g).
    + by apply (invalid_cap_iff g).
    + by apply (invalid_cap_fixed_iff g).
    + by apply (resv_invalid_cap_iff g).
    + split; [done|]. intros _. by apply (reservation_mmap_passes g s Hs Hnull).
    + by apply (fixed_unreserved_iff g).
    + by apply (insert_null_iff g).
    + by apply (fixed_insert_iff g).
    + by apply (fixed_insert_noperm_iff g).
    + by apply (after_free_iff g).
    + by apply (after_free_fixed_iff g).
  - intros Hq Hne Hbsd. rewrite (after_free_fixed_iff g (RR := RR) s Hs Hnull Hbsd Hsysctl).
    unfold wanted_errno, errno_after. rewrite Hq, Z.eqb_refl. intros (e & _ & [= He]). by destruct Hne.
Qed.
End Table.

(** ** A concrete kernel *)

#[export] Instance scap_ops : CapOps scap.
Proof.
  split; intros; simpl in *; try done; try (by rewrite wrapu_idemp).
  unfold wrapu. rewrite <- !(Z.land_ones _ 64) by lia.
  apply Z.bits_inj'. intros n Hn. rewrite !Z.land_spec.
  destruct (Z.testbit (sc_perms c) n), (Z.testbit p n), (Z.testbit (Z.ones 64) n); done.
Qed.

Record rworld := RWorld { rw_reserved : Z -> bool }.

Definition rw_policy (k : hint_kind) (p : place) : option Z :=
  match k, p with
  | KNull, FixedBusy => Some 12
  | KNull, _ => None
  | KUntagged, _ => Some 22
  | KVmem, _ => None
  | KNoVmem, _ => Some 13
  | KDangling, _ => Some 96
  end.

Definition rw_kind (w : rworld) (c : scap) : hint_kind :=
  if cheri_tag_get c then
    if rw_reserved w (cheri_base_get c) then
      if has_vmem c then KVmem else KNoVmem
    else KDangling
  else if decide (c = cap_of_int (sc_addr c)) then KNull else KUntagged.

Definition rw_busy (w : rworld) (a n : Z) : bool := existsb (rw_reserved w) (seqZ a n).

Definition rw_place (w : rworld) (hint : scap) (len flags : Z) : place :=
  if flag_set flags MAP_FIXED
  then if rw_busy w (cheri_address_get hint) len then FixedBusy else FixedFree
  else Anywhere.

Definition rw_flags_ok (flags : Z) : bool :=
  flag_set flags MAP_PRIVATE || flag_set flags MAP_SHARED || flag_set flags MAP_GUARD.

Definition rw_in (c : scap) (x : Z) : bool :=
  in_range (cheri_base_get c) (cheri_length_get c) x.

Definition rw_mmap (hint : scap) (len flags : Z) (w : rworld) : (scap + Z) * rworld :=
  if rw_flags_ok flags then
    match rw_policy (rw_kind w hint) (rw_place w hint len flags) with
    | Some e => (inr e, w)
    | None =>
        let a := if flag_set flags MAP_FIXED then cheri_address_get hint else 0x100000 in
        let c := SCap true a a (Z.land len 0xffffffff) CHERI_PERM_SW_VMEM (-1) in
        (inl c, RWorld (fun x => rw_reserved w x || rw_in c x))
    end
  else (inr 22, w).

Definition rw_munmap (c : scap) (n : Z) (w : rworld) : (Z + Z) * rworld :=
  (inl 0, RWorld (fun x => rw_reserved w x &&
     negb ((cheri_address_get c =? cheri_base_get c) && (n =? cheri_length_get c) && rw_in c x))).

#[export] Instance rworld_kernel : Kernel scap rworld := {|
  getpagesize := 4096;
  sys_mmap c len _ flags _ _ w := rw_mmap c len flags w;
  sys_munmap c n w := rw_munmap c n w;
  sys_mprotect _ _ _ w := (inl 0, w);
  sys_minherit _ _ _ w := (inl 0, w);
  sys_shmget _ _ _ w := (inl 5, w);
  sys_shmat _ c _ w := (inl c, w);
  sys_shmdt _ w := (inl 0, w);
  sys_shm_open _ _ _ w := (inl 3, w);
  sys_shm_unlink _ w := (inl 0, w);
  sys_memfd_create _ _ w := (inl 3, w);
  sys_open _ _ w := (inl 3, w);
  sys_mkstemp t w := (inl (3, t), w);
  sys_unlink _ w := (inl 0, w);
  sys_ftruncate _ _ w := (inl 0, w);
  sys_close _ w := (inl 0, w);
  os_random w := (7, w);
  mem_load_cap c _ w := (inl c, w);
  mem_store_cap _ _ _ w := (inl tt, w);
  mem_store_byte _ _ _ w := (inl tt, w);
  stack_local size := toy_cap 0x7000 size 0 0;
|}.

#[export] Instance rworld_os : ResvOS scap rworld := {|
  mem_load_int _ w := (inl 0, w);
  cheri_pcc_get := toy_cap 0x8000 0x1000 0 2;
  test_bufferp := toy_cap 0x9000 64 0 2;
  CHERI_ALIGN_SHIFT _ := 12;
  feature_present _ _ := true;
  sysctl_runtime_revocation_default _ := inl 1;
  sysctl_quarantine_unmapped _ := inr 2;
  cheri_revoke_get_shadow_info w := (inl 0, w);
  ENOENT := 2;
|}.

Lemma rw_kind_unique (w : rworld) k c :
  kind_is (fun x => rw_reserved w x = true) k c -> rw_kind w c = k.
Proof.
  unfold rw_kind. destruct k; simpl; intros H.
  - destruct H as [a ->]. simpl. rewrite decide_True; [done|].
    unfold cap_of_int. simpl. by rewrite wrapu_idemp.
  - destruct H as [-> Hn]. rewrite decide_False; [done|]. intros He. apply Hn. by exists (sc_addr c).
  - destruct H as (-> & -> & ->). done.
  - destruct H as (-> & -> & ->). done.
  - destruct H as (-> & Hn). by destruct (rw_reserved w _).
Qed.

Lemma rw_granted (w : rworld) (hint : scap) (len : Z) (fixed : bool) (p : place) :
  (p = Anywhere <-> fixed = false) ->
  let a := if fixed then cheri_address_get hint else 0x100000 in
  let c := SCap true a a (Z.land len 0xffffffff) CHERI_PERM_SW_VMEM (-1) in
  cheri_tag_get c = true /\ cheri_is_sealed c = false /\ has_vmem c = true /\
  cheri_base_get c = cheri_address_get c /\ cheri_length_get c = Z.land len 0xffffffff /\
  (p = Anywhere -> cheri_base_get c + cheri_length_get c < 2 ^ 64) /\
  (p <> Anywhere -> cheri_address_get c = cheri_address_get hint) /\
  forall x, (rw_reserved w x || rw_in c x) = true <-> rw_reserved w x = true \/ in_bounds c x.
Proof.
  intros Hp a c. pose proof (address_range hint) as Ha.
  assert (0 <= Z.land len 0xffffffff < 2 ^ 32) as Hl.
  { change 0xffffffff with (Z.ones 32). rewrite Z.land_ones by lia. apply Z.mod_pos_bound. lia. }
  assert (0 <= a < 2 ^ 64) as Hr by (unfold a; destruct fixed; [done|lia]).
  assert (cheri_address_get c = a) as Hca by (apply wrapu_small; lia).
  split_and!; try done.
  - apply wrapu_small. lia.
  - intros Hpa. apply Hp in Hpa. subst fixed. unfold a, c. simpl. rewrite !wrapu_small by lia. lia.
  - intros Hpa. rewrite Hca. unfold a. destruct fixed; [done|]. by destruct Hpa; apply Hp.
  - intros x. unfold rw_in, in_range, in_bounds.
    rewrite orb_true_iff, andb_true_iff, Z.leb_le, Z.ltb_lt. tauto.
Qed.

#[export] Instance rworld_rules : ResvRules scap rworld toy_config.
Proof.
  refine {| reserved w x := rw_reserved w x = true; busy := rw_busy; policy := rw_policy;
            flags_ok := rw_flags_ok; map_length len := Z.land len 0xffffffff |}.
  - intros w a n. unfold rw_busy. rewrite existsb_exists. split.
    + intros (x & Hx & Hr). exists x. apply list_elem_of_In, elem_of_seqZ in Hx. by split; [lia|].
    + intros (x & Hx & Hr). exists x. split; [|done]. apply list_elem_of_In, elem_of_seqZ. lia.
  - intros hint k len prot flags e w p _ Hf Hk Hpol. exists w. split; [|done].
    simpl. unfold rw_mmap. rewrite Hf, (rw_kind_unique _ _ _ Hk).
    unfold rw_place. fold p. by rewrite Hpol.
  - intros hint k len prot flags w p _ Hf Hk Hpol.
    simpl. unfold rw_mmap. rewrite Hf, (rw_kind_unique _ _ _ Hk).
    unfold rw_place. fold p. rewrite Hpol. eexists _, _. split; [reflexivity|].
    apply (rw_granted w hint len (flag_set flags MAP_FIXED) p).
    unfold p. destruct (flag_set flags MAP_FIXED); [by destruct (rw_busy _ _ _)|done].
  - intros hint len prot flags w Hf. simpl. unfold rw_mmap. rewrite Hf. by eexists.
  - intros c n w Ht Hv Hr Hb Ha. eexists. split; [reflexivity|]. intros x. simpl.
    unfold rw_in, in_range, in_bounds. simpl.
    rewrite andb_true_iff, negb_true_iff, <- not_true_iff_false,
      !andb_true_iff, !Z.eqb_eq, Z.leb_le, Z.ltb_lt. tauto.
  - intros w. by eexists.
  - intros n [-> | [-> | ->]]; reflexivity.
  - done.
  - done.
  - intros flags Hf. rewrite !elem_of_cons, elem_of_nil in Hf.
    by destruct Hf as [-> | [-> | []]].
  - intros flags Hf. rewrite !elem_of_cons, elem_of_nil in Hf.
    by destruct Hf as [-> | [-> | []]].
  - done.
Defined.

Definition rworld_proc : proc scap rworld :=
  Proc (Some child_state_zero) 0 ∅ "" "" 0 (RWorld toy_mapped).

#[export] Instance rworld_vm_map : VmMap rworld := {|
  procstat_open_sysctl _ := true;
  procstat_getprocs _ := Some 1;
  procstat_getvmmap _ := Some toy_maps;
  proc_self_maps _ := inr toy_lines;
  malloc_vma_attr _ _ := true;
|}.

Lemma rworld_gap (n : Z) : n = 4096 \/ n = 8192 -> free_gap toy_config rworld_proc n.
Proof.
  intros Hn. exists 0x20000. destruct Hn as [-> | ->]; (split; [vm_compute; reflexivity|]);
    (split; [done|]); (split; [done|]); intros x Hx; simpl; unfold toy_mapped, in_range; simpl; lia.
Qed.

Lemma reservation_tests_verdict_witness :
  (forall r, r ∈ resv_rows toy_config rworld_proc -> rr_build r = true ->
   (succeeds (ct_func (rr_test r)) rworld_proc <-> rr_demand r)) /\
  succeeds (ct_func (vm_reservation_mmap_fixed_insert_noperm toy_config)) rworld_proc.
Proof.
  destruct (reservation_tests_verdict (RR := rworld_rules) toy_config rworld_proc) as [H _];
    [by eexists|done|by apply rworld_gap; left|by apply rworld_gap; right|done|].
  split; [exact H|].
  apply (H (ResvRow (vm_reservation_mmap_fixed_insert_noperm toy_config) true
     (policy KNoVmem FixedBusy = Some EACCES))); [|done|reflexivity].
  do 8 right. left.
Defined.
