(* ===== verification/Judge.v ===== *)
(** * Judge: a logic of test bodies over an abstract machine

    A kernel that implements a reference machine is seen through a function
    [absf] from its state to a state of the machine.  [steps m v P]: from [v],
    the part [m] of a body gives a value and a new state in [P]; [judged m v P]:
    the body [m], run from [v], ends with success exactly when [P] holds;
    [exits]: the same for a process that ends with a status.  The rules run a
    body along the laws of its calls.

    It also holds the wait for a forked process, which several tests share. *)

From S2P Require Import Prelude Printf Cheri Harness Runner Spawn Kernel.

(** sys/wait.h *)
Definition WIFSTOPPED (status : Z) : bool := Z.land status 0xff =? 0x7f.
Definition WIFEXITED (status : Z) : bool := Z.land status 0x7f =? 0.
Definition WEXITSTATUS (status : Z) : Z := Z.land (Z.shiftr status 8) 0xff.

Lemma exit_status n : 0 <= n < 256 ->
  WIFEXITED (Z.shiftl n 8) = true /\ WEXITSTATUS (Z.shiftl n 8) = n.
Proof.
  intros Hn. unfold WIFEXITED, WEXITSTATUS. split.
  - apply Z.eqb_eq, Z.bits_inj'. intros k Hk. rewrite Z.land_spec, Z.bits_0, andb_false_iff.
    destruct (decide (k < 8)); [left; apply Z.shiftl_spec_low; lia|right].
    apply (Z.bits_above_log2 0x7f); [done|]. change (Z.log2 0x7f) with 6. lia.
  - rewrite Z.shiftr_shiftl_l by lia. rewrite Z.shiftl_0_r.
    change 0xff with (Z.ones 8). rewrite Z.land_ones by lia. by apply Z.mod_small.
Qed.

(** fork(2), and whose memory and descriptors the calls see. *)
Class ForkOS (W : Type) := {
  sys_fork : fork_call -> W -> (Z + Z) * W;
  as_child : W -> W;                                (* the calls of the child *)
  as_parent : W -> W;                               (* and of the parent again *)
}.

Section Wait.
Context {cap W : Type} {CH : Cheri cap} {LC : Libc cap W} {FO : ForkOS W}.
Context (g : config).

(** waitpid(2) for the forked child whose program is [child]: it runs with its
    own errno on the page that it shares with its parent, and the parent gets
    its status.  The program has nothing to say to a running parent but through
    the calls that block it until the parent has made them, so that running it
    at this point is one of its schedules. *)
Definition wait_child (child : test cap W unit) : test cap W Z := fun s =>
  match end_of_process g (child (set_world (as_child (p_world s)) s)) with
  | Some (st, s') =>
      (Val (match st with
            | WExited code => Z.shiftl code 8
            | WSignaled sig => sig
            | WOther => 127
            end),
       set_errno (p_errno s) (set_world (as_parent (p_world s')) s'))
  | None => (Undef, s)
  end.

Definition fork_or_fail (how : fork_call) : test cap W Z :=
  pid ← try_sys (sys_fork how);
  match pid with
  | Some pid => mret pid
  | None => errno ← gets p_errno;
            cheriostest_failure_errx "Fork failed; errno=%d" [AInt errno]
  end.

End Wait.

Section Defs.
Context {cap W St : Type} {CH : Cheri cap} {LC : Libc cap W} (absf : W -> St).

(** The process has its page, and its machine is [v]. *)
Definition on (v : St) (s : proc cap W) : Prop := shared s /\ absf (p_world s) = v.

(** [m] gives a value of [P] and takes the machine from [v] to one in [P]. *)
Definition steps {A} (m : test cap W A) (v : St) (P : A -> St -> Prop) : Prop :=
  forall s, on v s -> exists a s' v', m s = (Val a, s') /\ P a v' /\ on v' s'.

(** A body that succeeds exactly when [P] holds. *)
Definition judged {A} (m : test cap W A) (v : St) (P : Prop) : Prop :=
  forall s, on v s -> (succeeds m s <-> P).

(** A child that exits with [n] and leaves the machine in [Q]. *)
Definition exits (m : test cap W unit) (v : St) (n : Z) (Q : St -> Prop) : Prop :=
  forall s, on v s -> exists s' v', m s = (Exited n, s') /\ Q v' /\ on v' s'.

(** [m] declares a failure and exits. *)
Definition fails {A} (m : test cap W A) (v : St) : Prop :=
  forall s, on v s -> exists s' v', m s = (Exited EX_SOFTWARE, s') /\ on v' s'.

(** [m] makes checks that hold exactly when [b]: it goes on, to [Q], or fails. *)
Definition decides {A} (m : test cap W A) (v : St) (b : bool) (Q : A -> St -> Prop) : Prop :=
  if b then steps m v Q else fails m v.

End Defs.

Section Logic.
Context {cap W St : Type} {CH : Cheri cap} {LC : Libc cap W} {absf : W -> St}.

Abbreviation on := (on (cap := cap) absf).
Abbreviation steps := (steps (cap := cap) absf).
Abbreviation judged := (judged (cap := cap) absf).
Abbreviation exits := (exits (cap := cap) absf).
Abbreviation fails := (fails (cap := cap) absf).
Abbreviation decides := (decides (cap := cap) absf).

Lemma steps_call2 {A} (f : W -> (A + Z) * W) msg ap v (P : A -> St -> Prop) :
  (forall w, absf w = v -> exists a w', f w = (inl a, w') /\ P a (absf w')) ->
  steps (CHERIOSTEST_CHECK_SYSCALL2 (sys f) msg ap) v P.
Proof.
  intros Hf s [Hs Hv]. destruct (Hf _ Hv) as (a & w' & Hr & HP).
  exists a, (set_world w' s), (absf w'). split; [|by split; [|split]].
  unfold CHERIOSTEST_CHECK_SYSCALL2, sys, mbind, eff_bind. by rewrite Hr.
Qed.

Lemma steps_access {A} (f : W -> (A + siginfo cap) * W) v (P : A -> St -> Prop) :
  (forall w, absf w = v -> exists a w', f w = (inl a, w') /\ P a (absf w')) ->
  steps (access f) v P.
Proof.
  intros Hf s [Hs Hv]. destruct (Hf _ Hv) as (a & w' & Hr & HP).
  exists a, (set_world w' s), (absf w'). split; [|by split; [|split]].
  unfold access. by rewrite Hr.
Qed.

Lemma steps_bind {A B} (m : test cap W A) (k : A -> test cap W B) v
    (P : A -> St -> Prop) (Q : B -> St -> Prop) :
  steps m v P -> (forall a v', P a v' -> steps (k a) v' Q) -> steps (m ≫= k) v Q.
Proof.
  intros Hm Hk s Hs. destruct (Hm s Hs) as (a & s' & v' & Hr & HP & Hs').
  destruct (Hk a v' HP s' Hs') as (b & s2 & v2 & Hr2 & HQ & Hs2).
  exists b, s2, v2. split; [|done]. by rewrite (test_bind _ _ _ _ _ Hr).
Qed.

Lemma steps_ret {A} (a : A) v (P : A -> St -> Prop) : P a v -> steps (mret a) v P.
Proof. intros HP s Hs. by exists a, s, v. Qed.

Lemma steps_mono {A} (m : test cap W A) v (P Q : A -> St -> Prop) :
  steps m v P -> (forall a v', P a v' -> Q a v') -> steps m v Q.
Proof.
  intros Hm HPQ s Hs. destruct (Hm s Hs) as (a & s' & v' & ? & ? & ?).
  exists a, s', v'. auto.
Qed.

Lemma steps_verify b msg ap v :
  b = true -> steps (CHERIOSTEST_VERIFY2 b msg ap) v (fun _ v' => v' = v).
Proof. intros -> s Hs. by exists tt, s, v. Qed.

Lemma judged_bind {A B} (m : test cap W A) (k : A -> test cap W B) v
    (Q : A -> St -> Prop) (P : Prop) :
  steps m v Q -> (forall a v', Q a v' -> judged (k a) v' P) -> judged (m ≫= k) v P.
Proof.
  intros Hm Hk s Hs. destruct (Hm s Hs) as (a & s' & v' & Hr & HQ & Hs').
  rewrite (succeeds_bind _ _ _ _ _ Hr). by apply (Hk a v').
Qed.

Lemma judged_assoc {A B D} (m : test cap W A) (f : A -> test cap W B)
    (k : B -> test cap W D) v P :
  judged (m ≫= (fun a => f a ≫= k)) v P -> judged ((m ≫= f) ≫= k) v P.
Proof. intros H s Hs. rewrite succeeds_assoc. by apply H. Qed.

Lemma judged_ret {A B} (a : A) (k : A -> test cap W B) v P :
  judged (k a) v P -> judged (mret a ≫= k) v P.
Proof. done. Qed.

Lemma judged_verify {B} b msg ap (k : test cap W B) v (P : Prop) :
  (b = true -> judged k v P) -> (b = false -> ~ P) ->
  judged (CHERIOSTEST_VERIFY2 b msg ap ;; k) v P.
Proof.
  intros Hk Hf s Hs. destruct b.
  - by apply Hk.
  - split; [|intros HP; by destruct (Hf eq_refl)].
    intros Hsuc. by apply failure_prefix in Hsuc.
Qed.

Lemma judged_failure {A B} msg ap (k : A -> test cap W B) v P :
  ~ P -> judged (cheriostest_failure_errx msg ap ≫= k) v P.
Proof.
  intros HP s Hs. split; [|done]. intros Hf. by apply failure_prefix in Hf.
Qed.

Lemma judged_failure_end {A} msg ap v P :
  ~ P -> judged (cheriostest_failure_errx (A := A) msg ap) v P.
Proof.
  intros HP s Hs. split; [|done]. intros Hf. by apply not_succeeds_failure_errx in Hf.
Qed.

Lemma judged_success {A} v (P : Prop) : P -> judged (cheriostest_success (A := A)) v P.
Proof. intros HP s [Hs _]. by split; [|intros _; apply succeeds_success]. Qed.

(** What follows the declaration of success does not count. *)
Lemma judged_after_success {A B} (k : A -> test cap W B) v :
  judged (cheriostest_success ≫= k) v True.
Proof.
  intros s [(c & Hc & Hl) _]. split; [done|]. intros _. exists false.
  unfold cheriostest_success, with_ccsp, mbind, eff_bind. by rewrite Hc.
Qed.

Lemma judged_fault {A B} (f : W -> (A + siginfo cap) * W) (k : A -> test cap W B) v (P : Prop) :
  (forall w, absf w = v -> exists si w', f w = (inr si, w')) -> ~ P ->
  judged (access f ≫= k) v P.
Proof.
  intros Hf HP s [Hs Hv]. split; [|done]. destruct (Hf _ Hv) as (si & w' & Hr).
  unfold succeeds. rewrite (run_fault _ _ _ _ _ Hr). by intros [? ?].
Qed.

Lemma judged_iff {A} (m : test cap W A) v (P Q : Prop) :
  judged m v P -> (P <-> Q) -> judged m v Q.
Proof. intros Hm HPQ s Hs. rewrite (Hm s Hs). exact HPQ. Qed.

Lemma exits_bind {A} (m : test cap W A) (k : A -> test cap W unit) v
    (R : A -> St -> Prop) n Q :
  steps m v R -> (forall a v', R a v' -> exits (k a) v' n Q) -> exits (m ≫= k) v n Q.
Proof.
  intros Hm Hk s Hs. destruct (Hm s Hs) as (a & s' & v' & Hr & HQ & Hs').
  rewrite (test_bind _ _ _ _ _ Hr). by apply (Hk a v').
Qed.

Lemma exits_assoc {A B} (m : test cap W A) (f : A -> test cap W B)
    (k : B -> test cap W unit) v n Q :
  exits (m ≫= (fun a => f a ≫= k)) v n Q -> exits ((m ≫= f) ≫= k) v n Q.
Proof. intros H s Hs. rewrite test_assoc. by apply H. Qed.

Lemma exits_ret {A} (a : A) (k : A -> test cap W unit) v n Q :
  exits (k a) v n Q -> exits (mret a ≫= k) v n Q.
Proof. done. Qed.

Lemma exits_exit v n (Q : St -> Prop) : Q v -> exits (exit n) v n Q.
Proof. intros HQ s Hs. by exists s, v. Qed.

Lemma exits_verify b msg ap (k : test cap W unit) v n (Q : St -> Prop) :
  (b = true -> exits k v n Q) -> (b = false -> n = EX_SOFTWARE /\ Q v) ->
  exits (CHERIOSTEST_VERIFY2 b msg ap ;; k) v n Q.
Proof.
  intros Hk Hf. destruct b; [by apply Hk|]. destruct (Hf eq_refl) as [-> HQ].
  intros s [(c & Hc & Hl) Hv]. unfold CHERIOSTEST_VERIFY2, cheriostest_failure_errx,
    vcheriostest_failure_errx, mbind, eff_bind. rewrite Hc.
  eexists _, v. split; [reflexivity|]. split; [done|]. split; [|done].
  eexists. split; [reflexivity|]. simpl. by rewrite length_snprintf_at by (simpl; lia).
Qed.

Lemma exits_cap_eq c t1 t2 (k : test cap W unit) v n Q :
  exits k v n Q -> exits (cheriostest_check_cap_eq c c t1 t2 ;; k) v n Q.
Proof.
  intros Hk. unfold cheriostest_check_cap_eq, check_cap_attr.
  repeat (apply exits_assoc).
  do 7 (try apply exits_assoc; apply exits_verify; [intros _|by rewrite Z.eqb_refl]).
  exact Hk.
Qed.

Lemma steps_try {A} (f : W -> (A + Z) * W) v (P : A -> St -> Prop) :
  (forall w, absf w = v -> exists a w', f w = (inl a, w') /\ P a (absf w')) ->
  steps (try_sys f) v (fun r v' => exists a, r = Some a /\ P a v').
Proof.
  intros Hf s [Hs Hv]. destruct (Hf _ Hv) as (a & w' & Hr & HP).
  apply (try_sys_run _ s) in Hr. exists (Some a), (set_world w' s), (absf w').
  split; [done|]. split; [by exists a|by split].
Qed.

Lemma steps_gets {A} (f : proc cap W -> A) v (P : A -> St -> Prop) :
  (forall s, on v s -> P (f s) v) -> steps (gets f) v P.
Proof. intros HP s Hs. exists (f s), s, v. split; [done|]. split; [by apply HP|done]. Qed.

Lemma steps_libcall {A} (f : W -> A * W) v (P : A -> St -> Prop) :
  (forall w, absf w = v -> P (f w).1 (absf (f w).2)) -> steps (libcall f) v P.
Proof.
  intros Hf s [Hs Hv]. specialize (Hf _ Hv). unfold libcall.
  destruct (f (p_world s)) as [a w'] eqn:Hr. exists a, (set_world w' s), (absf w').
  by split; [|split; [|split]].
Qed.

Lemma steps_report msg ap v : steps (report_on_stderr msg ap) v (fun _ v' => v' = v).
Proof. intros s Hs. by eexists tt, _, v. Qed.

Lemma steps_when (b : bool) (m : test cap W unit) v :
  (b = true -> steps m v (fun _ v' => v' = v)) -> steps (when b m) v (fun _ v' => v' = v).
Proof. intros Hm. destruct b; [by apply Hm|]. by apply steps_ret. Qed.

(** *** Checks *)

Lemma fails_errx {A} msg ap v : fails (cheriostest_failure_errx (A := A) msg ap) v.
Proof.
  intros s [(c & Hc & Hl) Hv]. unfold cheriostest_failure_errx, vcheriostest_failure_errx,
    mbind, eff_bind. rewrite Hc. eexists _, v. split; [reflexivity|].
  split; [|done]. eexists. split; [reflexivity|].
  simpl. by rewrite length_snprintf_at by (simpl; lia).
Qed.

Lemma fails_err {A} msg ap v : fails (cheriostest_failure_err (A := A) msg ap) v.
Proof.
  intros s [(c & Hc & Hl) Hv]. unfold cheriostest_failure_err, vcheriostest_failure_errc,
    gets, mbind, eff_bind. rewrite Hc. eexists _, v. split; [reflexivity|].
  split; [|done]. eexists. split; [reflexivity|]. unfold set_result.
  cbn [ccs_testresult_str]. cbv zeta. set (text := format msg ap).
  destruct (Nat.leb_spec TESTRESULT_STR_LEN (String.length text)).
  - by rewrite length_snprintf_at by (rewrite Hl; lia).
  - rewrite length_snprintf_at; rewrite length_snprintf_at; rewrite ?Hl; lia.
Qed.

Lemma fails_bind {A B} (m : test cap W A) (k : A -> test cap W B) v :
  fails m v -> fails (m ≫= k) v.
Proof.
  intros Hm s Hs. destruct (Hm s Hs) as (s' & v' & Hr & H). exists s', v'. split; [|done].
  unfold mbind, eff_bind. by rewrite Hr.
Qed.

Lemma steps_fails {A B} (m : test cap W A) (k : A -> test cap W B) v Q :
  steps m v Q -> (forall a v', Q a v' -> fails (k a) v') -> fails (m ≫= k) v.
Proof.
  intros Hm Hk s Hs. destruct (Hm s Hs) as (a & s' & v' & Hr & HQ & Hs').
  rewrite (test_bind _ _ _ _ _ Hr). by apply (Hk a v').
Qed.

Lemma fails_judged {A} (m : test cap W A) v (P : Prop) : fails m v -> ~ P -> judged m v P.
Proof.
  intros Hm HP s Hs. split; [|done]. destruct (Hm s Hs) as (s' & v' & Hr & _).
  intros [x H]. revert H. rewrite Hr. unfold verdict_of. simpl.
  by destruct (p_ccsp s') as [c|]; [destruct (ccs_testresult c =? _)|].
Qed.

Lemma fails_exits (m : test cap W unit) v : fails m v -> exits m v EX_SOFTWARE (fun _ => True).
Proof. intros Hm s Hs. destruct (Hm s Hs) as (s' & v' & ? & ?). by exists s', v'. Qed.

Lemma decides_bind {A B} (m : test cap W A) (k : A -> test cap W B) v b b' Q R :
  decides m v b Q -> (b = true -> forall a v', Q a v' -> decides (k a) v' b' R) ->
  decides (m ≫= k) v (b && b') R.
Proof.
  intros Hm Hk. destruct b; simpl in *; [|by apply fails_bind].
  specialize (Hk eq_refl). destruct b'; simpl in *.
  - by apply (steps_bind _ _ _ Q).
  - by apply (steps_fails _ _ _ Q).
Qed.

Lemma decides_steps {A B} (m : test cap W A) (k : A -> test cap W B) v b Q R :
  steps m v Q -> (forall a v', Q a v' -> decides (k a) v' b R) -> decides (m ≫= k) v b R.
Proof. intros Hm Hk. by apply (decides_bind _ _ _ true b Q R). Qed.

Lemma decides_mono {A} (m : test cap W A) v b (Q R : A -> St -> Prop) :
  decides m v b Q -> (forall a v', Q a v' -> R a v') -> decides m v b R.
Proof. intros Hm HQ. destruct b; [|done]. by apply (steps_mono _ _ Q). Qed.

Lemma decides_verify b msg ap v :
  decides (CHERIOSTEST_VERIFY2 b msg ap) v b (fun _ v' => v' = v).
Proof. destruct b; [by apply steps_verify|apply fails_errx]. Qed.

Lemma decides_foreach {A} (f : A -> test cap W unit) (b : A -> bool) l v :
  (forall x, x ∈ l -> decides (f x) v (b x) (fun _ v' => v' = v)) ->
  decides (foreach l f) v (forallb b l) (fun _ v' => v' = v).
Proof.
  intros Hf. induction l as [|x l IH]; [by apply steps_ret|].
  apply (decides_bind _ _ _ _ _ (fun _ v' => v' = v)); [apply Hf; left|].
  intros _ _ ? ->. apply IH. intros y Hy. apply Hf. by right.
Qed.

Lemma judged_decides {A B} (m : test cap W A) (k : A -> test cap W B) v b Q (P : Prop) :
  decides m v b Q -> (b = true -> forall a v', Q a v' -> judged (k a) v' P) ->
  (P -> b = true) -> judged (m ≫= k) v P.
Proof.
  intros Hm Hk HP. destruct b; simpl in *.
  - eapply judged_bind; [exact Hm|]. by apply Hk.
  - apply fails_judged; [by apply fails_bind|]. intros H. by apply HP in H.
Qed.

Lemma exits_decides {A} (m : test cap W A) (k : A -> test cap W unit) v (b : bool) R n :
  decides m v b R -> (forall a v', R a v' -> exits (k a) v' n (fun _ => True)) ->
  exits (m ≫= k) v (if b then n else EX_SOFTWARE) (fun _ => True).
Proof.
  intros Hm Hk. destruct b; simpl in *; [by eapply exits_bind|].
  by apply fails_exits, fails_bind.
Qed.

(** A sequence of checks, with the list that [Checks] finds. *)
Lemma judged_checks {A} m l (next : test cap W A) v (P : Prop) :
  Checks m l -> judged next v P ->
  judged (m ;; next) v (forallb chk_ok l = true /\ P).
Proof. intros Hl Hn s Hs. rewrite (succeeds_checks _ _ _ s Hl (proj1 Hs)). by rewrite (Hn s Hs). Qed.

(** A call whose result is known: the body goes on, or has failed. *)
Lemma judged_call2 {A B} (f : W -> (A + Z) * W) msg ap (k : A -> test cap W B) v r v' (P : Prop) :
  (forall w, absf w = v -> exists w', f w = (r, w') /\ absf w' = v') ->
  (forall a, r = inl a -> judged (k a) v' P) -> (forall e, r = inr e -> ~ P) ->
  judged (CHERIOSTEST_CHECK_SYSCALL2 (sys f) msg ap ≫= k) v P.
Proof.
  intros Hf Hk HP. destruct r as [a|e].
  - eapply judged_bind; [apply (steps_call2 _ _ _ _ (fun x v2 => x = a /\ v2 = v'))|].
    + intros w Hw. destruct (Hf w Hw) as (w' & ? & <-). by exists a, w'.
    + intros ? ? [-> ->]. by apply Hk.
  - intros s [Hs Hv]. destruct (Hf _ Hv) as (w' & Hr & _). split; [|by intros ?%(HP e)].
    intros H. by apply (fail_check2 _ _ _ _ _ _ _ Hr) in H.
Qed.

(** The same for a call that the body looks at itself. *)
Lemma judged_try {A B} (f : W -> (A + Z) * W) (k : option A -> test cap W B) v r v' (P : Prop) :
  (forall w, absf w = v -> exists w', f w = (r, w') /\ absf w' = v') ->
  judged (k (match r with inl a => Some a | inr _ => None end)) v' P ->
  judged (try_sys f ≫= k) v P.
Proof.
  intros Hf Hk s [Hs Hv]. destruct (Hf _ Hv) as (w' & Hr & Hw).
  pose proof (try_sys_run f s r w' Hr) as Ht.
  destruct r as [a|e]; rewrite (succeeds_bind _ _ _ _ _ Ht); apply Hk; by split.
Qed.

(** A library call, a load or a store whose result is known. *)
Lemma judged_libcall {A B} (f : W -> A * W) (k : A -> test cap W B) v a v' (P : Prop) :
  (forall w, absf w = v -> (f w).1 = a /\ absf (f w).2 = v') ->
  judged (k a) v' P -> judged (libcall f ≫= k) v P.
Proof.
  intros Hf Hk. eapply judged_bind; [apply (steps_libcall _ _ (fun x v2 => x = a /\ v2 = v'))|].
  - intros w Hw. by apply Hf.
  - by intros ? ? [-> ->].
Qed.

Lemma judged_access {A B} (f : W -> (A + siginfo cap) * W) (k : A -> test cap W B) v r v' (P : Prop) :
  (forall w, absf w = v -> exists w', f w = (r, w') /\ absf w' = v') ->
  (forall a, r = inl a -> judged (k a) v' P) -> (forall si, r = inr si -> ~ P) ->
  judged (access f ≫= k) v P.
Proof.
  intros Hf Hk HP. destruct r as [a|si].
  - eapply judged_bind; [apply (steps_access _ _ (fun x v2 => x = a /\ v2 = v'))|].
    + intros w Hw. destruct (Hf w Hw) as (w' & ? & <-). by exists a, w'.
    + intros ? ? [-> ->]. by apply Hk.
  - apply judged_fault; [|by apply (HP si)]. intros w Hw. destruct (Hf w Hw) as (w' & Hr & _).
    by exists si, w'.
Qed.

(** A check in a row of demands. *)
Lemma judged_and {B} b msg ap (k : test cap W B) v (P Q : Prop) :
  (b = true <-> P) -> judged k v Q ->
  judged (CHERIOSTEST_VERIFY2 b msg ap ;; k) v (P /\ Q).
Proof.
  intros Hb Hk. apply judged_verify.
  - intros Ht. eapply judged_iff; [exact Hk|]. tauto.
  - intros Hf [HP _]. apply Hb in HP. congruence.
Qed.

(** [cheriostest_success] ends a process with status 0. *)
Lemma exits_success v (Q : St -> Prop) : Q v -> exits cheriostest_success v 0 Q.
Proof.
  intros HQ s [(c & Hc & Hl) Hv]. unfold cheriostest_success, with_ccsp, mbind, eff_bind.
  rewrite Hc. eexists _, v. split; [reflexivity|]. split; [done|]. split; [|done].
  by eexists.
Qed.

End Logic.

(** ** Declared failures

    [succeeds] says that a body declares success.  For a test that expects a
    signal that is not enough: its failures must be declared in the page, and its
    page must not have a signal. *)

Section Declared.
Context {cap W : Type} {CH : Cheri cap} {LC : Libc cap W}.

(** The process has declared a failure and left. *)
Definition declares_failure {A} (r : outcome cap A * proc cap W) : Prop :=
  exists s' c, r = (Exited EX_SOFTWARE, s') /\ p_ccsp s' = Some c /\
    ccs_testresult c = TESTRESULT_FAILURE.

Lemma failure_errx_declares {A} msg ap s c : p_ccsp s = Some c ->
  declares_failure (cheriostest_failure_errx (A := A) msg ap s).
Proof.
  intros Hc. unfold cheriostest_failure_errx, vcheriostest_failure_errx, mbind, eff_bind.
  rewrite Hc. by eexists _, _.
Qed.

Lemma failure_err_declares {A} msg ap s c : p_ccsp s = Some c ->
  declares_failure (cheriostest_failure_err (A := A) msg ap s).
Proof.
  intros Hc. unfold cheriostest_failure_err, vcheriostest_failure_errc, gets, mbind, eff_bind.
  rewrite Hc. by eexists _, _.
Qed.

Lemma declares_bind {A B} (m : test cap W A) (k : A -> test cap W B) s :
  declares_failure (m s) -> declares_failure ((m ≫= k) s).
Proof.
  intros (s' & c & Hm & H). exists s', c. split; [|exact H].
  unfold mbind, eff_bind. by rewrite Hm.
Qed.

(** A checked call that fails. *)
Lemma check_declares {A B} (call : test cap W (A + Z)) msg ap (k : A -> test cap W B) s s' e c :
  call s = (Val (inr e), s') -> p_ccsp s' = Some c ->
  declares_failure ((CHERIOSTEST_CHECK_SYSCALL2 call msg ap ≫= k) s).
Proof.
  intros Hr Hc. apply declares_bind. unfold CHERIOSTEST_CHECK_SYSCALL2.
  rewrite (test_bind _ _ _ _ _ Hr). by apply (failure_err_declares _ _ (set_errno e s') c).
Qed.
End Declared.

(** *** Bodies that leave the page as it is *)

Section Plain.
Context {cap W : Type} {CH : Cheri cap} {LC : Libc cap W} {FO : ForkOS W}.

Definition page_as (s s' : proc cap W) : Prop :=
  p_ccsp s' = p_ccsp s /\ p_stdout s' = p_stdout s /\ p_handlers s' = p_handlers s.

(** [m] leaves the page, the output and the handlers alone, until it declares a
    failure; when it exits, [Q] may relate the page before and after. *)
Definition leaves {A} (Q : child_state cap -> child_state cap -> Prop) (m : test cap W A) : Prop :=
  forall s c, p_ccsp s = Some c ->
    match m s with
    | (Undef, _) => True
    | (Exited n, s') => declares_failure (m s) \/ exists c', p_ccsp s' = Some c' /\ Q c c'
    | (_, s') => page_as s s'
    end.

Definition plain {A} (m : test cap W A) : Prop := leaves eq m.

(** The signal in the page is the one before. *)
Definition same_signal (c c' : child_state cap) : Prop := ccs_signum c' = ccs_signum c.

Lemma leaves_bind {A B} Q (m : test cap W A) (k : A -> test cap W B) :
  (forall c, Q c c) -> plain m -> (forall a, leaves Q (k a)) -> leaves Q (m ≫= k).
Proof.
  intros HQ Hm Hk s c Hc. specialize (Hm s c Hc). pose proof (declares_bind m k s) as Hd.
  unfold mbind, eff_bind in *. destruct (m s) as [[a|n|si|] s']; [|..|done].
  - destruct Hm as (H1 & H2 & H3). assert (p_ccsp s' = Some c) as Hc' by congruence.
    specialize (Hk a s' c Hc'). destruct (k a s') as [[b|n|si|] s2]; [| done | |done];
      destruct Hk as (? & ? & ?); split_and!; congruence.
  - destruct Hm as [Hf|(c' & Hc' & <-)]; [left; by apply Hd|right; by exists c].
  - exact Hm.
Qed.

Lemma plain_bind {A B} (m : test cap W A) (k : A -> test cap W B) :
  plain m -> (forall a, plain (k a)) -> plain (m ≫= k).
Proof. by apply leaves_bind. Qed.

Lemma plain_ret {A} (a : A) : plain (mret a). Proof. by intros s c Hc. Qed.
Lemma plain_gets {A} (f : proc cap W -> A) : plain (gets f). Proof. by intros s c Hc. Qed.
Lemma plain_undef {A} : plain (undef : test cap W A). Proof. by intros s c Hc. Qed.
Lemma plain_exit {A} n : plain (exit n : test cap W A).
Proof. intros s c Hc. right. by exists c. Qed.
Lemma plain_report msg ap : plain (report_on_stderr msg ap).
Proof. by intros s c Hc. Qed.

Lemma plain_sys {A} (f : W -> (A + Z) * W) : plain (sys f).
Proof. intros s c Hc. unfold sys. by destruct (f (p_world s)). Qed.
Lemma plain_libcall {A} (f : W -> A * W) : plain (libcall f).
Proof. intros s c Hc. unfold libcall. by destruct (f (p_world s)). Qed.
Lemma plain_access {A} (f : W -> (A + siginfo cap) * W) : plain (access f).
Proof. intros s c Hc. unfold access. by destruct (f (p_world s)) as [[?|?] ?]. Qed.

Lemma plain_errx {A} msg ap : plain (cheriostest_failure_errx (A := A) msg ap).
Proof.
  intros s c Hc. pose proof (failure_errx_declares (A := A) msg ap s c Hc) as H.
  destruct H as (s' & c' & Hr & H). rewrite Hr. left. by exists s', c'.
Qed.
Lemma plain_err {A} msg ap : plain (cheriostest_failure_err (A := A) msg ap).
Proof.
  intros s c Hc. pose proof (failure_err_declares (A := A) msg ap s c Hc) as H.
  destruct H as (s' & c' & Hr & H). rewrite Hr. left. by exists s', c'.
Qed.

Lemma plain_try {A} (f : W -> (A + Z) * W) : plain (try_sys f).
Proof.
  apply plain_bind; [apply plain_sys|]. intros [a|e]; [apply plain_ret|].
  apply plain_bind; [by intros s c Hc|intros _; apply plain_ret].
Qed.
Lemma plain_call2 {A} (f : W -> (A + Z) * W) msg ap : plain (CHERIOSTEST_CHECK_SYSCALL2 (sys f) msg ap).
Proof.
  apply plain_bind; [apply plain_sys|]. intros [a|e]; [apply plain_ret|].
  apply plain_bind; [by intros s c Hc|intros _; apply plain_err].
Qed.
Lemma plain_verify b msg ap : plain (CHERIOSTEST_VERIFY2 b msg ap).
Proof. destruct b; [apply plain_ret|apply plain_errx]. Qed.
Lemma plain_when b (m : test cap W unit) : plain m -> plain (when b m).
Proof. destruct b; [done|]. intros _. apply plain_ret. Qed.
Lemma plain_fork how : plain (fork_or_fail how).
Proof.
  apply plain_bind; [apply plain_try|]. intros [pid|]; [apply plain_ret|].
  apply plain_bind; [apply plain_gets|intros e; apply plain_errx].
Qed.

(** A parent that asks for status 0: a child whose handler has written a signal
    into the page has another. *)
Lemma leaves_wait g (child : test cap W unit) msg ap :
  plain child ->
  leaves same_signal (res ← wait_child g child;
    if res =? 0 then cheriostest_success (A := unit) else cheriostest_failure_errx msg ap).
Proof.
  intros Hc s c Hs. set (s0 := set_world (as_child (p_world s)) s).
  specialize (Hc s0 c Hs). unfold mbind, eff_bind, wait_child. fold s0.
  assert (forall n s1 c1, p_ccsp s1 = Some c1 -> (n = 0 -> c1 = c) ->
    match (if n =? 0 then cheriostest_success (A := unit) else cheriostest_failure_errx msg ap) s1 with
    | (Undef, _) => True
    | (Exited k, s') => declares_failure ((if n =? 0 then cheriostest_success (A := unit)
        else cheriostest_failure_errx msg ap) s1) \/ exists c', p_ccsp s' = Some c' /\ same_signal c c'
    | (_, s') => page_as s s'
    end) as Hend.
  { intros n s1 c1 H1 Hn. destruct (Z.eqb_spec n 0) as [H0|H0].
    - rewrite (Hn H0) in H1. unfold cheriostest_success, with_ccsp, mbind, eff_bind.
      rewrite H1. right. by eexists.
    - pose proof (failure_errx_declares (A := unit) msg ap s1 c1 H1) as Hf.
      destruct Hf as (s' & c' & Hr & Hf). rewrite Hr. left. by exists s', c'. }
  destruct (child s0) as [[u|n|si|] s1]; cbn [end_of_process].
  - destruct Hc as (H1 & _ & _). apply (Hend _ _ c); [|done]. simpl. by rewrite H1.
  - destruct Hc as [(s' & c' & [= -> ->] & Hp & _)|(c' & Hp & <-)].
    + apply (Hend _ _ c'); [exact Hp|]. by intros ?.
    + by apply (Hend _ _ c).
  - destruct Hc as (H1 & _ & _). assert (p_ccsp s1 = Some c) as Hp by (rewrite H1; exact Hs).
    case_decide.
    + unfold signal_handler, with_ccsp, mbind, eff_bind, gets, modify, exit. rewrite Hp.
      eapply Hend; [reflexivity|by intros ?].
    + by apply (Hend _ _ c).
  - done.
Qed.
End Plain.

(** ** How a body ends *)

Inductive ending := EndPass | EndFail | EndFault (sig : Z).

Section Endings.
Context {cap W St : Type} {CH : Cheri cap} {LC : Libc cap W} {FO : ForkOS W} {absf : W -> St}.

Abbreviation on := (on (cap := cap) absf).
Abbreviation steps := (steps (cap := cap) absf).
Abbreviation exits := (exits (cap := cap) absf).

Definition ends_as {A} (e : ending) (m : test cap W A) (s : proc cap W) : Prop :=
  match e with
  | EndPass => succeeds m s
  | EndFail => exists s', m s = (Exited EX_SOFTWARE, s')
  | EndFault sig => exists si s', m s = (Raised si, s') /\ si_signo si = sig
  end.

Definition ends {A} (m : test cap W A) (v : St) (e : ending) : Prop :=
  forall s, on v s -> ends_as e m s.

Lemma ends_judged {A} (m : test cap W A) v e : ends m v e -> judged absf m v (e = EndPass).
Proof.
  intros Hm s Hs. specialize (Hm s Hs). destruct e; simpl in Hm.
  - by split.
  - split; [|done]. destruct Hm as (s' & Hr). intros [x Hx]. revert Hx. unfold verdict_of.
    rewrite Hr. simpl. by destruct (p_ccsp s') as [c|]; [destruct (ccs_testresult c =? _)|].
  - split; [|done]. destruct Hm as (si & s' & Hr & _). intros [x Hx]. revert Hx.
    unfold verdict_of. by rewrite Hr.
Qed.

Lemma ends_bind {A B} (m : test cap W A) (k : A -> test cap W B) v Q e :
  steps m v Q -> (forall a v', Q a v' -> ends (k a) v' e) -> ends (m ≫= k) v e.
Proof.
  intros Hm Hk s Hs. destruct (Hm s Hs) as (a & s' & v' & Hr & HQ & Hs').
  specialize (Hk a v' HQ s' Hs').
  destruct e; simpl in *; [by rewrite (succeeds_bind _ _ _ _ _ Hr)| |];
    by rewrite (test_bind _ _ _ _ _ Hr).
Qed.

Lemma ends_assoc {A B D} (m : test cap W A) (f : A -> test cap W B)
    (k : B -> test cap W D) v e :
  ends (m ≫= (fun a => f a ≫= k)) v e -> ends ((m ≫= f) ≫= k) v e.
Proof.
  intros H s Hs. specialize (H s Hs).
  destruct e; simpl in *; [by rewrite succeeds_assoc|by rewrite test_assoc|by rewrite test_assoc].
Qed.

Lemma ends_ret {A B} (a : A) (k : A -> test cap W B) v e : ends (k a) v e -> ends (mret a ≫= k) v e.
Proof. intros H s Hs. specialize (H s Hs). by destruct e. Qed.

Lemma ends_errx {A B} msg ap (k : A -> test cap W B) v :
  ends (cheriostest_failure_errx msg ap ≫= k) v EndFail.
Proof.
  intros s [(c & Hc & _) _].
  destruct (declares_bind _ k s (failure_errx_declares msg ap s c Hc)) as (s' & _ & Hr & _).
  by exists s'.
Qed.

Lemma ends_errx_last {A} msg ap v : ends (cheriostest_failure_errx (A := A) msg ap) v EndFail.
Proof.
  intros s [(c & Hc & _) _].
  destruct (failure_errx_declares (A := A) msg ap s c Hc) as (s' & _ & Hr & _). by exists s'.
Qed.

Lemma ends_verify {B} b msg ap (k : test cap W B) v e :
  (b = true -> ends k v e) -> (b = false -> e = EndFail) ->
  ends (CHERIOSTEST_VERIFY2 b msg ap ;; k) v e.
Proof.
  intros Hk Hf. destruct b; [by apply Hk|]. rewrite (Hf eq_refl). apply ends_errx.
Qed.

Lemma ends_success {A} v : ends (cheriostest_success (A := A)) v EndPass.
Proof. intros s [Hs _]. by apply succeeds_success. Qed.

Lemma ends_fault {A B} (f : W -> (A + siginfo cap) * W) (k : A -> test cap W B) v sig :
  (forall w, absf w = v -> exists si w', f w = (inr si, w') /\ si_signo si = sig) ->
  ends (access f ≫= k) v (EndFault sig).
Proof.
  intros Hf s [Hs Hv]. destruct (Hf _ Hv) as (si & w' & Hr & Hsig).
  exists si, (set_world w' s). by rewrite (run_fault _ _ _ _ _ Hr).
Qed.
End Endings.

(** ** Forked processes *)

Section Forks.
Context {cap W St : Type} {CH : Cheri cap} {LC : Libc cap W} {FO : ForkOS W} {absf : W -> St}.
Context (g : config) (to_child to_parent : St -> St).
Context (Hchild : forall w, absf (as_child w) = to_child (absf w)).
Context (Hparent : forall w, absf (as_parent w) = to_parent (absf w)).

Abbreviation steps := (steps (cap := cap) absf).
Abbreviation judged := (judged (cap := cap) absf).
Abbreviation exits := (exits (cap := cap) absf).

(** waitpid(2) for such a child. *)
Lemma judged_wait {B} child n Q (k : Z -> test cap W B) v (P : Prop) :
  0 <= n < 256 -> exits child (to_child v) n Q ->
  (forall v', Q v' -> judged (k (Z.shiftl n 8)) (to_parent v') P) ->
  judged (wait_child g child ≫= k) v P.
Proof.
  intros Hn Hc Hk s [Hs Hv]. set (s0 := set_world (as_child (p_world s)) s).
  destruct (Hc s0) as (s' & v' & Hrun & HQ & Hs' & Hv').
  { split; [exact Hs|]. simpl. by rewrite Hchild, Hv. }
  assert (wait_child g child s = (Val (Z.shiftl n 8),
    set_errno (p_errno s) (set_world (as_parent (p_world s')) s'))) as Hw.
  { unfold wait_child. fold s0. rewrite Hrun. simpl. by rewrite Z.mod_small. }
  rewrite (succeeds_bind _ _ _ _ _ Hw). apply (Hk v' HQ). split; [exact Hs'|].
  simpl. by rewrite Hparent, Hv'.
Qed.

(** The same when the rest does not depend on what the parent finds. *)
Lemma judged_wait_any {B} child n Q (k : Z -> test cap W B) v (P : Prop) :
  0 <= n < 256 -> exits child (to_child v) n Q ->
  (forall v', judged (k (Z.shiftl n 8)) v' P) ->
  judged (wait_child g child ≫= k) v P.
Proof.
  intros Hn Hc Hk s [Hs Hv]. destruct (Hc (set_world (as_child (p_world s)) s))
    as (s' & v' & Hrun & HQ & Hs' & Hv').
  { split; [exact Hs|]. simpl. by rewrite Hchild, Hv. }
  set (s2 := set_errno (p_errno s) (set_world (as_parent (p_world s')) s')).
  assert (wait_child g child s = (Val (Z.shiftl n 8), s2)) as Hw.
  { unfold wait_child. rewrite Hrun. simpl. by rewrite Z.mod_small. }
  rewrite (succeeds_bind _ _ _ _ _ Hw). by apply (Hk (absf (p_world s2))).
Qed.

Lemma ends_wait {B} child n Q (k : Z -> test cap W B) v e :
  0 <= n < 256 -> exits child (to_child v) n Q ->
  (forall v', Q v' -> ends (absf := absf) (k (Z.shiftl n 8)) (to_parent v') e) ->
  ends (absf := absf) (wait_child g child ≫= k) v e.
Proof.
  intros Hn Hc Hk s [Hs Hv]. set (s0 := set_world (as_child (p_world s)) s).
  destruct (Hc s0) as (s' & v' & Hrun & HQ & Hs' & Hv').
  { split; [exact Hs|]. simpl. by rewrite Hchild, Hv. }
  set (s2 := set_errno (p_errno s) (set_world (as_parent (p_world s')) s')).
  assert (wait_child g child s = (Val (Z.shiftl n 8), s2)) as Hw.
  { unfold wait_child. fold s0. rewrite Hrun. simpl. by rewrite Z.mod_small. }
  assert (on absf (to_parent v') s2) as H2
    by (split; [exact Hs'|simpl; by rewrite Hparent, Hv']).
  specialize (Hk v' HQ s2 H2).
  destruct e; simpl in *; [by rewrite (succeeds_bind _ _ _ _ _ Hw)| |];
    by rewrite (test_bind _ _ _ _ _ Hw).
Qed.

(** A child that dies of a fault: by the signal, or in the handler. *)
Lemma judged_wait_fault {B} child si (k : Z -> test cap W B) v (P : Prop) :
  (forall s, on (cap := cap) absf (to_child v) s ->
   exists s', child s = (Raised si, s') /\ shared s') ->
  (forall st v', st = si_signo si \/ st = Z.shiftl EX_SOFTWARE 8 -> judged (k st) v' P) ->
  judged (wait_child g child ≫= k) v P.
Proof.
  intros Hc Hk s [Hs Hv]. destruct (Hc (set_world (as_child (p_world s)) s))
    as (s' & Hrun & Hs').
  { split; [exact Hs|]. simpl. by rewrite Hchild, Hv. }
  assert (exists st s2, wait_child g child s = (Val st, s2) /\ shared s2 /\
    (st = si_signo si \/ st = Z.shiftl EX_SOFTWARE 8)) as (st & s2 & Hw & Hs2 & Hst).
  { unfold wait_child. rewrite Hrun. simpl. destruct Hs' as (c & Hp & Hl).
    case_decide.
    - unfold signal_handler, with_ccsp, mbind, eff_bind, gets, modify, exit. rewrite Hp.
      simpl. eexists _, _. split; [reflexivity|]. split; [|by right]. eexists.
      split; [reflexivity|]. by destruct (cfg_purecap g).
    - eexists _, _. split; [reflexivity|]. split; [|by left]. by exists c. }
  rewrite (succeeds_bind _ _ _ _ _ Hw). by apply (Hk st (absf (p_world s2))).
Qed.

Lemma steps_fork how v (P : St -> Prop) :
  (forall w, absf w = v -> exists pid w',
     sys_fork how w = (inl pid, w') /\ P (absf w')) ->
  steps (fork_or_fail how) v (fun _ => P).
Proof.
  intros Hf. unfold fork_or_fail.
  eapply steps_bind; [apply (steps_try _ _ (fun _ => P)), Hf|].
  intros r v' (pid & -> & HP). by apply steps_ret.
Qed.

End Forks.
