(* ===== verification/Aliasing.v ===== *)
(** * Aliasing: shared, private and handed-over mappings (cheriostest_vm.c)

    The tests that look at one object through several mappings: two shared
    ones, a shared and a copy-on-write one, read(2) and write(2) on its
    descriptor, and the mapping of another process that was sent the
    descriptor; and the two tests that hand a capability over through a shared
    kqueue or a shared table of signal actions.

    [vm] is a reference machine: objects made of slots, views of them by
    address, descriptors per process, with a [Sharing] policy that says where
    capabilities keep their tags.  [VmRefines] is a kernel that implements it;
    the theorem says which parts of the policy each test checks. *)

From S2P Require Import Prelude Printf Cheri Harness Runner Toy RunnerFacts Faults Spawn Kernel VmTags Judge.

(** The calls of these tests that [Kernel] does not have. *)
Class ShareOS (cap W : Type) := {
  cap_size : Z;                                     (* sizeof(void * __capability) *)
  sys_read_cap : Z -> cap -> W -> (Z * cap + Z) * W;   (* the count, and the buffer *)
  sys_write_cap : Z -> cap -> W -> (Z + Z) * W;
  sys_socketpair : W -> (Z * Z + Z) * W;
  sys_sendmsg_fd : Z -> Z -> W -> (Z + Z) * W;
  sys_recvmsg_fd : Z -> W -> (Z + Z) * W;           (* the descriptor *)
  sys_kqueue : W -> (Z + Z) * W;
  kevent_add : Z -> Z -> cap -> W -> (Z + Z) * W;   (* EV_ADD | EV_ONESHOT *)
  kevent_trigger : Z -> Z -> W -> (Z + Z) * W;      (* EV_KEEPUDATA, NOTE_TRIGGER *)
  kevent_wait : Z -> W -> ((Z * Z * cap) + Z) * W;  (* ident, filter, udata *)
  EVFILT_USER : Z;
  sigaction_set : Z -> cap -> W -> (Z + Z) * W;     (* flags 0, empty mask *)
  sigaction_get : Z -> W -> ((cap * Z) + Z) * W;    (* sa_handler, sa_flags *)
  SIGUSR1 : Z;
}.

Section Tests.
Context {cap W : Type} {CH : Cheri cap} {LC : Libc cap W} {KE : Kernel cap W}
  {VC : VmConsts} {TS : TmpStatics W} {FO : ForkOS W} {SH : ShareOS cap W}.
Context (g : config).

Definition say (msg : string) (c : cap) : test cap W unit :=
  v ← gets p_verbose;
  when (negb (v =? 0)) (report_on_stderr msg [APtr c]).

(** A page of the descriptor. *)
Definition map_fd (prot flags fd : Z) (text : string) : test cap W cap :=
  CHERIOSTEST_CHECK_SYSCALL (sys (sys_mmap cap_null getpagesize prot flags fd 0)) text.

Definition PROT_RC : Z := Z.lor PROT_READ PROT_CAP.

(** [if-defined PROT_CAP] *)
Definition need_prot_cap {A} (m : test cap W A) : test cap W A :=
  if cfg_prot_cap g then m else PROT_CAP_missing.

Definition map_rwc (fd : Z) : test cap W cap :=
  need_prot_cap
    (map_fd PROT_RWC MAP_SHARED fd
       "mmap(NULL, getpagesize(), PROT_READ | PROT_WRITE | PROT_CAP, MAP_SHARED, fd, 0)").

Definition unmap (c : cap) (text : string) : test cap W unit :=
  _ ← CHERIOSTEST_CHECK_SYSCALL (sys (sys_munmap c getpagesize)) text; mret tt.

Definition close_checked (fd : Z) : test cap W unit :=
  _ ← CHERIOSTEST_CHECK_SYSCALL (sys (sys_close fd)) "close(fd)"; mret tt.

(** A close(2) whose result is not looked at. *)
Definition close_quietly (fd : Z) : test cap W unit :=
  _ ← try_sys (sys_close fd); mret tt.

(** ** Two mappings of one object *)

Definition vm_tag_shm_open_shared2x (fd : Z) : test cap W unit :=
  map2 ← need_prot_cap
           (map_fd PROT_RC MAP_SHARED fd
              "mmap(NULL, getpagesize(), PROT_READ | PROT_CAP, MAP_SHARED, fd, 0)");
  c2 ← access (mem_load_cap map2 0);
  CHERIOSTEST_VERIFY2 (negb (cheri_tag_get c2)) "tag exists on first read" [] ;;
  CHERIOSTEST_VERIFY2 (cheri_address_get c2 =? 0) "Initial read NULL" [] ;;
  mmap_and_check_tag_stored fd PROT_RWC MAP_SHARED false ;;
  c2 ← access (mem_load_cap map2 0);
  CHERIOSTEST_VERIFY2 (cheri_tag_get c2) "tag lost on second read" [] ;;
  CHERIOSTEST_VERIFY2 (negb (cheri_address_get c2 =? 0)) "Second read not NULL" [].

Definition vm_tag_shm_open_anon_shared2x : cheri_test cap W :=
  CHERIOSTEST "vm_tag_shm_open_anon_shared2x" "test multiply-mapped SHM_ANON objects"
    (fd ← open_shm_anon; ftruncate_page fd ;;
     vm_tag_shm_open_shared2x fd ;; cheriostest_success).

Definition vm_tag_shm_open_named_shared2x : cheri_test cap W :=
  CHERIOSTEST "vm_tag_shm_open_named_shared2x" "test multiply-mapped named objects"
    (fd ← open_named_shm g; ftruncate_page fd ;;
     vm_tag_shm_open_shared2x fd ;; cheriostest_success).

(** ** A descriptor sent to another process *)

Definition unix_surprise_child (sv : Z * Z) : test cap W unit :=
  close_quietly sv.2 ;;
  fd ← CHERIOSTEST_CHECK_SYSCALL (sys (sys_recvmsg_fd (cap := cap) sv.1))
         "recvmsg(sv[0], &msg, 0)";
  CHERIOSTEST_VERIFY2 (0 <=? fd) "fd read OK" [] ;;
  map ← need_prot_cap
          (map_fd PROT_RC MAP_SHARED fd
             "mmap(NULL, getpagesize(), PROT_READ | PROT_CAP, MAP_SHARED, fd, 0)");
  c ← access (mem_load_cap map 0);
  say "rx cap: %#lp
" c ;;
  let tag := tag_int c in
  CHERIOSTEST_VERIFY2 (tag =? 0) "tag read" [] ;;
  unmap map "munmap(map, getpagesize())" ;;
  close_quietly sv.1 ;;
  close_quietly fd ;;
  exit tag.

(** The check of socketpair(2) looks at a comparison, which is never -1: the
    code goes on with descriptors that are not set. *)
Definition vm_shm_open_unix_surprise (shm_obj_name : shm_path) : test cap W unit :=
  sv ← try_sys (sys_socketpair (cap := cap));
  _ ← fork_or_fail Fork;
  match sv with
  | None => undef
  | Some sv =>
      close_quietly sv.1 ;;
      let named := match shm_obj_name with
                   | ShmNamed name => Some name
                   | ShmAnon => None
                   end in
      let flags := match named with
                   | Some _ => Z.lor O_RDWR (Z.lor O_CREAT O_EXCL)
                   | None => O_RDWR
                   end in
      fd ← CHERIOSTEST_CHECK_SYSCALL (sys (sys_shm_open shm_obj_name flags shm_mode))
             "shm_open(shm_obj_name, flags, 0600)";
      match named with
      | Some name =>
          _ ← CHERIOSTEST_CHECK_SYSCALL (sys (sys_shm_unlink name))
                "shm_unlink(shm_obj_name)";
          mret tt
      | None => mret tt
      end ;;
      ftruncate_page fd ;;
      map ← map_rwc fd;
      access (mem_store_cap map 0 (stack_local 4)) ;;
      c ← access (mem_load_cap map 0);
      CHERIOSTEST_VERIFY2 (cheri_tag_get c) "tag not written" [] ;;
      say "tx cap: %#lp
" c ;;
      unmap map "munmap(map, getpagesize())" ;;
      _ ← CHERIOSTEST_CHECK_SYSCALL (sys (sys_sendmsg_fd (cap := cap) sv.2 fd))
            "sendmsg(sv[1], &msg, 0)";
      close_quietly sv.2 ;;
      close_quietly fd ;;
      res ← wait_child g (unix_surprise_child sv);
      if res =? 0 then cheriostest_success
      else cheriostest_failure_errx "tag transfer succeeded" []
  end.

Definition surprise_xfail : string :=
  "Tags currently survive cross-AS aliasing of SHM_ANON objects".

Definition vm_shm_open_anon_unix_surprise : cheri_test cap W :=
  with_xfail (Some surprise_xfail)
    (CHERIOSTEST "vm_shm_open_anon_unix_surprise" "test SHM_ANON vs SCM_RIGHTS"
       (vm_shm_open_unix_surprise ShmAnon)).

Definition vm_shm_open_named_unix_surprise : cheri_test cap W :=
  let t := CHERIOSTEST "vm_shm_open_named_unix_surprise" "test SHM_ANON vs SCM_RIGHTS"
             (shm_name ← gen_shm_obj_name g 32;
              vm_shm_open_unix_surprise (ShmNamed (cstr shm_name))) in
  if is_freebsd g then with_xfail (Some surprise_xfail) t
  else with_signal CT_FLAG_SIGNAL (SIGSEGV (cap := cap) (W := W)) 0 0 t.

(** ** read(2) and write(2) *)

Definition CHERIOSTEST_CHECK_EQ_SIZE (a b : Z) (a_str b_str : string) : test cap W unit :=
  CHERIOSTEST_CHECK_EQ "0x%zx" a b a_str b_str.

Definition csize : Z := cap_size (cap := cap) (W := W).

Definition shm_open_read_nocaps (shm_fd : Z) : test cap W unit :=
  ftruncate_page shm_fd ;;
  map ← map_rwc shm_fd;
  access (mem_store_cap map 0 (stack_local 4)) ;;
  c ← access (mem_load_cap map 0);
  CHERIOSTEST_VERIFY2 (cheri_tag_get c) "tag written" [] ;;
  r ← CHERIOSTEST_CHECK_SYSCALL (sys (sys_read_cap shm_fd c)) "read(shm_fd, &c, sizeof(c))";
  let '(rv, c) := r in
  CHERIOSTEST_CHECK_EQ_SIZE rv csize "rv" "sizeof(c)" ;;
  CHERIOSTEST_VERIFY2 (negb (cheri_tag_get c)) "tag read" [] ;;
  v ← access (mem_load_cap map 0);
  CHERIOSTEST_VERIFY2 (cheri_is_equal_exact (cheri_tag_clear v) c)
    "untagged value not read" [] ;;
  _ ← CHERIOSTEST_CHECK_SYSCALL (sys (sys_close shm_fd)) "close(shm_fd)";
  cheriostest_success.

Definition shm_open_anon_read_nocaps : cheri_test cap W :=
  CHERIOSTEST "shm_open_anon_read_nocaps"
    "check that read(2) of a shm_open fd does not return tags"
    (fd ← open_shm_anon; shm_open_read_nocaps fd).

Definition shm_open_named_read_nocaps : cheri_test cap W :=
  CHERIOSTEST "shm_open_named_read_nocaps"
    "check that read(2) of a shm_open fd does not return tags"
    (need_prot_cap (fd ← open_named_shm g; shm_open_read_nocaps fd)).

Definition shm_open_write_nocaps (shm_fd : Z) : test cap W unit :=
  ftruncate_page shm_fd ;;
  map ← map_rwc shm_fd;
  let c := stack_local 4 in
  CHERIOSTEST_VERIFY2 (cheri_tag_get c) "tag set on source" [] ;;
  rv ← CHERIOSTEST_CHECK_SYSCALL (sys (sys_write_cap shm_fd c)) "write(shm_fd, &c, sizeof(c))";
  CHERIOSTEST_CHECK_EQ_SIZE rv csize "rv" "sizeof(c)" ;;
  v ← access (mem_load_cap map 0);
  CHERIOSTEST_VERIFY2 (negb (cheri_tag_get v)) "tag written" [] ;;
  v ← access (mem_load_cap map 0);
  CHERIOSTEST_VERIFY2 (cheri_is_equal_exact (cheri_tag_clear c) v)
    "untagged value not written" [] ;;
  _ ← CHERIOSTEST_CHECK_SYSCALL (sys (sys_close shm_fd)) "close(shm_fd)";
  cheriostest_success.

Definition shm_open_anon_write_nocaps : cheri_test cap W :=
  CHERIOSTEST "shm_open_anon_write_nocaps"
    "check that write(2) of a shm_open fd does not set tags"
    (fd ← open_shm_anon; shm_open_write_nocaps fd).

Definition shm_open_anon_shm : cheri_test cap W :=
  CHERIOSTEST "shm_open_anon_shm"
    "check that write(2) of a named shm_open fd does not set tags"
    (fd ← open_named_shm g; shm_open_write_nocaps fd).

Definition memfd_create_anon_write_nocaps : cheri_test cap W :=
  CHERIOSTEST "memfd_create_anon_write_nocaps"
    "check that write(2) of a memfd_create fd does not set tags"
    (fd ← open_memfd "memfd_create_anon_write_nocaps"; shm_open_write_nocaps fd).

(** ** Copy-on-write *)

(** Both mappings, the store through the first, and the first checks. *)
Definition cow_pages (fd : Z) : test cap W (cap * cap) :=
  ftruncate_page fd ;;
  p ← need_prot_cap
        (cp_real ← CHERIOSTEST_CHECK_SYSCALL2
                     (sys (sys_mmap cap_null getpagesize PROT_RWC MAP_SHARED fd 0))
                     "mmap cp_real" [];
         cp_copy ← CHERIOSTEST_CHECK_SYSCALL2
                     (sys (sys_mmap cap_null getpagesize PROT_RW MAP_PRIVATE fd 0))
                     "mmap cp_copy" [];
         mret (cp_real, cp_copy));
  let '(cp_real, cp_copy) := p in
  access (mem_store_cap cp_real 0 (cheri_ptr (stack_local 4) 4)) ;;
  cp ← access (mem_load_cap cp_real 0);
  CHERIOSTEST_VERIFY2 (cheri_tag_get cp) "pretest: tag missing" [] ;;
  cp ← access (mem_load_cap cp_copy 0);
  CHERIOSTEST_VERIFY2 (cheri_tag_get cp) "tag missing, cp_real" [] ;;
  mret (cp_real, cp_copy).

Definition cow_unmap (cp_real cp_copy : cap) : test cap W unit :=
  _ ← CHERIOSTEST_CHECK_SYSCALL2 (sys (sys_munmap cp_real getpagesize)) "munmap cp_real" [];
  _ ← CHERIOSTEST_CHECK_SYSCALL2 (sys (sys_munmap cp_copy getpagesize)) "munmap cp_copy" [];
  mret tt.

Definition vm_cow_read (fd : Z) : test cap W unit :=
  p ← cow_pages fd;
  cow_unmap p.1 p.2.

Definition vm_cow_write (fd : Z) : test cap W unit :=
  p ← cow_pages fd;
  access (mem_store_cap p.2 csize (cheri_ptr (stack_local 4) 4)) ;;
  cp ← access (mem_load_cap p.1 0);
  CHERIOSTEST_VERIFY2 (cheri_tag_get cp) "tag missing after COW, cp_real" [] ;;
  cp ← access (mem_load_cap p.2 0);
  CHERIOSTEST_VERIFY2 (cheri_tag_get cp) "tag missing after COW, cp_copy" [] ;;
  cow_unmap p.1 p.2.

Definition cow_test (name desc : string) (open : test cap W Z) (body : Z -> test cap W unit)
    : cheri_test cap W :=
  CHERIOSTEST name desc (fd ← open; body fd ;; close_checked fd ;; cheriostest_success).

Definition vm_cow_anon_read : cheri_test cap W :=
  cow_test "vm_cow_anon_read" "read capabilities from a copy-on-write page"
    open_shm_anon vm_cow_read.
Definition vm_cow_named_read : cheri_test cap W :=
  cow_test "vm_cow_named_read" "read capabilities from a copy-on-write page"
    (open_named_shm g) vm_cow_read.
Definition vm_cow_anon_write : cheri_test cap W :=
  cow_test "vm_cow_anon_write" "read capabilities from a faulted copy-on-write page"
    open_shm_anon vm_cow_write.
Definition vm_cow_named_write : cheri_test cap W :=
  cow_test "vm_cow_named_write" "read capabilities from a faulted copy-on-write page"
    (open_named_shm g) vm_cow_write.

(** ** Tables that two processes share (CheriBSD) *)

Definition map_passme (prot : Z) (text : string) : test cap W cap :=
  CHERIOSTEST_CHECK_SYSCALL
    (sys (sys_mmap cap_null (getpagesize (cap := cap) (W := W)) prot MAP_ANON (-1) 0)) text.

Definition fd_kqueue_child (kq : Z) : test cap W unit :=
  oke ← CHERIOSTEST_CHECK_SYSCALL (sys (kevent_wait kq)) "kevent(kq, NULL, 0, &oke, 1, NULL)";
  let '(ident, filter, udata) := oke in
  CHERIOSTEST_VERIFY2 (ident =? 0x2BAD) "Bad identifier from kqueue" [] ;;
  CHERIOSTEST_VERIFY2 (filter =? EVFILT_USER (cap := cap) (W := W))
    "Bad filter from kqueue" [] ;;
  exit (tag_int (udata : cap)).

Definition vm_cap_share_fd_kqueue : cheri_test cap W :=
  with_xfail (Some "Tags currently survive cross-AS shared FD tables"%string)
    (CHERIOSTEST "vm_cap_share_fd_kqueue"
       "Demonstrate capability passing via shared FD table"
       (kq ← CHERIOSTEST_CHECK_SYSCALL (sys (sys_kqueue (cap := cap))) "kqueue()";
        _ ← fork_or_fail RFork;
        passme ← map_passme PROT_RW
                   "mmap(0, CHERITEST_PAGE_SIZE, PROT_READ | PROT_WRITE, MAP_ANON, -1, 0)";
        _ ← CHERIOSTEST_CHECK_SYSCALL (sys (kevent_add kq 0x2BAD passme))
              "kevent(kq, &ike, 1, NULL, 0, NULL)";
        _ ← CHERIOSTEST_CHECK_SYSCALL (sys (kevent_trigger (cap := cap) kq 0x2BAD))
              "kevent(kq, &ike, 1, NULL, 0, NULL)";
        res ← wait_child g (fd_kqueue_child kq);
        if res =? 0 then cheriostest_success
        else cheriostest_failure_errx "tag transfer" [])).

Definition sigaction_child : test cap W unit :=
  let SIGUSR1 := SIGUSR1 (cap := cap) (W := W) in
  passme ← map_passme (Z.lor PROT_RW PROT_EXEC)
             "mmap(0, CHERITEST_PAGE_SIZE, PROT_READ | PROT_WRITE | PROT_EXEC, MAP_ANON, -1, 0)";
  _ ← CHERIOSTEST_CHECK_SYSCALL (sys (sigaction_set SIGUSR1 passme))
        "__sys_sigaction(SIGUSR1, &sa, NULL)";
  sa ← CHERIOSTEST_CHECK_SYSCALL (sys (sigaction_get SIGUSR1))
         "__sys_sigaction(SIGUSR1, NULL, &sa)";
  cheriostest_check_cap_eq (sa : cap * Z).1 passme "sa.sa_handler" "passme" ;;
  exit 0.

(** The status of the child is not looked at. *)
Definition vm_cap_share_sigaction : cheri_test cap W :=
  with_xfail (Some "Tags currently survive cross-AS shared sigaction table"%string)
    (CHERIOSTEST "vm_cap_share_sigaction"
       "Demonstrate capability passing via shared sigaction table"
       (_ ← fork_or_fail RFork;
        _ ← wait_child g sigaction_child;
        sa ← CHERIOSTEST_CHECK_SYSCALL
               (sys (sigaction_get (SIGUSR1 (cap := cap) (W := W))))
               "__sys_sigaction(SIGUSR1, NULL, &sa)";
        CHERIOSTEST_CHECK_EQ_LONG (sa : cap * Z).2 0 "sa.sa_flags" "0" ;;
        if cheri_tag_get sa.1 then cheriostest_failure_errx "tag transfer" []
        else cheriostest_success)).
End Tests.

(** ** The reference machine *)

(** What a store of a tagged capability does. *)
Inductive effect := Keep | Drop | Fault.

#[export] Instance effect_eq_dec : EqDecision effect.
Proof. solve_decision. Defined.

(** Where capabilities keep their tags. *)
Class Sharing := {
  shared_store : effect;       (* to a shared page mapped with PROT_CAP *)
  private_store : effect;      (* to a private page *)
  private_load : bool;         (* through a private page, from the object *)
  copy_tags : bool;            (* in the copy that the first write makes *)
  read_tags : bool;            (* by read(2) *)
  write_tags : bool;           (* by write(2) *)
  foreign_load : bool;         (* stored by another process *)
  kqueue_tags : bool;          (* in an event of another process *)
  sigaction_tags : bool;       (* in a handler set by another process *)
}.

Section Vm.
Context {cap : Type} {CH : Cheri cap} {SP : Sharing}.

(** A mapped page: of an object, or a private one, with the copy once it has
    been written. *)
Inductive view :=
| Shared (o : Z) (writable : bool)
| Private (o : Z) (copy : option (Z -> cap)).

(** Slots hold a capability and the process that stored it; the processes are
    the parent ([false]) and the child ([true]); [v_me] makes the calls. *)
Record vm := Vm {
  v_me : bool;
  v_obj : Z -> Z -> cap * bool;
  v_fd : bool -> Z -> option (Z * Z);       (* object and offset, in slots *)
  v_map : bool -> Z -> option view;         (* by address *)
  v_msg : option (Z * Z);                   (* the descriptor in flight *)
  v_event : option (Z * cap * bool);
  v_action : cap * bool;
  v_room : nat;                             (* the pages that can still be mapped *)
}.

Definition upd {A} (f : Z -> A) (k : Z) (x : A) : Z -> A :=
  fun i => if i =? k then x else f i.
Definition updp {A} (f : bool -> A) (p : bool) (x : A) : bool -> A :=
  fun q => if Bool.eqb q p then x else f q.

Definition set_obj f v := Vm (v_me v) f (v_fd v) (v_map v) (v_msg v) (v_event v) (v_action v)
    (v_room v).
Definition set_fd fd x v :=
  Vm (v_me v) (v_obj v) (updp (v_fd v) (v_me v) (upd (v_fd v (v_me v)) fd x)) (v_map v)
    (v_msg v) (v_event v) (v_action v)
    (v_room v).
Definition set_view a x v :=
  Vm (v_me v) (v_obj v) (v_fd v) (updp (v_map v) (v_me v) (upd (v_map v (v_me v)) a x))
    (v_msg v) (v_event v) (v_action v)
    (v_room v).
Definition set_msg x v :=
  Vm (v_me v) (v_obj v) (v_fd v) (v_map v) x (v_event v) (v_action v) (v_room v).
Definition set_event x v :=
  Vm (v_me v) (v_obj v) (v_fd v) (v_map v) (v_msg v) x (v_action v) (v_room v).
Definition set_action x v :=
  Vm (v_me v) (v_obj v) (v_fd v) (v_map v) (v_msg v) (v_event v) x (v_room v).
Definition switch p v :=
  Vm p (v_obj v) (v_fd v) (v_map v) (v_msg v) (v_event v) (v_action v)
    (v_room v).

(** A new mapping. *)
Definition v_mmap a x v :=
  Vm (v_me v) (v_obj v) (v_fd v) (updp (v_map v) (v_me v) (upd (v_map v (v_me v)) a (Some x)))
    (v_msg v) (v_event v) (v_action v) (pred (v_room v)).

Definition tagged_if (b : bool) (c : cap) : cap := if b then c else cheri_tag_clear c.

(** What the current process sees in a slot of an object. *)
Definition slot (v : vm) (o i : Z) : cap :=
  let '(c, by_) := v_obj v o i in tagged_if (foreign_load || Bool.eqb by_ (v_me v)) c.

Definition v_load (a i : Z) (v : vm) : option cap :=
  match v_map v (v_me v) a with
  | Some (Shared o _) => Some (slot v o i)
  | Some (Private o None) => Some (tagged_if private_load (slot v o i))
  | Some (Private _ (Some page)) => Some (page i)
  | None => None
  end.

Definition effect_on (e : effect) (c : cap) : effect :=
  if cheri_tag_get c then e else Keep.
Definition stored (e : effect) (c : cap) : cap :=
  tagged_if (bool_decide (e = Keep)) c.

(** [None] is a fault. *)
Definition v_store (a i : Z) (c : cap) (v : vm) : option vm :=
  match v_map v (v_me v) a with
  | Some (Shared o true) =>
      match effect_on shared_store c with
      | Fault => None
      | e => Some (set_obj (upd (v_obj v) o (upd (v_obj v o) i (stored e c, v_me v))) v)
      end
  | Some (Private o copy) =>
      match effect_on private_store c with
      | Fault => None
      | e =>
          let page := match copy with
                      | Some page => page
                      | None => fun i => tagged_if copy_tags (slot v o i)
                      end in
          Some (set_view a (Some (Private o (Some (upd page i (stored e c))))) v)
      end
  | _ => None
  end.

(** A new object, empty, with a descriptor. *)
Definition v_open (fd o : Z) (v : vm) : vm :=
  set_fd fd (Some (o, 0)) (set_obj (upd (v_obj v) o (fun _ => (cap_null, v_me v))) v).

(** fork(2), by the parent. *)
Definition v_fork (v : vm) : vm :=
  Vm (v_me v) (v_obj v) (updp (v_fd v) true (v_fd v false))
    (updp (v_map v) true (v_map v false)) (v_msg v) (v_event v) (v_action v)
    (v_room v).

Definition v_send (fd : Z) (v : vm) : vm := set_msg (v_fd v (v_me v) fd) v.
End Vm.
Arguments vm : clear implicits.
Arguments view : clear implicits.

(** A kernel that implements the machine. *)
Section Refines.
Context {cap W : Type} {CH : Cheri cap} {LC : Libc cap W} {KE : Kernel cap W}
  {VC : VmConsts} {TS : TmpStatics W} {FO : ForkOS W} {SH : ShareOS cap W} {SP : Sharing}.

Abbreviation pagesize := (getpagesize (cap := cap) (W := W)).

Class VmRefines := {
  abs : W -> vm cap;
  r_fault_signo : Z;                                (* of a refused store *)
  r_sigsegv : 0 < SIGSEGV (cap := cap) (W := W);
  r_mmap_shared prot fd w o k :
    prot ∈ [PROT_RWC; PROT_RC] -> v_fd (abs w) (v_me (abs w)) fd = Some (o, k) ->
    v_room (abs w) <> 0%nat -> forall hint, exists c w', sys_mmap hint pagesize prot MAP_SHARED fd 0 w = (inl c, w') /\
    v_map (abs w) (v_me (abs w)) (cheri_address_get c) = None /\
    abs w' = v_mmap (cheri_address_get c)
               (Shared o (bool_decide (prot = PROT_RWC))) (abs w);
  r_mmap_private fd w o k :
    v_fd (abs w) (v_me (abs w)) fd = Some (o, k) -> v_room (abs w) <> 0%nat -> exists c w',
    sys_mmap cap_null pagesize PROT_RW MAP_PRIVATE fd 0 w = (inl c, w') /\
    v_map (abs w) (v_me (abs w)) (cheri_address_get c) = None /\
    abs w' = v_mmap (cheri_address_get c) (Private o None) (abs w);
  r_mmap_anon prot w :
    prot ∈ [PROT_RW; Z.lor PROT_RW PROT_EXEC] ->
    v_room (abs w) <> 0%nat -> exists c o w',
    sys_mmap cap_null pagesize prot MAP_ANON (-1) 0 w = (inl c, w') /\
    cheri_tag_get c = true /\
    abs w' = v_mmap (cheri_address_get c) (Private o None) (abs w);
  r_load c i x w : v_load (cheri_address_get c) i (abs w) = Some x -> exists w',
    mem_load_cap c (i * cap_size (cap := cap) (W := W)) w = (inl x, w') /\ abs w' = abs w;
  r_store c i x w :
    match v_store (cheri_address_get c) i x (abs w) with
    | Some v' => exists w', mem_store_cap c (i * cap_size (cap := cap) (W := W)) x w = (inl tt, w')
                            /\ abs w' = v'
    | None => exists si w',
        mem_store_cap c (i * cap_size (cap := cap) (W := W)) x w = (inr si, w') /\
        si_signo si = r_fault_signo
    end;
  r_munmap c w : v_map (abs w) (v_me (abs w)) (cheri_address_get c) <> None -> exists w',
    sys_munmap c pagesize w = (inl 0, w') /\
    abs w' = set_view (cheri_address_get c) None (abs w);
  r_shm_open p flags w : exists fd o w',
    sys_shm_open p flags shm_mode w = (inl fd, w') /\ 0 <= fd /\ abs w' = v_open fd o (abs w);
  r_shm_unlink n w : exists w', sys_shm_unlink n w = (inl 0, w') /\ abs w' = abs w;
  r_memfd n w : exists fd o w',
    sys_memfd_create n 0 w = (inl fd, w') /\ 0 <= fd /\ abs w' = v_open fd o (abs w);
  r_ftruncate fd w : exists w',
    sys_ftruncate fd pagesize w = (inl 0, w') /\ abs w' = abs w;
  r_close fd w : exists r w', sys_close fd w = (r, w') /\ abs w' = set_fd fd None (abs w) /\
    (v_fd (abs w) (v_me (abs w)) fd <> None -> r = inl 0);
  r_random w : abs (os_random w).2 = abs w;
  r_socketpair w : exists sv w', sys_socketpair (cap := cap) w = (inl sv, w') /\ abs w' = abs w;
  r_fork w : v_me (abs w) = false -> exists pid w',
    sys_fork Fork w = (inl pid, w') /\ abs w' = v_fork (abs w);
  r_rfork w : exists pid w', sys_fork RFork w = (inl pid, w') /\
    v_me (abs w') = v_me (abs w) /\ v_room (abs w') = v_room (abs w);
  r_child w : abs (as_child w) = switch true (abs w);
  r_parent w : abs (as_parent w) = switch false (abs w);
  r_sendmsg s fd w : v_fd (abs w) (v_me (abs w)) fd <> None -> exists n w',
    sys_sendmsg_fd (cap := cap) s fd w = (inl n, w') /\ abs w' = v_send fd (abs w);
  r_recvmsg s x w : v_msg (abs w) = Some x -> exists fd w',
    sys_recvmsg_fd (cap := cap) s w = (inl fd, w') /\ 0 <= fd /\
    abs w' = set_fd fd (Some x) (set_msg None (abs w));
  r_read fd c o k w : v_fd (abs w) (v_me (abs w)) fd = Some (o, k) -> exists w',
    sys_read_cap fd c w
    = (inl (cap_size (cap := cap) (W := W), tagged_if read_tags (slot (abs w) o k)), w') /\
    abs w' = set_fd fd (Some (o, k + 1)) (abs w);
  r_write fd c o k w : v_fd (abs w) (v_me (abs w)) fd = Some (o, k) -> exists w',
    sys_write_cap fd c w = (inl (cap_size (cap := cap) (W := W)), w') /\
    abs w' = set_fd fd (Some (o, k + 1))
               (set_obj (upd (v_obj (abs w)) o (upd (v_obj (abs w) o) k
                   (tagged_if write_tags c, v_me (abs w)))) (abs w));
  r_kqueue w : exists kq w', sys_kqueue (cap := cap) w = (inl kq, w') /\ abs w' = abs w;
  r_kevent_add kq id c w : exists w', kevent_add kq id c w = (inl 0, w') /\
    abs w' = set_event (Some (id, c, v_me (abs w))) (abs w);
  r_kevent_trigger kq id w : exists w',
    kevent_trigger (cap := cap) kq id w = (inl 0, w') /\ abs w' = abs w;
  r_kevent_wait kq id c by_ w : v_event (abs w) = Some (id, c, by_) -> exists w',
    kevent_wait kq w = (inl (id, EVFILT_USER (cap := cap) (W := W),
        tagged_if (kqueue_tags || Bool.eqb by_ (v_me (abs w))) c), w');
  r_sigaction_set c w : exists w',
    sigaction_set (SIGUSR1 (cap := cap) (W := W)) c w = (inl 0, w') /\
    abs w' = set_action (c, v_me (abs w)) (abs w);
  r_sigaction_get c by_ w : v_action (abs w) = (c, by_) -> exists w',
    sigaction_get (SIGUSR1 (cap := cap) (W := W)) w
    = (inl (tagged_if (sigaction_tags || Bool.eqb by_ (v_me (abs w))) c, 0), w') /\
    abs w' = abs w;
  local_cap_tagged : cheri_tag_get (stack_local (cap := cap) (W := W) 4) = true;
  local_ptr_tagged : cheri_tag_get (cheri_ptr (stack_local (cap := cap) (W := W) 4) 4) = true;
  local_ptr_not_null :
    cheri_address_get (cheri_ptr (stack_local (cap := cap) (W := W) 4) 4) <> 0;
}.
End Refines.
Arguments VmRefines cap W {_ _ _ _ _ _ _}.

(** ** Running the tests on the machine *)

Section Facts.
Context {cap W : Type} {CH : Cheri cap} {CL : CheriLaws cap} {LC : Libc cap W}
  {KE : Kernel cap W} {VC : VmConsts} {TS : TmpStatics W} {FO : ForkOS W} {SH : ShareOS cap W}
  {SP : Sharing} {RF : VmRefines cap W}.
Context (g : config).

(** The logic of [Judge] over this machine. *)
Abbreviation steps := (Judge.steps (cap := cap) abs).
Abbreviation judged := (Judge.judged (cap := cap) abs).
Abbreviation exits := (Judge.exits (cap := cap) abs).
Abbreviation on := (Judge.on (cap := cap) abs).

(** *** The steps of the machine *)

Lemma steps_load c off i x v :
  off = i * csize (cap := cap) (W := W) -> v_load (cheri_address_get c) i v = Some x ->
  steps (access (mem_load_cap c off)) v (fun y v' => y = x /\ v' = v).
Proof.
  intros -> Hl. apply steps_access. intros w Hw. subst v.
  destruct (r_load c i x w Hl) as (w' & Hr & Ha). by exists x, w'.
Qed.

Lemma steps_store c off i x v v' :
  off = i * csize (cap := cap) (W := W) -> v_store (cheri_address_get c) i x v = Some v' ->
  steps (access (mem_store_cap c off x)) v (fun _ v2 => v2 = v').
Proof.
  intros -> Hl. apply steps_access. intros w Hw. subst v.
  pose proof (r_store c i x w) as H. rewrite Hl in H.
  destruct H as (w' & Hr & Ha). by exists tt, w'.
Qed.

Lemma judged_store_fault {B} c off i x (k : unit -> test cap W B) v P :
  off = i * csize (cap := cap) (W := W) -> v_store (cheri_address_get c) i x v = None ->
  ~ P -> judged (access (mem_store_cap c off x) ≫= k) v P.
Proof.
  intros -> Hl HP. apply judged_fault; [|done]. intros w Hw. subst v.
  pose proof (r_store c i x w) as H. rewrite Hl in H.
  destruct H as (si & w' & H & _). by exists si, w'.
Qed.

Lemma steps_map_shared prot fd hint msg ap o k v :
  prot ∈ [PROT_RWC; PROT_RC] -> v_fd v (v_me v) fd = Some (o, k) -> v_room v <> 0%nat ->
  steps (CHERIOSTEST_CHECK_SYSCALL2 (sys (sys_mmap hint getpagesize prot MAP_SHARED fd 0)) msg ap) v
    (fun c v' => v_map v (v_me v) (cheri_address_get c) = None /\
       v' = v_mmap (cheri_address_get c) (Shared o (bool_decide (prot = PROT_RWC))) v).
Proof.
  intros Hp Hfd Hroom. apply steps_call2. intros w Hw. subst v.
  destruct (r_mmap_shared prot fd w o k Hp Hfd Hroom hint) as (c & w' & ? & ? & ?). by exists c, w'.
Qed.

Lemma steps_map_private fd msg ap o k v :
  v_fd v (v_me v) fd = Some (o, k) -> v_room v <> 0%nat ->
  steps (CHERIOSTEST_CHECK_SYSCALL2
           (sys (sys_mmap cap_null getpagesize PROT_RW MAP_PRIVATE fd 0)) msg ap) v
    (fun c v' => v_map v (v_me v) (cheri_address_get c) = None /\
       v' = v_mmap (cheri_address_get c) (Private o None) v).
Proof.
  intros Hfd Hroom. apply steps_call2. intros w Hw. subst v.
  destruct (r_mmap_private fd w o k Hfd Hroom) as (c & w' & ? & ? & ?). by exists c, w'.
Qed.

Lemma steps_munmap c msg ap v :
  v_map v (v_me v) (cheri_address_get c) <> None ->
  steps (CHERIOSTEST_CHECK_SYSCALL2 (sys (sys_munmap c getpagesize)) msg ap) v
    (fun _ v' => v' = set_view (cheri_address_get c) None v).
Proof.
  intros Hm. apply steps_call2. intros w Hw. subst v.
  destruct (r_munmap c w Hm) as (w' & ? & ?). by exists 0, w'.
Qed.

Lemma steps_close fd msg ap v :
  v_fd v (v_me v) fd <> None ->
  steps (CHERIOSTEST_CHECK_SYSCALL2 (sys (sys_close fd)) msg ap) v
    (fun _ v' => v' = set_fd fd None v).
Proof.
  intros Hm. apply steps_call2. intros w Hw. subst v.
  destruct (r_close fd w) as (r & w' & Hc & Ha & Hr). exists 0, w'. by rewrite <- Hr.
Qed.

Lemma steps_close_quietly fd v :
  steps (close_quietly fd) v (fun _ v' => v' = set_fd fd None v).
Proof.
  intros s [Hs Hv]. destruct (r_close fd (p_world s)) as (r & w' & Hc & Ha & _).
  unfold close_quietly. subst v.
  apply (try_sys_run _ s) in Hc. destruct r as [n|e].
  - exists tt, (set_world w' s), (abs w'). split; [|by split; [|split]].
    by rewrite (test_bind _ _ _ _ _ Hc).
  - exists tt, (set_errno e (set_world w' s)), (abs w'). split; [|by split; [|split]].
    by rewrite (test_bind _ _ _ _ _ Hc).
Qed.

Lemma steps_ftruncate fd v : steps (ftruncate_page fd) v (fun _ v' => v' = v).
Proof.
  apply (steps_bind _ _ _ (fun _ v' => v' = v)).
  - apply steps_call2. intros w Hw. destruct (r_ftruncate fd w) as (w' & ? & ?).
    exists 0, w'. split; [done|congruence].
  - intros a v' ->. by apply steps_ret.
Qed.

Lemma steps_say msg c v : steps (say msg c) v (fun _ v' => v' = v).
Proof.
  intros s Hs. unfold say, gets, mbind, eff_bind. destruct (negb _); simpl.
  - unfold report_on_stderr, modify. eexists tt, _, v. by split_and!.
  - by exists tt, s, v.
Qed.

(** A new object with its descriptor. *)
Definition opened (v : vm cap) (fd : Z) (v' : vm cap) : Prop :=
  0 <= fd /\ exists o, v' = v_open fd o v.

Lemma steps_open_anon v : steps open_shm_anon v (opened v).
Proof.
  apply steps_call2. intros w Hw. subst v.
  destruct (r_shm_open ShmAnon O_RDWR w) as (fd & o & w' & ? & ? & ?).
  exists fd, w'. split; [done|]. split; [done|]. by exists o.
Qed.

Lemma steps_memfd n v : steps (open_memfd n) v (opened v).
Proof.
  apply steps_call2. intros w Hw. subst v.
  destruct (r_memfd n w) as (fd & o & w' & ? & ? & ?).
  exists fd, w'. split; [done|]. split; [done|]. by exists o.
Qed.

Lemma steps_gen_name v : steps (gen_shm_obj_name g 32) v (fun _ v' => v' = v).
Proof.
  unfold gen_shm_obj_name. eapply steps_bind; [by apply steps_verify|]. intros _ ? ->.
  eapply (steps_bind _ _ _ (fun _ v' => v' = v)); [|intros a ? ->; by apply steps_ret].
  generalize (splice (replicate 32 NUL) 0 (bytes_of "/cheriostest_shm-" ++ [NUL])).
  induction (seq 18 (32 - 1 - 18)) as [|i idx IH]; intros buf; cbn [fill_random].
  { by apply steps_ret. }
  eapply (steps_bind _ _ _ (fun _ v' => v' = v)); [|intros a ? ->; apply IH].
  intros s [Hs Hv]. pose proof (r_random (p_world s)) as Hr. unfold libcall.
  destruct (os_random (p_world s)) as [r w]. simpl in Hr.
  exists r, (set_world w s), v. split; [done|]. split; [done|]. split; [done|].
  simpl. congruence.
Qed.

Lemma steps_open_named v : steps (open_named_shm g) v (opened v).
Proof.
  unfold open_named_shm, create_named_shm_obj. cbn [create_loop].
  eapply (steps_bind _ _ _ (fun p v' => opened v p.2 v')).
  - eapply steps_bind; [apply steps_gen_name|]. intros name ? ->.
    eapply (steps_bind _ _ _ (fun fd v' => exists n, fd = Some n /\ opened v n v')).
    { intros s [Hs Hv]. subst v.
      destruct (r_shm_open (ShmNamed (cstr name)) (Z.lor (Z.lor O_CREAT O_EXCL) O_RDWR)
        (p_world s)) as (fd & o & w' & Hr & Hfd & Ha).
      exists (Some fd), (set_world w' s), (abs w'). split; [by apply (try_sys_run _ s) in Hr|].
      split; [|done]. exists fd. split; [done|]. split; [done|]. by exists o. }
    intros fd v' (n & -> & Ho). apply (steps_bind _ _ _ (fun _ v2 => v2 = v')).
    { by apply (steps_ret tt). }
    intros _ ? ->. by apply steps_ret.
  - intros [name fd] v' Ho. simpl in Ho.
    eapply (steps_bind _ _ _ (fun _ v2 => v2 = v')).
    + apply steps_call2. intros w Hw. destruct (r_shm_unlink (cstr name) w) as (w' & ? & ?).
      exists 0, w'. split; [done|congruence].
    + intros _ ? ->. by apply steps_ret.
Qed.

(** *** Views, descriptors and slots *)

Lemma look_view a x (v : vm cap) :
  v_map (set_view a x v) (v_me (set_view a x v)) a = x.
Proof. unfold set_view, updp, upd. simpl. by rewrite Bool.eqb_reflx, Z.eqb_refl. Qed.

Lemma look_view_ne a b x (v : vm cap) :
  a <> b ->
  v_map (set_view b x v) (v_me (set_view b x v)) a = v_map v (v_me v) a.
Proof.
  intros Hne. unfold set_view, updp, upd. simpl. rewrite Bool.eqb_reflx.
  by rewrite (proj2 (Z.eqb_neq a b) Hne).
Qed.

Lemma look_mmap a x (v : vm cap) :
  v_map (v_mmap a x v) (v_me (v_mmap a x v)) a = Some x.
Proof. unfold v_mmap, updp, upd. simpl. by rewrite Bool.eqb_reflx, Z.eqb_refl. Qed.

Lemma look_mmap_ne a b x (v : vm cap) :
  a <> b -> v_map (v_mmap b x v) (v_me (v_mmap b x v)) a = v_map v (v_me v) a.
Proof.
  intros Hne. unfold v_mmap, updp, upd. simpl. rewrite Bool.eqb_reflx.
  by rewrite (proj2 (Z.eqb_neq a b) Hne).
Qed.

Lemma look_fd fd x (v : vm cap) :
  v_fd (set_fd fd x v) (v_me (set_fd fd x v)) fd = x.
Proof. unfold set_fd, updp, upd. simpl. by rewrite Bool.eqb_reflx, Z.eqb_refl. Qed.

Lemma slot_own o i c (v : vm cap) :
  slot (set_obj (upd (v_obj v) o (upd (v_obj v o) i (c, v_me v))) v) o i = c.
Proof.
  unfold slot, set_obj, upd. simpl. by rewrite !Z.eqb_refl, Bool.eqb_reflx, orb_true_r.
Qed.

(** A descriptor of an empty object. *)
Definition empty_fd (v : vm cap) (fd o : Z) : Prop :=
  0 <= fd /\ v_fd v (v_me v) fd = Some (o, 0) /\ forall i, v_obj v o i = (cap_null, v_me v).

Lemma opened_empty v fd v' : opened v fd v' -> exists o, empty_fd v' fd o.
Proof.
  intros (Hfd & o & ->). exists o. split; [done|]. split; [apply look_fd|].
  intros i. unfold v_open, set_fd, set_obj, upd. simpl. by rewrite Z.eqb_refl.
Qed.

Lemma empty_slot v fd o i : empty_fd v fd o -> slot v o i = cap_null.
Proof.
  intros (_ & _ & H). unfold slot. rewrite H, Bool.eqb_reflx, orb_true_r. done.
Qed.

Lemma null_tag : cheri_tag_get (cap_null (cap := cap)) = false.
Proof. apply of_int_tag. Qed.

Lemma null_address : cheri_address_get (cap_null (cap := cap)) = 0.
Proof. unfold cap_null. by rewrite of_int_address. Qed.

Lemma load_shared a b o i v :
  v_map v (v_me v) a = Some (Shared o b) -> v_load a i v = Some (slot v o i).
Proof. intros H. unfold v_load. by rewrite H. Qed.

(** A tagged store to a shared page and what the object holds then. *)
Definition after_store (o i : Z) (c : cap) (v : vm cap) : vm cap :=
  set_obj (upd (v_obj v) o (upd (v_obj v o) i (stored shared_store c, v_me v))) v.

Lemma store_shared a o i c v :
  v_map v (v_me v) a = Some (Shared o true) -> cheri_tag_get c = true ->
  v_store a i c v = if decide (shared_store = Fault) then None
                    else Some (after_store o i c v).
Proof.
  intros H Hc. unfold v_store, effect_on, after_store. rewrite H, Hc.
  by destruct shared_store.
Qed.

Lemma stored_tag e c : cheri_tag_get c = true -> cheri_tag_get (stored e c) = bool_decide (e = Keep).
Proof. intros Hc. unfold stored, tagged_if. case_match; [done|]. apply tag_clear_tag. Qed.

Lemma rwc_shared : PROT_RWC ∈ [PROT_RWC; PROT_RC].
Proof. left. Qed.
Lemma rc_shared : PROT_RC ∈ [PROT_RWC; PROT_RC].
Proof. right. left. Qed.

(** The common beginning: a shared page for capabilities. *)
Lemma judged_need_prot_cap {A B} (m : test cap W A) (k : A -> test cap W B) v (P : Prop) :
  (P -> cfg_prot_cap g = true) ->
  (cfg_prot_cap g = true -> judged (m ≫= k) v P) ->
  judged (need_prot_cap g m ≫= k) v P.
Proof.
  intros HP Hm. unfold need_prot_cap. destruct (cfg_prot_cap g); [by apply Hm|].
  apply judged_failure. intros H. by apply HP in H.
Qed.

(** A store to the shared page, and the tag that a load of it finds. *)
Lemma judged_store {B} c o x (k : unit -> test cap W B) v (P : Prop) :
  v_map v (v_me v) (cheri_address_get c) = Some (Shared o true) -> cheri_tag_get x = true ->
  (P -> shared_store = Keep) -> judged (k tt) (after_store o 0 x v) P ->
  judged (access (mem_store_cap c 0 x) ≫= k) v P.
Proof.
  intros Hv Hx HP Hk. pose proof (store_shared _ o 0 x v Hv Hx) as Hst.
  case_decide as Hf.
  { apply (judged_store_fault _ _ 0); [done|done|]. intros H. by rewrite (HP H) in Hf. }
  eapply judged_bind; [by apply (steps_store _ _ 0)|]. by intros [] ? ->.
Qed.

Lemma judged_stored_tag {B} x msg ap (k : test cap W B) v (P : Prop) :
  cheri_tag_get x = true -> (P -> shared_store = Keep) ->
  (shared_store = Keep -> judged k v P) ->
  judged (CHERIOSTEST_VERIFY2 (cheri_tag_get (stored shared_store x)) msg ap ;; k) v P.
Proof.
  intros Hx HP Hk. apply judged_verify; rewrite stored_tag by done.
  - by intros Hb%bool_decide_eq_true; apply Hk.
  - intros Hb%bool_decide_eq_false. auto.
Qed.

Lemma local_tag : cheri_tag_get (cap_to_local (cap := cap) (W := W)) = true.
Proof. apply local_ptr_tagged. Qed.

Lemma stored_keep x : stored Keep x = x.
Proof. done. Qed.

Lemma judged_load_shared {B} c o b (k : cap -> test cap W B) v (P : Prop) :
  v_map v (v_me v) (cheri_address_get c) = Some (Shared o b) ->
  judged (k (slot v o 0)) v P -> judged (access (mem_load_cap c 0) ≫= k) v P.
Proof.
  intros Hv Hk. eapply judged_bind; [apply (steps_load _ _ 0); [done|by eapply load_shared]|].
  by intros y ? [-> ->].
Qed.

Lemma slot_after_store o x v : slot (after_store o 0 x v) o 0 = stored shared_store x.
Proof. apply slot_own. Qed.

Lemma shared2x_judged fd o v :
  empty_fd v fd o -> (2 <= v_room v)%nat ->
  judged (vm_tag_shm_open_shared2x g fd ;; (cheriostest_success : test cap W unit)) v
    (cfg_prot_cap g = true /\ shared_store = Keep).
Proof.
  intros Hfd Hroom. pose proof Hfd as (H0 & Hf & _). unfold vm_tag_shm_open_shared2x.
  apply judged_assoc, judged_need_prot_cap; [tauto|]. intros Hg.
  eapply judged_bind; [eapply steps_map_shared; [apply rc_shared|exact Hf|lia]|].
  intros map2 v1 [_ ->]. set (a2 := cheri_address_get map2). set (b := bool_decide _).
  apply judged_assoc. eapply judged_bind.
  { apply (steps_load _ _ 0); [done|]. eapply load_shared, look_mmap. }
  intros c2 ? [-> ->].
  change (slot (v_mmap a2 (Shared o b) v) o 0) with (slot v o 0).
  rewrite (empty_slot v fd) by done. set (v1 := v_mmap a2 _ v).
  apply judged_assoc, judged_verify; [intros _|by rewrite null_tag].
  apply judged_assoc, judged_verify; [intros _|by rewrite null_address].
  apply judged_assoc. unfold mmap_and_check_tag_stored. apply judged_assoc.
  eapply judged_bind.
  { eapply steps_map_shared; [apply rwc_shared|exact Hf|].
    change (pred (v_room v) <> 0%nat). lia. }
  intros cp v2 [Hn ->]. set (a := cheri_address_get cp) in *.
  rewrite bool_decide_eq_true_2 by done.
  assert (a2 <> a) as Ha. { intros <-. unfold v1 in Hn. by rewrite look_mmap in Hn. }
  set (v2 := v_mmap a _ v1).
  apply judged_assoc. eapply judged_store; [apply look_mmap|apply local_ptr_tagged|tauto|].
  apply judged_assoc. eapply judged_load_shared; [apply look_mmap|].
  rewrite slot_after_store.
  apply judged_assoc, judged_stored_tag; [apply local_ptr_tagged|tauto|]. intros Hk.
  set (v3 := after_store o 0 cap_to_local v2).
  apply judged_assoc. eapply judged_bind.
  { apply steps_munmap. change (v_map v2 (v_me v2) a <> None). unfold v2. by rewrite look_mmap. }
  intros _ ? ->. rewrite (proj2 (Z.eqb_neq fd (-1))) by lia.
  apply judged_assoc. eapply judged_bind.
  { apply steps_close. change (v_fd v (v_me v) fd <> None). by rewrite Hf. }
  intros _ ? ->. apply judged_ret, judged_assoc. set (v4 := set_fd fd None _).
  eapply (judged_load_shared _ o b).
  { change (v_map (set_view a None v3) (v_me (set_view a None v3)) a2 = Some (Shared o b)).
    rewrite look_view_ne by done. change (v_map v2 (v_me v2) a2 = Some (Shared o b)).
    unfold v2. rewrite look_mmap_ne by done. apply look_mmap. }
  change (slot v4 o 0) with (slot v3 o 0). unfold v3. rewrite slot_after_store, Hk, stored_keep.
  apply judged_assoc, judged_verify; [intros _|by rewrite local_tag].
  apply judged_verify; [intros _|].
  - by apply judged_success.
  - pose proof local_ptr_not_null as Hl. intros Hz.
    rewrite negb_false_iff, Z.eqb_eq in Hz. by destruct Hl.
Qed.

(** *** Copy-on-write *)

(** Both pages are mapped, and the object holds the capability. *)
Record cow_state (v : vm cap) (fd o : Z) (cp_real cp_copy : cap) : Prop := {
  cow_fd : v_fd v (v_me v) fd = Some (o, 0);
  cow_ne : cheri_address_get cp_real <> cheri_address_get cp_copy;
  cow_real : v_map v (v_me v) (cheri_address_get cp_real) = Some (Shared o true);
  cow_copy : v_map v (v_me v) (cheri_address_get cp_copy) = Some (Private o None);
  cow_slot : slot v o 0 = cap_to_local;
}.

Lemma load_private a o i v :
  v_map v (v_me v) a = Some (Private o None) ->
  v_load a i v = Some (tagged_if private_load (slot v o i)).
Proof. intros H. unfold v_load. by rewrite H. Qed.

Lemma tagged_if_tag b c : cheri_tag_get c = true -> cheri_tag_get (tagged_if b c) = b.
Proof. intros Hc. destruct b; [done|apply tag_clear_tag]. Qed.

Lemma cow_pages_judged {B} fd o v (k : cap * cap -> test cap W B) (P : Prop) :
  empty_fd v fd o -> (2 <= v_room v)%nat ->
  (P -> cfg_prot_cap g = true /\ shared_store = Keep /\ private_load = true) ->
  (forall cp_real cp_copy v', cow_state v' fd o cp_real cp_copy ->
   cfg_prot_cap g = true -> shared_store = Keep -> private_load = true ->
   judged (k (cp_real, cp_copy)) v' P) ->
  judged (cow_pages g fd ≫= k) v P.
Proof.
  intros Hfd Hroom HP Hk. pose proof Hfd as (H0 & Hf & _). unfold cow_pages.
  apply judged_assoc. eapply judged_bind; [apply steps_ftruncate|]. intros _ ? ->.
  apply judged_assoc, judged_need_prot_cap; [tauto|]. intros Hg.
  apply judged_assoc. eapply judged_bind; [eapply steps_map_shared; [apply rwc_shared|exact Hf|lia]|].
  intros cr ? [_ ->]. rewrite bool_decide_eq_true_2 by done.
  set (v1 := v_mmap _ _ v). apply judged_assoc.
  eapply judged_bind; [apply (steps_map_private _ _ _ o 0 v1); [done|change (pred (v_room v) <> 0%nat); lia]|].
  intros cc ? [Hn ->]. set (v2 := v_mmap _ _ v1). apply judged_ret. cbv beta iota.
  assert (cheri_address_get cr <> cheri_address_get cc) as Hne.
  { intros He. rewrite <- He in Hn. unfold v1 in Hn. by rewrite look_mmap in Hn. }
  assert (v_map v2 (v_me v2) (cheri_address_get cr) = Some (Shared o true)) as Hr.
  { unfold v2. rewrite look_mmap_ne by done. apply look_mmap. }
  apply judged_assoc. eapply judged_store; [done|apply local_ptr_tagged|tauto|].
  set (v3 := after_store o 0 _ v2).
  apply judged_assoc. eapply judged_load_shared; [exact Hr|]. unfold v3 at 1.
  rewrite slot_after_store.
  apply judged_assoc, judged_stored_tag; [apply local_ptr_tagged|tauto|]. intros Hkeep.
  assert (v_map v3 (v_me v3) (cheri_address_get cc) = Some (Private o None)) as Hc.
  { change (v_map v2 (v_me v2) (cheri_address_get cc) = Some (Private o None)).
    apply look_mmap. }
  apply judged_assoc. eapply judged_bind.
  { apply (steps_load _ _ 0); [done|]. by apply load_private. }
  intros x ? [-> ->]. unfold v3 at 1. rewrite slot_after_store, Hkeep, stored_keep.
  apply judged_assoc, judged_verify; rewrite tagged_if_tag by apply local_ptr_tagged.
  - intros Hpl. apply judged_ret, Hk; [|done..]. split; try done.
    unfold v3. by rewrite slot_after_store, Hkeep.
  - intros Hpl Hp. by rewrite (proj2 (proj2 (HP Hp))) in Hpl.
Qed.

(** The end of the tests: both pages unmapped, the descriptor closed. *)
Lemma cow_end_judged v fd o a b x (P : Prop) :
  v_fd v (v_me v) fd = Some (o, 0) -> cheri_address_get a <> cheri_address_get b ->
  v_map v (v_me v) (cheri_address_get a) <> None ->
  v_map v (v_me v) (cheri_address_get b) = Some x -> P ->
  judged (cow_unmap a b ;; close_checked fd ;; (cheriostest_success : test cap W unit)) v P.
Proof.
  intros Hf Hne Ha Hb HP. unfold cow_unmap, close_checked.
  apply judged_assoc. eapply judged_bind; [by apply steps_munmap|]. intros _ ? ->.
  apply judged_assoc. eapply judged_bind.
  { apply steps_munmap. by rewrite look_view_ne, Hb by congruence. }
  intros _ ? ->. apply judged_ret, judged_assoc. eapply judged_bind.
  { apply steps_close. change (v_fd v (v_me v) fd <> None). by rewrite Hf. }
  intros _ ? ->. by apply judged_ret, judged_success.
Qed.

Lemma cow_read_judged fd o v :
  empty_fd v fd o -> (2 <= v_room v)%nat ->
  judged (vm_cow_read g fd ;; close_checked fd ;; (cheriostest_success : test cap W unit)) v
    (cfg_prot_cap g = true /\ shared_store = Keep /\ private_load = true).
Proof.
  intros Hfd Hroom. apply judged_assoc. eapply cow_pages_judged; [done|done|done|].
  intros cr cc v' Hc Hg Hs Hp. cbn [fst snd]. eapply cow_end_judged; [apply Hc|apply Hc| |apply Hc|done].
  by rewrite (cow_real _ _ _ _ _ Hc).
Qed.

Lemma store_private a o i c v :
  v_map v (v_me v) a = Some (Private o None) -> cheri_tag_get c = true ->
  v_store a i c v =
  if decide (private_store = Fault) then None
  else Some (set_view a (Some (Private o (Some
         (upd (fun i => tagged_if copy_tags (slot v o i)) i (stored private_store c))))) v).
Proof. intros H Hc. unfold v_store, effect_on. rewrite H, Hc. by destruct private_store. Qed.

Lemma cow_write_judged fd o v :
  empty_fd v fd o -> (2 <= v_room v)%nat ->
  judged (vm_cow_write g fd ;; close_checked fd ;; (cheriostest_success : test cap W unit)) v
    (cfg_prot_cap g = true /\ shared_store = Keep /\ private_load = true /\
     private_store <> Fault /\ copy_tags = true).
Proof.
  intros Hfd Hroom. apply judged_assoc. eapply cow_pages_judged; [done|done|tauto|].
  intros cr cc v' Hc Hg Hs Hp. cbn [fst snd].
  pose proof (store_private _ o 1 cap_to_local v' (cow_copy _ _ _ _ _ Hc) local_tag) as Hst.
  apply judged_assoc. case_decide as Hfault.
  { apply (judged_store_fault _ _ 1); [unfold csize; lia|done|tauto]. }
  eapply judged_bind; [apply (steps_store _ _ 1); [unfold csize; lia|done]|].
  intros _ ? ->. set (page := upd _ _ _). set (v2 := set_view _ _ v').
  assert (v_map v2 (v_me v2) (cheri_address_get cr) = Some (Shared o true)) as Hr.
  { unfold v2. rewrite look_view_ne by apply Hc. apply Hc. }
  apply judged_assoc. eapply judged_load_shared; [exact Hr|].
  change (slot v2 o 0) with (slot v' o 0). rewrite (cow_slot _ _ _ _ _ Hc).
  apply judged_assoc, judged_verify; [intros _|by rewrite local_tag].
  apply judged_assoc. eapply (judged_bind _ _ _ (fun x v3 => x = page 0 /\ v3 = v2)).
  { apply (steps_load _ _ 0); [done|]. unfold v_load, v2. by rewrite look_view. }
  intros x ? [-> ->]. unfold page, upd. cbn [Z.eqb].
  rewrite (cow_slot _ _ _ _ _ Hc).
  apply judged_assoc, judged_verify; rewrite tagged_if_tag by apply local_ptr_tagged.
  - intros Hct. eapply cow_end_judged; [apply Hc|apply Hc|by rewrite Hr|apply look_view|].
    by split_and!.
  - intros Hct Hp'. destruct Hp' as (_ & _ & _ & _ & Hp'). by rewrite Hp' in Hct.
Qed.

(** *** read(2) and write(2) *)

Lemma judged_map_rwc {B} fd o k (kk : cap -> test cap W B) v (P : Prop) :
  v_fd v (v_me v) fd = Some (o, k) -> v_room v <> 0%nat ->
  (P -> cfg_prot_cap g = true) ->
  (forall c, cfg_prot_cap g = true ->
   judged (kk c) (v_mmap (cheri_address_get c) (Shared o true) v) P) ->
  judged (map_rwc g fd ≫= kk) v P.
Proof.
  intros Hf Hroom HP Hk. apply judged_need_prot_cap; [done|]. intros Hg.
  eapply judged_bind; [eapply steps_map_shared; [apply rwc_shared|exact Hf|done]|].
  intros c ? [_ ->]. rewrite bool_decide_eq_true_2 by done. by apply Hk.
Qed.

Lemma judged_eq_size {B} a b t1 t2 (k : test cap W B) v P :
  a = b -> judged k v P -> judged (CHERIOSTEST_CHECK_EQ_SIZE a b t1 t2 ;; k) v P.
Proof.
  intros -> Hk. apply judged_verify; [done|]. by rewrite Z.eqb_refl.
Qed.

Lemma close_success_judged fd text v (P : Prop) :
  v_fd v (v_me v) fd <> None -> P ->
  judged (_ ← CHERIOSTEST_CHECK_SYSCALL (sys (sys_close fd)) text;
          (cheriostest_success : test cap W unit)) v P.
Proof.
  intros Hf HP. eapply judged_bind; [by apply steps_close|]. intros _ ? ->.
  by apply judged_success.
Qed.

Lemma read_nocaps_judged fd o v :
  empty_fd v fd o -> (2 <= v_room v)%nat ->
  judged (shm_open_read_nocaps g fd) v
    (cfg_prot_cap g = true /\ shared_store = Keep /\ read_tags = false).
Proof.
  intros Hfd Hroom. pose proof Hfd as (H0 & Hf & _). unfold shm_open_read_nocaps.
  eapply judged_bind; [apply steps_ftruncate|]. intros _ ? ->.
  eapply judged_map_rwc; [exact Hf|lia|tauto|]. intros map Hg. set (v1 := v_mmap _ _ v).
  set (x := stack_local 4). assert (cheri_tag_get x = true) as Hx by apply local_cap_tagged.
  eapply judged_store; [apply look_mmap|done|tauto|]. set (v2 := after_store o 0 x v1).
  assert (v_map v2 (v_me v2) (cheri_address_get map) = Some (Shared o true)) as Hm.
  { change (v_map v1 (v_me v1) (cheri_address_get map) = Some (Shared o true)).
    apply look_mmap. }
  assert (slot v2 o 0 = stored shared_store x) as Hslot by apply slot_after_store.
  eapply judged_load_shared; [exact Hm|]. rewrite Hslot.
  apply judged_stored_tag; [done|tauto|]. intros Hk. rewrite Hk, stored_keep.
  eapply (judged_bind _ _ _ (fun r v' =>
    r = (csize (cap := cap) (W := W), tagged_if read_tags x) /\
    v' = set_fd fd (Some (o, 1)) v2)).
  { apply steps_call2. intros w Hw.
    destruct (r_read fd x o 0 w) as (w' & Hr & Ha); [by rewrite Hw|].
    rewrite Hw in Hr, Ha. rewrite Hslot, Hk, stored_keep in Hr.
    eexists _, w'. split; [exact Hr|]. by split. }
  intros r ? [-> ->]. set (v3 := set_fd _ _ v2).
  apply judged_eq_size; [done|].
  apply judged_verify; rewrite tagged_if_tag by done.
  - intros Hb. rewrite negb_true_iff in Hb. rewrite Hb. eapply judged_load_shared; [exact Hm|].
    change (slot v3 o 0) with (slot v2 o 0). rewrite Hslot, Hk, stored_keep.
    apply judged_verify; [intros _|by rewrite equal_exact_refl].
    apply close_success_judged; [|done]. unfold v3. by rewrite look_fd.
  - intros Hb (_ & _ & Hr). by rewrite Hr in Hb.
Qed.

Lemma write_nocaps_judged fd o v :
  empty_fd v fd o -> (2 <= v_room v)%nat ->
  judged (shm_open_write_nocaps g fd) v (cfg_prot_cap g = true /\ write_tags = false).
Proof.
  intros Hfd Hroom. pose proof Hfd as (H0 & Hf & _). unfold shm_open_write_nocaps.
  eapply judged_bind; [apply steps_ftruncate|]. intros _ ? ->.
  eapply judged_map_rwc; [exact Hf|lia|tauto|]. intros map Hg. set (v1 := v_mmap _ _ v).
  cbv zeta. set (x := stack_local 4).
  assert (cheri_tag_get x = true) as Hx by apply local_cap_tagged.
  apply judged_verify; [intros _|by rewrite Hx].
  set (v2 := set_fd fd (Some (o, 1)) (set_obj (upd (v_obj v1) o (upd (v_obj v1 o) 0
                   (tagged_if write_tags x, v_me v1))) v1)).
  eapply (judged_bind _ _ _ (fun r v' => r = csize (cap := cap) (W := W) /\ v' = v2)).
  { apply steps_call2. intros w Hw. destruct (r_write fd x o 0 w) as (w' & Hr & Ha).
    { by rewrite Hw. }
    rewrite Hw in Ha. eexists _, w'. by split. }
  intros r ? [-> ->]. apply judged_eq_size; [done|].
  assert (v_map v2 (v_me v2) (cheri_address_get map) = Some (Shared o true)) as Hm.
  { change (v_map v1 (v_me v1) (cheri_address_get map) = Some (Shared o true)).
    apply look_mmap. }
  assert (slot v2 o 0 = tagged_if write_tags x) as Hslot.
  { change (slot (set_obj (upd (v_obj v1) o (upd (v_obj v1 o) 0
                   (tagged_if write_tags x, v_me v1))) v1) o 0 = tagged_if write_tags x).
    apply slot_own. }
  eapply judged_load_shared; [exact Hm|]. rewrite Hslot.
  apply judged_verify; rewrite tagged_if_tag by done.
  - intros Hb. rewrite negb_true_iff in Hb.
    eapply judged_load_shared; [exact Hm|]. rewrite Hslot, Hb.
    apply judged_verify; [intros _|by rewrite equal_exact_refl].
    apply close_success_judged; [|done]. unfold v2. by rewrite look_fd.
  - intros Hb (_ & Hw). by rewrite Hw in Hb.
Qed.

(** *** Two processes *)

Lemma vm_wait {B} child n Q (k : Z -> test cap W B) v (P : Prop) :
  0 <= n < 256 -> exits child (switch true v) n Q ->
  (forall v', Q v' -> judged (k (Z.shiftl n 8)) (switch false v') P) ->
  judged (wait_child g child ≫= k) v P.
Proof. apply judged_wait; [apply r_child|apply r_parent]. Qed.

(** The child of the descriptor test, once the message is sent. *)
Lemma surprise_child_exits sv o x v :
  v_me v = false -> v_room v <> 0%nat -> v_msg v = Some (o, 0) -> v_obj v o 0 = (x, false) ->
  cheri_tag_get x = true -> cfg_prot_cap g = true ->
  exits (unix_surprise_child g sv) (switch true v)
    (if foreign_load then EX_SOFTWARE else 0) (fun _ => True).
Proof.
  intros Hme Hroom Hmsg Hobj Hx Hg. unfold unix_surprise_child.
  eapply exits_bind; [apply steps_close_quietly|]. intros _ ? ->.
  set (v1 := set_fd _ None _).
  eapply (exits_bind _ _ _ (fun fd v' => 0 <= fd /\
    v' = set_fd fd (Some (o, 0)) (set_msg None v1))).
  { apply steps_call2. intros w Hw. destruct (r_recvmsg sv.1 (o, 0) w) as (fd & w' & ? & ? & Ha).
    { by rewrite Hw. }
    exists fd, w'. rewrite Hw in Ha. by split_and!. }
  intros fd ? [Hfd ->]. set (v2 := set_fd fd _ _).
  apply exits_verify; [intros _|by intros ?%Z.leb_gt; lia].
  unfold need_prot_cap. rewrite Hg.
  eapply exits_bind; [apply (steps_map_shared _ _ _ _ _ o 0); [apply rc_shared| |exact Hroom]|].
  { unfold v2. apply look_fd. }
  intros map ? [_ ->]. set (b := bool_decide _). set (v3 := v_mmap _ _ v2).
  eapply exits_bind; [apply (steps_load _ _ 0 (slot v3 o 0)); [done|]|].
  { eapply load_shared, look_mmap. }
  intros y ? [-> ->].
  assert (slot v3 o 0 = tagged_if foreign_load x) as ->.
  { unfold slot. change (v_obj v3 o 0) with (v_obj v o 0). rewrite Hobj. simpl.
    by rewrite orb_false_r. }
  eapply exits_bind; [apply steps_say|]. intros _ ? ->. cbv zeta.
  unfold tag_int. rewrite tagged_if_tag by done.
  apply exits_verify; destruct foreign_load; try done. intros _.
  unfold unmap. apply exits_assoc. eapply exits_bind.
  { apply steps_munmap. unfold v3. by rewrite look_mmap. }
  intros _ ? ->. apply exits_ret.
  eapply exits_bind; [apply steps_close_quietly|]. intros _ ? ->.
  eapply exits_bind; [apply steps_close_quietly|]. intros _ ? ->. by apply exits_exit.
Qed.

(** How the body ends on this machine. *)
Definition surprise_ending : ending :=
  if cfg_prot_cap g then
    match shared_store with
    | Keep => if foreign_load then EndFail else EndPass
    | Drop => EndFail
    | Fault => EndFault (r_fault_signo (cap := cap) (W := W))
    end
  else EndFail.

Lemma surprise_ends path v :
  v_me v = false -> (2 <= v_room v)%nat ->
  ends (absf := abs) (vm_shm_open_unix_surprise g path) v surprise_ending.
Proof.
  intros Hme Hroom. unfold vm_shm_open_unix_surprise.
  eapply (ends_bind _ _ _ (fun r v' => exists sv, r = Some sv /\ v' = v)).
  { apply (steps_try _ _ (fun _ v' => v' = v)). intros w Hw.
    destruct (r_socketpair w) as (sv & w' & ? & ?). exists sv, w'. split; congruence. }
  intros r ? (sv & -> & ->).
  eapply ends_bind.
  { apply (steps_fork Fork v (fun v' => v' = v_fork v)). intros w Hw.
    destruct (r_fork w) as (pid & w' & ? & Ha); [by rewrite Hw|].
    exists pid, w'. rewrite Hw in Ha. by split. }
  intros _ ? ->. eapply ends_bind; [apply steps_close_quietly|]. intros _ ? ->.
  cbv zeta. set (named := match path with ShmNamed name => Some name | ShmAnon => None end).
  set (v1 := set_fd _ None _). eapply (ends_bind _ _ _ (opened v1)).
  { apply steps_call2. intros w Hw.
    destruct (r_shm_open path (match named with Some _ => Z.lor O_RDWR (Z.lor O_CREAT O_EXCL)
      | None => O_RDWR end) w) as (fd & o & w' & ? & ? & Ha).
    exists fd, w'. split; [done|]. split; [done|]. exists o. congruence. }
  intros fd v2 Hop. assert (v_me v2 = false /\ v_room v2 = v_room v) as [Hme2 Hroom2].
  { by destruct Hop as (_ & ? & ->). }
  apply opened_empty in Hop as (o & Hfd). pose proof Hfd as (_ & Hf & _).
  eapply (ends_bind _ _ _ (fun _ v' => v' = v2)).
  { destruct named; [|by apply steps_ret].
    eapply (steps_bind _ _ _ (fun _ v' => v' = v2)); [|intros ? ? ->; by apply steps_ret].
    apply steps_call2. intros w Hw. destruct (r_shm_unlink s w) as (w' & ? & ?).
    exists 0, w'. split; congruence. }
  intros _ ? ->. eapply ends_bind; [apply steps_ftruncate|]. intros _ ? ->.
  unfold map_rwc, need_prot_cap, surprise_ending. destruct (cfg_prot_cap g) eqn:Hg;
    [|apply ends_errx].
  eapply ends_bind; [eapply steps_map_shared; [apply rwc_shared|exact Hf|lia]|].
  intros map ? [_ ->]. rewrite bool_decide_eq_true_2 by done. set (v3 := v_mmap _ _ v2).
  set (x := stack_local 4). assert (cheri_tag_get x = true) as Hx by apply local_cap_tagged.
  pose proof (store_shared (cheri_address_get map) o 0 x v3 (look_mmap _ _ _) Hx) as Hst.
  case_decide as Hfault.
  { rewrite Hfault. apply ends_fault. intros w Hw. pose proof (r_store map 0 x w) as H.
    rewrite Hw, Hst in H. exact H. }
  eapply ends_bind; [by apply (steps_store _ _ 0)|]. intros [] ? ->.
  set (v4 := after_store o 0 x v3) in *.
  assert (v_map v4 (v_me v4) (cheri_address_get map) = Some (Shared o true)) as Hm.
  { change (v_map v3 (v_me v3) (cheri_address_get map) = Some (Shared o true)).
    apply look_mmap. }
  assert (slot v4 o 0 = stored shared_store x) as Hslot by apply slot_after_store.
  eapply ends_bind; [apply (steps_load _ _ 0); [done|by eapply load_shared]|].
  intros y ? [-> ->]. rewrite Hslot.
  apply ends_verify; rewrite stored_tag by done.
  2: { intros Hk%bool_decide_eq_false. by destruct shared_store. }
  intros Hk%bool_decide_eq_true. rewrite Hk.
  eapply ends_bind; [apply steps_say|]. intros _ ? ->.
  unfold unmap. apply ends_assoc. eapply ends_bind; [apply steps_munmap; by rewrite Hm|].
  intros _ ? ->. apply ends_ret. set (v5 := set_view _ None v4).
  eapply (ends_bind _ _ _ (fun _ v' => v' = v_send fd v5)).
  { apply steps_call2. intros w Hw. destruct (r_sendmsg sv.2 fd w) as (n & w' & ? & Ha).
    { rewrite Hw. change (v_fd v2 (v_me v2) fd <> None). by rewrite Hf. }
    exists n, w'. rewrite Hw in Ha. by split. }
  intros _ ? ->. eapply ends_bind; [apply steps_close_quietly|]. intros _ ? ->.
  eapply ends_bind; [apply steps_close_quietly|]. intros _ ? ->.
  eapply (ends_wait g (switch true) (switch false) r_child r_parent _ (if foreign_load then EX_SOFTWARE else 0) (fun _ => True)).
  - by destruct foreign_load.
  - apply (surprise_child_exits _ o x); [exact Hme2| |exact Hf| |done|done].
    { change (pred (v_room v2) <> 0%nat). lia. }
    change (upd (v_obj v3) o (upd (v_obj v3 o) 0 (stored shared_store x, v_me v2)) o 0
            = (x, false)).
    unfold upd. rewrite !Z.eqb_refl. by rewrite Hk, Hme2.
  - intros v' _. destruct foreign_load; simpl.
    + apply ends_errx_last.
    + apply ends_success.
Qed.

Lemma surprise_judged path v :
  v_me v = false -> (2 <= v_room v)%nat ->
  judged (vm_shm_open_unix_surprise g path) v
    (cfg_prot_cap g = true /\ shared_store = Keep /\ foreign_load = false).
Proof.
  intros Hme Hroom. eapply judged_iff; [by apply ends_judged, surprise_ends|].
  unfold surprise_ending. destruct (cfg_prot_cap g), shared_store, foreign_load; naive_solver.
Qed.

(** *** The test that expects a signal on Linux *)

(** What the body leaves is what the controller accepts: by [run_test_refines_body]
    a run files a pass exactly then. *)
Definition filed_pass (t : cheri_test cap W) (s : proc cap W) : Prop :=
  exists st s' c, end_of_process g ((ct_func t ;; exit 0) s) = Some (st, s') /\
    p_ccsp s' = Some c /\ accepted g t st c (inl (String.substring 0 1023 (p_stdout s'))).

Lemma plain_gen_name len : plain (gen_shm_obj_name (cap := cap) (W := W) g len).
Proof.
  unfold gen_shm_obj_name. apply plain_bind; [apply plain_verify|]. intros _. cbv zeta.
  apply plain_bind; [|intros buf; apply plain_ret].
  generalize (splice (replicate len NUL) 0 (bytes_of "/cheriostest_shm-" ++ [NUL])).
  induction (seq 18 (len - 1 - 18)) as [|i idx IH]; intros buf; cbn [fill_random];
    [apply plain_ret|]. apply plain_bind; [apply plain_libcall|]. intros k. apply IH.
Qed.

Ltac plain_step :=
  match goal with
  | |- plain (_ ≫= _) => apply plain_bind; [|intros ?]
  | |- plain (mret _) => apply plain_ret
  | |- plain (try_sys _) => apply plain_try
  | |- plain (access _) => apply plain_access
  | |- plain (gets _) => apply plain_gets
  | |- plain (exit _) => apply plain_exit
  | |- plain (report_on_stderr _ _) => apply plain_report
  | |- plain (when _ _) => apply plain_when
  | |- plain (fork_or_fail _) => apply plain_fork
  | |- plain (CHERIOSTEST_VERIFY2 _ _ _) => apply plain_verify
  | |- plain (cheriostest_failure_errx _ _) => apply plain_errx
  | |- plain (CHERIOSTEST_CHECK_SYSCALL _ _) => apply plain_call2
  | |- plain (CHERIOSTEST_CHECK_SYSCALL2 _ _ _) => apply plain_call2
  | |- plain (match ?b with _ => _ end) => destruct b
  end.

Lemma plain_map_rwc fd : plain (map_rwc (cap := cap) (W := W) g fd).
Proof. unfold map_rwc, need_prot_cap. destruct (cfg_prot_cap g); [apply plain_call2|apply plain_errx]. Qed.

Lemma plain_surprise_child sv : plain (unix_surprise_child (cap := cap) (W := W) g sv).
Proof.
  unfold unix_surprise_child, close_quietly, need_prot_cap, PROT_CAP_missing, map_fd, say, unmap.
  cbv zeta. repeat plain_step.
Qed.

Lemma leaves_surprise path : leaves same_signal (vm_shm_open_unix_surprise (cap := cap) (W := W) g path).
Proof.
  assert (forall c : child_state cap, same_signal c c) as HQ by done.
  unfold vm_shm_open_unix_surprise, close_quietly, ftruncate_page, say, unmap. cbv zeta.
  apply leaves_bind; [done|apply plain_try|]. intros sv.
  apply leaves_bind; [done|apply plain_fork|]. intros _.
  destruct sv as [sv|]; [|by intros s c Hc].
  repeat (apply leaves_bind; [done|first [apply plain_map_rwc|solve [repeat plain_step]]|intros ?]).
  apply leaves_wait, plain_surprise_child.
Qed.

Lemma signal_row_verdict (t : cheri_test cap W) e s :
  fault_test t -> ct_flags t = CT_FLAG_SIGNAL -> 0 < ct_signum t ->
  handled (cap := cap) (W := W) g (ct_signum t) ->
  leaves same_signal (ct_func t) -> at_start g s -> ends_as e (ct_func t) s ->
  (filed_pass t s <-> e = EndFault (ct_signum t)).
Proof.
  intros Hf Hfl H0 Hh Hl Hs He. pose proof Hs as (Hp & Hout & Hhand).
  specialize (Hl s _ Hp).
  assert (forall code s', ct_func t s = (Exited code, s') -> ~ filed_pass t s) as Hexit.
  { intros code s' Hr (st & s2 & c & Hend & Hc & Hacc).
    rewrite (exited_process g _ _ _ _ Hr) in Hend. injection Hend as <- <-.
    destruct Hacc as [[Hnf Hst] _]. rewrite Hr in Hl. rewrite Hfl in Hst. simpl in Hst.
    destruct Hst as (_ & (_ & Hsig & _) & _). rewrite Hfl in Hsig. specialize (Hsig eq_refl).
    destruct Hl as [(s3 & c3 & [= -> ->] & Hc3 & Hres)|(c' & Hc' & Hsame)].
    - rewrite Hc in Hc3. by injection Hc3 as ->.
    - rewrite Hc in Hc'. injection Hc' as ->. unfold same_signal in Hsame. simpl in Hsame. lia. }
  destruct e as [| |sig]; simpl in He.
  - split; [|done]. intros Hfp. destruct He as [x Hx]. unfold verdict_of in Hx.
    destruct (ct_func t s) as [[u|code|si|] s'] eqn:Hr; try done. by apply (Hexit code s') in Hfp.
  - split; [|done]. intros Hfp. destruct He as (s' & Hr). by apply (Hexit _ _ Hr) in Hfp.
  - destruct He as (si & s' & Hr & <-). rewrite Hr in Hl. destruct Hl as (P1 & P2 & P3).
    assert (raises_at (ct_func t) no_addr si s) as Hat.
    { exists s'. split; [done|]. split; [|done]. rewrite P1, Hp.
      unfold expected_page, no_addr, child_state_zero. done. }
    destruct (decide (si_signo si ∈ p_handlers s)) as [Hin|Hin].
    + destruct (faulting_process g (ct_func t) no_addr si s Hat Hs Hin) as (s2 & Hend & Hp2 & Ho).
      unfold filed_pass. rewrite Hend. split.
      * intros (st & s3 & c & [= <- <-] & Hc & Hacc). destruct Hacc as [[_ Hst] _].
        rewrite Hfl in Hst. simpl in Hst. destruct Hst as (_ & (_ & Hsig & _) & _).
        rewrite Hfl in Hsig. specialize (Hsig eq_refl). rewrite Hp2 in Hc. injection Hc as <-.
        simpl in Hsig. by rewrite Hsig.
      * intros [= Hsig]. exists (WExited EX_SOFTWARE), s2, (signalled_page g no_addr si).
        split; [done|]. split; [done|]. rewrite Ho.
        apply (signalled_page_accepted g t no_addr si Hf); [lia|].
        split; [done|]. rewrite Hfl. by split_and!.
    + split.
      * intros (st & s3 & c & Hend & _ & [[_ Hst] _]). rewrite Hfl in Hst. simpl in Hst.
        destruct Hst as ([-> | ->] & _); revert Hend; unfold mbind, eff_bind; rewrite Hr;
          simpl; by rewrite decide_False by (by rewrite P3).
      * intros [= Hsig]. destruct Hin. rewrite Hsig. by apply Hhand.
Qed.

(** *** The shared tables *)

Lemma steps_rfork v :
  steps (fork_or_fail RFork) v
    (fun _ v' => v_me v' = v_me v /\ v_room v' = v_room v).
Proof.
  apply (steps_fork RFork v (fun v' => v_me v' = v_me v /\ v_room v' = v_room v)).
  intros w Hw. destruct (r_rfork w) as (pid & w' & ? & Ha & Hb).
  exists pid, w'. rewrite Hw in Ha, Hb. by split.
Qed.

Lemma steps_passme prot text v :
  prot ∈ [PROT_RW; Z.lor PROT_RW PROT_EXEC] -> v_room v <> 0%nat ->
  steps (map_passme prot text) v (fun c v' => cheri_tag_get c = true /\ v_me v' = v_me v).
Proof.
  intros Hp Hroom. apply steps_call2. intros w Hw. rewrite <- Hw in Hroom.
  destruct (r_mmap_anon prot w Hp Hroom) as (c & o & w' & Hr & Ht & Ha).
  exists c, w'. split; [done|]. split; [done|]. by rewrite Ha, Hw.
Qed.

Lemma kqueue_judged v :
  v_me v = false -> v_room v <> 0%nat ->
  judged (ct_func (vm_cap_share_fd_kqueue (cap := cap) (W := W) g)) v (kqueue_tags = false).
Proof.
  intros Hme Hroom. unfold vm_cap_share_fd_kqueue, with_xfail, CHERIOSTEST. cbn [ct_func].
  eapply (judged_bind _ _ _ (fun _ v' => v' = v)).
  { apply steps_call2. intros w Hw. destruct (r_kqueue w) as (kq & w' & ? & ?).
    exists kq, w'. split; congruence. }
  intros kq ? ->. eapply judged_bind; [apply steps_rfork|]. intros _ v1 [Hme1 Hroom1].
  eapply judged_bind; [apply steps_passme; [left|congruence]|]. intros x v2 [Hx Hme2].
  eapply (judged_bind _ _ _ (fun _ v' => v' = set_event (Some (0x2BAD, x, v_me v2)) v2)).
  { apply steps_call2. intros w Hw. destruct (r_kevent_add kq 0x2BAD x w) as (w' & ? & Ha).
    exists 0, w'. rewrite Hw in Ha. by split. }
  intros _ ? ->. set (v3 := set_event _ v2). eapply (judged_bind _ _ _ (fun _ v' => v' = v3)).
  { apply steps_call2. intros w Hw. destruct (r_kevent_trigger kq 0x2BAD w) as (w' & ? & Ha).
    exists 0, w'. split; congruence. }
  intros _ ? ->. assert (v_me v2 = false) as Hme3 by congruence.
  eapply (vm_wait _ (if kqueue_tags then 1 else 0) (fun _ => True)).
  - by destruct kqueue_tags.
  - unfold fd_kqueue_child. eapply (exits_bind _ _ _ (fun r _ =>
      r = (0x2BAD, EVFILT_USER (cap := cap) (W := W), tagged_if kqueue_tags x))).
    { apply steps_call2. intros w Hw.
      destruct (r_kevent_wait kq 0x2BAD x false w) as (w' & Hr).
      { rewrite Hw. simpl. by rewrite Hme3. }
      eexists _, w'. split; [exact Hr|]. rewrite Hw. simpl. by rewrite orb_false_r. }
    intros r v4 ->. apply exits_verify; [intros _|done].
    apply exits_verify; [intros _|by rewrite Z.eqb_refl].
    unfold tag_int. rewrite tagged_if_tag by done. by apply exits_exit.
  - intros v' _. destruct kqueue_tags; [by apply judged_failure_end|by apply judged_success].
Qed.

(** The child reads its own handler back and exits. *)
Lemma sigaction_child_exits v :
  v_me v = true -> v_room v <> 0%nat -> exits (sigaction_child (cap := cap) (W := W)) v 0 (fun v' =>
    exists x, cheri_tag_get x = true /\ v_action v' = (x, true)).
Proof.
  intros Hme Hroom. unfold sigaction_child. cbv zeta.
  eapply exits_bind; [apply steps_passme; [right; left|done]|]. intros x v1 [Hx Hme1].
  assert (v_me v1 = true) as Hme2 by congruence.
  eapply (exits_bind _ _ _ (fun _ v' => v' = set_action (x, true) v1)).
  { apply steps_call2. intros w Hw. destruct (r_sigaction_set x w) as (w' & ? & Ha).
    exists 0, w'. rewrite Hw, Hme2 in Ha. by split. }
  intros _ ? ->. set (v2 := set_action _ v1).
  eapply (exits_bind _ _ _ (fun r v' => r = (x, 0) /\ v' = v2)).
  { apply steps_call2. intros w Hw. destruct (r_sigaction_get x true w) as (w' & Hr & Ha).
    { by rewrite Hw. }
    rewrite Hw in Hr. change (v_me v2) with (v_me v1) in Hr.
    rewrite Hme2, orb_true_r in Hr. eexists _, w'. split; [exact Hr|].
    split; [done|]. by rewrite Ha. }
  intros r ? [-> ->]. cbn [fst]. apply exits_cap_eq, exits_exit. by exists x.
Qed.

Lemma sigaction_judged v :
  v_me v = false -> v_room v <> 0%nat ->
  judged (ct_func (vm_cap_share_sigaction (cap := cap) (W := W) g)) v (sigaction_tags = false).
Proof.
  intros Hme Hroom. unfold vm_cap_share_sigaction, with_xfail, CHERIOSTEST. cbn [ct_func].
  eapply judged_bind; [apply steps_rfork|]. intros _ v1 [Hme1 Hroom1].
  eapply vm_wait; [|apply sigaction_child_exits; [done|]|]; [lia|simpl; congruence|].
  intros v' (x & Hx & Hact).
  eapply (judged_bind _ _ _ (fun r _ => r = (tagged_if sigaction_tags x, 0))).
  { apply steps_call2. intros w Hw. destruct (r_sigaction_get x true w) as (w' & Hr & _).
    { by rewrite Hw. }
    eexists _, w'. split; [exact Hr|]. rewrite Hw. simpl. by rewrite orb_false_r. }
  intros r v2 ->. apply judged_verify; [intros _|done].
  cbn [fst]. rewrite tagged_if_tag by done. destruct sigaction_tags.
  - by apply judged_failure_end.
  - by apply judged_success.
Qed.

(** ** The table *)

Record sharing_row := SharingRow {
  sr_test : cheri_test cap W;
  sr_needs_prot_cap : bool;
  sr_demand : Prop;
}.

Definition sharing_rows : list sharing_row :=
  let store := shared_store = Keep in
  let cow_read := store /\ private_load = true in
  let cow_write := store /\ private_load = true /\ private_store <> Fault /\ copy_tags = true in
  [SharingRow (vm_tag_shm_open_anon_shared2x g) true store;
   SharingRow (vm_tag_shm_open_named_shared2x g) true store;
   SharingRow (vm_shm_open_anon_unix_surprise g) true (store /\ foreign_load = false);
   SharingRow (vm_shm_open_named_unix_surprise g) true
     (if is_freebsd g then store /\ foreign_load = false
      else shared_store = Fault /\
           r_fault_signo (cap := cap) (W := W) = SIGSEGV (cap := cap) (W := W));
   SharingRow (shm_open_anon_read_nocaps g) true (store /\ read_tags = false);
   SharingRow (shm_open_named_read_nocaps g) true (store /\ read_tags = false);
   SharingRow (shm_open_anon_write_nocaps g) true (write_tags = false);
   SharingRow (shm_open_anon_shm g) true (write_tags = false);
   SharingRow (memfd_create_anon_write_nocaps g) true (write_tags = false);
   SharingRow (vm_cow_anon_read g) true cow_read;
   SharingRow (vm_cow_named_read g) true cow_read;
   SharingRow (vm_cow_anon_write g) true cow_write;
   SharingRow (vm_cow_named_write g) true cow_write;
   SharingRow (vm_cap_share_fd_kqueue g) false (kqueue_tags = false);
   SharingRow (vm_cap_share_sigaction g) false (sigaction_tags = false)].

(** A test that opens an object and goes on with its descriptor. *)
Lemma judged_opened {B} (m : test cap W Z) (k : Z -> test cap W B) v (P : Prop) :
  steps m v (opened v) ->
  (forall fd o v', empty_fd v' fd o -> v_room v' = v_room v -> judged (k fd) v' P) ->
  judged (m ≫= k) v P.
Proof.
  intros Hm Hk. eapply judged_bind; [exact Hm|]. intros fd v' Ho.
  assert (v_room v' = v_room v) by (by destruct Ho as (_ & ? & ->)).
  apply opened_empty in Ho as (o & Ho). by eapply Hk.
Qed.

Lemma judged_ftruncate {B} fd (k : test cap W B) v (P : Prop) :
  judged k v P -> judged (ftruncate_page fd ;; k) v P.
Proof. intros Hk. eapply judged_bind; [apply steps_ftruncate|]. by intros _ ? ->. Qed.

Lemma judged_prot_cap (m : test cap W unit) v (P : Prop) :
  (P -> cfg_prot_cap g = true) -> judged m v P -> judged (need_prot_cap g m) v P.
Proof.
  intros HP Hm. unfold need_prot_cap. destruct (cfg_prot_cap g); [done|].
  apply judged_failure_end. intros H. by apply HP in H.
Qed.

(** What a row says, with the demand on the build. *)
Definition row_demand (r : sharing_row) : Prop :=
  (sr_needs_prot_cap r = true -> cfg_prot_cap g = true) /\ sr_demand r.

Ltac row_body := unfold CHERIOSTEST, with_xfail, with_signal, cow_test; cbn [ct_func].

Lemma judged_needed t (m : test cap W unit) v (Q : Prop) :
  judged m v (cfg_prot_cap g = true /\ Q) -> judged m v (row_demand (SharingRow t true Q)).
Proof.
  intros Hm. apply (judged_iff _ _ _ _ Hm). unfold row_demand. cbn. tauto.
Qed.

(** Expects no signal. *)
Definition no_signal (t : cheri_test cap W) : Prop := flag_set (ct_flags t) CT_FLAG_SIGNAL = false.

Lemma sharing_row_judged r v :
  r ∈ sharing_rows -> no_signal (sr_test r) -> v_me v = false -> (2 <= v_room v)%nat -> judged (ct_func (sr_test r)) v (row_demand r).
Proof.
  intros Hr Hsig Hme Hroom. unfold sharing_rows in Hr. rewrite !elem_of_cons, elem_of_nil in Hr.
  destruct Hr as [-> | [-> | [-> | [-> | [-> | [-> | [-> | [-> | [-> | [-> | [-> | [-> | [-> |
    [-> | [-> | []]]]]]]]]]]]]]]]; cbn [sr_test].
  - apply judged_needed. unfold vm_tag_shm_open_anon_shared2x. row_body.
    eapply judged_opened; [apply steps_open_anon|]. intros fd o v' Ho ?.
    eapply judged_ftruncate, shared2x_judged; [done|lia].
  - apply judged_needed. unfold vm_tag_shm_open_named_shared2x. row_body.
    eapply judged_opened; [apply steps_open_named|]. intros fd o v' Ho ?.
    eapply judged_ftruncate, shared2x_judged; [done|lia].
  - apply judged_needed. by apply (surprise_judged ShmAnon).
  - apply judged_needed. unfold vm_shm_open_named_unix_surprise. row_body.
    assert (judged (shm_name ← gen_shm_obj_name g 32;
              vm_shm_open_unix_surprise g (ShmNamed (cstr shm_name))) v
      (cfg_prot_cap g = true /\ shared_store = Keep /\ foreign_load = false)) as H.
    { eapply judged_bind; [apply steps_gen_name|]. intros name ? ->. by apply surprise_judged. }
    revert Hsig. unfold no_signal, vm_shm_open_named_unix_surprise. cbn [sr_test].
    by destruct (is_freebsd g).
  - apply judged_needed. unfold shm_open_anon_read_nocaps. row_body.
    eapply judged_opened; [apply steps_open_anon|]. intros. eapply read_nocaps_judged; [done|lia].
  - apply judged_needed. unfold shm_open_named_read_nocaps. row_body.
    eapply judged_prot_cap; [|eapply judged_opened; [apply steps_open_named|]].
    2: { intros. eapply read_nocaps_judged; [done|lia]. }
    tauto.
  - apply judged_needed. unfold shm_open_anon_write_nocaps. row_body.
    eapply judged_opened; [apply steps_open_anon|]. intros. eapply write_nocaps_judged; [done|lia].
  - apply judged_needed. unfold shm_open_anon_shm. row_body.
    eapply judged_opened; [apply steps_open_named|]. intros. eapply write_nocaps_judged; [done|lia].
  - apply judged_needed. unfold memfd_create_anon_write_nocaps. row_body.
    eapply judged_opened; [apply steps_memfd|]. intros. eapply write_nocaps_judged; [done|lia].
  - apply judged_needed. unfold vm_cow_anon_read. row_body.
    eapply judged_opened; [apply steps_open_anon|]. intros. eapply cow_read_judged; [done|lia].
  - apply judged_needed. unfold vm_cow_named_read. row_body.
    eapply judged_opened; [apply steps_open_named|]. intros. eapply cow_read_judged; [done|lia].
  - apply judged_needed. unfold vm_cow_anon_write. row_body.
    eapply judged_opened; [apply steps_open_anon|]. intros. eapply cow_write_judged; [done|lia].
  - apply judged_needed. unfold vm_cow_named_write. row_body.
    eapply judged_opened; [apply steps_open_named|]. intros. eapply cow_write_judged; [done|lia].
  - eapply judged_iff; [apply kqueue_judged; [done|lia]|].
    unfold row_demand. cbn [sr_needs_prot_cap sr_demand]. split; [by split|tauto].
  - eapply judged_iff; [apply sigaction_judged; [done|lia]|].
    unfold row_demand. cbn [sr_needs_prot_cap sr_demand]. split; [by split|tauto].
Qed.

(** The row whose test expects a signal. *)
Lemma signal_row r v s :
  r ∈ sharing_rows -> ~ no_signal (sr_test r) -> v_me v = false -> (2 <= v_room v)%nat ->
  at_start g s -> Judge.on (cap := cap) abs v s -> (filed_pass (sr_test r) s <-> row_demand r).
Proof.
  intros Hr Hsig Hme Hroom Hs Hon. unfold sharing_rows in Hr.
  rewrite !elem_of_cons, elem_of_nil in Hr.
  assert (is_freebsd g = false /\ r = SharingRow (vm_shm_open_named_unix_surprise g) true
    (if is_freebsd g then shared_store = Keep /\ foreign_load = false
     else shared_store = Fault /\ r_fault_signo (cap := cap) (W := W) = SIGSEGV (cap := cap) (W := W)))
    as [Hg ->].
  { destruct Hr as [-> | [-> | [-> | [-> | [-> | [-> | [-> | [-> | [-> | [-> | [-> | [-> | [-> |
      [-> | [-> | []]]]]]]]]]]]]]]]; try (by destruct Hsig); split; try done.
    revert Hsig. unfold no_signal, vm_shm_open_named_unix_surprise. cbn [sr_test].
    destruct (is_freebsd g); [by intros []|done]. }
  rewrite Hg. unfold row_demand. cbn [sr_test sr_needs_prot_cap sr_demand].
  unfold vm_shm_open_named_unix_surprise. rewrite Hg.
  set (t := with_signal _ _ _ _ _).
  assert (ct_func t = (shm_name ← gen_shm_obj_name g 32;
    vm_shm_open_unix_surprise g (ShmNamed (cstr shm_name)))) as Hbody by done.
  rewrite (signal_row_verdict t surprise_ending s).
  - change (ct_signum t) with (SIGSEGV (cap := cap) (W := W)). unfold surprise_ending.
    destruct (cfg_prot_cap g); [|split; [done|intros [H _]; by specialize (H eq_refl)]].
    destruct shared_store; [destruct foreign_load| |];
      try (split; [done|by intros (_ & ? & _)]).
    split; [intros [= H]; by split_and!|intros (_ & _ & H); by rewrite H].
  - done.
  - done.
  - apply r_sigsegv.
  - unfold handled, child_signals. rewrite Hg. cbn. set_solver.
  - rewrite Hbody. apply leaves_bind; [done|apply plain_gen_name|intros name; apply leaves_surprise].
  - done.
  - assert (ends (absf := abs) (ct_func t) v surprise_ending) as He; [|by apply He].
    rewrite Hbody. eapply ends_bind; [apply steps_gen_name|]. intros name ? ->. by apply surprise_ends.
Qed.

(** A test passes: it declares success or, if it expects a signal, leaves what the
    controller files as a pass. *)
Definition row_passes (r : sharing_row) (s : proc cap W) : Prop :=
  if flag_set (ct_flags (sr_test r)) CT_FLAG_SIGNAL then filed_pass (sr_test r) s
  else succeeds (ct_func (sr_test r)) s.

(** C34: on a kernel that implements the reference machine, each of the fifteen
    tests passes exactly when the build has PROT_CAP, where the test needs it,
    and the machine keeps, or drops, tags as the row of the test says.  The test
    of a named object handed over in a message expects SIGSEGV on Linux: there it
    passes exactly when the store of the capability is refused with that signal,
    and a body that declares success is no pass. *)
Theorem sharing_tests_verdict (r : sharing_row) (s : proc cap W) :
  r ∈ sharing_rows -> at_start g s ->
  v_me (abs (p_world s)) = false -> (2 <= v_room (abs (p_world s)))%nat ->
  (row_passes r s <-> row_demand r).
Proof.
  intros Hr Hs Hme Hroom.
  assert (Judge.on (cap := cap) abs (abs (p_world s)) s) as Hon.
  { split; [|done]. destruct Hs as (Hp & _). by exists child_state_zero. }
  unfold row_passes. destruct (flag_set _ _) eqn:Hf.
  - apply (signal_row r (abs (p_world s)) s Hr); [|done..]. unfold no_signal. by rewrite Hf.
  - by apply (sharing_row_judged r _ Hr Hf Hme Hroom).
Qed.
End Facts.

(** ** A concrete kernel *)

(** Tags survive in memory, also between processes, but not read(2) and
    write(2). *)
Definition toy_sharing : Sharing := {|
  shared_store := Keep; private_store := Keep; private_load := true; copy_tags := true;
  read_tags := false; write_tags := false; foreign_load := true;
  kqueue_tags := true; sigaction_tags := true;
|}.

(** Pages are mapped from the top down, at most a thousand of them. *)
Definition sinv (v : vm scap) : Prop :=
  (forall p a x, v_map v p a = Some x -> 4096 * Z.of_nat (v_room v) < a) /\
  (v_room v <= 1000)%nat.

Section Concrete.
Context {SP : Sharing}.

Definition sworld : Type := { v : vm scap | sinv v }.

Definition keeps_inv (f : vm scap -> vm scap) : Prop := forall v, sinv v -> sinv (f v).

Definition lift (f : vm scap -> vm scap) (Hf : keeps_inv f) (w : sworld) : sworld :=
  exist _ (f (proj1_sig w)) (Hf _ (proj2_sig w)).

Lemma keeps_same (f : vm scap -> vm scap) :
  (forall v, v_map (f v) = v_map v /\ v_room (f v) = v_room v) -> keeps_inv f.
Proof. intros H v [H1 H2]. destruct (H v) as [Hm Hr]. split; rewrite ?Hm, Hr; done. Qed.

Lemma inv_upd (v : vm scap) p0 b a0 (y : option (view scap)) :
  sinv v -> (forall x, y = Some x -> 4096 * Z.of_nat (v_room v) < a0) ->
  forall p a x, updp (v_map v) p0 (upd (v_map v b) a0 y) p a = Some x ->
  4096 * Z.of_nat (v_room v) < a.
Proof.
  intros [H _] Hy p a x. unfold updp, upd.
  destruct (Bool.eqb p p0); [|apply H]. destruct (Z.eqb_spec a a0) as [->|]; [apply Hy|apply H].
Qed.

Lemma keeps_unmap a : keeps_inv (set_view a None).
Proof. intros v Hv. split; [by apply inv_upd|apply Hv]. Qed.

(** A new page below the others, while there is room. *)
Definition page_addr (v : vm scap) : Z := 4096 * Z.of_nat (v_room v).
Definition smmap (x : view scap) (v : vm scap) : vm scap :=
  if (v_room v =? 0)%nat then v else v_mmap (page_addr v) x v.

Lemma keeps_mmap x : keeps_inv (smmap x).
Proof.
  intros v Hv. unfold smmap. destruct (Nat.eqb_spec (v_room v) 0) as [|Hr]; [done|].
  split; [|destruct Hv; simpl; lia]. intros p a y Hy.
  change (v_room (v_mmap (page_addr v) x v)) with (pred (v_room v)).
  unfold v_mmap, updp, upd, page_addr in Hy. simpl in Hy. destruct Hv as [Hv _].
  destruct (Bool.eqb p (v_me v)); [destruct (Z.eqb_spec a (4096 * Z.of_nat (v_room v)))|].
  - lia.
  - apply Hv in Hy. lia.
  - apply Hv in Hy. lia.
Qed.

Lemma keeps_store a i c : keeps_inv (fun v => default v (v_store a i c v)).
Proof.
  intros v Hv. unfold v_store. destruct (v_map v (v_me v) a) as [[o []|o copy]|] eqn:Hm;
    simpl; try done.
  - destruct (effect_on _ _); exact Hv.
  - assert (forall page, sinv (set_view a (Some (Private o page)) v)) as H.
    { intros page. split; [|apply Hv]. apply inv_upd; [done|]. intros _ _. by apply Hv in Hm. }
    destruct (effect_on _ _); [apply H|apply H|exact Hv].
Qed.

Lemma keeps_open fd o : keeps_inv (v_open fd o).
Proof. by apply keeps_same. Qed.
Lemma keeps_fd fd x : keeps_inv (set_fd fd x).
Proof. by apply keeps_same. Qed.
Lemma keeps_msg x : keeps_inv (set_msg x).
Proof. by apply keeps_same. Qed.
Lemma keeps_event id c : keeps_inv (fun v => set_event (Some (id, c, v_me v)) v).
Proof. by apply keeps_same. Qed.
Lemma keeps_action c : keeps_inv (fun v => set_action (c, v_me v) v).
Proof. by apply keeps_same. Qed.
Lemma keeps_switch p : keeps_inv (switch p).
Proof. by apply keeps_same. Qed.
Lemma keeps_fork : keeps_inv v_fork.
Proof.
  intros v [H1 H2]. split; [|done]. intros p a x. simpl. unfold updp.
  destruct (Bool.eqb p true); apply H1.
Qed.

(** The object of a descriptor; an unknown one answers EBADF. *)
Definition with_fd {A} (fd : Z) (w : sworld) (k : Z * Z -> (A + Z) * sworld) : (A + Z) * sworld :=
  let v := proj1_sig w in
  match v_fd v (v_me v) fd with Some x => k x | None => (inr 9, w) end.

Definition sw_map (x : view scap) (w : sworld) : (scap + Z) * sworld :=
  if (v_room (proj1_sig w) =? 0)%nat then (inr 12, w)
  else (inl (toy_cap (page_addr (proj1_sig w)) 4096 0 0), lift (smmap x) (keeps_mmap x) w).

Definition sw_mmap (prot flags fd : Z) (w : sworld) : (scap + Z) * sworld :=
  if flag_set flags MAP_ANON then sw_map (Private 0 None) w
  else with_fd fd w (fun x =>
    sw_map (if flag_set flags MAP_SHARED then Shared x.1 (bool_decide (prot = PROT_RWC))
            else Private x.1 None) w).

Definition sw_open (w : sworld) : (Z + Z) * sworld :=
  (inl 3, lift (v_open 3 3) (keeps_open 3 3) w).

Definition sw_slot (off : Z) : Z := off / 16.

Definition sw_store (c : scap) (off : Z) (x : scap) (w : sworld) :
    (unit + siginfo scap) * sworld :=
  let a := cheri_address_get c in
  match v_store a (sw_slot off) x (proj1_sig w) with
  | Some _ => (inl tt, lift _ (keeps_store a (sw_slot off) x) w)
  | None => (inr (Siginfo 11 2 0 (cap_of_int a)), w)
  end.

#[export] Instance sworld_kernel : Kernel scap sworld := {|
  getpagesize := 4096;
  sys_mmap _ _ prot flags fd _ := sw_mmap prot flags fd;
  sys_munmap c _ w :=
    (inl 0, lift (set_view (cheri_address_get c) None) (keeps_unmap (cheri_address_get c)) w);
  sys_mprotect _ _ _ w := (inl 0, w);
  sys_minherit _ _ _ w := (inl 0, w);
  sys_shmget _ _ _ w := (inr 78, w);
  sys_shmat _ _ _ w := (inr 78, w);
  sys_shmdt _ w := (inr 78, w);
  sys_shm_open _ _ _ := sw_open;
  sys_shm_unlink _ w := (inl 0, w);
  sys_memfd_create _ _ := sw_open;
  sys_open _ _ := sw_open;
  sys_mkstemp t w := (inr 78, w);
  sys_unlink _ w := (inl 0, w);
  sys_ftruncate _ _ w := (inl 0, w);
  sys_close fd w := (inl 0, lift (set_fd fd None) (keeps_fd fd None) w);
  os_random w := (7, w);
  mem_load_cap c off w :=
    (inl (default cap_null (v_load (cheri_address_get c) (sw_slot off) (proj1_sig w))), w);
  mem_store_cap c off x := sw_store c off x;
  mem_store_byte _ _ _ w := (inl tt, w);
  stack_local size := toy_cap 0x7000 size 0 0;
|}.

#[export] Instance sworld_tmp : TmpStatics sworld := {|
  tmp_checked _ := false; tmp_reason _ := None; set_tmp_statics _ _ w := w;
|}.

Definition sw_write (fd : Z) (c : scap) (w : sworld) : (Z + Z) * sworld :=
  with_fd fd w (fun x =>
    let f v := set_fd fd (Some (x.1, x.2 + 1))
                 (set_obj (upd (v_obj v) x.1 (upd (v_obj v x.1) x.2
                    (tagged_if write_tags c, v_me v))) v) in
    (inl 16, lift f (keeps_same f (fun _ => conj eq_refl eq_refl)) w)).

Definition sw_recv (w : sworld) : (Z + Z) * sworld :=
  match v_msg (proj1_sig w) with
  | Some x => (inl 5, lift (set_fd 5 (Some x)) (keeps_fd 5 (Some x))
                        (lift (set_msg None) (keeps_msg None) w))
  | None => (inr 35, w)
  end.

#[export] Instance sworld_fork : ForkOS sworld := {|
  sys_fork how w := (inl 42, match how with Fork => lift v_fork keeps_fork w | _ => w end);
  as_child := lift (switch true) (keeps_switch true);
  as_parent := lift (switch false) (keeps_switch false);
|}.

#[export] Instance sworld_share : ShareOS scap sworld := {|
  cap_size := 16;
  sys_read_cap fd _ w := with_fd fd w (fun x =>
    (inl (16, tagged_if read_tags (slot (proj1_sig w) x.1 x.2)),
     lift (set_fd fd (Some (x.1, x.2 + 1))) (keeps_fd fd (Some (x.1, x.2 + 1))) w));
  sys_write_cap := sw_write;
  sys_socketpair w := (inl (6, 7), w);
  sys_sendmsg_fd _ fd w :=
    (inl 16, let x := v_fd (proj1_sig w) (v_me (proj1_sig w)) fd in
             lift (set_msg x) (keeps_msg x) w);
  sys_recvmsg_fd _ := sw_recv;
  sys_kqueue w := (inl 8, w);
  kevent_add _ id c w := (inl 0, lift _ (keeps_event id c) w);
  kevent_trigger _ _ w := (inl 0, w);
  kevent_wait _ w :=
    (match v_event (proj1_sig w) with
     | Some (id, c, p) =>
         inl (id, -11, tagged_if (kqueue_tags || Bool.eqb p (v_me (proj1_sig w))) c)
     | None => inr 60
     end, w);
  EVFILT_USER := -11;
  sigaction_set _ c w := (inl 0, lift _ (keeps_action c) w);
  sigaction_get _ w :=
    (let '(c, p) := v_action (proj1_sig w) in
     inl (tagged_if (sigaction_tags || Bool.eqb p (v_me (proj1_sig w))) c, 0), w);
  SIGUSR1 := 30;
|}.

Lemma sw_map_ok (x : view scap) (w : sworld) :
  v_room (proj1_sig w) <> 0%nat -> exists c w', sw_map x w = (inl c, w') /\
    cheri_tag_get c = true /\
    v_map (proj1_sig w) (v_me (proj1_sig w)) (cheri_address_get c) = None /\
    proj1_sig w' = v_mmap (cheri_address_get c) x (proj1_sig w).
Proof.
  intros Hr. destruct w as [v [Hinv Hmax]]. unfold sw_map. cbn [proj1_sig] in *.
  rewrite (proj2 (Nat.eqb_neq _ _) Hr).
  assert (cheri_address_get (toy_cap (page_addr v) 4096 0 0) = page_addr v) as Ha.
  { simpl. unfold page_addr in *. rewrite wrapu_small; lia. }
  eexists _, _. split; [reflexivity|]. split; [done|]. rewrite Ha. split.
  - destruct (v_map v (v_me v) (page_addr v)) eqn:Hm; [|done]. apply Hinv in Hm.
    unfold page_addr in Hm. lia.
  - simpl. unfold smmap. by rewrite (proj2 (Nat.eqb_neq _ _) Hr).
Qed.

Lemma sw_slot_mul (i : Z) : sw_slot (i * 16) = i.
Proof. unfold sw_slot. by rewrite Z.div_mul. Qed.

#[export] Instance sworld_refines : VmRefines scap sworld.
Proof.
  refine {| abs := @proj1_sig _ _; r_fault_signo := 11 |}; try done; try (intros; by eexists); try (intros; by eexists _, _).
  - intros prot fd w o k _ Hfd Hroom hint.
    destruct (sw_map_ok (Shared o (bool_decide (prot = PROT_RWC))) w Hroom)
      as (c & w' & Hr & _ & Hn & Hw). exists c, w'. split; [|done].
    simpl. unfold sw_mmap, with_fd. by rewrite Hfd.
  - intros fd w o k Hfd Hroom.
    destruct (sw_map_ok (Private o None) w Hroom) as (c & w' & Hr & _ & Hn & Hw).
    exists c, w'. split; [|done]. simpl. unfold sw_mmap, with_fd. by rewrite Hfd.
  - intros prot w _ Hroom.
    destruct (sw_map_ok (Private 0 None) w Hroom) as (c & w' & Hr & Ht & _ & Hw).
    by exists c, 0, w'.
  - intros c i x w Hl. exists w. split; [|done].
    change (cap_size (cap := scap) (W := sworld)) with 16. simpl.
    rewrite sw_slot_mul. simpl in Hl. by rewrite Hl.
  - intros c i x w. change (cap_size (cap := scap) (W := sworld)) with 16.
    cbn [mem_store_cap sworld_kernel]. unfold sw_store. rewrite !sw_slot_mul.
    destruct (v_store _ i x (proj1_sig w)) eqn:Hst.
    + eexists. split; [reflexivity|]. cbn [proj1_sig lift]. by rewrite Hst.
    + eexists _, _. split; [reflexivity|done].
  - intros p flags w. exists 3, 3. by eexists.
  - intros n w. exists 3, 3. by eexists.
  - intros s x w Hx. simpl. unfold sw_recv. rewrite Hx. by eexists _, _.
  - intros fd c o k w Hfd. simpl. unfold with_fd. rewrite Hfd. by eexists.
  - intros fd c o k w Hfd. simpl. unfold sw_write, with_fd. rewrite Hfd. by eexists.
  - intros kq id c p w He. simpl. rewrite He. by eexists.
  - intros c p w Ha. simpl. rewrite Ha. by eexists.
Defined.

End Concrete.

Definition vm0 : vm scap :=
  Vm false (fun _ _ => (cap_null, false)) (fun _ _ => None) (fun _ _ => None) None None
    (cap_null, false) 1000.

Lemma vm0_inv : sinv vm0.
Proof. by split. Qed.

(** A test at its start, with the handlers of the controller. *)
Definition sworld_start (g : config) : proc scap sworld :=
  Proc (Some child_state_zero) 0 (list_to_set (child_signals (cap := scap) (W := sworld) g).*1)
    "" "" 0 (exist _ vm0 vm0_inv).

Lemma sworld_at_start g : at_start g (sworld_start g).
Proof. split; [done|]. split; [done|]. intros sig H. by apply elem_of_list_to_set. Qed.

(** CheriBSD, with PROT_CAP. *)
Definition sharing_config : config :=
  Config FreeBSD Aarch64 true false false true "cheriostest" "-purecap" "../libexec".

Definition sharing_linux : config :=
  Config Linux Aarch64 true false false true "cheriostest" "-purecap" "../libexec".

(** Stores of capabilities to shared pages are refused. *)
Definition refusing_sharing : Sharing := {|
  shared_store := Fault; private_store := Keep; private_load := true; copy_tags := true;
  read_tags := false; write_tags := false; foreign_load := true;
  kqueue_tags := true; sigaction_tags := true;
|}.

Section Rows.
Context {SP : Sharing}.

(** A row of the table, on this kernel. *)
Definition toy_row_passes (g : config) (i : nat) : Prop :=
  match sharing_rows (cap := scap) (W := sworld) g !! i with
  | Some r => row_passes (cap := scap) (W := sworld) g r (sworld_start g)
  | None => False
  end.
End Rows.

(** The kernel passes the test of copies (12) and fails the one of messages (3), on
    both systems; a kernel that refuses the store passes it on Linux only. *)
Lemma sharing_tests_verdict_witness :
  toy_row_passes (SP := toy_sharing) sharing_config 12 /\
  ~ toy_row_passes (SP := toy_sharing) sharing_config 3 /\
  ~ toy_row_passes (SP := toy_sharing) sharing_linux 3 /\
  ~ toy_row_passes (SP := refusing_sharing) sharing_config 3 /\
  toy_row_passes (SP := refusing_sharing) sharing_linux 3.
Proof.
  assert (forall (SP : Sharing) g i r, sharing_rows (cap := scap) (W := sworld) g !! i = Some r ->
    toy_row_passes g i <-> row_demand (cap := scap) (W := sworld) g r) as H.
  { intros SP g i r Hi. unfold toy_row_passes. rewrite Hi.
    apply (sharing_tests_verdict g r (sworld_start g)).
    - by eapply list_elem_of_lookup_2.
    - apply sworld_at_start.
    - reflexivity.
    - simpl. lia. }
  split_and!.
  - by apply (H toy_sharing sharing_config 12%nat _ eq_refl).
  - intros Hp. apply (H toy_sharing sharing_config 3%nat _ eq_refl) in Hp. by destruct Hp as [_ [_ ?]].
  - intros Hp. apply (H toy_sharing sharing_linux 3%nat _ eq_refl) in Hp. by destruct Hp as [_ [? _]].
  - intros Hp. apply (H refusing_sharing sharing_config 3%nat _ eq_refl) in Hp. by destruct Hp as [_ [? _]].
  - by apply (H refusing_sharing sharing_linux 3%nat _ eq_refl).
Defined.
