(* ===== verification/Revocation.v ===== *)
(** * Revocation: sweeps of memory (cheriostest_vm.c, revocation part)

    CheriBSD revokes capabilities: a process paints the granules it has freed in
    a shadow bitmap, and cheri_revoke(2) removes, from all its memory, the
    capabilities whose base is painted.  [lib_run] is the exerciser of that
    machinery (cheriostest_cheri_revoke_lib_run): it walks over a block filled
    with capabilities to their own slots, takes random chunks of it, paints,
    revokes, looks at the whole block, and puts everything back.  [async] waits
    for a revocation that the kernel does on its own.

    [RevRules] is a kernel whose revoker decides slot by slot; the theorems say
    that the walk ends and passes exactly when each sweep that it makes hits the
    chunk and nothing else, and that the wait ends when the kernel makes
    progress. *)

From S2P Require Import Prelude Printf Cheri Perms Harness Runner Toy Registers RunnerFacts Faults Spawn AddrGap Kernel VmTags MmapPerms Mappings Reservations Judge.

(** The struct cheri_revoke_syscall_info of a call: both clocks. *)
Record epochs := Epochs { enqueue : Z; dequeue : Z }.

(** cheri_revoke(2), the structure it shares with the process, and libcaprevoke. *)
Class RevokeOS (cap W : Type) := {
  sizeof_ptr : Z;                                   (* sizeof(void * ) *)
  CHERI_REVOKE_LAST_PASS : Z;
  CHERI_REVOKE_IGNORE_START : Z;
  CHERI_REVOKE_TAKE_STATS : Z;
  CHERI_REVOKE_ASYNC : Z;
  sys_cheri_revoke : Z -> Z -> W -> (epochs + Z) * W;
  sys_get_shadow_novmem : cap -> W -> (cap + Z) * W;
  cri_enqueue : W -> Z;                             (* cri->epochs, as it is now *)
  cri_dequeue : W -> Z;
  cri_base_mem_nomap : W -> Z;
  cheri_revoke_epoch_clears : Z -> Z -> bool;
  caprev_shadow_nomap_set : Z -> cap -> cap -> cap -> W -> Z * W;
  caprev_shadow_nomap_clear : Z -> cap -> cap -> W -> W;
  dump_shadow : string -> cap -> cap -> Z -> W -> string;  (* fprintf at verbose > 3 *)
  os_srand : Z -> W -> W;
  os_rand : W -> Z * W;
  os_usleep : Z -> W -> W;
}.

Section Revocation.
Context {cap W : Type} {CH : Cheri cap} {LC : Libc cap W} {KE : Kernel cap W}
  {VC : VmConsts} {HP : Perms} {RV : ResvOS cap W} {RK : RevokeOS cap W} {FO : ForkOS W}
  {SO : SpawnOS W}.
Context (g : config) (o : options).
Context (have_cheribsd : bool).                     (* HAVE_CheriBSD *)

Abbreviation ptr_size := (sizeof_ptr (cap := cap) (W := W)).
Abbreviation LAST_PASS := (CHERI_REVOKE_LAST_PASS (cap := cap) (W := W)).
Abbreviation IGNORE_START := (CHERI_REVOKE_IGNORE_START (cap := cap) (W := W)).
Abbreviation TAKE_STATS := (CHERI_REVOKE_TAKE_STATS (cap := cap) (W := W)).
Abbreviation ASYNC := (CHERI_REVOKE_ASYNC (cap := cap) (W := W)).

Definition check_revoked (r : cap) : bool :=
  negb (cheri_tag_get r) || ((cheri_type_get r =? -1) && (cheri_perms_get r =? 0)).

(** The tests of this part: they report that there is nothing to test where the
    system is not CheriBSD. *)
Definition revoke_test (skip : string -> W -> option string * W) (name desc : string)
    (body : test cap W unit) : cheri_test cap W :=
  if have_cheribsd then with_skip skip (CHERIOSTEST name desc body)
  else with_xfail (Some "Not supported"%string)
         (CHERIOSTEST name desc (cheriostest_failure_errx REVOCATION_IS_NOT_SUPPORTED_MSG [])).

Definition verbose_over (n : Z) (msg : string) (ap : list (arg cap)) : test cap W unit :=
  v ← gets p_verbose;
  when (n <? v) (report_on_stderr msg ap).

(** ** cheriostest_cheri_revoke_lib_init *)

(** [&p[ix]], [p] an array of pointers. *)
Definition slot_ptr (p : cap) (ix : Z) : cap := ptr_add p (ix * ptr_size).

(** A capability to its own slot. *)
Definition self_cap (p : cap) (ix : Z) : cap :=
  cheri_perms_and (cheri_bounds_set (slot_ptr p ix) 16) EXCEPT_VMEM.

Definition fill_self (p : cap) (n : Z) : test cap W unit :=
  foreach (seqZ 0 n) (fun ix => access (mem_store_cap p (ix * ptr_size) (self_cap p ix))).

(** The block and its shadow. *)
Definition lib_init (bigblock_caps : Z) : test cap W (cap * cap) :=
  bigblock ← CHERIOSTEST_CHECK_SYSCALL
      (sys (sys_mmap cap_null (bigblock_caps * ptr_size) PROT_RW MAP_ANON (-1) 0))
      "mmap(0, bigblock_caps * sizeof(void *), PROT_READ | PROT_WRITE, MAP_ANON, -1, 0)";
  fill_self bigblock bigblock_caps ;;
  shadow ← CHERIOSTEST_CHECK_SYSCALL (sys (sys_get_shadow_novmem bigblock))
             "cheri_revoke_get_shadow(CHERI_REVOKE_SHADOW_NOVMEM, bigblock, oshadow)";
  _ ← CHERIOSTEST_CHECK_SYSCALL (sys (cheri_revoke_get_shadow_info (cap := cap)))
        "cheri_revoke_get_shadow(CHERI_REVOKE_SHADOW_INFO_STRUCT, NULL, __DEQUALIFY(void **, ocri))";
  mret (bigblock, shadow).

(** ** cheriostest_cheri_revoke_lib_run *)

Inductive tclr_mode :=
  TCLR_MODE_NONE | TCLR_MODE_LOAD_ONCE | TCLR_MODE_LOAD_SPLIT
| TCLR_MODE_LOAD_SPLIT_INIT | TCLR_MODE_LOAD_SPLIT_FINI.

#[export] Instance tclr_mode_eq_dec : EqDecision tclr_mode.
Proof. solve_decision. Defined.

Definition tclr_int (m : tclr_mode) : Z :=
  match m with
  | TCLR_MODE_NONE => 0 | TCLR_MODE_LOAD_ONCE => 1 | TCLR_MODE_LOAD_SPLIT => 2
  | TCLR_MODE_LOAD_SPLIT_INIT => 3 | TCLR_MODE_LOAD_SPLIT_FINI => 4
  end.

Definition one_chunk (m : tclr_mode) : bool :=
  match m with TCLR_MODE_LOAD_SPLIT_INIT | TCLR_MODE_LOAD_SPLIT_FINI => true | _ => false end.

(** The size of the next chunk, [left] slots being left. *)
Definition chunk_size (mode : tclr_mode) (left : Z) : test cap W Z :=
  if one_chunk mode then mret left
  else (r ← libcall (os_rand (cap := cap));
        mret (Z.min (u64 (Z.rem r 1024 + 1)) left)).

Definition revoke_call (crflags : Z) : test cap W unit :=
  crsi ← CHERIOSTEST_CHECK_SYSCALL (sys (sys_cheri_revoke (cap := cap) crflags 0))
           "cheri_revoke(crflags, 0, &crsi)";
  w ← gets p_world;
  CHERIOSTEST_VERIFY2 (cri_dequeue (cap := cap) w =? dequeue crsi) "Bad shared clock" [].

(** The slots [l] of the block, below or above the chunk, hold what they did. *)
Definition check_others (bigblock : cap) (l : list Z) (msg : string) : test cap W unit :=
  foreach l (fun ix =>
    c ← access (mem_load_cap bigblock (ix * ptr_size));
    CHERIOSTEST_VERIFY2 (negb (check_revoked c)) msg [AInt ix]).

Definition check_chunk (chunk : cap) (csz : Z) : test cap W unit :=
  foreach (seqZ 0 csz) (fun ix =>
    c ← access (mem_load_cap chunk (ix * ptr_size));
    when (negb (check_revoked c))
      (c ← access (mem_load_cap chunk (ix * ptr_size));
       report_on_stderr "c %#.16lp" [APtr c] ;;
       cheriostest_failure_errx "Unrevoked at ix=%zd after revoke" [AInt ix])).

(** Painting the chunk, the (first) call, and the checks. *)
Definition mark_and_check (paranoia : Z) (mode : tclr_mode) (bigblock_caps : Z)
    (bigblock shadow chunk : cap) (chunk_offset csz : Z) : test cap W unit :=
  w ← gets p_world;
  let base := cri_base_mem_nomap (cap := cap) w in
  verbose_over 3 "%s" [AStr (dump_shadow "premrk" shadow chunk (csz * ptr_size) w)] ;;
  r ← libcall (caprev_shadow_nomap_set base shadow chunk chunk);
  CHERIOSTEST_VERIFY2 (r =? 0) "Shadow update collision" [] ;;
  w ← gets p_world;
  verbose_over 3 "%s" [AStr (dump_shadow "marked" shadow chunk (csz * ptr_size) w)] ;;
  revoke_call (if decide (mode = TCLR_MODE_LOAD_ONCE)
               then Z.lor (Z.lor IGNORE_START TAKE_STATS) LAST_PASS
               else Z.lor IGNORE_START TAKE_STATS) ;;
  when (1 <? paranoia)
    (check_others bigblock (seqZ 0 chunk_offset)
       "Revoked cap incorrectly below object, at ix=%zd" ;;
     check_others bigblock (seqZ (chunk_offset + csz) (bigblock_caps - (chunk_offset + csz)))
       "Revoked cap incorrectly above object, at ix=%zd") ;;
  when (0 <? paranoia) (check_chunk chunk csz).

(** The body of the loop: the next offset, or [None] to return. *)
Definition lib_step (paranoia : Z) (mode : tclr_mode) (bigblock_caps : Z)
    (bigblock shadow : cap) (bigblock_offset : Z) : test cap W (option Z) :=
  csz ← chunk_size mode (bigblock_caps - bigblock_offset);
  verbose_over 1 "left=%zd csz=%zd" [AInt (bigblock_caps - bigblock_offset); AInt csz] ;;
  let chunk := cheri_bounds_set (slot_ptr bigblock bigblock_offset) (csz * ptr_size) in
  verbose_over 1 "chunk: %#.16lp" [APtr chunk] ;;
  let chunk_offset := bigblock_offset in
  let bigblock_offset := bigblock_offset + csz in
  when (negb (bool_decide (mode = TCLR_MODE_LOAD_SPLIT_FINI)))
    (mark_and_check paranoia mode bigblock_caps bigblock shadow chunk chunk_offset csz) ;;
  if decide (mode = TCLR_MODE_LOAD_SPLIT_INIT) then mret None
  else
    (when (bool_decide (mode = TCLR_MODE_LOAD_SPLIT \/ mode = TCLR_MODE_LOAD_SPLIT_FINI))
       (revoke_call (Z.lor (Z.lor LAST_PASS IGNORE_START) TAKE_STATS)) ;;
     w ← gets p_world;
     libcall (fun w' => (tt, caprev_shadow_nomap_clear (cri_base_mem_nomap (cap := cap) w)
                               shadow chunk w')) ;;
     fill_self chunk csz ;;
     mret (Some bigblock_offset)).

(** [while (bigblock_offset < bigblock_caps)] *)
Fixpoint lib_loop (fuel : nat) (paranoia : Z) (mode : tclr_mode) (bigblock_caps : Z)
    (bigblock shadow : cap) (bigblock_offset : Z) : test cap W unit :=
  match fuel with
  | O => undef
  | S fuel' =>
      if bigblock_offset <? bigblock_caps then
        next ← lib_step paranoia mode bigblock_caps bigblock shadow bigblock_offset;
        match next with
        | Some off => lib_loop fuel' paranoia mode bigblock_caps bigblock shadow off
        | None => mret tt
        end
      else mret tt
  end.

(** A chunk has a slot at least: as many rounds as slots are enough. *)
Definition lib_run (paranoia : Z) (mode : tclr_mode) (bigblock_caps : Z)
    (bigblock shadow : cap) : test cap W unit :=
  verbose_over 1 "test_cheri_revoke_lib_run mode %d" [AInt (tclr_int mode)] ;;
  lib_loop (S (Z.to_nat bigblock_caps)) paranoia mode bigblock_caps bigblock shadow 0.

(** ** The tests *)

Definition PARANOIA : Z := 2.
Definition BIGBLOCK_CAPS : Z := 4096.

Definition srand (seed : Z) : test cap W unit :=
  libcall (fun w => (tt, os_srand (cap := cap) seed w)).

Definition print_block (bigblock shadow : cap) : test cap W unit :=
  verbose_over 0 "bigblock: %#.16lp" [APtr bigblock] ;;
  verbose_over 0 "shadow: %#.16lp" [APtr shadow].

Definition munmap_quietly (c : cap) (len : Z) : test cap W unit :=
  _ ← try_sys (sys_munmap c len); mret tt.

Definition both_modes (bigblock shadow : cap) : test cap W unit :=
  lib_run PARANOIA TCLR_MODE_LOAD_ONCE BIGBLOCK_CAPS bigblock shadow ;;
  lib_run PARANOIA TCLR_MODE_LOAD_SPLIT BIGBLOCK_CAPS bigblock shadow.

Definition finish (bigblock : cap) : test cap W unit :=
  munmap_quietly bigblock (BIGBLOCK_CAPS * ptr_size) ;;
  cheriostest_success.

Definition cheri_revoke_lib : cheri_test cap W :=
  revoke_test (skip_need_cheri_revoke g) "cheri_revoke_lib" "Test libcheri_caprevoke internals"
    (srand 1337 ;;
     p ← lib_init BIGBLOCK_CAPS;
     print_block p.1 p.2 ;;
     both_modes p.1 p.2 ;;
     finish p.1).

(** fork(2): the child goes on with [child] and then as the parent would have,
    without one; the parent waits for it. *)
Definition run_forked (bigblock : cap) (child : test cap W unit) : test cap W unit :=
  pid ← try_sys (sys_fork Fork);
  CHERIOSTEST_VERIFY2 (match pid with Some pid => 0 <? pid | None => false end)
    "fork failed" [] ;;
  res ← wait_child g (child ;; finish bigblock);
  if res =? 0 then cheriostest_success
  else cheriostest_failure_errx "Bad child process exit" [].

Definition cheri_revoke_lib_fork : cheri_test cap W :=
  revoke_test (skip_need_cheri_revoke g) "cheri_revoke_lib_fork"
    "Test libcheri_caprevoke with fork"
    (srand 1337 ;;
     p ← lib_init BIGBLOCK_CAPS;
     print_block p.1 p.2 ;;
     run_forked p.1 (both_modes p.1 p.2)).

Definition cheri_revoke_lib_fork_split : cheri_test cap W :=
  revoke_test (skip_need_cheri_revoke g) "cheri_revoke_lib_fork_split"
    "Test libcheri_caprevoke split across fork"
    (srand 1337 ;;
     p ← lib_init BIGBLOCK_CAPS;
     print_block p.1 p.2 ;;
     lib_run PARANOIA TCLR_MODE_LOAD_SPLIT_INIT BIGBLOCK_CAPS p.1 p.2 ;;
     run_forked p.1
       (lib_run PARANOIA TCLR_MODE_LOAD_SPLIT_FINI BIGBLOCK_CAPS p.1 p.2)).

(** *** The tests that revoke in a process started from the test *)

Definition cheri_revoke_lib_child_common (mode : tclr_mode) : test cap W unit :=
  srand 1337 ;;
  p ← lib_init BIGBLOCK_CAPS;
  w ← gets p_world;
  CHERIOSTEST_VERIFY (cri_enqueue (cap := cap) w =? 0) "cri->epochs.enqueue == 0" ;;
  CHERIOSTEST_VERIFY (cri_dequeue (cap := cap) w =? 0) "cri->epochs.dequeue == 0" ;;
  print_block p.1 p.2 ;;
  lib_run PARANOIA mode BIGBLOCK_CAPS p.1 p.2 ;;
  munmap_quietly p.1 (BIGBLOCK_CAPS * ptr_size) ;;
  exit 0.

Definition cheri_revoke_lib_child_once : test cap W unit :=
  cheri_revoke_lib_child_common TCLR_MODE_LOAD_ONCE.
Definition cheri_revoke_lib_child_split : test cap W unit :=
  cheri_revoke_lib_child_common TCLR_MODE_LOAD_SPLIT.

(** [spawn]: cheriostest_spawn_child, in the test that runs. *)
Definition cheri_revoke_lib_child_spawn_common (spawn : test cap W spawned)
    (pre_fork_tclr_mode : tclr_mode) : test cap W unit :=
  when (negb (bool_decide (pre_fork_tclr_mode = TCLR_MODE_NONE)))
    (srand 1337 ;;
     p ← lib_init BIGBLOCK_CAPS;
     lib_run PARANOIA pre_fork_tclr_mode BIGBLOCK_CAPS p.1 p.2) ;;
  r ← spawn;
  match r with
  | Replaced _ _ _ => mret tt
  | Pid pid =>
      CHERIOSTEST_VERIFY2 (0 <? pid) "spawning child process failed" [] ;;
      res ← world_op (os_waitpid pid);
      fail_if (negb (res =? 0)) "Bad child process exit" [] ;;
      cheriostest_success
  end.

(** Each such test spawns itself: of the running test, the argument vector has
    the name only. *)
Definition child_test (name desc : string) (child : test cap W unit)
    (sc_mode : spawn_child_mode) (pre_fork : tclr_mode) : cheri_test cap W :=
  let body self := cheri_revoke_lib_child_spawn_common
                     (cheriostest_spawn_child g o (Some self) sc_mode) pre_fork in
  let self := CHERIOSTEST name desc (mret tt) in
  with_skip (skip_need_cheri_revoke g) (with_child child (CHERIOSTEST name desc (body self))).

Definition cheri_revoke_lib_child_fork_exec_once : cheri_test cap W :=
  child_test "cheri_revoke_lib_child_fork_exec_once" "revoke in a fork+exec'd child"
    cheri_revoke_lib_child_once SC_MODE_FORK TCLR_MODE_NONE.
Definition cheri_revoke_lib_child_fork_exec_split_prior : cheri_test cap W :=
  child_test "cheri_revoke_lib_child_fork_exec_split_prior"
    "split revoke in a fork+exec'd child after revoking once"
    cheri_revoke_lib_child_split SC_MODE_FORK TCLR_MODE_LOAD_ONCE.
Definition cheri_revoke_lib_child_fork_exec_once_opened : cheri_test cap W :=
  child_test "cheri_revoke_lib_child_fork_exec_once_opened"
    "revoke in a fork+exec'd child after opening epoch"
    cheri_revoke_lib_child_once SC_MODE_FORK TCLR_MODE_LOAD_SPLIT_INIT.
Definition cheri_revoke_lib_child_rfork_exec_split : cheri_test cap W :=
  child_test "cheri_revoke_lib_child_rfork_exec_split"
    "split revoke in a rfork+exec'd child"
    cheri_revoke_lib_child_split SC_MODE_RFORK TCLR_MODE_NONE.
Definition cheri_revoke_lib_child_vfork_exec_once : cheri_test cap W :=
  child_test "cheri_revoke_lib_child_vfork_exec_once" "revoke in a vfork+exec'd child"
    cheri_revoke_lib_child_once SC_MODE_VFORK TCLR_MODE_NONE.
Definition cheri_revoke_lib_child_vfork_exec_split_prior : cheri_test cap W :=
  child_test "cheri_revoke_lib_child_vfork_exec_split_prior"
    "split revoke in a vfork+exec'd child after revoking once"
    cheri_revoke_lib_child_split SC_MODE_VFORK TCLR_MODE_LOAD_ONCE.
Definition cheri_revoke_lib_child_vfork_exec_once_opened : cheri_test cap W :=
  child_test "cheri_revoke_lib_child_vfork_exec_once_opened"
    "revoke in a vfork+exec'd child after opening epoch"
    cheri_revoke_lib_child_once SC_MODE_VFORK TCLR_MODE_LOAD_SPLIT_INIT.
Definition cheri_revoke_lib_child_posix_spawn_split : cheri_test cap W :=
  child_test "cheri_revoke_lib_child_posix_spawn_split"
    "split revoke in a posix_spawn'd child"
    cheri_revoke_lib_child_split SC_MODE_POSIX_SPAWN TCLR_MODE_NONE.
Definition cheri_revoke_lib_child_posix_spawn_once_prior : cheri_test cap W :=
  child_test "cheri_revoke_lib_child_posix_spawn_once_prior"
    "revoke in a posix_spawn'd child after revoking once"
    cheri_revoke_lib_child_once SC_MODE_POSIX_SPAWN TCLR_MODE_LOAD_ONCE.
Definition cheri_revoke_lib_child_posix_spawn_split_opened : cheri_test cap W :=
  child_test "cheri_revoke_lib_child_posix_spawn_split_opened"
    "split revoke in a posix_spawn'd child after revoking once"
    cheri_revoke_lib_child_split SC_MODE_POSIX_SPAWN TCLR_MODE_LOAD_SPLIT_INIT.

(** ** cheri_revoke_async *)

(** The arguments of the test's calls. *)
Definition async_flags : Z := Z.lor ASYNC IGNORE_START.

(** [while (!cheri_revoke_epoch_clears(cri->epochs.dequeue, epoch))] *)
Fixpoint async_wait (fuel : nat) (epoch : Z) : test cap W unit :=
  match fuel with
  | O => undef
  | S fuel' =>
      w ← gets p_world;
      if cheri_revoke_epoch_clears (cap := cap) (W := W) (cri_dequeue (cap := cap) w) epoch
      then mret tt
      else
        _ ← CHERIOSTEST_CHECK_SYSCALL (sys (sys_cheri_revoke (cap := cap) async_flags 0))
              "cheri_revoke(CHERI_REVOKE_ASYNC | CHERI_REVOKE_IGNORE_START, 0, NULL)";
        libcall (fun w => (tt, os_usleep (cap := cap) 1000 w)) ;;
        async_wait fuel' epoch
  end.

(** Map a page, store in its slot 1 a capability to it without SW_VMEM, paint
    it, and start; the page, the epoch before and the clocks of the call. *)
Definition async_start : test cap W (cap * Z * epochs) :=
  mb ← CHERIOSTEST_CHECK_SYSCALL
         (sys (sys_mmap cap_null (page (cap := cap) (W := W)) PROT_RW MAP_ANON (-1) 0))
         "mmap(0, CHERITEST_PAGE_SIZE, PROT_READ | PROT_WRITE, MAP_ANON, -1, 0)";
  sh ← CHERIOSTEST_CHECK_SYSCALL (sys (sys_get_shadow_novmem mb))
         "cheri_revoke_get_shadow(CHERI_REVOKE_SHADOW_NOVMEM, mb, &sh)";
  _ ← CHERIOSTEST_CHECK_SYSCALL (sys (cheri_revoke_get_shadow_info (cap := cap)))
        "cheri_revoke_get_shadow(CHERI_REVOKE_SHADOW_INFO_STRUCT, NULL, __DEQUALIFY(void **, &cri))";
  access (mem_store_cap mb ptr_size (cheri_perms_and mb EXCEPT_VMEM)) ;;
  access (mem_store_byte sh 0 1) ;;
  w ← gets p_world;
  let epoch := cri_dequeue (cap := cap) w in
  crsi ← CHERIOSTEST_CHECK_SYSCALL (sys (sys_cheri_revoke (cap := cap) async_flags 0))
           "cheri_revoke(CHERI_REVOKE_ASYNC | CHERI_REVOKE_IGNORE_START, 0, &crsi)";
  mret (mb, epoch, crsi).

Definition async_body (fuel : nat) : test cap W unit :=
  r ← async_start;
  let '(mb, epoch, crsi) := r in
  w ← gets p_world;
  let enq := cri_enqueue (cap := cap) w in
  let deq := cri_dequeue (cap := cap) w in
  CHERIOSTEST_VERIFY2 (enq =? enqueue crsi) "Bad shared enqueue clock (%lu %lu)"
    [AInt enq; AInt (enqueue crsi)] ;;
  CHERIOSTEST_VERIFY2 (deq =? dequeue crsi) "Bad shared dequeue clock (%lu %lu)"
    [AInt deq; AInt (dequeue crsi)] ;;
  CHERIOSTEST_VERIFY2 (enq =? u64 (deq + 1)) "Bad shared clock (%lu %lu)"
    [AInt enq; AInt deq] ;;
  async_wait fuel epoch ;;
  w ← gets p_world;
  let enq := cri_enqueue (cap := cap) w in
  let deq := cri_dequeue (cap := cap) w in
  CHERIOSTEST_VERIFY2 (enq =? deq) "Bad shared post-revocation clock (%lu %lu)"
    [AInt enq; AInt deq] ;;
  CHERIOSTEST_VERIFY2 (deq =? u64 (dequeue crsi + 2)) "Unexpected clock jump (%lu %lu)"
    [AInt deq; AInt (dequeue crsi)] ;;
  c ← access (mem_load_cap mb ptr_size);
  CHERIOSTEST_VERIFY2 (check_revoked c) "Memory tag persists" [] ;;
  cheriostest_success.

(** [fuel] bounds the rounds of the wait. *)
Definition cheri_revoke_async (fuel : nat) : cheri_test cap W :=
  revoke_test (skip_need_cheri_revoke g) "cheri_revoke_async"
    "A gentle test of asynchronous capability revocation" (async_body fuel).
End Revocation.

(** ** A revoker that decides slot by slot *)

(** The 16-byte granules of the shadow bitmap that meet a range. *)
Definition granules (lo len : Z) : gset Z :=
  list_to_set (seqZ (lo `div` 16) ((lo + len - 1) `div` 16 - lo `div` 16 + 1)).

(** What the process sees of its memory: the capability that a load of each
    slot gives, the painted granules, and the state of rand(3). *)
Record rv (cap : Type) := Rv { r_mem : gmap Z cap; r_painted : gset Z; r_seed : Z }.
Arguments Rv {cap}.
Arguments r_mem {cap}.
Arguments r_painted {cap}.
Arguments r_seed {cap}.

Definition with_mem {cap} (m : gmap Z cap) (v : rv cap) : rv cap :=
  Rv m (r_painted v) (r_seed v).
Definition with_painted {cap} (p : gset Z) (v : rv cap) : rv cap :=
  Rv (r_mem v) p (r_seed v).
Definition with_seed {cap} (x : Z) (v : rv cap) : rv cap :=
  Rv (r_mem v) (r_painted v) x.

(** The choices of a kernel and of a library: which bases a sweep hits under a
    set of painted granules, how bounds are rounded, where blocks are mapped,
    and the sequence of rand(3). *)
Class RevPolicy (cap : Type) := {
  hits : gset Z -> Z -> bool;
  erased : cap -> cap;
  set_base : Z -> Z -> Z;                           (* of the address and the length *)
  set_length : Z -> Z -> Z;
  rand_of : Z -> Z * Z;                             (* the number, and the next state *)
  block_at : rv cap -> Z -> Z;
  nomap_base : Z;
}.

Section Rules.
Context {cap W : Type} {CH : Cheri cap} {LC : Libc cap W} {KE : Kernel cap W}
  {VC : VmConsts} {HP : Perms} {RV : ResvOS cap W} {RK : RevokeOS cap W} {FO : ForkOS W}.
Context {RP : RevPolicy cap}.

(** One sweep: it takes the capabilities without SW_VMEM whose base it hits. *)
Definition sweep (v : rv cap) : rv cap :=
  with_mem ((fun c => if negb (has_vmem c) && hits (r_painted v) (cheri_base_get c)
                      then erased c else c) <$> r_mem v) v.

(** [c] is an array of [n] slots from the address [a], which can be read and
    written. *)
Record array (data_perms : Z -> bool) (c : cap) (a n : Z) : Prop := {
  ar_tag : cheri_tag_get c = true;
  ar_unsealed : cheri_is_sealed c = false;
  ar_address : cheri_address_get c = a;
  ar_base : cheri_base_get c <= a;
  ar_top : a + 16 * n <= cheri_base_get c + cheri_length_get c;
  ar_end : a + 16 * n < 2 ^ 64;
  ar_aligned : a mod 16 = 0;
  ar_size : 0 <= n;
  ar_vmem : has_vmem c = true;
  ar_data : data_perms (cheri_perms_get c) = true;
}.

Class RevRules := {
  rabs : W -> rv cap;
  data_perms : Z -> bool;                           (* of a mapping with PROT_RW *)
  is_shadow : cap -> Prop;
  v_pointer : sizeof_ptr (cap := cap) (W := W) = 16;
  v_data p : data_perms p = true -> flag_set p (mask PLoad) = true;
  v_seal (c : cap) a : cheri_is_sealed (cheri_address_set c a) = cheri_is_sealed c;
  v_bounds (c : cap) l :
    cheri_tag_get c = true -> cheri_is_sealed c = false -> 0 < l ->
    cheri_base_get c <= cheri_address_get c ->
    cheri_address_get c + l <= cheri_base_get c + cheri_length_get c ->
    let d := cheri_bounds_set c l in
    cheri_tag_get d = true /\ cheri_is_sealed d = false /\
    cheri_address_get d = cheri_address_get c /\
    cheri_perms_get d = cheri_perms_get c /\
    cheri_base_get d = set_base (cheri_address_get c) l /\
    cheri_length_get d = set_length (cheri_address_get c) l /\
    cheri_base_get d <= cheri_address_get c /\
    cheri_address_get c + l <= cheri_base_get d + cheri_length_get d;
  v_small a : set_base a 16 = a;
  v_erased (c : cap) : check_revoked (erased c) = true;
  v_rand x : 0 <= (rand_of x).1 < 2 ^ 31;
  v_mmap n w : 0 < n < 2 ^ 32 -> exists c w',
    sys_mmap cap_null n PROT_RW MAP_ANON (-1) 0 w = (inl c, w') /\
    rabs w' = rabs w /\ array data_perms c (block_at (rabs w) n) (n / 16) /\
    cheri_base_get c = cheri_address_get c;
  v_shadow (c : cap) w : exists sh w',
    sys_get_shadow_novmem c w = (inl sh, w') /\ is_shadow sh /\ rabs w' = rabs w;
  v_info w : exists w', cheri_revoke_get_shadow_info (cap := cap) w = (inl 0, w') /\
    rabs w' = rabs w;
  v_base w : cri_base_mem_nomap (cap := cap) w = nomap_base;
  v_load c off x n w :
    array data_perms c (cheri_address_get c) n -> 0 <= off < 16 * n -> off mod 16 = 0 ->
    r_mem (rabs w) !! (cheri_address_get c + off) = Some x ->
    exists w', mem_load_cap c off w = (inl x, w') /\ rabs w' = rabs w;
  v_store c off x n w :
    array data_perms c (cheri_address_get c) n -> 0 <= off < 16 * n -> off mod 16 = 0 ->
    exists w', mem_store_cap c off x w = (inl tt, w') /\
      rabs w' = with_mem (<[cheri_address_get c + off := x]> (r_mem (rabs w))) (rabs w);
  v_set sh c w : let new := granules (cheri_base_get c) (cheri_length_get c) in
    is_shadow sh -> new ## r_painted (rabs w) ->
    let r := caprev_shadow_nomap_set nomap_base sh c c w in
    r.1 = 0 /\ rabs r.2 = with_painted (r_painted (rabs w) ∪ new) (rabs w);
  v_clear sh (c : cap) w : is_shadow sh ->
    rabs (caprev_shadow_nomap_clear nomap_base sh c w)
    = with_painted (r_painted (rabs w) ∖ granules (cheri_base_get c) (cheri_length_get c))
        (rabs w);
  v_revoke flags w : exists e w', sys_cheri_revoke (cap := cap) flags 0 w = (inl e, w') /\
    cri_dequeue (cap := cap) w' = dequeue e /\ rabs w' = sweep (rabs w);
  v_srand x w : rabs (os_srand (cap := cap) x w) = with_seed x (rabs w);
  v_rand_step w : let r := os_rand (cap := cap) w in
    r.1 = (rand_of (r_seed (rabs w))).1 /\
    rabs r.2 = with_seed (rand_of (r_seed (rabs w))).2 (rabs w);
  v_fork w : exists pid w', sys_fork Fork w = (inl pid, w') /\ 0 < pid /\ rabs w' = rabs w;
  v_child w : rabs (as_child w) = rabs w;
}.
End Rules.
Arguments RevRules cap W {_ _ _ _ _ _ _ _}.

(** ** What the walk checks *)

Section Facts.
Context {cap W : Type} {CH : Cheri cap} {CL : CheriLaws cap} {CO : CapOps cap}
  {LC : Libc cap W} {KE : Kernel cap W} {VC : VmConsts} {HP : Perms} {PL : PermLaws}
  {RV : ResvOS cap W} {RK : RevokeOS cap W} {FO : ForkOS W} {RP : RevPolicy cap}.
Context (g : config) {RR : RevRules cap W}.

Abbreviation steps := (Judge.steps (cap := cap) rabs).
Abbreviation judged := (Judge.judged (cap := cap) rabs).
Abbreviation exits := (Judge.exits (cap := cap) rabs).
Abbreviation decides := (Judge.decides (cap := cap) rabs).
Abbreviation array := (array data_perms).
Abbreviation ptr_size := (sizeof_ptr (cap := cap) (W := W)).

(** *** The sweeps that a walk makes *)

(** The chunks (offset, slots) of a walk from [off], and the state of rand(3)
    after it. *)
Fixpoint chunks (fuel : nat) (n off seed : Z) : list (Z * Z) * Z :=
  match fuel with
  | O => ([], seed)
  | S fuel' =>
      if off <? n then
        let '(r, seed') := rand_of (cap := cap) seed in
        let csz := Z.min (r mod 1024 + 1) (n - off) in
        let '(l, seed'') := chunks fuel' n (off + csz) seed' in
        ((off, csz) :: l, seed'')
      else ([], seed)
  end.

(** What painting a chunk of the block at [a] paints. *)
Definition chunk_granules (a off csz : Z) : gset Z :=
  granules (set_base (a + 16 * off) (16 * csz)) (set_length (a + 16 * off) (16 * csz)).

(** The sweep of the chunk takes it from the block, and nothing else. *)
Definition exact (a n : Z) (ch : Z * Z) : bool :=
  forallb (fun ix => Bool.eqb (hits (chunk_granules a ch.1 ch.2) (a + 16 * ix))
                       ((ch.1 <=? ix) && (ix <? ch.1 + ch.2))) (seqZ 0 n).

(** *** Capabilities to slots *)

Definition self_at (x : Z) (c : cap) : Prop :=
  check_revoked c = false /\ has_vmem c = false /\ cheri_base_get c = x.

Lemma slot_ptr_spec c a n ix : array c a n -> 0 <= ix < n ->
  let d := slot_ptr (W := W) c ix in
  cheri_tag_get d = true /\ cheri_is_sealed d = false /\
  cheri_address_get d = a + 16 * ix /\ cheri_perms_get d = cheri_perms_get c /\
  cheri_base_get d = cheri_base_get c /\ cheri_length_get d = cheri_length_get c.
Proof.
  intros [Ht Hs Ha Hb Hl He Hal Hn Hv Hd] Hix d.
  pose proof (base_range c). unfold d, slot_ptr, ptr_add. rewrite v_pointer, Ha.
  rewrite (wrapu_small 64 (a + ix * 16)) by lia.
  assert (cheri_tag_get (cheri_address_set c (a + ix * 16)) = true) as Ht'
    by (apply address_set_tag; [done|done|lia|lia]).
  destruct (address_set_bounds _ _ Ht') as [Hb' Hl'].
  split_and!; [done|by rewrite v_seal| |apply address_set_perms|done|done].
  rewrite address_set_address, wrapu_small; lia.
Qed.

Lemma chunk_array c a n off csz : array c a n -> 0 <= off -> 0 < csz -> off + csz <= n ->
  let d := cheri_bounds_set (slot_ptr (W := W) c off) (csz * ptr_size) in
  array d (a + 16 * off) csz /\
  granules (cheri_base_get d) (cheri_length_get d) = chunk_granules a off csz.
Proof.
  intros Harr Ho Hc Hle d.
  destruct (slot_ptr_spec c a n off Harr) as (Ht & Hs & Ha & Hp & Hb & Hl); [lia|].
  destruct Harr as [_ _ _ Hb0 Hl0 He Hal Hn Hv Hd].
  destruct (v_bounds (slot_ptr (W := W) c off) (csz * 16)) as (T & S & A & P & B & L & B' & L');
    [done|done|lia|lia|lia|].
  unfold d. rewrite v_pointer. split.
  - split; try done; try lia.
    + replace (a + 16 * off) with (a + off * 16) by lia. by rewrite Z_mod_plus_full.
    + unfold has_vmem. by rewrite P, Hp.
    + by rewrite P, Hp.
  - rewrite B, L, Ha. unfold chunk_granules. by rewrite (Z.mul_comm csz).
Qed.

Lemma data_bit p : data_perms p = true -> Z.testbit p (bit PLoad) = true.
Proof.
  intros Hp. apply v_data in Hp. by rewrite <- flag_set_mask.
Qed.

(** A capability with the data permissions is live without SW_VMEM too. *)
Lemma drop_vmem_at (d : cap) : cheri_tag_get d = true -> cheri_is_sealed d = false ->
  data_perms (cheri_perms_get d) = true ->
  self_at (cheri_base_get d) (cheri_perms_and d EXCEPT_VMEM).
Proof.
  intros T S Hd. destruct (perms_and_keeps d EXCEPT_VMEM S) as (T' & S' & A' & B' & L').
  split_and!; [|apply without_vmem|exact B'].
  unfold check_revoked. rewrite T', T. simpl. apply andb_false_iff. right.
  apply Z.eqb_neq. intros H0. apply data_bit in Hd.
  assert (Z.testbit (cheri_perms_get (cheri_perms_and d EXCEPT_VMEM)) (bit PLoad) = true) as Hbit.
  { pose proof (bit_range PLoad) as Hr.
    rewrite perms_and_perms. unfold wrapu, EXCEPT_VMEM. rewrite Z.mod_pow2_bits_low by lia.
    rewrite Z.land_spec, Z.lnot_spec by lia. rewrite Hd. simpl.
    unfold CHERI_PERM_SW_VMEM. by rewrite testbit_mask. }
  by rewrite H0, Z.bits_0 in Hbit.
Qed.

Lemma self_cap_at c a n ix : array c a n -> 0 <= ix < n ->
  self_at (a + 16 * ix) (self_cap (W := W) c ix).
Proof.
  intros Harr Hix. destruct (slot_ptr_spec c a n ix Harr Hix) as (Ht & Hs & Ha & Hp & Hb & Hl).
  destruct Harr as [_ _ _ Hb0 Hl0 He _ _ _ Hd].
  destruct (v_bounds (slot_ptr (W := W) c ix) 16) as (T & S & A & P & B & L & _); try lia; try done.
  rewrite <- Ha, <- (v_small (cheri_address_get (slot_ptr (W := W) c ix))), <- B.
  apply drop_vmem_at; [done|done|]. by rewrite P, Hp.
Qed.

(** *** Loads and stores of the block *)

Lemma steps_load_slot c a n ix x v : array c a n -> 0 <= ix < n ->
  r_mem v !! (a + 16 * ix) = Some x ->
  steps (access (mem_load_cap c (ix * ptr_size))) v (fun r v' => r = x /\ v' = v).
Proof.
  intros Harr Hix Hx. apply steps_access. intros w Hw. rewrite v_pointer.
  destruct (v_load c (ix * 16) x n w) as (w' & Hr & Ha).
  - by rewrite (ar_address _ _ _ _ Harr).
  - lia.
  - by rewrite Z_mod_mult.
  - by rewrite (ar_address _ _ _ _ Harr), Hw, (Z.mul_comm ix).
  - exists x, w'. split; [done|]. split; [done|congruence].
Qed.

Lemma steps_store_slot c a n ix x v : array c a n -> 0 <= ix < n ->
  steps (access (mem_store_cap c (ix * ptr_size) x)) v
    (fun _ v' => v' = with_mem (<[a + 16 * ix := x]> (r_mem v)) v).
Proof.
  intros Harr Hix. apply steps_access. intros w Hw. rewrite v_pointer.
  destruct (v_store c (ix * 16) x n w) as (w' & Hr & Ha).
  - by rewrite (ar_address _ _ _ _ Harr).
  - lia.
  - by rewrite Z_mod_mult.
  - exists tt, w'. split; [done|].
    by rewrite Ha, (ar_address _ _ _ _ Harr), Hw, (Z.mul_comm ix).
Qed.

(** Memory [m'] is [m] with the slots [l] of the block at [a] holding
    capabilities to themselves. *)
Definition filled (a : Z) (l : list Z) (m m' : gmap Z cap) : Prop :=
  (forall ix, ix ∈ l -> exists c, m' !! (a + 16 * ix) = Some c /\ self_at (a + 16 * ix) c) /\
  (forall x, (forall ix, ix ∈ l -> x <> a + 16 * ix) -> m' !! x = m !! x).

Lemma steps_fill_list c a n l v : array c a n -> (forall ix, ix ∈ l -> 0 <= ix < n) ->
  steps (foreach l (fun ix => access (mem_store_cap c (ix * ptr_size) (self_cap (W := W) c ix)))) v
    (fun _ v' => exists m', filled a l (r_mem v) m' /\ v' = with_mem m' v).
Proof.
  intros Harr. revert v. induction l as [|ix l IH]; intros v Hl.
  { apply steps_ret. exists (r_mem v). split; [|by destruct v]. split; [|done].
    by intros ix ?%elem_of_nil. }
  eapply steps_bind; [eapply steps_store_slot; [exact Harr|apply Hl; left]|]. intros _ ? ->.
  eapply steps_mono; [apply IH; intros; apply Hl; by right|].
  intros _ ? (m' & [Hin Hout] & ->). simpl in *. exists m'. split; [|done]. split.
  - intros jx Hj. destruct (decide (jx ∈ l)) as [|Hn]; [by apply Hin|].
    apply elem_of_cons in Hj as [->|]; [|done].
    exists (self_cap (W := W) c ix). split; [|apply (self_cap_at _ _ n); [exact Harr|apply Hl; left]].
    rewrite Hout; [by rewrite lookup_insert_eq|]. intros kx Hk Heq.
    by replace ix with kx in Hn by lia.
  - intros x Hx. rewrite Hout by (intros kx Hk; apply Hx; by right).
    rewrite lookup_insert_ne; [done|]. intros He. apply (Hx ix); [left|done].
Qed.

Lemma steps_fill c a n v : array c a n ->
  steps (fill_self c n) v
    (fun _ v' => exists m', filled a (seqZ 0 n) (r_mem v) m' /\ v' = with_mem m' v).
Proof. intros Harr. apply (steps_fill_list _ _ n); [done|]. intros ix Hix%elem_of_seqZ. lia. Qed.

(** *** States of the block *)

(** Every slot has a capability to itself, and nothing is painted. *)
Definition fresh (a n : Z) (v : rv cap) : Prop :=
  r_painted v = ∅ /\
  forall ix, 0 <= ix < n -> exists c, r_mem v !! (a + 16 * ix) = Some c /\ self_at (a + 16 * ix) c.

(** The slot at [x] had a live capability with base [b], and was swept. *)
Definition slot_swept (G : gset Z) (x b : Z) (v : rv cap) : Prop :=
  exists c, r_mem v !! x = Some c /\
    if hits G b then check_revoked c = true else self_at b c.

(** The granules [G] are painted, and the block was swept. *)
Definition swept (a n : Z) (G : gset Z) (v : rv cap) : Prop :=
  r_painted v = G /\
  forall ix, 0 <= ix < n -> slot_swept G (a + 16 * ix) (a + 16 * ix) v.

Lemma slot_sweep_live G x b c v : r_painted v = G -> r_mem v !! x = Some c -> self_at b c ->
  slot_swept G x b (sweep v).
Proof.
  intros Hp Hc (H1 & H2 & H3). unfold slot_swept, sweep. simpl.
  rewrite lookup_fmap, Hc, Hp. simpl. rewrite H2, H3. simpl.
  destruct (hits G b); eexists; (split; [reflexivity|]); [apply v_erased|done].
Qed.

Lemma slot_sweep_again G x b v : r_painted v = G -> slot_swept G x b v ->
  slot_swept G x b (sweep v).
Proof.
  intros Hp (c & Hc & H). destruct (hits G b) eqn:Hh.
  - unfold slot_swept, sweep. simpl. rewrite lookup_fmap, Hc, Hp, Hh. simpl.
    eexists. split; [reflexivity|]. destruct (negb _ && _); [apply v_erased|done].
  - by apply (slot_sweep_live _ _ _ c).
Qed.

Lemma sweep_fresh a n G v : fresh a n v -> swept a n G (sweep (with_painted G v)).
Proof.
  intros [Hp Hs]. split; [done|]. intros ix Hix. destruct (Hs ix Hix) as (c & Hc & H).
  by apply (slot_sweep_live _ _ _ c).
Qed.

Lemma sweep_swept a n G v : swept a n G v -> swept a n G (sweep v).
Proof. intros [Hp Hs]. split; [done|]. intros ix Hix. by apply slot_sweep_again, Hs. Qed.

(** Clearing the paint of the chunk and filling it again. *)
Lemma refill_swept a n off csz m' v :
  exact a n (off, csz) = true -> 0 <= off ->
  swept a n (chunk_granules a off csz) v ->
  filled (a + 16 * off) (seqZ 0 csz) (r_mem v) m' ->
  fresh a n (with_mem m' (with_painted
    (r_painted v ∖ chunk_granules a off csz) v)).
Proof.
  intros He Ho [Hp Hs] [Hin Hout]. split; [simpl; rewrite Hp; apply difference_diag_L|].
  intros ix Hix. simpl. unfold exact in He. rewrite forallb_forall in He.
  specialize (He ix). rewrite <- list_elem_of_In in He.
  assert (ix ∈ seqZ 0 n) as Hm by (apply elem_of_seqZ; lia). apply He, eqb_prop in Hm.
  simpl in Hm. destruct (decide (off <= ix < off + csz)) as [Hr|Hr].
  - destruct (Hin (ix - off)) as (c & Hc & Hcs); [apply elem_of_seqZ; lia|].
    replace (a + 16 * ix) with (a + 16 * off + 16 * (ix - off)) by lia. by exists c.
  - rewrite Hout.
    2: { intros kx Hk%elem_of_seqZ Heq. lia. }
    destruct (Hs ix Hix) as (c & Hc & H). exists c. split; [done|]. rewrite Hm in H.
    replace ((off <=? ix) && (ix <? off + csz)) with false in H; [done|].
    symmetry. apply andb_false_iff. rewrite Z.leb_gt, Z.ltb_ge. lia.
Qed.

(** *** A round of the walk *)

Lemma steps_verbose k msg ap v :
  steps (verbose_over k msg ap) v (fun _ v' => v' = v).
Proof.
  unfold verbose_over. eapply steps_bind; [by apply (steps_gets _ _ (fun _ v' => v' = v))|].
  intros x ? ->. apply steps_when. intros _. apply steps_report.
Qed.

Lemma steps_revoke flags v : steps (revoke_call flags) v (fun _ v' => v' = sweep v).
Proof.
  intros s [Hs Hv]. unfold revoke_call.
  destruct (v_revoke flags (p_world s)) as (e & w' & Hr & Hd & Ha).
  exists tt, (set_world w' s), (rabs w'). rewrite (run_check _ _ _ _ _ _ Hr).
  erewrite test_bind by reflexivity. simpl. rewrite Hd, Z.eqb_refl.
  split; [done|]. split; [by rewrite Ha, Hv|by split].
Qed.

Lemma decides_others c a n G v l msg : array c a n -> swept a n G v ->
  (forall ix, ix ∈ l -> 0 <= ix < n) ->
  decides (check_others c l msg) v (forallb (fun ix => negb (hits G (a + 16 * ix))) l)
    (fun _ v' => v' = v).
Proof.
  intros Harr [_ Hs] Hl. apply decides_foreach. intros ix Hix.
  destruct (Hs ix (Hl ix Hix)) as (x & Hx & H).
  eapply decides_steps; [eapply steps_load_slot; [exact Harr|auto|exact Hx]|].
  intros r ? [-> ->]. replace (hits G (a + 16 * ix)) with (check_revoked x).
  - apply decides_verify.
  - destruct (hits G (a + 16 * ix)); [done|apply H].
Qed.

Lemma decides_chunk a n off csz d G v : swept a n G v ->
  array d (a + 16 * off) csz -> 0 <= off -> off + csz <= n ->
  decides (check_chunk d csz) v
    (forallb (fun ix => hits G (a + 16 * (off + ix))) (seqZ 0 csz)) (fun _ v' => v' = v).
Proof.
  intros [_ Hs] Harr Ho Hle. apply decides_foreach. intros ix Hix%elem_of_seqZ.
  destruct (Hs (off + ix)) as (x & Hx & H); [lia|].
  assert (steps (access (mem_load_cap d (ix * ptr_size))) v (fun r v' => r = x /\ v' = v)) as Hld.
  { eapply steps_load_slot; [exact Harr|lia|].
    by replace (a + 16 * off + 16 * ix) with (a + 16 * (off + ix)) by lia. }
  eapply decides_steps; [exact Hld|]. intros r ? [-> ->].
  replace (hits G (a + 16 * (off + ix))) with (check_revoked x).
  2: { destruct (hits G (a + 16 * (off + ix))); [done|apply H]. }
  destruct (check_revoked x); [by apply steps_ret|].
  eapply steps_fails; [exact Hld|]. intros r ? [-> ->].
  eapply steps_fails; [apply steps_report|]. intros _ ? ->. apply fails_errx.
Qed.

Lemma exact_split a n off csz : 0 <= off -> 0 <= csz -> off + csz <= n ->
  let G := chunk_granules a off csz in
  exact a n (off, csz) =
  forallb (fun ix => negb (hits G (a + 16 * ix))) (seqZ 0 off) &&
  (forallb (fun ix => negb (hits G (a + 16 * ix))) (seqZ (off + csz) (n - (off + csz))) &&
   forallb (fun ix => hits G (a + 16 * (off + ix))) (seqZ 0 csz)).
Proof.
  intros Ho Hc Hle G. apply eq_true_iff_eq. rewrite !andb_true_iff. unfold exact.
  rewrite !forallb_forall. cbn [fst snd]. fold G. setoid_rewrite <- list_elem_of_In.
  setoid_rewrite elem_of_seqZ. split.
  - intros H. split_and!; intros ix Hix; [| |specialize (H (off + ix) ltac:(lia))];
      try specialize (H ix ltac:(lia)); apply eqb_prop in H; rewrite H;
      [apply negb_true_iff, andb_false_iff; rewrite Z.leb_gt, Z.ltb_ge; lia ..|].
    apply andb_true_iff. rewrite Z.leb_le, Z.ltb_lt. lia.
  - intros (H1 & H2 & H3) ix Hix. destruct (Z.leb_spec off ix); simpl.
    + destruct (Z.ltb_spec ix (off + csz)).
      * specialize (H3 (ix - off) ltac:(lia)).
        replace (off + (ix - off)) with ix in H3 by lia. by rewrite H3.
      * specialize (H2 ix ltac:(lia)). apply negb_true_iff in H2. by rewrite H2.
    + specialize (H1 ix ltac:(lia)). apply negb_true_iff in H1. by rewrite H1.
Qed.

Lemma decides_mark mode c sh a n off csz v :
  array c a n -> is_shadow sh -> fresh a n v -> 0 <= off -> 0 < csz -> off + csz <= n ->
  decides (mark_and_check PARANOIA mode n c sh
             (cheri_bounds_set (slot_ptr (W := W) c off) (csz * ptr_size)) off csz) v
    (exact a n (off, csz))
    (fun _ v' => swept a n (chunk_granules a off csz) v' /\ r_seed v' = r_seed v).
Proof.
  intros Harr Hsh Hf Ho Hc Hle.
  destruct (chunk_array c a n off csz) as [Hd HG]; [done|done|done|done|].
  set (d := cheri_bounds_set _ _) in *. set (G := chunk_granules a off csz) in *.
  unfold mark_and_check, PARANOIA.
  eapply decides_steps; [by apply (steps_gets _ _ (fun _ v' => v' = v))|]. intros w0 ? ->.
  eapply decides_steps; [apply steps_verbose|]. intros _ ? ->.
  eapply (decides_steps _ _ _ _ (fun r v' => r = 0 /\ v' = with_painted G v)).
  { apply steps_libcall. intros w Hw. rewrite v_base. destruct (v_set sh d w) as [Hr Ha]; [done| |].
    - rewrite Hw, (proj1 Hf). apply disjoint_empty_r.
    - split; [done|]. by rewrite Ha, Hw, (proj1 Hf), union_empty_l_L, HG. }
  intros r ? [-> ->].
  eapply decides_steps; [by apply steps_verify|]. intros _ ? ->.
  eapply decides_steps; [by apply (steps_gets _ _ (fun _ v' => v' = with_painted G v))|].
  intros w1 ? ->. eapply decides_steps; [apply steps_verbose|]. intros _ ? ->.
  eapply decides_steps; [apply steps_revoke|]. intros _ ? ->.
  pose proof (sweep_fresh a n G v Hf) as Hsw. set (v1 := sweep _) in *.
  rewrite exact_split by lia. fold G. rewrite andb_assoc. cbn [Z.ltb Z.compare Pos.compare when].
  eapply decides_bind.
  { eapply decides_bind; [eapply decides_others; [exact Harr|exact Hsw|]|].
    - intros ix Hix%elem_of_seqZ. lia.
    - intros _ _ ? ->. eapply decides_others; [exact Harr|exact Hsw|].
      intros ix Hix%elem_of_seqZ. lia. }
  intros _ _ ? ->. eapply decides_mono; [by apply (decides_chunk _ n)|].
  by intros _ ? ->.
Qed.

Lemma steps_chunk_size mode left v : one_chunk mode = false -> 0 < left < 2 ^ 63 ->
  steps (chunk_size (cap := cap) mode left) v (fun csz v' =>
    csz = Z.min ((rand_of (r_seed v)).1 mod 1024 + 1) left /\
    v' = with_seed (rand_of (r_seed v)).2 v).
Proof.
  intros Hm Hl. unfold chunk_size. rewrite Hm.
  eapply (steps_bind _ _ _ (fun r v' => r = (rand_of (r_seed v)).1 /\
                                  v' = with_seed (rand_of (r_seed v)).2 v)).
  { apply steps_libcall. intros w Hw. rewrite <- Hw. apply v_rand_step. }
  intros r ? [-> ->]. apply steps_ret. split; [|done].
  pose proof (v_rand (r_seed v)). rewrite Z.rem_mod_nonneg by lia.
  pose proof (Z.mod_pos_bound (rand_of (r_seed v)).1 1024 ltac:(lia)).
  by rewrite wrapu_small by lia.
Qed.

(** The second call of a split sweep, clearing, and filling again. *)
Lemma steps_put_back (again : bool) a n off csz c sh flags v :
  array c a n -> is_shadow sh -> 0 <= off -> 0 < csz -> off + csz <= n ->
  exact a n (off, csz) = true -> swept a n (chunk_granules a off csz) v ->
  let d := cheri_bounds_set (slot_ptr (W := W) c off) (csz * ptr_size) in
  steps (when again (revoke_call flags) ;;
         w ← gets p_world;
         libcall (fun w' => (tt, caprev_shadow_nomap_clear (cri_base_mem_nomap (cap := cap) w)
                                   sh d w')) ;;
         fill_self d csz ;;
         mret (Some (off + csz))) v
    (fun r v' => r = Some (off + csz) /\ fresh a n v' /\ r_seed v' = r_seed v).
Proof.
  intros Harr Hsh Ho Hc Hle He Hsw d.
  destruct (chunk_array c a n off csz) as [Hd HG]; [done|done|done|done|]. fold d in Hd, HG.
  eapply (steps_bind _ _ _ (fun _ v' =>
    swept a n (chunk_granules a off csz) v' /\ r_seed v' = r_seed v)).
  { destruct again; [|by apply steps_ret]. eapply steps_mono; [apply steps_revoke|].
    intros _ ? ->. split; [by apply sweep_swept|done]. }
  intros _ v1 [Hsw1 Hseed]. eapply steps_bind; [by apply (steps_gets _ _ (fun _ v' => v' = v1))|].
  intros w ? ->.
  eapply (steps_bind _ _ _ (fun _ v' => v' =
            with_painted (r_painted v1 ∖ chunk_granules a off csz) v1)).
  { apply steps_libcall. intros w' Hw. simpl. by rewrite v_base, v_clear, Hw, HG. }
  intros _ ? ->. eapply steps_bind; [by apply steps_fill|]. intros _ ? (m' & Hm & ->).
  apply steps_ret. split; [done|]. split; [|done]. by eapply refill_swept.
Qed.

Lemma decides_step mode a n off c sh v :
  mode = TCLR_MODE_LOAD_ONCE \/ mode = TCLR_MODE_LOAD_SPLIT ->
  array c a n -> is_shadow sh -> fresh a n v -> 0 <= off < n -> n < 2 ^ 63 ->
  let csz := Z.min ((rand_of (r_seed v)).1 mod 1024 + 1) (n - off) in
  decides (lib_step PARANOIA mode n c sh off) v (exact a n (off, csz))
    (fun r v' => r = Some (off + csz) /\ fresh a n v' /\
                 r_seed v' = (rand_of (r_seed v)).2).
Proof.
  intros Hm Harr Hsh Hf Ho Hn csz.
  assert (0 < csz /\ off + csz <= n) as [Hc Hle].
  { pose proof (Z.mod_pos_bound (rand_of (r_seed v)).1 1024 ltac:(lia)). lia. }
  unfold lib_step.
  eapply decides_steps; [apply steps_chunk_size; [by destruct Hm as [-> | ->]|lia]|].
  intros r ? [-> ->]. fold csz. set (v1 := with_seed _ v).
  eapply decides_steps; [apply steps_verbose|]. intros _ ? ->. cbv zeta.
  eapply decides_steps; [apply steps_verbose|]. intros _ ? ->.
  rewrite (bool_decide_eq_false_2 (mode = TCLR_MODE_LOAD_SPLIT_FINI)) by (by destruct Hm as [-> | ->]).
  rewrite (decide_False (P := mode = TCLR_MODE_LOAD_SPLIT_INIT)) by (by destruct Hm as [-> | ->]).
  cbn [negb when].
  rewrite <- (andb_true_r (exact _ _ _)).
  eapply decides_bind; [apply decides_mark; try done; lia|]. intros He _ v2 [Hsw Hs2].
  eapply steps_mono; [apply steps_put_back; try done; lia|]. intros r ? (-> & Hf2 & Hs3).
  split; [done|]. split; [done|]. by rewrite Hs3, Hs2.
Qed.

Lemma decides_loop mode a n c sh :
  mode = TCLR_MODE_LOAD_ONCE \/ mode = TCLR_MODE_LOAD_SPLIT ->
  array c a n -> is_shadow sh -> n < 2 ^ 63 -> forall fuel off v,
  0 <= off <= n -> n - off < Z.of_nat fuel -> fresh a n v ->
  let l := chunks fuel n off (r_seed v) in
  decides (lib_loop fuel PARANOIA mode n c sh off) v (forallb (exact a n) l.1)
    (fun _ v' => fresh a n v' /\ r_seed v' = l.2).
Proof.
  intros Hm Harr Hsh Hn. induction fuel as [|fuel IH]; intros off v Ho Hfuel Hf; [lia|].
  simpl. destruct (Z.ltb_spec off n) as [Hlt|Hge].
  2: { apply steps_ret. done. }
  pose proof (decides_step mode a n off c sh v Hm Harr Hsh Hf ltac:(lia) Hn) as Hstep.
  destruct (rand_of (r_seed v)) as [r seed']. simpl in Hstep.
  set (csz := Z.min (r mod 1024 + 1) (n - off)) in *.
  assert (0 < csz /\ off + csz <= n) as [Hc Hle].
  { pose proof (Z.mod_pos_bound r 1024 ltac:(lia)). lia. }
  specialize (IH (off + csz)).
  destruct (chunks fuel n (off + csz) seed') as [l seed2] eqn:Hch.
  change (forallb (exact a n) ((off, csz) :: l, seed2).1) with
    (exact a n (off, csz) && forallb (exact a n) l).
  eapply decides_bind; [exact Hstep|]. intros _ next v' (-> & Hf' & Hs').
  specialize (IH v' ltac:(lia) ltac:(lia) Hf'). rewrite Hs', Hch in IH. exact IH.
Qed.

(** *** Whole walks *)

(** The sweeps of one walk over [n] slots, and of the two walks of a test. *)
Definition walk (n seed : Z) : list (Z * Z) * Z := chunks (S (Z.to_nat n)) n 0 seed.

Definition lib_sweeps (seed : Z) : list (Z * Z) :=
  let '(l1, seed') := walk BIGBLOCK_CAPS seed in l1 ++ (walk BIGBLOCK_CAPS seed').1.

Lemma steps_init n v : 0 < n < 2 ^ 28 -> r_painted v = ∅ ->
  steps (lib_init (cap := cap) n) v (fun p v' => let a := block_at v (n * 16) in
    array p.1 a n /\ is_shadow p.2 /\ fresh a n v' /\ r_seed v' = r_seed v).
Proof.
  intros Hn Hp. set (a := block_at v (n * 16)). unfold lib_init. rewrite v_pointer.
  eapply (steps_bind _ _ _ (fun c v' => array c a n /\ v' = v)).
  { apply steps_call2. intros w Hw. destruct (v_mmap (n * 16) w) as (c & w' & Hr & Ha & Harr & _); [lia|].
    exists c, w'. rewrite Hw in *. rewrite Z.div_mul in Harr by lia. by split. }
  intros c ? [Harr ->]. eapply steps_bind; [by apply steps_fill|]. intros _ ? (m' & [Hin _] & ->).
  set (v1 := with_mem m' v). eapply (steps_bind _ _ _ (fun sh v' => is_shadow sh /\ v' = v1)).
  { apply steps_call2. intros w Hw. destruct (v_shadow c w) as (sh & w' & ? & ? & ?).
    exists sh, w'. split_and!; [done|done|congruence]. }
  intros sh ? [Hsh ->]. eapply (steps_bind _ _ _ (fun _ v' => v' = v1)).
  { apply steps_call2. intros w Hw. destruct (v_info w) as (w' & ? & ?).
    exists 0, w'. split; [done|congruence]. }
  intros _ ? ->. apply steps_ret. split; [done|]. split; [done|]. split; [|done]. split; [done|].
  intros ix Hix. apply Hin, elem_of_seqZ. lia.
Qed.

Lemma decides_run mode a n c sh v :
  mode = TCLR_MODE_LOAD_ONCE \/ mode = TCLR_MODE_LOAD_SPLIT ->
  array c a n -> is_shadow sh -> 0 <= n < 2 ^ 63 -> fresh a n v ->
  let l := walk n (r_seed v) in
  decides (lib_run PARANOIA mode n c sh) v (forallb (exact a n) l.1)
    (fun _ v' => fresh a n v' /\ r_seed v' = l.2).
Proof.
  intros Hm Harr Hsh Hn Hf. unfold lib_run.
  eapply decides_steps; [apply steps_verbose|]. intros _ ? ->.
  apply decides_loop; try done; lia.
Qed.

Lemma decides_both a c sh v :
  array c a BIGBLOCK_CAPS -> is_shadow sh -> fresh a BIGBLOCK_CAPS v ->
  decides (both_modes c sh) v (forallb (exact a BIGBLOCK_CAPS) (lib_sweeps (r_seed v)))
    (fun _ _ => True).
Proof.
  intros Harr Hsh Hf. unfold both_modes, lib_sweeps.
  pose proof (decides_run TCLR_MODE_LOAD_ONCE a _ c sh v (or_introl eq_refl) Harr Hsh
                ltac:(done) Hf) as H1.
  destruct (walk BIGBLOCK_CAPS (r_seed v)) as [l1 seed1] eqn:Hw. simpl in H1.
  rewrite forallb_app. eapply decides_bind; [exact H1|]. intros _ _ v1 [Hf1 <-].
  eapply decides_mono; [apply (decides_run TCLR_MODE_LOAD_SPLIT)|]; auto. done.
Qed.

(** The sweep that opens an epoch, over the whole block, and its end. *)
Lemma decides_open_epoch a n c sh v :
  array c a n -> is_shadow sh -> 0 < n < 2 ^ 63 -> fresh a n v ->
  decides (lib_run PARANOIA TCLR_MODE_LOAD_SPLIT_INIT n c sh) v (exact a n (0, n))
    (fun _ v' => swept a n (chunk_granules a 0 n) v').
Proof.
  intros Harr Hsh Hn Hf. unfold lib_run.
  eapply decides_steps; [apply steps_verbose|]. intros _ ? ->. simpl.
  rewrite (proj2 (Z.ltb_lt 0 n)) by lia. rewrite <- (andb_true_r (exact _ _ _)).
  apply (decides_bind _ _ _ _ _ (fun r v' => r = None /\ swept a n (chunk_granules a 0 n) v')).
  - unfold lib_step, chunk_size. simpl. rewrite Z.sub_0_r.
    eapply decides_steps; [by apply (steps_ret _ _ (fun r v' => r = n /\ v' = v))|].
    intros csz ? [-> ->]. eapply decides_steps; [apply steps_verbose|]. intros _ ? ->.
    eapply decides_steps; [apply steps_verbose|]. intros _ ? ->. rewrite <- (andb_true_r (exact _ _ _)).
    eapply decides_bind; [apply decides_mark; try done; lia|]. intros _ _ v' [Hsw _].
    by apply steps_ret.
  - intros _ r v' [-> Hsw]. by apply steps_ret.
Qed.

Lemma steps_close_epoch a n c sh v :
  array c a n -> is_shadow sh -> 0 < n < 2 ^ 63 -> exact a n (0, n) = true ->
  swept a n (chunk_granules a 0 n) v ->
  steps (lib_run PARANOIA TCLR_MODE_LOAD_SPLIT_FINI n c sh) v (fun _ v' => fresh a n v').
Proof.
  intros Harr Hsh Hn He Hsw. unfold lib_run.
  eapply steps_bind; [apply steps_verbose|]. intros _ ? ->.
  replace (S (Z.to_nat n)) with (S (S (Z.to_nat (n - 1)))) by lia. cbn [lib_loop].
  rewrite (proj2 (Z.ltb_lt 0 n)) by lia.
  eapply (steps_bind _ _ _ (fun r v' => r = Some n /\ fresh a n v')).
  - unfold lib_step, chunk_size. cbn [one_chunk]. rewrite Z.sub_0_r.
    eapply steps_bind; [by apply (steps_ret _ _ (fun r v' => r = n /\ v' = v))|].
    intros csz ? [-> ->]. eapply steps_bind; [apply steps_verbose|]. intros _ ? ->.
    eapply steps_bind; [apply steps_verbose|]. intros _ ? ->.
    eapply steps_bind; [by apply (steps_ret _ _ (fun _ v' => v' = v))|]. intros _ ? ->.
    eapply steps_mono; [apply (steps_put_back true a n 0 n); try done; lia|].
    by intros r v' (-> & Hf & _).
  - intros r v' [-> Hf]. rewrite Z.ltb_irrefl. by apply steps_ret.
Qed.

(** *** The three tests *)

Lemma steps_srand x v : steps (srand (cap := cap) x) v (fun _ v' => v' = with_seed x v).
Proof. apply steps_libcall. intros w Hw. cbn [snd]. by rewrite v_srand, Hw. Qed.

Lemma steps_print c sh v : steps (print_block c sh) v (fun _ v' => v' = v).
Proof. eapply steps_bind; [apply steps_verbose|]. intros _ ? ->. apply steps_verbose. Qed.

Lemma steps_munmap_quietly (c : cap) n v : steps (munmap_quietly c n) v (fun _ _ => True).
Proof.
  intros s [Hs _]. unfold munmap_quietly.
  destruct (sys_munmap c n (p_world s)) as [r w'] eqn:Hr. pose proof (try_sys_run _ s _ _ Hr) as Ht.
  destruct r; rewrite (test_bind _ _ _ _ _ Ht); by eexists tt, _, _.
Qed.

Lemma judged_finish (c : cap) v (P : Prop) : P -> judged (finish c) v P.
Proof.
  intros HPb. eapply judged_bind; [apply steps_munmap_quietly|]. intros _ v' _.
  by apply judged_success.
Qed.

(** The parent passes exactly when the checks of the child hold. *)
Lemma judged_forked c child v b (P : Prop) Q :
  decides child v b Q -> (P <-> b = true) -> judged (run_forked g c child) v P.
Proof.
  intros Hc HPb. unfold run_forked.
  eapply (judged_bind _ _ _ (fun r v' => exists pid, r = Some pid /\ 0 < pid /\ v' = v)).
  { apply (steps_try _ _ (fun pid v' => 0 < pid /\ v' = v)). intros w Hw.
    destruct (v_fork w) as (pid & w' & ? & ? & Ha). exists pid, w'.
    split_and!; [done|done|congruence]. }
  intros r ? (pid & -> & Hpid & ->).
  apply judged_verify; [intros _|by intros ?%Z.ltb_ge; lia].
  eapply (judged_wait_any g (fun v => v) v_child _ (if b then 0 else EX_SOFTWARE)).
  - by destruct b.
  - eapply exits_decides; [exact Hc|]. intros ? v' _.
    eapply exits_bind; [apply steps_munmap_quietly|]. intros _ v2 _. by apply exits_success.
  - intros v'. destruct b; simpl.
    + apply judged_success. by apply HPb.
    + apply judged_failure_end. intros ?%HPb. done.
Qed.

(** From the seed to the block. *)
Lemma judged_lib {B} (k : cap * cap -> test cap W B) v (P : Prop) :
  r_painted v = ∅ ->
  (forall p v', let a := block_at (with_seed 1337 v) (BIGBLOCK_CAPS * 16) in
   array p.1 a BIGBLOCK_CAPS -> is_shadow p.2 -> fresh a BIGBLOCK_CAPS v' ->
   r_seed v' = 1337 -> judged (k p) v' P) ->
  judged (srand 1337 ;; p ← lib_init BIGBLOCK_CAPS; print_block p.1 p.2 ;; k p) v P.
Proof.
  intros Hp Hk. eapply judged_bind; [apply steps_srand|]. intros _ ? ->.
  eapply judged_bind; [by apply steps_init|]. intros p v' (Harr & Hsh & Hf & Hs).
  eapply judged_bind; [apply steps_print|]. intros _ ? ->. by apply Hk.
Qed.

(** C35: on a kernel whose revoker decides slot by slot, each of the three tests
    passes exactly when every sweep that it makes hits the slots of the chunk
    that is painted, and no other slot of the block: for the first two, the
    chunks that rand(3) draws from the seed 1337 in two walks over the block
    (the forked test makes them in its child); for the third, the whole block at
    once. *)
Theorem revoke_lib_verdict (s : proc cap W) :
  shared s -> r_painted (rabs (p_world s)) = ∅ ->
  let a := block_at (with_seed 1337 (rabs (p_world s))) (BIGBLOCK_CAPS * 16) in
  (succeeds (ct_func (cheri_revoke_lib g true)) s <->
   forallb (exact a BIGBLOCK_CAPS) (lib_sweeps 1337) = true) /\
  (succeeds (ct_func (cheri_revoke_lib_fork g true)) s <->
   forallb (exact a BIGBLOCK_CAPS) (lib_sweeps 1337) = true) /\
  (succeeds (ct_func (cheri_revoke_lib_fork_split g true)) s <->
   exact a BIGBLOCK_CAPS (0, BIGBLOCK_CAPS) = true).
Proof.
  intros Hs Hp a. set (v := rabs (p_world s)) in *.
  assert (forall (m : test cap W unit) P, judged m v P -> succeeds m s <-> P) as Hj by (intros m P H; by apply H).
  split_and!; apply Hj, judged_lib; try done; intros p v' a' Harr Hsh Hf Hseed.
  - eapply judged_decides; [by apply decides_both| |by rewrite Hseed].
    rewrite Hseed. intros Hb _ v2 _. by apply judged_finish.
  - eapply judged_forked; [by apply decides_both|]. by rewrite Hseed.
  - eapply judged_decides; [by apply decides_open_epoch| |done]. intros Hb x v2 Hsw.
    eapply (judged_forked _ _ _ true); [by apply (steps_close_epoch a' BIGBLOCK_CAPS)|done].
Qed.

(** *** A precise revoker *)

Lemma elem_of_granules lo len x :
  x ∈ granules lo len <-> lo `div` 16 <= x <= (lo + len - 1) `div` 16.
Proof. unfold granules. rewrite elem_of_list_to_set, elem_of_seqZ. lia. Qed.

Lemma chunks_inside fuel n off seed ch : 0 <= off ->
  ch ∈ (chunks fuel n off seed).1 -> 0 <= ch.1 /\ 0 < ch.2 /\ ch.1 + ch.2 <= n.
Proof.
  revert off seed. induction fuel as [|fuel IH]; intros off seed Ho; simpl.
  { by intros ?%elem_of_nil. }
  destruct (Z.ltb_spec off n); [|by intros ?%elem_of_nil].
  destruct (rand_of seed) as [r seed'].
  pose proof (Z.mod_pos_bound r 1024 ltac:(lia)) as Hr.
  specialize (IH (off + Z.min (r mod 1024 + 1) (n - off)) seed' ltac:(lia)).
  destruct (chunks fuel n _ seed') as [l seed2]. simpl.
  intros [->|Hin]%elem_of_cons; [simpl; lia|]. by apply IH.
Qed.

(** When a base is hit exactly if its granule is painted, and bounds are not
    rounded, every sweep of aligned chunks is exact. *)
Lemma precise_exact a n ch :
  (forall G x, hits (cap := cap) G x = bool_decide (x `div` 16 ∈ G)) ->
  (forall x l, 0 < l <= 16 * n -> set_base (cap := cap) x l = x /\
                                  set_length (cap := cap) x l = l) ->
  a mod 16 = 0 -> 0 <= ch.1 /\ 0 < ch.2 /\ ch.1 + ch.2 <= n -> exact a n ch = true.
Proof.
  intros Hhits Hset Ha (Ho & Hc & Hle). unfold exact, chunk_granules.
  destruct (Hset (a + 16 * ch.1) (16 * ch.2)) as [-> ->]; [lia|].
  apply forallb_forall. intros ix Hix%list_elem_of_In%elem_of_seqZ.
  rewrite Hhits. apply eqb_true_iff, eq_true_iff_eq.
  rewrite bool_decide_eq_true, andb_true_iff, Z.leb_le, Z.ltb_lt, elem_of_granules.
  apply Z.mod_divide in Ha as [k ->]; [|lia].
  replace (k * 16 + 16 * ch.1 + 16 * ch.2 - 1) with (15 + (k + ch.1 + ch.2 - 1) * 16) by lia.
  replace (k * 16 + 16 * ch.1) with ((k + ch.1) * 16) by lia.
  replace (k * 16 + 16 * ix) with ((k + ix) * 16) by lia.
  rewrite !Z.div_mul, Z.div_add by lia. change (15 `div` 16) with 0. lia.
Qed.

Lemma precise_walk a n seed :
  (forall ch, 0 <= ch.1 /\ 0 < ch.2 /\ ch.1 + ch.2 <= n -> exact a n ch = true) ->
  forallb (exact a n) (walk n seed).1 = true.
Proof.
  intros H. apply forallb_forall. intros ch Hch%list_elem_of_In.
  by apply H, (chunks_inside (S (Z.to_nat n)) n 0 seed).
Qed.
End Facts.

(** ** A kernel that revokes in the background *)

(** The clock of the last complete pass; and, while a pass is open, how many
    more times the process has to sleep until it is done. *)
Record passes := Passes { e_deq : Z; e_open : option nat }.

Definition e_enq (e : passes) : Z := e_deq e + match e_open e with Some _ => 1 | None => 0 end.

Section Async.
Context {cap W : Type} {CH : Cheri cap} {CL : CheriLaws cap} {CO : CapOps cap}
  {LC : Libc cap W} {KE : Kernel cap W} {VC : VmConsts} {HP : Perms} {PL : PermLaws}
  {RV : ResvOS cap W} {RK : RevokeOS cap W} {FO : ForkOS W} {RP : RevPolicy cap}
  {RR : RevRules cap W}.

Abbreviation flags := (async_flags (cap := cap) (W := W)).

(** A call starts a pass that takes [n] sleeps, or ends one that is done. *)
Definition async_call (n : nat) (e : passes) : passes :=
  match e_open e with
  | None => Passes (e_deq e) (Some n)
  | Some 0%nat => Passes (e_deq e + 2) None
  | Some (S k) => e
  end.

Definition async_sleep (e : passes) : passes := Passes (e_deq e) (pred <$> e_open e).

Class AsyncRules := {
  clock : W -> passes;
  pass_sleeps : nat;
  shadow_of : cap -> cap -> Prop;
  k_enq w : cri_enqueue (cap := cap) w = e_enq (clock w);
  k_deq w : cri_dequeue (cap := cap) w = e_deq (clock w);
  k_clears e now : Z.even e = true ->
    cheri_revoke_epoch_clears (cap := cap) (W := W) now e = (e + 2 <=? now);
  k_page : 32 <= page (cap := cap) (W := W) < 2 ^ 32;
  k_mmap n w : clock (sys_mmap cap_null n PROT_RW MAP_ANON (-1) 0 w).2 = clock w;
  k_shadow (c : cap) w : exists sh w', sys_get_shadow_novmem c w = (inl sh, w') /\
    shadow_of sh c /\ rabs w' = rabs w /\ clock w' = clock w;
  k_info w : clock (cheri_revoke_get_shadow_info (cap := cap) w).2 = clock w;
  k_load (c : cap) off w : clock (mem_load_cap c off w).2 = clock w;
  k_store (c : cap) off x w : clock (mem_store_cap c off x w).2 = clock w;
  (* bit 0 of the first byte of the shadow is the first granule of the block *)
  k_paint sh (c : cap) w : shadow_of sh c -> exists w',
    mem_store_byte sh 0 1 w = (inl tt, w') /\ clock w' = clock w /\
    rabs w' = with_painted (r_painted (rabs w) ∪ {[cheri_base_get c `div` 16]}) (rabs w);
  k_call w : exists w', sys_cheri_revoke (cap := cap) flags 0 w
      = (inl (Epochs (cri_enqueue (cap := cap) w') (cri_dequeue (cap := cap) w')), w') /\
    clock w' = async_call pass_sleeps (clock w);
  k_sleep w : clock (os_usleep (cap := cap) 1000 w) = async_sleep (clock w) /\
    rabs (os_usleep (cap := cap) 1000 w) = rabs w;
}.

Context {AR : AsyncRules} (g : config).

Definition aabs (w : W) : rv cap * passes := (rabs w, clock w).

Abbreviation steps := (Judge.steps (cap := cap) aabs).
Abbreviation judged := (Judge.judged (cap := cap) aabs).

(** The slot was swept, the granule [G] being painted. *)
Definition slot_state (G : gset Z) (x b : Z) (v : rv cap) : Prop :=
  r_painted v = G /\ slot_swept G x b v.

Lemma steps_async_call G x b v e :
  slot_state G x b v ->
  steps (_ ← CHERIOSTEST_CHECK_SYSCALL (sys (sys_cheri_revoke (cap := cap) flags 0))
              "cheri_revoke(CHERI_REVOKE_ASYNC | CHERI_REVOKE_IGNORE_START, 0, NULL)";
         libcall (fun w => (tt, os_usleep (cap := cap) 1000 w))) (v, e)
    (fun _ v' => slot_state G x b v'.1 /\
                 v'.2 = async_sleep (async_call pass_sleeps e)).
Proof.
  intros [Hp Hs]. eapply (steps_bind _ _ _ (fun _ v' => slot_state G x b v'.1 /\
                 v'.2 = async_call pass_sleeps e)).
  - apply steps_call2. intros w [= Hv He]. destruct (k_call w) as (w' & Hr & Hk).
    destruct (v_revoke flags w) as (e' & w2 & Hr' & _ & Ha).
    rewrite Hr in Hr'. injection Hr' as _ <-. eexists _, w'. split; [exact Hr|].
    simpl. rewrite Hk, He, Ha, Hv. split; [split|]; [done| |done].
    by apply slot_sweep_again.
  - intros _ [v' e'] [Hst He]. simpl in *. apply steps_libcall. intros w [= Hv Hk].
    simpl. destruct (k_sleep w) as [-> ->]. by rewrite Hk, He, Hv.
Qed.

(** The wait ends once the pass is done and another call is made. *)
Lemma steps_wait G x b epoch : Z.even epoch = true -> forall fuel k v,
  (k + 2 <= fuel)%nat -> slot_state G x b v ->
  steps (async_wait (cap := cap) fuel epoch) (v, Passes epoch (Some k))
    (fun _ v' => slot_state G x b v'.1 /\ v'.2 = Passes (epoch + 2) None).
Proof.
  intros Hev. induction fuel as [|fuel IH]; intros k v Hk Hst; [lia|]. simpl.
  eapply steps_bind; [apply (steps_gets _ _ (fun w v' => v' = (v, Passes epoch (Some k)) /\
    cri_dequeue (cap := cap) w = epoch))|].
  { intros s [_ [= _ Hc]]. split; [done|]. by rewrite k_deq, Hc. }
  intros w ? [-> Hd]. rewrite Hd, k_clears by done. rewrite (proj2 (Z.leb_gt _ _)) by lia.
  intros s Hs.
  destruct (steps_async_call G x b v (Passes epoch (Some k)) Hst s Hs)
    as ([] & s' & [v' e'] & Hr & [Hst' He] & Hs'). simpl in Hst', He.
  assert (steps (async_wait (cap := cap) fuel epoch) (v', e') (fun _ v' =>
    slot_state G x b v'.1 /\ v'.2 = Passes (epoch + 2) None)) as Hrest.
  { rewrite He. destruct k as [|k]; simpl; [|by apply IH; [lia|]].
    destruct fuel as [|fuel]; [lia|]. simpl.
    eapply steps_bind; [apply (steps_gets _ _ (fun w v2 => v2 = (v', e') /\
      cri_dequeue (cap := cap) w = epoch + 2))|].
    { intros s2 [_ [= Hv2 Hc2]]. subst e'. split; [by rewrite <- Hv2|]. rewrite k_deq, Hc2. done. }
    intros w2 ? [-> Hd2]. rewrite Hd2, k_clears, Z.leb_refl by done.
    apply steps_ret. by rewrite He. }
  destruct (Hrest s' Hs') as (a & s2 & v2 & Hr2 & HQ & Hs2). exists a, s2, v2.
  split; [|by split]. rewrite <- test_assoc, (test_bind _ _ _ _ _ Hr). exact Hr2.
Qed.
(** The page, the start of the pass, and its clocks. *)
Lemma steps_async_start v d : r_painted v = ∅ ->
  steps (async_start (cap := cap)) (v, Passes d None) (fun r v' =>
    let a := block_at v (page (cap := cap) (W := W)) in
    exists mb, r = (mb, d, Epochs (d + 1) d) /\
      array data_perms mb a (page (cap := cap) (W := W) / 16) /\
      slot_state {[a `div` 16]} (a + 16) a v'.1 /\
      v'.2 = Passes d (Some pass_sleeps)).
Proof.
  intros Hp. set (a := block_at v _). set (n := page (cap := cap) (W := W) / 16).
  assert (2 <= n) as Hn by (apply Z.div_le_lower_bound; pose proof k_page; lia).
  set (e := Passes d None). unfold async_start.
  eapply (steps_bind _ _ _ (fun mb v' => v' = (v, e) /\ array data_perms mb a n /\
                                         cheri_base_get mb = a)).
  { apply steps_call2. intros w [= Hv He].
    destruct (v_mmap (page (cap := cap) (W := W)) w) as (c & w' & Hr & Ha & Harr & Hb);
      [pose proof k_page; lia|].
    pose proof (k_mmap (page (cap := cap) (W := W)) w) as Hk. rewrite Hr in Hk. simpl in Hk.
    exists c, w'. rewrite Hv in *. unfold aabs. rewrite Ha, Hk, He. split_and!; try done.
    by rewrite Hb, (ar_address _ _ _ _ Harr). }
  intros mb ? (-> & Harr & Hb). pose proof (ar_address _ _ _ _ Harr) as Haddr.
  eapply (steps_bind _ _ _ (fun sh v' => v' = (v, e) /\ shadow_of sh mb)).
  { apply steps_call2. intros w [= Hv He]. destruct (k_shadow mb w) as (sh & w' & Hr & ? & Ha & Hk).
    exists sh, w'. unfold aabs. by rewrite Ha, Hk, Hv, He. }
  intros sh ? [-> Hsh]. eapply (steps_bind _ _ _ (fun _ v' => v' = (v, e))).
  { apply steps_call2. intros w [= Hv He]. destruct (v_info w) as (w' & Hr & Ha).
    pose proof (k_info w) as Hk. rewrite Hr in Hk. simpl in Hk.
    exists 0, w'. unfold aabs. by rewrite Ha, Hk, Hv, He. }
  intros _ ? ->. set (x := cheri_perms_and mb EXCEPT_VMEM).
  set (v1 := with_mem (<[a + 16 := x]> (r_mem v)) v).
  eapply (steps_bind _ _ _ (fun _ v' => v' = (v1, e))).
  { apply steps_access. intros w [= Hv He]. rewrite v_pointer.
    destruct (v_store mb 16 x n w) as (w' & Hr & Ha); [by rewrite Haddr|lia|done|].
    pose proof (k_store mb 16 x w) as Hk. rewrite Hr in Hk. simpl in Hk.
    exists tt, w'. unfold aabs. by rewrite Ha, Hk, Hv, He, Haddr. }
  intros _ ? ->. set (v2 := with_painted {[a `div` 16]} v1).
  eapply (steps_bind _ _ _ (fun _ v' => v' = (v2, e))).
  { apply steps_access. intros w [= Hv He]. destruct (k_paint sh mb w Hsh) as (w' & Hr & Hk & Ha).
    exists tt, w'. unfold aabs. rewrite Ha, Hk, Hv, He, Hb. simpl. by rewrite Hp, union_empty_l_L. }
  intros _ ? ->. eapply (steps_bind _ _ _ (fun w v' => v' = (v2, e) /\
    cri_dequeue (cap := cap) w = d)).
  { apply steps_gets. intros s [_ [= _ He]]. by rewrite k_deq, He. }
  intros w ? [-> Hd].
  eapply (steps_bind _ _ _ (fun crsi v' => crsi = Epochs (d + 1) d /\
    v' = (sweep v2, Passes d (Some pass_sleeps)))).
  { apply steps_call2. intros w0 [= Hv He]. destruct (k_call w0) as (w' & Hr & Hk).
    destruct (v_revoke flags w0) as (e' & w2 & Hr' & _ & Ha).
    rewrite Hr in Hr'. injection Hr' as _ <-. rewrite He in Hk.
    eexists _, w'. split; [exact Hr|]. rewrite k_enq, k_deq, Hk. unfold aabs.
    by rewrite Hk, Ha, Hv. }
  intros crsi ? [-> ->]. apply steps_ret. exists mb. rewrite Hd. split_and!; try done. split; [done|].
  apply (slot_sweep_live _ _ _ x); [done|apply lookup_insert_eq|].
  rewrite <- Hb. apply drop_vmem_at; apply Harr.
Qed.

(** C36: on a kernel that revokes in the background and whose pass takes
    [pass_sleeps] sleeps of the process, the loop that waits for it ends: for
    every bound from [pass_sleeps + 2] rounds on, the test passes exactly when
    the revoker takes the painted capability. *)
Theorem async_wait_ends (s : proc cap W) (fuel : nat) :
  shared s -> r_painted (rabs (p_world s)) = ∅ ->
  e_open (clock (p_world s)) = None -> Z.even (e_deq (clock (p_world s))) = true ->
  0 <= e_deq (clock (p_world s)) < 2 ^ 63 -> (pass_sleeps + 2 <= fuel)%nat ->
  let a := block_at (rabs (p_world s)) (page (cap := cap) (W := W)) in
  succeeds (ct_func (cheri_revoke_async g true fuel)) s <-> hits {[a `div` 16]} a = true.
Proof.
  intros Hs Hp Ho Hev Hd Hfuel a. set (w := p_world s) in *. set (d := e_deq (clock w)) in *.
  assert (judged (async_body (cap := cap) fuel) (rabs w, Passes d None)
            (hits {[a `div` 16]} a = true)) as Hj.
  2: { apply Hj. split; [done|]. unfold aabs. fold w. f_equal. unfold d. rewrite <- Ho.
       by destruct (clock w). }
  unfold async_body. eapply judged_bind; [by apply steps_async_start|]. fold a.
  intros r [v e] (mb & -> & Harr & Hst & He). simpl in Hst, He. subst e.
  eapply judged_bind; [apply (steps_gets _ _ (fun w' v' => v' = (v, Passes d (Some pass_sleeps)) /\
    cri_enqueue (cap := cap) w' = d + 1 /\ cri_dequeue (cap := cap) w' = d))|].
  { intros s1 [_ [= _ Hc]]. by rewrite k_enq, k_deq, Hc. }
  intros w1 ? (-> & H1 & H2). cbv zeta. rewrite H1, H2. cbn [enqueue dequeue].
  rewrite !wrapu_small, !Z.eqb_refl by lia.
  do 3 (apply judged_verify; [intros _|done]).
  eapply judged_bind; [apply (steps_wait _ _ _ d Hev fuel pass_sleeps v Hfuel Hst)|].
  intros _ [v2 e2] [Hst2 He2]. simpl in Hst2, He2. subst e2.
  eapply judged_bind; [apply (steps_gets _ _ (fun w' v' => v' = (v2, Passes (d + 2) None) /\
    cri_enqueue (cap := cap) w' = d + 2 /\ cri_dequeue (cap := cap) w' = d + 2))|].
  { intros s2 [_ [= _ Hc]]. rewrite k_enq, k_deq, Hc. unfold e_enq. simpl.
    by rewrite Z.add_0_r. }
  intros w2 ? (-> & H3 & H4). rewrite H3, H4, !Z.eqb_refl.
  do 2 (apply judged_verify; [intros _|done]).
  destruct Hst2 as [_ (c & Hc & Hh)].
  eapply (judged_bind _ _ _ (fun x v' => x = c /\ v' = (v2, Passes (d + 2) None))).
  { apply steps_access. intros w0 [= Hv Hk]. rewrite v_pointer.
    assert (2 <= page (cap := cap) (W := W) / 16) as Hn
      by (apply Z.div_le_lower_bound; pose proof k_page; lia).
    pose proof (ar_address _ _ _ _ Harr) as Haddr.
    destruct (v_load mb 16 c (page (cap := cap) (W := W) / 16) w0) as (w' & Hr & Ha);
      [by rewrite Haddr|lia|done|by rewrite Haddr, Hv|].
    pose proof (k_load mb 16 w0) as Hl. rewrite Hr in Hl. simpl in Hl.
    exists c, w'. unfold aabs. by rewrite Ha, Hl, Hv, Hk. }
  intros x ? [-> ->]. destruct (hits {[a `div` 16]} a).
  - rewrite Hh. apply judged_verify; [intros _|done]. by apply judged_success.
  - rewrite (proj1 Hh). by apply judged_verify.
Qed.
End Async.

(** ** A concrete kernel *)

Definition rev_rand (x : Z) : Z * Z :=
  let y := (x * 1103515245 + 12345) mod 2 ^ 31 in (y, y).

#[export] Instance rev_policy : RevPolicy scap := {|
  hits G x := bool_decide (x `div` 16 ∈ G);
  erased := cheri_tag_clear;
  set_base a _ := a;
  set_length _ l := u64 l;
  rand_of := rev_rand;
  block_at _ _ := 0x100000;
  nomap_base := 0;
|}.

Record rev_world := RevWorld { rw_v : rv scap; rw_e : passes }.

Definition on_v (f : rv scap -> rv scap) (w : rev_world) : rev_world :=
  RevWorld (f (rw_v w)) (rw_e w).

(** A call sweeps; an asynchronous one moves the clocks too. *)
Definition rev_revoke (flags : Z) (w : rev_world) : (epochs + Z) * rev_world :=
  let e := if Z.testbit flags 1 then async_call 3 (rw_e w) else rw_e w in
  (inl (Epochs (e_enq e) (e_deq e)), RevWorld (sweep (rw_v w)) e).


#[export] Instance rev_kernel : Kernel scap rev_world := {|
  getpagesize := 4096;
  sys_mmap _ n _ _ _ _ w :=
    (inl (SCap true 0x100000 0x100000 n (Z.lor (mask PLoad) CHERI_PERM_SW_VMEM) (-1)), w);
  sys_munmap _ _ w := (inl 0, w);
  sys_mprotect _ _ _ w := (inl 0, w);
  sys_minherit _ _ _ w := (inl 0, w);
  sys_shmget _ _ _ w := (inr 78, w);
  sys_shmat _ _ _ w := (inr 78, w);
  sys_shmdt _ w := (inr 78, w);
  sys_shm_open _ _ _ w := (inr 78, w);
  sys_shm_unlink _ w := (inl 0, w);
  sys_memfd_create _ _ w := (inr 78, w);
  sys_open _ _ w := (inr 78, w);
  sys_mkstemp t w := (inr 78, w);
  sys_unlink _ w := (inl 0, w);
  sys_ftruncate _ _ w := (inl 0, w);
  sys_close fd w := (inl 0, w);
  os_random w := (7, w);
  mem_load_cap c off w := (inl (default cap_null (r_mem (rw_v w) !! (cheri_address_get c + off))), w);
  mem_store_cap c off x w :=
    (inl tt, on_v (fun v => with_mem (<[cheri_address_get c + off := x]> (r_mem v)) v) w);
  mem_store_byte sh _ _ w :=
    (inl tt, on_v (fun v =>
       with_painted (r_painted v ∪ {[cheri_base_get sh `div` 16]}) v) w);
  stack_local size := toy_cap 0x7000 size 0 0;
|}.

#[export] Instance rev_resv : ResvOS scap rev_world := {|
  mem_load_int _ w := (inl 0, w);
  cheri_pcc_get := toy_cap 0x8000 0x1000 0 2;
  test_bufferp := toy_cap 0x9000 64 0 2;
  CHERI_ALIGN_SHIFT _ := 12;
  feature_present _ _ := true;
  sysctl_runtime_revocation_default _ := inl 1;
  sysctl_quarantine_unmapped _ := inr 2;
  cheri_revoke_get_shadow_info w := (inl 0, w);
  ENOENT := 2;
|}.

Definition rev_granules (c : scap) : gset Z := granules (cheri_base_get c) (cheri_length_get c).

#[export] Instance rev_os : RevokeOS scap rev_world := {|
  sizeof_ptr := 16;
  CHERI_REVOKE_LAST_PASS := 1; CHERI_REVOKE_IGNORE_START := 4; CHERI_REVOKE_TAKE_STATS := 8;
  CHERI_REVOKE_ASYNC := 2;
  sys_cheri_revoke flags _ := rev_revoke flags;
  sys_get_shadow_novmem c w := (inl (toy_cap (cheri_base_get c) 0x1000 0 0), w);
  cri_enqueue w := e_enq (rw_e w); cri_dequeue w := e_deq (rw_e w); cri_base_mem_nomap _ := 0;
  cheri_revoke_epoch_clears now epoch := epoch + 2 <=? now;
  caprev_shadow_nomap_set _ _ _ c w :=
    if bool_decide (rev_granules c ∩ r_painted (rw_v w) = ∅)
    then (0, on_v (fun v => with_painted (r_painted v ∪ rev_granules c) v) w) else (1, w);
  caprev_shadow_nomap_clear _ _ c :=
    on_v (fun v => with_painted (r_painted v ∖ rev_granules c) v);
  dump_shadow what _ _ _ _ := what;
  os_srand x := on_v (with_seed x);
  os_rand w := let r := rev_rand (r_seed (rw_v w)) in (r.1, on_v (with_seed r.2) w);
  os_usleep _ w := RevWorld (rw_v w) (async_sleep (rw_e w));
|}.

#[export] Instance rev_fork : ForkOS rev_world := {|
  sys_fork _ w := (inl 42, w); as_child w := w; as_parent w := w;
|}.

#[export] Instance rev_rules : RevRules scap rev_world.
Proof.
  refine {| rabs := rw_v; data_perms p := flag_set p (mask PLoad); is_shadow _ := True |};
    try done; try (intros; by eexists); try (intros; by eexists _, _).
  - intros c l Ht Hs Hl Hb Htop d. simpl in *.
    pose proof (wrapu_range 64 (sc_len c)). pose proof (wrapu_range 64 (sc_base c)).
    assert (0 <= l < 2 ^ 64) as Hr by lia.
    rewrite Ht, (proj2 (Z.leb_le _ _) Hb), (proj2 (Z.leb_le _ _) Htop).
    rewrite (wrapu_small 64 l Hr). split_and!; try done; lia.
  - intros x. simpl. apply Z.mod_pos_bound. lia.
  - intros n w Hn. eexists _, w. split; [reflexivity|]. split; [done|]. split; [|done].
    pose proof (Z.mul_div_le n 16 ltac:(lia)). pose proof (Z.div_pos n 16 ltac:(lia) ltac:(lia)).
    split; try done; simpl; rewrite ?wrapu_small by lia; try lia.
  - intros c off x n w _ _ _ Hx. exists w. simpl in *. by rewrite Hx.
  - intros sh c w new _ Hd r. simpl in *. unfold r, rev_granules. simpl. fold new.
    rewrite bool_decide_eq_true_2; [done|]. by apply disjoint_intersection_L.
Defined.

Definition rev_proc : proc scap rev_world :=
  Proc (Some child_state_zero) 0 ∅ "" "" 0 (RevWorld (Rv ∅ ∅ 0) (Passes 0 None)).

Lemma rev_exact ch : 0 <= ch.1 /\ 0 < ch.2 /\ ch.1 + ch.2 <= BIGBLOCK_CAPS ->
  exact 0x100000 BIGBLOCK_CAPS ch = true.
Proof.
  apply precise_exact; [done| |done]. unfold BIGBLOCK_CAPS. intros x l Hl.
  split; [done|]. apply wrapu_small. lia.
Qed.

Lemma revoke_lib_verdict_witness :
  succeeds (ct_func (cheri_revoke_lib toy_freebsd true)) rev_proc /\
  succeeds (ct_func (cheri_revoke_lib_fork toy_freebsd true)) rev_proc /\
  succeeds (ct_func (cheri_revoke_lib_fork_split toy_freebsd true)) rev_proc.
Proof.
  destruct (revoke_lib_verdict (RR := rev_rules) toy_freebsd rev_proc) as (H1 & H2 & H3);
    [by eexists|done|].
  assert (forallb (exact 0x100000 BIGBLOCK_CAPS) (lib_sweeps (cap := scap) 1337) = true) as Hl.
  { unfold lib_sweeps. pose proof (precise_walk 0x100000 BIGBLOCK_CAPS 1337 rev_exact) as Hw.
    destruct (walk BIGBLOCK_CAPS 1337) as [l1 seed].
    cbn [fst] in Hw. rewrite forallb_app, Hw. apply precise_walk, rev_exact. }
  split; [by apply H1|]. split; [by apply H2|]. apply H3, rev_exact. clear. unfold BIGBLOCK_CAPS. simpl. lia.
Defined.

#[export] Instance rev_async : AsyncRules (cap := scap) (W := rev_world).
Proof.
  refine {| clock := rw_e; pass_sleeps := 3;
            shadow_of sh c := cheri_base_get sh = cheri_base_get c |}; try done.
  - intros c w. eexists _, w. split; [reflexivity|]. split; [|done]. simpl.
    by rewrite wrapu_idemp.
  - intros sh c w Hsh. eexists. split; [reflexivity|]. split; [done|]. simpl in *. by rewrite Hsh.
  - intros w. exists (RevWorld (sweep (rw_v w)) (async_call 3 (rw_e w))). split; reflexivity.
Defined.

Lemma async_wait_ends_witness :
  succeeds (ct_func (cheri_revoke_async toy_freebsd true 5)) rev_proc.
Proof.
  apply (async_wait_ends (AR := rev_async) toy_freebsd rev_proc 5); try done; try by eexists.
Defined.
