(* ===== verification/Sealing.v ===== *)
(** * Sealing: sealed capabilities, identifiers and sentries

    The tests of cheriostest_sealcap.c (the kernel's capability to seal with,
    and what sealing and unsealing with it does), of cheriostest_cidcap.c
    (compartment identifiers), of cheriostest_sentries.c (function pointers) and
    the two tests of cheriostest_fault.c that seal without the permission.

    [SealLaws] is the documented behaviour of the two instructions on a machine
    that clears tags; [sealing_verdict] says what the tests accept of the
    kernel's capability. *)

From S2P Require Import Prelude Printf Cheri Perms Harness Runner Toy Registers RunnerFacts Faults Kernel VmTags Mappings Reservations Judge Revocation.

(** What the tests get from the system. *)
Class SealOS (cap W : Type) := {
  sysctl_sealcap : W -> (cap + Z) * W;              (* security.cheri.sealcap *)
  getauxptr_sealcap : cap;                          (* AT_CHERI_SEAL_CAP *)
  sysctl_cidcap : W -> (cap + Z) * W;               (* security.cheri.cidcap *)
  cheri_cidcap_alloc : W -> (cap + Z) * W;
  sealdata : cap;                                   (* [&sealdata] *)
  uccsr_tag_clearing : bool;                        (* csr_read(uccsr) & SCCSR_TAG_CLEARING *)
  SI_LWP : Z;                                       (* the code of raise(3) *)
  sleep_pointer : cap;                              (* [sleep] *)
  static_sleep_pointer : cap;                       (* its value in a static object *)
  os_dlopen : string -> W -> option Z * W;
  os_dlerror : W -> string;
  os_dlsym : Z -> string -> W -> option cap * W;
  LIBM_PATH : string;                               (* where libm is *)
  CHERI_COMPARTMENT_ID_USERSPACE_BASE : Z;
  CHERI_COMPARTMENT_ID_USERSPACE_LENGTH : Z;
  CHERI_COMPARTMENT_ID_USERSPACE_OFFSET : Z;
  CHERI_COMPARTMENT_ID_USERSPACE_PERMS : Z;
}.

Section Sealing.
Context {cap W : Type} {CH : Cheri cap} {LC : Libc cap W} {KE : Kernel cap W} {HP : Perms}
  {SE : SealOS cap W}.
Context (g : config).

(** [if (v != e) failure(msg, v, e)] *)
Definition expect_eq (msg : string) (v e : Z) : test cap W unit :=
  fail_if (negb (v =? e)) msg [AInt v; AInt e].

Definition sealed_int (c : cap) : Z := if cheri_is_sealed c then 1 else 0.

(** ** cheriostest_sealcap.c *)

Definition get_sealcap : test cap W cap :=
  if is_linux g then
    let sealcap := ptr_add (getauxptr_sealcap (W := W)) (CHERITEST_CHERI_OTYPE_USER_MIN g) in
    when (negb (cheri_tag_get sealcap)) (cheriostest_failure_err "getauxptr failed" []) ;;
    mret sealcap
  else
    CHERIOSTEST_CHECK_SYSCALL (sys (sysctl_sealcap (cap := cap)))
      "sysctlbyname(security.cheri.sealcap, &sealcap, &sealcap_size, NULL, 0)".

(** The permissions that must, or must not, be there. *)
Definition check_sealcap_perms (v : Z) : test cap W unit :=
  expect_eq "perms %jx (expected %jx)" v (CHERITEST_CHERI_SEALCAP_USERSPACE_PERMS g) ;;
  perm_required v (mask PGlobal) "global" ;;
  perm_forbidden v (mask PExecute) "execute" ;;
  perm_forbidden v (mask PLoad) "load" ;;
  perm_forbidden v (mask PStore) "store" ;;
  when (HAS_CHERI_PERM_LOAD_STORE_CAP g)
    (perm_forbidden v (mask PLoadCap) "loadcap" ;;
     perm_forbidden v (mask PStoreCap) "storecap") ;;
  when (HAS_CHERI_PERM_CAP g)
    (fail_if (negb (Z.land v (mask PCap) =? 0)) "perms %jx (cap permission present)" [AInt v]) ;;
  perm_forbidden v (mask PStoreLocalCap) "store_local_cap" ;;
  perm_required v (mask PSeal) "seal" ;;
  perm_forbidden v (mask PInvoke) "invoke" ;;
  perm_required v (mask PUnseal) "unseal" ;;
  perm_forbidden v (mask PSystemRegs) "system_regs" ;;
  when (is_aarch64 g) (perm_forbidden v (mask PExecutive) "executive") ;;
  when (HAS_CHERI_PERM_LOAD_MUTABLE g) (perm_forbidden v (mask PLoadMutable) "mutable_load") ;;
  perm_forbidden v (CHERITEST_CHERI_PERMS_SWALL g) "swperms".

Definition sealcap_sysctl : cheri_test cap W :=
  CHERIOSTEST "sealcap_sysctl" "Retrieve sealcap using sysctl(3)"
    (sealcap ← get_sealcap;
     expect_eq "base %jx (expected %jx)" (cheri_base_get sealcap)
       (CHERITEST_CHERI_SEALCAP_USERSPACE_BASE g) ;;
     expect_eq "length 0x%jx (expected 0x%jx)" (cheri_length_get sealcap)
       (CHERITEST_CHERI_SEALCAP_USERSPACE_LENGTH g) ;;
     expect_eq "offset %jx (expected %jx)" (cheri_offset_get sealcap)
       CHERITEST_CHERI_SEALCAP_USERSPACE_OFFSET ;;
     expect_eq "otype %jx (expected %jx)" (cheri_type_get sealcap)
       (CHERI_OTYPE_UNSEALED (cap := cap)) ;;
     check_sealcap_perms (cheri_perms_get sealcap) ;;
     check_sealed_bit sealcap ;;
     check_tag_bit sealcap ;;
     cheriostest_success_with_warn
       "The design of the API for getting sealer capabilities is insecure").

(** Base, length and offset are those of the data. *)
Definition check_like_data (c : cap) : test cap W unit :=
  let sealdatap := sealdata (W := W) in
  expect_eq "base %jx (expected %jx)" (cheri_base_get c) (cheri_base_get sealdatap) ;;
  expect_eq "length 0x%jx (expected 0x%jx)" (cheri_length_get c)
    (cheri_length_get sealdatap) ;;
  expect_eq "offset %jx (expected %jx)" (cheri_offset_get c) (cheri_offset_get sealdatap).

Definition check_data_perm_bits (c : cap) : test cap W unit :=
  expect_eq "perms %jx (expected %jx)" (cheri_perms_get c)
    (cheri_perms_get (sealdata (W := W))).

Definition sealcap_seal : cheri_test cap W :=
  CHERIOSTEST "sealcap_seal" "Use sealcap to seal a capability"
    (sealcap ← get_sealcap;
     let sealed := cheri_seal (sealdata (W := W)) sealcap in
     check_like_data sealed ;;
     expect_eq "otype %jx (expected %jx)" (cheri_type_get sealed) (cheri_address_get sealcap) ;;
     fail_if (negb (sealed_int sealed =? 1)) "sealed %jx (expected 0)"
       [AInt (sealed_int sealed)] ;;
     check_tag_bit sealed ;;
     check_data_perm_bits sealed ;;
     cheriostest_success).

Definition sealcap_seal_unseal : cheri_test cap W :=
  CHERIOSTEST "sealcap_seal_unseal" "Use sealcap to seal and unseal a capability"
    (sealcap ← get_sealcap;
     let sealed := cheri_seal (sealdata (W := W)) sealcap in
     let unsealed := cheri_unseal sealed sealcap in
     check_like_data unsealed ;;
     expect_eq "otype %jx (expected %jx)" (cheri_type_get unsealed)
       (CHERI_OTYPE_UNSEALED (cap := cap)) ;;
     check_sealed_bit unsealed ;;
     check_tag_bit unsealed ;;
     check_data_perm_bits unsealed ;;
     cheriostest_success).

(** ** The tests of cheriostest_fault.c *)

Definition CHERI_SEAL_VIOLATION_EXCEPTION : bool := negb (is_aarch64 g).

Definition CT_SEAL_VIOLATION_EXCEPTION (t : cheri_test cap W) : cheri_test cap W :=
  if CHERI_SEAL_VIOLATION_EXCEPTION
  then with_signal CT_FLAG_SIGNAL (SIGPROT (cap := cap) (W := W)) 0 0 t else t.

(** The end of both tests, with what came of the operation. *)
Definition refused_or_fail (r : cap) (msg : string) (ap : list (arg cap)) : test cap W unit :=
  when (negb (cheri_tag_get r))
    (when (CHERI_SEAL_VIOLATION_EXCEPTION && uccsr_tag_clearing (cap := cap) (W := W))
       (raise_fault (Siginfo (SIGPROT (cap := cap) (W := W)) (SI_LWP (cap := cap) (W := W)) 0 cap_null)) ;;
     cheriostest_success) ;;
  cheriostest_failure_errx msg ap.

Definition sysctl_or_aux (linux_refuses : cap -> bool) : test cap W cap :=
  if is_linux g then
    let sealcap := ptr_add (getauxptr_sealcap (W := W)) 1 in
    when (linux_refuses sealcap) (cheriostest_failure_err "getauxptr failed" []) ;;
    mret sealcap
  else
    r ← try_sys (sysctl_sealcap (cap := cap));
    match r with
    | Some sealcap => mret sealcap
    | None => cheriostest_failure_err "sysctlbyname(security.cheri.sealcap)" []
    end.

Definition illegal_perm_seal : cheri_test cap W :=
  CT_SEAL_VIOLATION_EXCEPTION
    (CHERIOSTEST "illegal_perm_seal" "Exercise capability seal permission failure"
      (let ip := stack_local (cap := cap) (W := W) 4 in
       sealcap ← sysctl_or_aux (fun c => negb (cheri_tag_get c) ||
                                         (Z.land (cheri_perms_get c) (mask PSeal) =? 0));
       let sealcap := cheri_perms_and sealcap (Z.lnot (mask PSeal)) in
       let sealed := cheri_seal ip sealcap in
       refused_or_fail sealed "cheri_seal() performed successfully %#lp with bad sealcap %#lp"
         [APtr sealed; APtr sealcap])).

Definition illegal_perm_unseal : cheri_test cap W :=
  CT_SEAL_VIOLATION_EXCEPTION
    (CHERIOSTEST "illegal_perm_unseal" "Exercise capability unseal permission failure"
      (let ip := stack_local (cap := cap) (W := W) 4 in
       sealcap ← sysctl_or_aux (fun c => negb (cheri_tag_get c));
       fail_if (Z.land (cheri_perms_get sealcap) (mask PSeal) =? 0)
         "unexpected !seal perm on sealcap" [] ;;
       let sealed := cheri_seal ip sealcap in
       let sealcap := cheri_perms_and sealcap (Z.lnot (mask PUnseal)) in
       let unsealed := cheri_unseal sealed sealcap in
       refused_or_fail unsealed
         "cheri_unseal() performed successfully %#lp with bad unsealcap %#lp"
         [APtr unsealed; APtr sealcap])).

(** ** cheriostest_cidcap.c *)

(** [base]: [None] for [(size_t)-1], any base. *)
Definition check_cidcap (cidcap : cap) (base : option Z) (length offset : Z)
    : test cap W unit :=
  match base with
  | Some base => expect_eq "base %jx (expected %jx)" (cheri_base_get cidcap) base
  | None => mret tt
  end ;;
  expect_eq "length 0x%jx (expected 0x%jx)" (cheri_length_get cidcap) length ;;
  expect_eq "offset %jx (expected %jx)" (cheri_offset_get cidcap) offset ;;
  expect_eq "otype %jx (expected %jx)" (cheri_type_get cidcap)
    (CHERI_OTYPE_UNSEALED (cap := cap)) ;;
  expect_eq "perms %jx (expected %jx)" (cheri_perms_get cidcap)
    (CHERI_COMPARTMENT_ID_USERSPACE_PERMS (cap := cap) (W := W)) ;;
  check_sealed_bit cidcap ;;
  check_tag_bit cidcap.

Definition get_cidcap_sysctl : test cap W cap :=
  CHERIOSTEST_CHECK_SYSCALL (sys (sysctl_cidcap (cap := cap)))
    "sysctlbyname(security.cheri.cidcap, &cidcap, &cidcap_size, NULL, 0)".

Definition cidcap_sysctl : cheri_test cap W :=
  CHERIOSTEST "cidcap_sysctl" "Retrieve cidcap using sysctl(3)"
    (cidcap ← get_cidcap_sysctl;
     check_cidcap cidcap (Some (CHERI_COMPARTMENT_ID_USERSPACE_BASE (cap := cap) (W := W)))
       (CHERI_COMPARTMENT_ID_USERSPACE_LENGTH (cap := cap) (W := W))
       (CHERI_COMPARTMENT_ID_USERSPACE_OFFSET (cap := cap) (W := W)) ;;
     cheriostest_success).

(** [cidcap1 != cidcap2] compares addresses. *)
Definition cidcap_alloc : cheri_test cap W :=
  let t := CHERIOSTEST "cidcap_alloc" "Retrieve cidcap using cheri_cidcap_alloc(2)" in
  if is_linux g then
    with_xfail (Some "Not supported"%string)
      (t (cheriostest_failure_errx "Linux on Morello does not use compartment IDs" []))
  else
    t (cidcap1 ← CHERIOSTEST_CHECK_SYSCALL (sys (cheri_cidcap_alloc (cap := cap)))
                   "cheri_cidcap_alloc(&cidcap1)";
       check_cidcap cidcap1 (Some 1) 1 0 ;;
       cidcap2 ← CHERIOSTEST_CHECK_SYSCALL (sys (cheri_cidcap_alloc (cap := cap)))
                   "cheri_cidcap_alloc(&cidcap2)";
       check_cidcap cidcap2 (Some 2) 1 0 ;;
       CHERIOSTEST_VERIFY (negb (cheri_address_get cidcap1 =? cheri_address_get cidcap2))
         "cidcap1 != cidcap2" ;;
       cheriostest_success).

(** ** cheriostest_sentries.c *)

Definition check_fptr (fptr : cap) : test cap W unit :=
  let perms := cheri_perms_get fptr in
  CHERIOSTEST_VERIFY (cheri_tag_get fptr) "cheri_tag_get((void *)fptr)" ;;
  CHERIOSTEST_VERIFY2 (Z.land perms (mask PExecute) =? mask PExecute)
    "perms %jx (execute missing)" [AInt perms] ;;
  CHERIOSTEST_VERIFY2 (Z.land perms (mask PStore) =? 0) "perms %jx (store present)"
    [AInt perms] ;;
  when (HAS_CHERI_PERM_LOAD_STORE_CAP g)
    (CHERIOSTEST_VERIFY2 (Z.land perms (mask PStoreCap) =? 0)
       "perms %jx (storecap present)" [AInt perms]) ;;
  when (HAS_CHERI_PERM_CAP g)
    (CHERIOSTEST_VERIFY2 (negb (Z.land perms (mask PCap) =? 0))
       "perms %jx (cap present)" [AInt perms]) ;;
  CHERIOSTEST_VERIFY2 (Z.land perms (mask PStoreLocalCap) =? 0)
    "perms %jx (store_local_cap present)" [AInt perms] ;;
  CHERIOSTEST_VERIFY2 (cheri_type_get fptr =? CHERI_OTYPE_SENTRY (cap := cap))
    "otype %jx (expected %jx)"
    [AInt (cheri_type_get fptr); AInt (CHERI_OTYPE_SENTRY (cap := cap))] ;;
  cheriostest_success.

(** On Linux for RISC-V. *)
Definition otype_sentry_definition : cheri_test cap W :=
  CHERIOSTEST "otype_sentry_definition" "Check the definition of the CHERI_OTYPE_SENTRY"
    (CHERIOSTEST_VERIFY2 (CHERI_OTYPE_SENTRY (cap := cap) =? 1)
       "CHERI_OTYPE_SENTRY is not 1" [] ;;
     cheriostest_success).

Definition sentry_dlsym : cheri_test cap W :=
  CHERIOSTEST "sentry_dlsym" "Check that a function pointer obtained via dlsym is a sentry"
    (let lib_so := if is_linux g then "/lib/libxo.so"%string
                   else LIBM_PATH (cap := cap) (W := W) in
     let symbol := if is_linux g then "xo_write"%string else "acos"%string in
     handle ← libcall (os_dlopen (cap := cap) lib_so);
     match handle with
     | None =>
         w ← gets p_world;
         cheriostest_failure_errx "dlopen(%s) %s"
           [AStr lib_so; AStr (os_dlerror (cap := cap) w)]
     | Some handle =>
         fptr ← libcall (os_dlsym handle symbol);
         match fptr with
         | None => cheriostest_failure_err ("dlsym(" +:+ symbol +:+ ")") []
         | Some fptr => check_fptr fptr
         end
     end).

Definition sentry_libc : cheri_test cap W :=
  CHERIOSTEST "sentry_libc" "Check that a function pointer from libc is a sentry"
    (check_fptr (sleep_pointer (W := W))).

Definition sentry_static : cheri_test cap W :=
  CHERIOSTEST "sentry_static"
    "Check that a statically initialized function pointer is a sentry"
    (check_fptr (static_sleep_pointer (W := W))).
End Sealing.

(** ** Sealing and unsealing *)

Section Laws.
Context {cap : Type} {CH : Cheri cap} {HP : Perms}.

Definition same_place (c d : cap) : Prop :=
  cheri_base_get c = cheri_base_get d /\ cheri_length_get c = cheri_length_get d /\
  cheri_offset_get c = cheri_offset_get d.

Definition usable (c : cap) : bool := cheri_tag_get c && negb (cheri_is_sealed c).

Definition has_perm (c : cap) (p : perm) : bool := flag_set (cheri_perms_get c) (mask p).

(** The permissions of [c] once [s] has unsealed it: a sealer that is not global
    takes the global permission away. *)
Definition unsealed_perms (c s : cap) : Z :=
  if has_perm s PGlobal then cheri_perms_get c
  else Z.land (cheri_perms_get c) (Z.lnot (mask PGlobal)).

(** The ISA: [s] must be usable, have the permission, and point within its
    bounds at a type that can be given. *)
Class SealLaws := {
  valid_otype : Z -> bool;
  authority (p : perm) (s : cap) : bool :=
    usable s && has_perm s p && (cheri_base_get s <=? cheri_address_get s) &&
    (cheri_address_get s <? cheri_base_get s + cheri_length_get s) &&
    valid_otype (cheri_address_get s);
  seal_ok c s : authority PSeal s = true -> usable c = true ->
    let d := cheri_seal c s in
    cheri_tag_get d = true /\ cheri_is_sealed d = true /\
    cheri_type_get d = cheri_address_get s /\ same_place d c /\
    cheri_perms_get d = cheri_perms_get c;
  seal_refused c s : authority PSeal s = false -> cheri_tag_get (cheri_seal c s) = false;
  unseal_ok c s : authority PUnseal s = true ->
    cheri_tag_get c = true -> cheri_is_sealed c = true ->
    cheri_type_get c = cheri_address_get s ->
    let d := cheri_unseal c s in
    cheri_tag_get d = true /\ cheri_is_sealed d = false /\
    cheri_type_get d = CHERI_OTYPE_UNSEALED (cap := cap) /\ same_place d c /\
    cheri_perms_get d = unsealed_perms c s;
  unseal_refused c s : authority PUnseal s && cheri_tag_get c = false ->
    cheri_tag_get (cheri_unseal c s) = false;
  perms_dropped (c : cap) p :
    has_perm (cheri_perms_and c (Z.lnot (mask p))) p = false;
}.
End Laws.
Arguments SealLaws cap {_ _}.

Section Facts.
Context {cap W : Type} {CH : Cheri cap} {LC : Libc cap W} {KE : Kernel cap W} {HP : Perms}
  {SE : SealOS cap W} {SL : SealLaws cap}.
Context (g : config).

(** The capability that the tests of sealing work with, if the system gives one. *)
Definition sealcap_of (w : W) : option cap :=
  if is_linux g then
    let c := ptr_add (getauxptr_sealcap (W := W)) (CHERITEST_CHERI_OTYPE_USER_MIN g) in
    if cheri_tag_get c then Some c else None
  else match (sysctl_sealcap (cap := cap) w).1 with inl c => Some c | inr _ => None end.

(** And the one of the two tests of refused operations. *)
Definition refused_cap_of (linux_refuses : cap -> bool) (w : W) : option cap :=
  if is_linux g then
    let c := ptr_add (getauxptr_sealcap (W := W)) 1 in
    if linux_refuses c then None else Some c
  else match (sysctl_sealcap (cap := cap) w).1 with inl c => Some c | inr _ => None end.

Lemma failure_err_prefix {A B} msg ap (k : A -> test cap W B) s :
  ~ succeeds (cheriostest_failure_err (A := A) msg ap ≫= k) s.
Proof.
  intros H. apply (not_succeeds_failure_err (A := B) msg ap s). revert H.
  unfold succeeds, cheriostest_failure_err, mbind, eff_bind, gets, exit.
  by destruct (vcheriostest_failure_errc _ _ _ s) as [[] ?].
Qed.

(** [m] gives the capability that [f] names, or does not succeed. *)
Definition acquires (m : test cap W cap) (f : W -> option cap) : Prop :=
  forall s, shared s ->
  match f (p_world s) with
  | Some c => exists s', m s = (Val c, s') /\ shared s'
  | None => forall B (k : cap -> test cap W B), ~ succeeds (m ≫= k) s
  end.

Lemma acquires_iff {B} m f (k : cap -> test cap W B) (P : cap -> Prop) s :
  acquires m f -> shared s ->
  (forall c s', shared s' -> succeeds (k c) s' <-> P c) ->
  succeeds (m ≫= k) s <-> exists c, f (p_world s) = Some c /\ P c.
Proof.
  intros Hm Hs Hk. specialize (Hm s Hs). destruct (f (p_world s)) as [c|].
  - destruct Hm as (s' & Hr & Hs'). rewrite (succeeds_bind _ _ _ _ _ Hr), Hk by done.
    split; [by exists c|by intros (d & [= <-] & ?)].
  - split; [by intros ?%Hm|by intros (? & ? & _)].
Qed.

Lemma acquires_aux (c : cap) (refuses : bool) msg :
  acquires (when refuses (cheriostest_failure_err msg []) ;; mret c)
    (fun _ => if refuses then None else Some c).
Proof.
  intros s Hs. destruct refuses; simpl.
  - intros B k H. rewrite succeeds_assoc in H. by apply failure_err_prefix in H.
  - by exists s.
Qed.

Lemma acquires_sealcap : acquires (get_sealcap g) sealcap_of.
Proof.
  unfold get_sealcap, sealcap_of, acquires. destruct (is_linux g); intros s Hs.
  - pose proof (acquires_aux (ptr_add (getauxptr_sealcap (W := W))
      (CHERITEST_CHERI_OTYPE_USER_MIN g))) as H.
    specialize (H (negb (cheri_tag_get (ptr_add (getauxptr_sealcap (W := W))
      (CHERITEST_CHERI_OTYPE_USER_MIN g)))) "getauxptr failed" s Hs).
    by destruct (cheri_tag_get _).
  - destruct (sysctl_sealcap (p_world s)) as [[c|e] w'] eqn:Hr; simpl.
    + exists (set_world w' s). split; [|done].
      unfold CHERIOSTEST_CHECK_SYSCALL, CHERIOSTEST_CHECK_SYSCALL2, sys, mbind, eff_bind.
      by rewrite Hr.
    + intros B k H. by apply (fail_check _ _ _ _ _ _ Hr) in H.
Qed.

Lemma acquires_refused f : acquires (sysctl_or_aux g f) (refused_cap_of f).
Proof.
  unfold sysctl_or_aux, refused_cap_of, acquires. destruct (is_linux g); intros s Hs.
  - by apply acquires_aux.
  - destruct (sysctl_sealcap (p_world s)) as [r w'] eqn:Hr.
    pose proof (try_sys_run _ s _ _ Hr) as Ht. destruct r as [c|e]; simpl.
    + exists (set_world w' s). split; [|done]. by rewrite (test_bind _ _ _ _ _ Ht).
    + intros B k H. rewrite succeeds_assoc, (succeeds_bind _ _ _ _ _ Ht) in H.
      by apply failure_err_prefix in H.
Qed.

(** *** The checks *)

Lemma same_place_refl (c : cap) : same_place c c.
Proof. done. Qed.

Lemma authority_usable p s : authority p s = true -> usable s = true /\ has_perm s p = true.
Proof. unfold authority. rewrite !andb_true_iff. tauto. Qed.

Lemma eqb_same a b : a = b -> (a =? b) = true.
Proof. by intros ->; rewrite Z.eqb_refl. Qed.

(** What the checks of [sealcap_seal] see. *)
Lemma seal_checks (c : cap) (s : proc cap W) : shared s -> usable (sealdata (W := W)) = true ->
  succeeds (let sealed := cheri_seal (sealdata (W := W)) c in
     check_like_data (W := W) sealed ;;
     expect_eq "otype %jx (expected %jx)" (cheri_type_get sealed) (cheri_address_get c) ;;
     fail_if (negb (sealed_int sealed =? 1)) "sealed %jx (expected 0)"
       [AInt (sealed_int sealed)] ;;
     check_tag_bit sealed ;;
     check_data_perm_bits sealed ;;
     cheriostest_success (A := unit)) s <-> authority PSeal c = true.
Proof.
  intros Hs Hu. cbv zeta. set (d := cheri_seal _ _).
  unfold check_like_data, expect_eq, check_tag_bit, check_data_perm_bits.
  do 5 rewrite (succeeds_checks _ _ _ s _ Hs).
  pose proof (succeeds_success (A := unit) s Hs).
  destruct (authority PSeal c) eqn:Ha.
  - destruct (seal_ok _ c Ha Hu) as (T & S & Ty & (B & L & O) & P). fold d in T, S, Ty, B, L, O, P.
    unfold sealed_int, tag_int. rewrite T, S, !eqb_same by done. done.
  - pose proof (seal_refused (sealdata (W := W)) c Ha) as T. fold d in T. rewrite T.
    split; [|done]. intros (_ & _ & _ & Ht & _). done.
Qed.

Lemma unseal_checks (c : cap) (s : proc cap W) : shared s -> usable (sealdata (W := W)) = true ->
  succeeds (let sealed := cheri_seal (sealdata (W := W)) c in
     let unsealed := cheri_unseal sealed c in
     check_like_data (W := W) unsealed ;;
     expect_eq "otype %jx (expected %jx)" (cheri_type_get unsealed)
       (CHERI_OTYPE_UNSEALED (cap := cap)) ;;
     check_sealed_bit unsealed ;;
     check_tag_bit unsealed ;;
     check_data_perm_bits unsealed ;;
     cheriostest_success (A := unit)) s <->
  authority PSeal c = true /\ authority PUnseal c = true /\
  unsealed_perms (sealdata (W := W)) c = cheri_perms_get (sealdata (W := W)).
Proof.
  intros Hs Hu. cbv zeta. set (d := cheri_seal _ _). set (u := cheri_unseal _ _).
  unfold check_like_data, expect_eq, check_sealed_bit, check_tag_bit, check_data_perm_bits.
  do 5 rewrite (succeeds_checks _ _ _ s _ Hs).
  pose proof (succeeds_success (A := unit) s Hs) as Hok.
  destruct (authority PUnseal c && cheri_tag_get d) eqn:Ha.
  - apply andb_true_iff in Ha as [Ha Ht].
    destruct (authority PSeal c) eqn:Hseal.
    2: { pose proof (seal_refused (sealdata (W := W)) c Hseal) as T. fold d in T. congruence. }
    destruct (seal_ok _ c Hseal Hu) as (_ & S & Ty & (B & L & O) & P). fold d in S, Ty, B, L, O, P.
    destruct (unseal_ok d c Ha Ht S Ty) as (T' & S' & Ty' & (B' & L' & O') & P').
    fold u in T', S', Ty', B', L', O', P'.
    assert (cheri_perms_get u = unsealed_perms (sealdata (W := W)) c) as ->.
    { rewrite P'. unfold unsealed_perms. by rewrite P. }
    rewrite T', S', (eqb_same (cheri_base_get u)), (eqb_same (cheri_length_get u)),
      (eqb_same (cheri_offset_get u)), (eqb_same (cheri_type_get u)) by congruence.
    cbn [app forallb chk_ok negb andb]. rewrite andb_true_r, negb_involutive, Z.eqb_eq. tauto.
  - pose proof (unseal_refused d c Ha) as T. fold u in T. rewrite T. split.
    + intros (_ & _ & _ & Ht & _). done.
    + intros (Hseal & Hun & _). destruct (seal_ok _ c Hseal Hu) as (Td & _). fold d in Td.
      by rewrite Hun, Td in Ha.
Qed.

(** Where no exception reports a violation. *)
Lemma refused_checks (r : cap) msg ap (s : proc cap W) : shared s -> is_aarch64 g = true ->
  succeeds (refused_or_fail g r msg ap) s <-> cheri_tag_get r = false.
Proof.
  intros Hs Ha. unfold refused_or_fail, CHERI_SEAL_VIOLATION_EXCEPTION. rewrite Ha. simpl.
  destruct (cheri_tag_get r); simpl.
  - split; [|done]. intros H. by apply not_succeeds_failure_errx in H.
  - split; [done|]. intros _. destruct Hs as (c & Hc & _). exists false.
    unfold cheriostest_success, with_ccsp, mret, eff_ret, mbind, eff_bind. by rewrite Hc.
Qed.

Lemma no_perm_no_authority (c : cap) p :
  authority p (cheri_perms_and c (Z.lnot (mask p))) = false.
Proof.
  destruct (authority p _) eqn:Ha; [|done].
  apply authority_usable in Ha as [_ Hp]. by rewrite perms_dropped in Hp.
Qed.

(** C37: on a machine whose seal and unseal instructions clear the tag when they
    are refused, the test of sealing passes exactly when the capability that the
    system gives has the authority to seal; the round trip passes exactly when
    it has the authority to seal and to unseal and lets the permissions through;
    on Morello, the test of a refused seal passes with any capability, and the
    test of a refused unseal with any that has the seal permission, whether or
    not the seal before it was refused too. *)
Theorem sealing_verdict (s : proc cap W) :
  shared s -> usable (sealdata (W := W)) = true ->
  (succeeds (ct_func (sealcap_seal g)) s <->
   exists c, sealcap_of (p_world s) = Some c /\ authority PSeal c = true) /\
  (succeeds (ct_func (sealcap_seal_unseal g)) s <->
   exists c, sealcap_of (p_world s) = Some c /\ authority PSeal c = true /\
     authority PUnseal c = true /\
     unsealed_perms (sealdata (W := W)) c = cheri_perms_get (sealdata (W := W))) /\
  (is_aarch64 g = true ->
   (succeeds (ct_func (illegal_perm_seal g)) s <->
    exists c, refused_cap_of (fun c => negb (cheri_tag_get c) ||
                (Z.land (cheri_perms_get c) (mask PSeal) =? 0)) (p_world s) = Some c) /\
   (succeeds (ct_func (illegal_perm_unseal g)) s <->
    exists c, refused_cap_of (fun c => negb (cheri_tag_get c)) (p_world s) = Some c /\
      has_perm c PSeal = true)).
Proof.
  intros Hs Hu. split; [|split].
  - apply (acquires_iff _ _ _ _ s acquires_sealcap Hs). intros c s' Hs'. by apply seal_checks.
  - apply (acquires_iff _ _ _ _ s acquires_sealcap Hs). intros c s' Hs'. by apply unseal_checks.
  - intros Ha. unfold illegal_perm_seal, illegal_perm_unseal, CT_SEAL_VIOLATION_EXCEPTION,
      CHERI_SEAL_VIOLATION_EXCEPTION. rewrite Ha. simpl. split.
    + rewrite (acquires_iff _ _ _ (fun _ => True) s (acquires_refused _) Hs).
      2: { intros c s' Hs'. rewrite refused_checks by done.
           split; [done|]. intros _. apply seal_refused, no_perm_no_authority. }
      naive_solver.
    + apply (acquires_iff _ _ _ _ s (acquires_refused _) Hs). intros c s' Hs'.
      rewrite (succeeds_checks _ _ _ s' _ Hs'), refused_checks by done.
      simpl. rewrite andb_true_r. split; [by intros [? _]|]. intros Hp. split; [done|].
      apply unseal_refused. by rewrite no_perm_no_authority.
Qed.

(** *** Identifiers and sentries *)

(** An identifier: one type, at [base]. *)
Definition identifier (c : cap) (base length offset : Z) : Prop :=
  cheri_base_get c = base /\ cheri_length_get c = length /\ cheri_offset_get c = offset /\
  cheri_type_get c = CHERI_OTYPE_UNSEALED (cap := cap) /\
  cheri_perms_get c = CHERI_COMPARTMENT_ID_USERSPACE_PERMS (cap := cap) (W := W) /\
  usable c = true.

Lemma check_cidcap_iff {B} c base length offset (k : test cap W B) s : shared s ->
  succeeds (check_cidcap c (Some base) length offset ;; k) s <->
  identifier c base length offset /\ succeeds k s.
Proof.
  intros Hs. unfold check_cidcap, expect_eq, check_sealed_bit, check_tag_bit, identifier, usable.
  rewrite (succeeds_checks _ _ _ s _ Hs). cbn [app forallb chk_ok].
  rewrite !andb_true_iff, !negb_involutive, !negb_true_iff, !Z.eqb_eq. tauto.
Qed.

(** The two calls give the identifiers 1 and 2: the last comparison of the test
    adds nothing. *)
Lemma cidcap_alloc_iff (s : proc cap W) {CL : CheriLaws cap} :
  shared s -> is_linux g = false ->
  succeeds (ct_func (cidcap_alloc g)) s <->
  exists c1 w1 c2 w2, cheri_cidcap_alloc (p_world s) = (inl c1, w1) /\
    cheri_cidcap_alloc w1 = (inl c2, w2) /\ identifier c1 1 1 0 /\ identifier c2 2 1 0.
Proof.
  intros Hs Hg. unfold cidcap_alloc. rewrite Hg. simpl.
  destruct (cheri_cidcap_alloc (p_world s)) as [r1 w1] eqn:H1.
  rewrite (check_iff _ _ _ _ _ _ H1). split.
  - intros (c1 & -> & H). apply check_cidcap_iff in H as [Hc1 H]; [|done].
    destruct (cheri_cidcap_alloc w1) as [r2 w2] eqn:H2.
    rewrite (check_iff _ _ _ (set_world w1 s) _ _ H2) in H. destruct H as (c2 & -> & H).
    apply check_cidcap_iff in H as [Hc2 _]; [|done]. by exists c1, w1, c2, w2.
  - intros (c1 & w1' & c2 & w2 & [= -> <-] & H2 & Hc1 & Hc2). exists c1. split; [done|].
    apply check_cidcap_iff; [done|]. split; [done|].
    apply (check_iff _ _ _ (set_world w1 s) _ _ H2). exists c2. split; [done|].
    apply check_cidcap_iff; [done|]. split; [done|].
    rewrite (succeeds_checks _ _ _ _ _ (Hs : shared (set_world w2 (set_world w1 s)))).
    split; [|by apply succeeds_success]. cbn [forallb chk_ok]. rewrite andb_true_r, negb_true_iff.
    apply Z.eqb_neq. intros Heq.
    destruct Hc1 as (B1 & _ & O1 & _), Hc2 as (B2 & _ & O2 & _).
    rewrite offset_spec, B1 in O1. rewrite offset_spec, B2, <- Heq in O2. unfold wrapu in O1, O2.
    apply Z.mod_divide in O1 as [q1 Hq1]; [|lia]. apply Z.mod_divide in O2 as [q2 Hq2]; lia.
Qed.

(** The code capability of a function: a sentry that cannot store. *)
Definition sentry (c : cap) : Prop :=
  cheri_tag_get c = true /\ has_perm c PStore = false /\ has_perm c PStoreLocalCap = false /\
  Z.land (cheri_perms_get c) (mask PExecute) = mask PExecute /\
  (HAS_CHERI_PERM_LOAD_STORE_CAP g = true -> has_perm c PStoreCap = false) /\
  (HAS_CHERI_PERM_CAP g = true -> has_perm c PCap = true) /\
  cheri_type_get c = CHERI_OTYPE_SENTRY (cap := cap).

Lemma check_fptr_iff c (s : proc cap W) : shared s ->
  succeeds (check_fptr g c) s <-> sentry c.
Proof.
  intros Hs. unfold check_fptr, sentry, has_perm, flag_set.
  repeat rewrite (succeeds_checks _ _ _ s _ Hs).
  pose proof (succeeds_success (A := unit) s Hs).
  destruct (HAS_CHERI_PERM_LOAD_STORE_CAP g), (HAS_CHERI_PERM_CAP g); cbn [app forallb chk_ok];
    rewrite !andb_true_r, ?negb_true_iff, ?negb_false_iff, ?Z.eqb_eq, ?Z.eqb_neq; naive_solver.
Qed.
End Facts.

(** ** A concrete machine *)

Definition toy_authority (p : perm) (s : scap) : bool :=
  sc_tag s && negb (negb (sc_type s =? -1)) && flag_set (u64 (sc_perms s)) (mask p) &&
  (u64 (sc_base s) <=? u64 (sc_addr s)) &&
  (u64 (sc_addr s) <? u64 (sc_base s) + u64 (sc_len s)) && true.

Definition with_type (t : bool) (ty p : Z) (c : scap) : scap :=
  SCap t (sc_addr c) (sc_base c) (sc_len c) p ty.

(** [scap], with instructions that look at the permissions. *)
Definition sealing_cheri : Cheri scap := {|
  cheri_tag_get := sc_tag;
  cheri_address_get := cheri_address_get (Cheri := scap_cheri);
  cheri_base_get := cheri_base_get (Cheri := scap_cheri);
  cheri_length_get := cheri_length_get (Cheri := scap_cheri);
  cheri_offset_get := cheri_offset_get (Cheri := scap_cheri);
  cheri_perms_get := cheri_perms_get (Cheri := scap_cheri);
  cheri_type_get := sc_type;
  cheri_flags_get := cheri_flags_get (Cheri := scap_cheri);
  cheri_is_sealed := cheri_is_sealed (Cheri := scap_cheri);
  cheri_is_equal_exact := cheri_is_equal_exact (Cheri := scap_cheri);
  cap_of_int := cap_of_int (Cheri := scap_cheri);
  cheri_tag_clear := cheri_tag_clear (Cheri := scap_cheri);
  cheri_address_set := cheri_address_set (Cheri := scap_cheri);
  cheri_offset_set := cheri_offset_set (Cheri := scap_cheri);
  cheri_bounds_set := cheri_bounds_set (Cheri := scap_cheri);
  cheri_perms_and := cheri_perms_and (Cheri := scap_cheri);
  cheri_seal c s :=
    with_type (toy_authority PSeal s && sc_tag c && (sc_type c =? -1))
      (u64 (sc_addr s)) (sc_perms c) c;
  cheri_unseal c s :=
    with_type (toy_authority PUnseal s && sc_tag c && (sc_type c =? u64 (sc_addr s))) (-1)
      (if flag_set (u64 (sc_perms s)) (mask PGlobal) then sc_perms c
       else Z.land (u64 (sc_perms c)) (Z.lnot (mask PGlobal))) c;
  cheri_representable_length := cheri_representable_length (Cheri := scap_cheri);
  cheri_representable_alignment_mask :=
    cheri_representable_alignment_mask (Cheri := scap_cheri);
  CHERI_OTYPE_UNSEALED := -1;
  CHERI_OTYPE_SENTRY := -2;
|}.

Lemma u64_land_small p m : Z.land (u64 p) (Z.lnot m) = u64 (Z.land (u64 p) (Z.lnot m)).
Proof.
  unfold wrapu. rewrite <- !(Z.land_ones _ 64) by lia.
  apply Z.bits_inj'. intros n Hn. rewrite !Z.land_spec.
  by destruct (Z.testbit p n), (Z.testbit (Z.lnot m) n), (Z.testbit (Z.ones 64) n).
Qed.

Definition sealing_laws : SealLaws scap (CH := sealing_cheri).
Proof.
  refine {| valid_otype _ := true |}.
  - intros c s Ha Hu d. change (toy_authority PSeal s = true) in Ha.
    unfold usable in Hu. simpl in Hu. rewrite negb_involutive in Hu.
    unfold d. simpl. rewrite Ha, <- andb_assoc, Hu. split; [done|]. split; [|done].
    pose proof (wrapu_range 64 (sc_addr s)). apply negb_true_iff, Z.eqb_neq. lia.
  - intros c s Ha. change (toy_authority PSeal s = false) in Ha. simpl. by rewrite Ha.
  - intros c s Ha Ht Hs Hty d. change (toy_authority PUnseal s = true) in Ha. unfold d.
    simpl in *. rewrite Ha, Ht, Hty, Z.eqb_refl. split_and!; try done.
    unfold unsealed_perms, has_perm. simpl. destruct (flag_set _ _); [done|].
    symmetry. apply u64_land_small.
  - intros c s Ha. change (toy_authority PUnseal s && sc_tag c = false) in Ha. simpl.
    by rewrite Ha.
  - intros c p. unfold has_perm, flag_set. simpl. apply negb_false_iff, Z.eqb_eq.
    unfold wrapu. rewrite <- (Z.land_ones _ 64) by lia.
    apply Z.bits_inj'. intros n Hn. rewrite !Z.land_spec, Z.bits_0, Z.lnot_spec by done.
    destruct (Z.testbit (mask p) n); by rewrite ?andb_false_r.
Defined.

(** Object types 4 to 8191, global, to seal and to unseal. *)
Definition toy_sealcap : scap :=
  SCap true 4 4 8188 (ors [mask PGlobal; mask PSeal; mask PUnseal]) (-1).

#[export] Instance toy_seal_os : SealOS scap rev_world := {|
  sysctl_sealcap w := (inl toy_sealcap, w);
  getauxptr_sealcap := toy_sealcap;
  sysctl_cidcap w := (inr 2, w);
  cheri_cidcap_alloc w := (inr 2, w);
  sealdata := toy_cap 0x10000 4096 0 (mask PLoad);
  uccsr_tag_clearing := false;
  SI_LWP := 0x10007;
  sleep_pointer := toy_cap 0x20000 64 0 (mask PExecute);
  static_sleep_pointer := toy_cap 0x20000 64 0 (mask PExecute);
  os_dlopen _ w := (None, w);
  os_dlerror _ := "none";
  os_dlsym _ _ w := (None, w);
  LIBM_PATH := "/lib/libm.so";
  CHERI_COMPARTMENT_ID_USERSPACE_BASE := 0;
  CHERI_COMPARTMENT_ID_USERSPACE_LENGTH := 1;
  CHERI_COMPARTMENT_ID_USERSPACE_OFFSET := 0;
  CHERI_COMPARTMENT_ID_USERSPACE_PERMS := 0;
|}.

Lemma sealing_verdict_witness :
  succeeds (ct_func (sealcap_seal_unseal (CH := sealing_cheri) toy_freebsd)) rev_proc /\
  succeeds (ct_func (illegal_perm_unseal (CH := sealing_cheri) toy_freebsd)) rev_proc.
Proof.
  destruct (sealing_verdict (CH := sealing_cheri) (SL := sealing_laws) toy_freebsd rev_proc)
    as (_ & H2 & H3); [by eexists|reflexivity|].
  split.
  - apply H2. exists toy_sealcap. by split_and!.
  - apply (H3 eq_refl). by exists toy_sealcap.
Defined.
