(* ===== verification/Traps.v ===== *)
(** * Traps: accesses that must fault, and signal handlers

    The tests of cheriostest_fault.c that access memory through a capability
    that does not allow it, or through one that does, and the tests of
    cheriostest_signal.c: addresses that are not mapped (hybrid programs) and
    handlers that the test installs for a signal that it sends to itself.

    [TrapRules] is a machine that looks at the tag, the seal, the permission and
    the bounds of a capability; [trap_tests_result] carries its faults through
    the handler of the harness and the controller to the tally. *)

From S2P Require Import Prelude Printf Cheri Perms Harness Runner Toy Registers RunnerFacts Faults Kernel VmTags MmapPerms Mappings Reservations Judge Revocation.

Class TrapOS (cap W : Type) := {
  mem_load_byte : cap -> Z -> W -> (Z + siginfo cap) * W;
  ddc_load_byte : Z -> W -> (Z + siginfo cap) * W;      (* through an integer pointer *)
  ddc_store_byte : Z -> Z -> W -> (unit + siginfo cap) * W;
  branch_to : Z -> W -> (unit + siginfo cap) * W;
  static_array : cap;                                   (* [array] of the file *)
  cheri_cap_from_pointer : cap -> Z -> cap;
  PROT_CHERI_PERM : Z;
  header_SEGV_CAPPERMERR : option Z;
  SEGV_MAPERR : Z;
  TRAPNO_LOAD_PF : Z;
  TRAPNO_EXEC_PF : Z;
  VM_MIN_KERNEL_ADDRESS : Z;
}.

(** ** cheriostest_fault.c *)

Section Faults.
Context {cap W : Type} {CH : Cheri cap} {LC : Libc cap W} {KE : Kernel cap W} {VC : VmConsts}
  {HP : Perms} {VA : Varargs cap W} {TR : TrapOS cap W}.
Context (g : config).

Definition cheri_ptrperm (ptr : cap) (len perm : Z) : cap :=
  cheri_perms_and (cheri_ptr ptr len) (Z.lor perm (mask PGlobal)).

Definition SEGV_CAPPERMERR : Z :=
  default 13 (header_SEGV_CAPPERMERR (cap := cap) (W := W)).
Definition SEGV_CAPPERMERR_DEF_MISSING : bool :=
  def_missing g (header_SEGV_CAPPERMERR (cap := cap) (W := W)).

Definition ARRAY_LEN : Z := 2.
Abbreviation array := (static_array (W := W)).

(** What the descriptions of the four tests have in common. *)
Definition trap_test (name desc : string) (freebsd_code linux_code : Z)
    (body : test cap W unit) : cheri_test cap W :=
  let t := CHERIOSTEST name desc body in
  if is_freebsd g then
    with_signal (Z.lor (Z.lor CT_FLAG_SIGNAL CT_FLAG_SI_CODE) CT_FLAG_SI_TRAPNO)
      (SIGPROT (cap := cap) (W := W)) freebsd_code (TRAPNO_LOAD_STORE (cap := cap) (W := W)) t
  else
    with_signal (Z.lor CT_FLAG_SIGNAL CT_FLAG_SI_CODE)
      (SIGSEGV (cap := cap) (W := W)) linux_code 0 t.

Definition fault_bounds : cheri_test cap W :=
  trap_test "fault_bounds" "Exercise capability bounds check failure"
    (PROT_CHERI_BOUNDS (cap := cap) (W := W)) (SEGV_CAPBOUNDSERR (cap := cap) (W := W))
    (when (SEGV_CAPBOUNDSERR_DEF_MISSING (cap := cap) (W := W) g)
       (cheriostest_failure_errx "SEGV_CAPBOUNDSERR is not defined" []) ;;
     let arrayp := cheri_ptr array ARRAY_LEN in
     foreach (seqZ 0 ARRAY_LEN) (fun i => access (mem_store_byte arrayp i 0)) ;;
     access (mem_store_byte arrayp ARRAY_LEN 0) ;;
     cheriostest_failure_errx "out of bounds access did not fault" []).

Definition fault_perm_load : cheri_test cap W :=
  trap_test "fault_perm_load" "Exercise capability load permission failure"
    (PROT_CHERI_PERM (cap := cap) (W := W)) SEGV_CAPPERMERR
    (when SEGV_CAPPERMERR_DEF_MISSING
       (cheriostest_failure_errx "SEGV_CAPPERMERR is not defined" []) ;;
     let arrayp := cheri_ptrperm array ARRAY_LEN 0 in
     _ ← access (mem_load_byte arrayp 0);
     cheriostest_failure_errx "access without required permissions did not fault" []).

Definition nofault_perm_load : cheri_test cap W :=
  CHERIOSTEST "nofault_perm_load" "Exercise capability load permission success"
    (let arrayp := cheri_ptrperm array ARRAY_LEN (mask PLoad) in
     _ ← access (mem_load_byte arrayp 0);
     cheriostest_success).

(** [sink], a static char, is still zero. *)
Definition fault_perm_store : cheri_test cap W :=
  trap_test "fault_perm_store" "Exercise capability store permission failure"
    (PROT_CHERI_PERM (cap := cap) (W := W)) SEGV_CAPPERMERR
    (when SEGV_CAPPERMERR_DEF_MISSING
       (cheriostest_failure_errx "SEGV_CAPPERMERR is not defined" []) ;;
     let arrayp := cheri_ptrperm array ARRAY_LEN 0 in
     access (mem_store_byte arrayp 0 0)).

Definition nofault_perm_store : cheri_test cap W :=
  CHERIOSTEST "nofault_perm_store" "Exercise capability store permission success"
    (let arrayp := cheri_ptrperm array ARRAY_LEN (mask PStore) in
     access (mem_store_byte arrayp 0 0) ;;
     cheriostest_success).

Definition fault_tag : cheri_test cap W :=
  trap_test "fault_tag" "Store via untagged capability"
    (PROT_CHERI_TAG (cap := cap) (W := W)) (SEGV_CAPTAGERR (cap := cap) (W := W))
    (when (SEGV_CAPTAGERR_DEF_MISSING (cap := cap) (W := W) g)
       (cheriostest_failure_errx "Signal code SEGV_CAPTAGERR missing" []) ;;
     let chp := cheri_ptr (stack_local 1) 1 in
     let chp := cheri_tag_clear chp in
     access (mem_store_byte chp 0 0)).

Definition nofault_cfromptr : cheri_test cap W :=
  CHERIOSTEST "nofault_cfromptr" "Exercise CFromPtr success"
    (let buf := stack_local 256 in
     let cb := cheri_ptr buf 256 in
     let cd := cheri_cap_from_pointer (W := W) cb (u64 (cheri_address_get buf + 10)) in
     access (mem_store_byte cd 0 0) ;;
     cheriostest_success).

(** ** cheriostest_signal.c: addresses that are not mapped *)

Inductive page_access := PageLoad | PageStore | PageExec.

Definition access_page (how : page_access) (a : Z) : test cap W unit :=
  match how with
  | PageLoad => _ ← access (ddc_load_byte a); mret tt
  | PageStore => access (ddc_store_byte a 1)
  | PageExec => access (branch_to a)
  end.

(** The six tests have this form. *)
Definition sigsegv_test (name desc : string) (trapno : Z) (how : page_access) (a : Z)
    (msg : string) : cheri_test cap W :=
  with_signal (Z.lor (Z.lor CT_FLAG_SIGNAL CT_FLAG_SI_CODE) CT_FLAG_SI_TRAPNO)
    (SIGSEGV (cap := cap) (W := W)) (SEGV_MAPERR (cap := cap) (W := W)) trapno
    (CHERIOSTEST name desc (access_page how a ;; cheriostest_failure_errx msg [])).

Abbreviation LOAD_PF := (TRAPNO_LOAD_PF (cap := cap) (W := W)).
Abbreviation EXEC_PF := (TRAPNO_EXEC_PF (cap := cap) (W := W)).
Abbreviation kernel_address := (VM_MIN_KERNEL_ADDRESS (cap := cap) (W := W)).

Definition null_pointer_load_sigsegv : cheri_test cap W :=
  sigsegv_test "null_pointer_load_sigsegv" "Check that loading from NULL raises SIGSEGV"
    LOAD_PF PageLoad 1 "Unexpected load from NULL pointer".
Definition null_pointer_store_sigsegv : cheri_test cap W :=
  sigsegv_test "null_pointer_store_sigsegv" "Check that storing to NULL raises SIGSEGV"
    TRAPNO_STORE_PF PageStore 1 "Unexpected store to NULL pointer".
Definition null_pointer_exec_sigsegv : cheri_test cap W :=
  sigsegv_test "null_pointer_exec_sigsegv" "Check that branching to NULL raises SIGSEGV"
    EXEC_PF PageExec 4 "Unexpected branch to NULL pointer".
Definition kernel_pointer_load_sigsegv : cheri_test cap W :=
  sigsegv_test "kernel_pointer_load_sigsegv"
    "Check that loading from a kernel address raises SIGSEGV"
    LOAD_PF PageLoad kernel_address "Unexpected load from kernel address".
Definition kernel_pointer_store_sigsegv : cheri_test cap W :=
  sigsegv_test "kernel_pointer_store_sigsegv"
    "Check that storing to a kernel address raises SIGSEGV"
    (if is_aarch64 g then TRAPNO_STORE_PF else LOAD_PF)
    PageStore kernel_address "Unexpected store to kernel address".
Definition kernel_pointer_exec_sigsegv : cheri_test cap W :=
  sigsegv_test "kernel_pointer_exec_sigsegv"
    "Check that branching to a kernel address raises SIGSEGV"
    EXEC_PF PageExec kernel_address "Unexpected branch to kernel address".
End Faults.

(** ** The checks of the machine *)

Inductive trap := TTag | TPerm | TBounds | TPage (how : page_access).

Section Rules.
Context {cap W : Type} {CH : Cheri cap} {CL : CheriLaws cap} {CO : CapOps cap}
  {LC : Libc cap W} {KE : Kernel cap W} {VC : VmConsts}
  {HP : Perms} {PL : PermLaws} {VA : Varargs cap W} {TR : TrapOS cap W}.

(** An access of one byte at an offset, in the order of the checks. *)
Definition byte_check (c : cap) (off : Z) (p : perm) : option trap :=
  if negb (cheri_tag_get c) then Some TTag
  else if negb (flag_set (cheri_perms_get c) (mask p)) then Some TPerm
  else if (cheri_base_get c <=? cheri_address_get c + off) &&
          (cheri_address_get c + off <? cheri_base_get c + cheri_length_get c) then None
  else Some TBounds.

(** A capability to an object of [n] bytes in memory that can be read and
    written. *)
Record object (c : cap) (n : Z) : Prop := {
  ob_tag : cheri_tag_get c = true;
  ob_unsealed : cheri_is_sealed c = false;
  ob_base : cheri_base_get c <= cheri_address_get c;
  ob_top : cheri_address_get c + n <= cheri_base_get c + cheri_length_get c;
  ob_end : cheri_address_get c + n < 2 ^ 64;
  ob_load : flag_set (cheri_perms_get c) (mask PLoad) = true;
  ob_store : flag_set (cheri_perms_get c) (mask PStore) = true;
}.

Class TrapRules := {
  trap_info : trap -> siginfo cap;
  t_load c off w : cheri_is_sealed c = false ->
    match byte_check c off PLoad with
    | None => exists b w', mem_load_byte c off w = (inl b, w')
    | Some t => exists w', mem_load_byte c off w = (inr (trap_info t), w')
    end;
  t_store (c : cap) off b w : cheri_is_sealed c = false ->
    match byte_check c off PStore with
    | None => exists w', mem_store_byte c off b w = (inl tt, w')
    | Some t => exists w', mem_store_byte c off b w = (inr (trap_info t), w')
    end;
  (* small bounds are exact *)
  t_bounds (c : cap) n : object c n -> 0 < n <= 256 ->
    let d := cheri_bounds_set c n in
    object d n /\ cheri_base_get d = cheri_address_get c /\ cheri_length_get d = n /\
    cheri_address_get d = cheri_address_get c;
  t_tag_clear (c : cap) : cheri_is_sealed (cheri_tag_clear c) = cheri_is_sealed c;
  t_from_pointer (c : cap) a : cheri_tag_get c = true -> cheri_is_sealed c = false ->
    cheri_base_get c <= a < cheri_base_get c + cheri_length_get c ->
    cheri_cap_from_pointer (W := W) c a = cheri_address_set c a;
  t_seal (c : cap) a : cheri_is_sealed (cheri_address_set c a) = cheri_is_sealed c;
  t_array : object (static_array (W := W)) 2;
  t_local n : 0 < n <= 256 -> object (stack_local (cap := cap) (W := W) n) n;
  t_page how a w : a = 1 \/ a = 4 \/ a = VM_MIN_KERNEL_ADDRESS (cap := cap) (W := W) ->
    match how with
    | PageLoad => exists w', ddc_load_byte a w = (inr (trap_info (TPage PageLoad)), w')
    | PageStore => exists w', ddc_store_byte a 1 w = (inr (trap_info (TPage PageStore)), w')
    | PageExec => exists w', branch_to a w = (inr (trap_info (TPage PageExec)), w')
    end;
}.
End Rules.
Arguments TrapRules cap W {_ _ _ _}.

(** ** From the access to the tally *)

(** The tests that must fault, with the trap that each is there to see. *)
Definition trap_tests {cap W : Type} `{Cheri cap, !Libc cap W, !Kernel cap W, !VmConsts, !Perms,
    !Varargs cap W, !TrapOS cap W} (g : config) : list (cheri_test cap W * trap) :=
  [(fault_bounds g, TBounds); (fault_perm_load g, TPerm); (fault_perm_store g, TPerm);
   (fault_tag g, TTag);
   (null_pointer_load_sigsegv, TPage PageLoad); (null_pointer_store_sigsegv, TPage PageStore);
   (null_pointer_exec_sigsegv, TPage PageExec); (kernel_pointer_load_sigsegv, TPage PageLoad);
   (kernel_pointer_store_sigsegv g, TPage PageStore);
   (kernel_pointer_exec_sigsegv, TPage PageExec)].

Definition nofault_tests {cap W : Type} `{Cheri cap, !Libc cap W, !Kernel cap W, !Perms,
    !TrapOS cap W} : list (cheri_test cap W) :=
  [nofault_perm_load; nofault_perm_store; nofault_cfromptr].

Section Facts.
Context {cap W : Type} {CH : Cheri cap} {CL : CheriLaws cap} {CO : CapOps cap}
  {LC : Libc cap W} {RO : RunnerOS W} {RL : RunnerOSLaws LC RO} {KE : Kernel cap W}
  {VC : VmConsts} {HP : Perms} {PL : PermLaws} {VA : Varargs cap W} {TR : TrapOS cap W}
  {RR : TrapRules cap W}.
Context (g : config) (o : options).
Context (indet_flaky : option string) (indet_fd : Z).

Abbreviation array := (static_array (W := W)).

(** *** Runs of accesses *)

Lemma at_start_world w (s : proc cap W) : at_start g s -> at_start g (set_world w s).
Proof. done. Qed.

Lemma faults_access {A} (f : W -> (A + siginfo cap) * W) (k : A -> test cap W unit) si :
  (forall w, exists w', f w = (inr si, w')) -> faults_with g (access f ≫= k) no_addr si.
Proof.
  intros Hf s [Hp _]. destruct (Hf (p_world s)) as (w' & Hr). exists (set_world w' s).
  split; [by apply run_fault|]. split; [exact Hp|done].
Qed.

Lemma faults_after {A} (f : W -> (A + siginfo cap) * W) (k : A -> test cap W unit) e si :
  (forall w, exists a w', f w = (inl a, w')) -> (forall a, faults_with g (k a) e si) ->
  faults_with g (access f ≫= k) e si.
Proof.
  intros Hf Hk s Hs. destruct (Hf (p_world s)) as (a & w' & Hr).
  destruct (Hk a (set_world w' s) (at_start_world w' s Hs)) as (s' & H1 & H2).
  exists s'. split; [|exact H2]. by rewrite (run_access _ _ _ _ _ Hr).
Qed.

Lemma faults_last (f : W -> (unit + siginfo cap) * W) si :
  (forall w, exists w', f w = (inr si, w')) -> faults_with g (access f) no_addr si.
Proof.
  intros Hf s [Hp _]. destruct (Hf (p_world s)) as (w' & Hr). exists (set_world w' s).
  split; [unfold access; by rewrite Hr|]. split; [exact Hp|done].
Qed.

Lemma faults_assoc {A B} (m : test cap W A) (f : A -> test cap W B) (k : B -> test cap W unit) e si :
  faults_with g (m ≫= (fun a => f a ≫= k)) e si -> faults_with g ((m ≫= f) ≫= k) e si.
Proof. intros H s Hs. unfold raises_at. rewrite test_assoc. by apply H. Qed.

Lemma succeeds_access {A} (f : W -> (A + siginfo cap) * W) :
  (forall w, exists a w', f w = (inl a, w')) ->
  body_succeeds g (access f ≫= (fun _ => cheriostest_success)).
Proof.
  intros Hf s (Hp & Ho & _). destruct (Hf (p_world s)) as (a & w' & Hr).
  rewrite (run_access _ _ _ _ _ Hr). unfold cheriostest_success, with_ccsp, mbind, eff_bind.
  simpl. rewrite Hp. eexists _, no_addr, _. by split_and!.
Qed.

(** *** Capabilities with a permission, or none *)

Lemma no_perm p q : p <> q -> Z.land (mask q) (mask p) = 0.
Proof.
  intros Hne. apply Z.eqb_eq. rewrite land_mask, testbit_mask.
  by rewrite bool_decide_eq_false_2.
Qed.

Lemma ptrperm_spec p : object array 2 ->
  let c := cheri_ptrperm array 2 p in
  cheri_tag_get c = true /\ cheri_is_sealed c = false /\
  cheri_perms_get c = u64 (Z.land (cheri_perms_get (cheri_bounds_set array 2))
                             (Z.lor p (mask PGlobal))) /\
  (cheri_base_get c <=? cheri_address_get c + 0) &&
  (cheri_address_get c + 0 <? cheri_base_get c + cheri_length_get c) = true.
Proof.
  intros Ho. destruct (t_bounds array 2 Ho) as (Hd & Hb & Hl & Ha); [done|].
  unfold cheri_ptrperm, cheri_ptr. set (d := cheri_bounds_set array 2) in *.
  destruct (perms_and_keeps d (Z.lor p (mask PGlobal)) (ob_unsealed _ _ Hd))
    as (T & S & A & B & L).
  split_and!; [by rewrite T, (ob_tag _ _ Hd)|exact S|apply perms_and_perms|].
  rewrite A, B, L, Hb, Hl, Ha, Z.add_0_r, Z.leb_refl. apply Z.ltb_lt. lia.
Qed.

(** A capability made with the permissions [p] has, of load and store, those. *)
Lemma ptrperm_has p q : (q = PLoad \/ q = PStore) ->
  flag_set (cheri_perms_get (cheri_ptrperm array 2 p)) (mask q) = Z.testbit p (bit q).
Proof.
  intros Hq. destruct (ptrperm_spec p t_array) as (_ & _ & -> & _).
  destruct (t_bounds array 2 t_array) as (Hd & _); [done|].
  set (d := cheri_bounds_set array 2) in *. rewrite flag_set_mask.
  pose proof (bit_range q). unfold wrapu. rewrite Z.mod_pow2_bits_low by lia.
  rewrite Z.land_spec, Z.lor_spec, testbit_mask.
  assert (Z.testbit (cheri_perms_get d) (bit q) = true) as ->.
  { destruct Hq as [-> | ->]; [pose proof (ob_load _ _ Hd) as H'|pose proof (ob_store _ _ Hd) as H'];
      by rewrite flag_set_mask in H'. }
  rewrite bool_decide_eq_false_2 by (by destruct Hq as [-> | ->]). by rewrite orb_false_r.
Qed.

Lemma ptrperm_check p q : (q = PLoad \/ q = PStore) ->
  byte_check (cheri_ptrperm array 2 p) 0 q = if Z.testbit p (bit q) then None else Some TPerm.
Proof.
  intros Hq. destruct (ptrperm_spec p t_array) as (Ht & _ & _ & Hin).
  unfold byte_check. rewrite Ht, (ptrperm_has p q Hq), Hin. simpl.
  by destruct (Z.testbit p (bit q)).
Qed.

Lemma ptr_check (c : cap) n off : object c n -> 0 < n <= 256 -> 0 <= off ->
  byte_check (cheri_ptr c n) off PStore = if off <? n then None else Some TBounds.
Proof.
  intros Ho Hn Hoff. destruct (t_bounds c n Ho Hn) as (Hd & Hb & Hl & Ha).
  unfold byte_check, cheri_ptr. set (d := cheri_bounds_set c n) in *.
  rewrite (ob_tag _ _ Hd), (ob_store _ _ Hd), Hb, Hl, Ha. simpl.
  rewrite (proj2 (Z.leb_le _ _)) by lia. simpl.
  replace (cheri_address_get c + off <? cheri_address_get c + n) with (off <? n); [done|].
  apply eq_true_iff_eq. rewrite !Z.ltb_lt. lia.
Qed.

(** *** The tests *)

Lemma store_traps (c : cap) off tr : cheri_is_sealed c = false ->
  byte_check c off PStore = Some tr ->
  forall w, exists w', mem_store_byte c off 0 w = (inr (trap_info tr), w').
Proof. intros Hs Hc w. pose proof (t_store c off 0 w Hs) as H. by rewrite Hc in H. Qed.

Lemma store_works (c : cap) off : cheri_is_sealed c = false ->
  byte_check c off PStore = None ->
  forall w, exists a w', mem_store_byte c off 0 w = (inl a, w').
Proof.
  intros Hs Hc w. pose proof (t_store c off 0 w Hs) as H. rewrite Hc in H.
  destruct H as [w' ?]. by exists tt, w'.
Qed.

Lemma sealed_ptr (c : cap) n : object c n -> 0 < n <= 256 ->
  cheri_is_sealed (cheri_ptr c n) = false.
Proof. intros Ho Hn. by destruct (t_bounds c n Ho Hn) as ([] & _). Qed.

Lemma sealed_ptrperm p : cheri_is_sealed (cheri_ptrperm array 2 p) = false.
Proof. apply (ptrperm_spec p t_array). Qed.

Lemma fault_bounds_faults :
  SEGV_CAPBOUNDSERR_DEF_MISSING (cap := cap) (W := W) g = false ->
  faults_with g (ct_func (fault_bounds (cap := cap) (W := W) g)) no_addr (trap_info TBounds).
Proof.
  intros Hm. unfold fault_bounds, trap_test. rewrite Hm. pose proof t_array as Ho.
  unfold ARRAY_LEN. set (c := cheri_ptr array 2). pose proof (sealed_ptr array 2 Ho) as Hs.
  assert (faults_with g (
    foreach (seqZ 0 2) (fun i => access (mem_store_byte c i 0)) ;;
     access (mem_store_byte c 2 0) ;;
     cheriostest_failure_errx "out of bounds access did not fault" []) no_addr
     (trap_info TBounds)) as H.
  { change (seqZ 0 2) with [0; 1]. cbn [foreach]. apply faults_assoc.
    apply faults_after; [apply store_works; [by apply Hs|by unfold c; rewrite ptr_check]|].
    intros _. apply faults_assoc.
    apply faults_after; [apply store_works; [by apply Hs|by unfold c; rewrite ptr_check]|].
    intros _. apply faults_access, store_traps; [by apply Hs|by unfold c; rewrite ptr_check]. }
  by destruct (is_freebsd g).
Qed.

Lemma fault_perm_faults :
  SEGV_CAPPERMERR_DEF_MISSING (cap := cap) (W := W) g = false ->
  faults_with g (ct_func (fault_perm_load (cap := cap) (W := W) g)) no_addr (trap_info TPerm) /\
  faults_with g (ct_func (fault_perm_store (cap := cap) (W := W) g)) no_addr (trap_info TPerm).
Proof.
  intros Hm. unfold fault_perm_load, fault_perm_store, trap_test. rewrite Hm.
  assert (forall q, (q = PLoad \/ q = PStore) ->
    byte_check (cheri_ptrperm array ARRAY_LEN 0) 0 q = Some TPerm) as Hc.
  { intros q Hq. unfold ARRAY_LEN. rewrite ptrperm_check by done. by rewrite Z.bits_0. }
  pose proof (sealed_ptrperm 0) as Hs. split.
  - assert (faults_with g (_ ← access (mem_load_byte (cheri_ptrperm array ARRAY_LEN 0) 0);
       cheriostest_failure_errx "access without required permissions did not fault" [])
       no_addr (trap_info TPerm)) as H.
    { apply faults_access. intros w.
      pose proof (t_load (cheri_ptrperm array ARRAY_LEN 0) 0 w Hs) as Hl.
      by rewrite Hc in Hl by auto. }
    by destruct (is_freebsd g).
  - assert (faults_with g (access (mem_store_byte (cheri_ptrperm array ARRAY_LEN 0) 0 0))
       no_addr (trap_info TPerm)) as H by (apply faults_last, store_traps; auto).
    by destruct (is_freebsd g).
Qed.

Lemma fault_tag_faults :
  SEGV_CAPTAGERR_DEF_MISSING (cap := cap) (W := W) g = false ->
  faults_with g (ct_func (fault_tag (cap := cap) (W := W) g)) no_addr (trap_info TTag).
Proof.
  intros Hm. unfold fault_tag, trap_test. rewrite Hm.
  assert (faults_with g (access (mem_store_byte (cheri_tag_clear (cheri_ptr
     (stack_local (cap := cap) (W := W) 1) 1)) 0 0)) no_addr (trap_info TTag)) as H.
  { apply faults_last, store_traps.
    - rewrite t_tag_clear. by apply sealed_ptr; [apply t_local|].
    - unfold byte_check. by rewrite tag_clear_tag. }
  by destruct (is_freebsd g).
Qed.

Lemma sigsegv_faults name desc trapno how a msg :
  a = 1 \/ a = 4 \/ a = VM_MIN_KERNEL_ADDRESS (cap := cap) (W := W) ->
  faults_with g (ct_func (sigsegv_test (cap := cap) (W := W) name desc trapno how a msg))
    no_addr (trap_info (TPage how)).
Proof.
  intros Ha. simpl. pose proof (fun w => t_page how a w Ha) as Hp.
  destruct how; simpl in *; [apply faults_assoc|..]; by apply faults_access.
Qed.

(** The headers of the system define the codes. *)
Definition codes_defined : Prop :=
  SEGV_CAPTAGERR_DEF_MISSING (cap := cap) (W := W) g = false /\
  SEGV_CAPBOUNDSERR_DEF_MISSING (cap := cap) (W := W) g = false /\
  SEGV_CAPPERMERR_DEF_MISSING (cap := cap) (W := W) g = false.

Lemma trap_test_shape t tr : codes_defined -> (t, tr) ∈ trap_tests (cap := cap) (W := W) g ->
  fault_test t /\ runs o t /\ faults_with g (ct_func t) no_addr (trap_info tr).
Proof.
  intros (Ht & Hb & Hp) Hin. destruct (fault_perm_faults Hp) as [Hpl Hps].
  unfold trap_tests in Hin. repeat (apply elem_of_cons in Hin as [Hin|Hin]);
    [..|by apply not_elem_of_nil in Hin]; injection Hin as -> ->.
  1-4: split; [by unfold fault_bounds, fault_perm_load, fault_perm_store, fault_tag, trap_test;
               destruct (is_freebsd g)|];
       split; [by unfold fault_bounds, fault_perm_load, fault_perm_store, fault_tag, trap_test,
                 runs; destruct (is_freebsd g); repeat split; simpl; rewrite ?andb_false_r|].
  - by apply fault_bounds_faults.
  - exact Hpl.
  - exact Hps.
  - by apply fault_tag_faults.
  - split; [done|]. split; [by repeat split; simpl; rewrite ?andb_false_r|].
    apply sigsegv_faults. auto.
  - split; [done|]. split; [by repeat split; simpl; rewrite ?andb_false_r|].
    apply sigsegv_faults. auto.
  - split; [done|]. split; [by repeat split; simpl; rewrite ?andb_false_r|].
    apply sigsegv_faults. auto.
  - split; [done|]. split; [by repeat split; simpl; rewrite ?andb_false_r|].
    apply sigsegv_faults. auto.
  - split; [done|]. split; [by repeat split; simpl; rewrite ?andb_false_r|].
    apply sigsegv_faults. auto.
  - split; [done|]. split; [by repeat split; simpl; rewrite ?andb_false_r|].
    apply sigsegv_faults. auto.
Qed.

Lemma nofault_shape t : t ∈ nofault_tests (cap := cap) (W := W) ->
  ct_flags t = 0 /\ runs o t /\ body_succeeds g (ct_func t).
Proof.
  intros Hin. unfold nofault_tests in Hin. repeat (apply elem_of_cons in Hin as [->|Hin]);
    [..|by apply not_elem_of_nil in Hin];
    (split; [done|]); (split; [by repeat split; simpl; rewrite ?andb_false_r|]);
    apply succeeds_access.
  - intros w. pose proof (t_load (cheri_ptrperm array 2 (mask PLoad)) 0 w (sealed_ptrperm _)) as H.
    rewrite ptrperm_check, testbit_mask in H by auto.
    rewrite bool_decide_eq_true_2 in H by done. exact H.
  - apply store_works; [apply sealed_ptrperm|].
    unfold ARRAY_LEN. rewrite ptrperm_check, testbit_mask by auto. by rewrite bool_decide_eq_true_2.
  - set (buf := stack_local 256). pose proof (t_local 256) as Ho.
    destruct (t_bounds buf 256) as (Hd & Hb & Hl & Ha); [by apply Ho|done|].
    set (cb := cheri_ptr buf 256) in *. change (cheri_bounds_set buf 256) with cb in *.
    pose proof (ob_end _ _ Hd) as He. pose proof (address_range cb) as Hr. rewrite <- Ha.
    rewrite wrapu_small by lia.
    rewrite t_from_pointer by (try apply Hd; rewrite ?Hb, ?Hl; lia).
    set (cd := cheri_address_set cb (cheri_address_get cb + 10)).
    assert (cheri_tag_get cd = true) as Ht.
    { apply address_set_tag; [apply Hd|apply Hd|rewrite Hb, Hl; lia|lia]. }
    destruct (address_set_bounds _ _ Ht) as [Hb' Hl']. fold cd in Hb', Hl'.
    apply store_works; [unfold cd; rewrite t_seal; apply Hd|].
    unfold byte_check. rewrite Ht, Hb', Hl', Hb, Hl.
    unfold cd. rewrite address_set_perms, (ob_store _ _ Hd), address_set_address, wrapu_small by lia.
    simpl. rewrite (proj2 (Z.leb_le _ _)) by lia. simpl. by rewrite (proj2 (Z.ltb_lt _ _)) by lia.
Qed.

(** C38: on a machine that checks the tag, the permission and the bounds of each
    access, a run of the controller on each of the ten tests that must fault
    files a pass exactly when the signal of the trap that its access causes has
    the number, the code and the trap number of the description, and a failure
    otherwise; and it files a pass for each of the three tests that must not
    fault. *)
Theorem trap_tests_result (d : driver cap W) :
  o_qtrace o = false -> o_debugger_enabled o = false -> codes_defined ->
  (forall t tr, (t, tr) ∈ trap_tests (cap := cap) (W := W) g ->
   let si := trap_info tr in
   handled (cap := cap) (W := W) g (si_signo si) -> 0 <= si_signo si ->
   wp (cheriostest_run_test g o indet_flaky indet_fd t) (fun _ d' =>
     (expected_signal g t no_addr si ->
      d_tally d' = file_pass (ct_name t) (xfail_reason_of t) None
                     (count_run (expect (xfail_reason_of t) (d_tally d)))) /\
     (~ expected_signal g t no_addr si -> exists reason,
      d_tally d' = file_fail (ct_name t) reason (xfail_reason_of t) (ct_flaky_reason t)
                     (count_run (expect (xfail_reason_of t) (d_tally d))))) d) /\
  (forall t, t ∈ nofault_tests (cap := cap) (W := W) ->
   wp (cheriostest_run_test g o indet_flaky indet_fd t) (fun _ d' =>
     d_tally d' = file_pass (ct_name t) (xfail_reason_of t) None
                    (count_run (expect (xfail_reason_of t) (d_tally d)))) d).
Proof.
  intros Hq Hd Hc. split.
  - intros t tr Hin si Hh H0. destruct (trap_test_shape t tr Hc Hin) as (Hf & Hr & Hm).
    by apply fault_files_result.
  - intros t Hin. destruct (nofault_shape t Hin) as (Hf & Hr & Hm). by apply success_files_pass.
Qed.
End Facts.

(** ** A concrete machine *)

Inductive trap_world := TrapWorld.

(** Morello's codes. *)
Definition toy_trap_info (t : trap) : siginfo scap :=
  Siginfo 11 (match t with TTag => 10 | TBounds => 12 | TPerm => 13 | TPage _ => 1 end)
    14 cap_null.

Definition checked {A} (c : scap) (off : Z) (p : perm) (a : A) (w : trap_world) :
    (A + siginfo scap) * trap_world :=
  (match byte_check c off p with None => inl a | Some t => inr (toy_trap_info t) end, w).

Definition toy_object (a n : Z) : scap := toy_cap a n 0 (Z.lor (mask PLoad) (mask PStore)).

#[export] Instance trap_kernel : Kernel scap trap_world := {|
  getpagesize := 4096;
  sys_mmap _ _ _ _ _ _ w := (inr 12, w);
  sys_munmap _ _ w := (inl 0, w);
  sys_mprotect _ _ _ w := (inl 0, w);
  sys_minherit _ _ _ w := (inl 0, w);
  sys_shmget _ _ _ w := (inr 78, w);
  sys_shmat _ _ _ w := (inr 78, w);
  sys_shmdt _ w := (inr 78, w);
  sys_shm_open _ _ _ w := (inr 78, w);
  sys_shm_unlink _ w := (inl 0, w);
  sys_memfd_create _ _ w := (inr 78, w);
  sys_open _ _ w := (inr 78, w);
  sys_mkstemp t w := (inr 78, w);
  sys_unlink _ w := (inl 0, w);
  sys_ftruncate _ _ w := (inl 0, w);
  sys_close _ w := (inl 0, w);
  os_random w := (7, w);
  mem_load_cap c off := checked c off PLoad c;
  mem_store_cap c off _ := checked c off PStore tt;
  mem_store_byte c off _ := checked c off PStore tt;
  stack_local n := toy_object 0x7000 n;
|}.

#[export] Instance trap_varargs : Varargs scap trap_world := {|
  va_arg _ _ := mret tt;
  printf _ _ := mret tt;
  PROT_CHERI_BOUNDS := 1;
  PROT_CHERI_TAG := 2;
  TRAPNO_LOAD_STORE := 3;
  header_SEGV_CAPTAGERR := Some 10;
  header_SEGV_CAPBOUNDSERR := Some 12;
|}.

#[export] Instance trap_os : TrapOS scap trap_world := {|
  mem_load_byte c off := checked c off PLoad 0;
  ddc_load_byte _ w := (inr (toy_trap_info (TPage PageLoad)), w);
  ddc_store_byte _ _ w := (inr (toy_trap_info (TPage PageStore)), w);
  branch_to _ w := (inr (toy_trap_info (TPage PageExec)), w);
  static_array := toy_object 0x30000 2;
  cheri_cap_from_pointer := cheri_address_set;
  PROT_CHERI_PERM := 4;
  header_SEGV_CAPPERMERR := Some 13;
  SEGV_MAPERR := 1;
  TRAPNO_LOAD_PF := 14;
  TRAPNO_EXEC_PF := 14;
  VM_MIN_KERNEL_ADDRESS := 2 ^ 63;
|}.

Lemma toy_object_ok a n : 0 <= a < 2 ^ 32 -> 0 < n <= 256 -> object (toy_object a n) n.
Proof.
  intros Ha Hn. unfold toy_object, toy_cap.
  split; simpl; rewrite ?Z.add_0_r, ?wrapu_small by lia; try done; lia.
Qed.

#[export] Instance trap_rules : TrapRules scap trap_world.
Proof.
  refine {| trap_info := toy_trap_info |}; try done.
  - intros c off w _. simpl. unfold checked. destruct (byte_check c off PLoad); [by eexists|by eexists _, _].
  - intros c off b w _. simpl. unfold checked. destruct (byte_check c off PStore); by eexists.
  - intros c n [Ht Hs Hb Htop He Hl Hst] Hn d. simpl in *.
    assert (object d n /\ u64 (sc_len d) = n) as [Hd Hlen]; [|by split].
    unfold d. split; [split|]; simpl; rewrite ?(wrapu_small 64 n) by lia; try done; try lia.
    rewrite Ht, (proj2 (Z.leb_le _ _) Hb). apply Z.leb_le. lia.
  - intros n Hn. by apply toy_object_ok.
  - intros [] a w _; by eexists.
Defined.

Definition trap_driver : driver scap trap_world :=
  Driver tally0 child_state_zero [] 0 TrapWorld.

Lemma trap_tests_result_witness :
  wp (cheriostest_run_test toy_config options0 None 0 (fault_perm_store toy_config))
    (fun _ d' => d_tally d' = file_pass "fault_perm_store" None None (count_run tally0))
    trap_driver /\
  wp (cheriostest_run_test toy_config options0 None 0 nofault_cfromptr)
    (fun _ d' => d_tally d' = file_pass "nofault_cfromptr" None None (count_run tally0))
    trap_driver.
Proof.
  destruct (trap_tests_result (RR := trap_rules) toy_config options0 None 0 trap_driver
              eq_refl eq_refl) as [H1 H2]; [by split_and!|].
  split.
  - eapply wpx_mono; [|apply (H1 (fault_perm_store toy_config) TPerm)].
    + intros [] d' [Hp _]. by apply Hp.
    + do 2 right. left.
    + unfold handled. apply (bool_decide_unpack _). vm_compute. done.
    + simpl. lia.
  - apply (H2 nofault_cfromptr). do 2 right. left.
Defined.
