(* ===== verification/Signals.v ===== *)
(** * Signals: handlers that a test installs (cheriostest_signal.c)

    A test sets a static object to zero, sends SIGUSR1 to itself, and looks at
    what its handler left in the object.  The kernel runs the handlers before
    kill(2) returns: a call gives, with its result, the deliveries it made, and
    [run_handlers] lets the handlers of the file act on the statics.

    [SigRules] is a kernel that delivers a signal once to the handler that was
    installed last, on the alternate stack when it is enabled and asked for;
    [signal_tests_verdict] says which choices of such a kernel each test
    accepts. *)

From S2P Require Import Prelude Printf Cheri Perms Harness Runner Toy Registers RunnerFacts Faults Kernel VmTags Mappings Reservations Judge Revocation Sealing.

(** The handlers of the file. *)
Inductive sig_handler :=
  HandlerFunc | SigactionFunc | SigaltstackFunc | SigaltstackDisableFunc | ReturncapFunc.

(** One delivery: the arguments of the handler, the address of its local, and
    its return capability. *)
Record delivery (cap : Type) := Delivery {
  dv_signum : Z; dv_si_signo : Z; dv_si_code : Z; dv_local : Z; dv_return : cap }.
Arguments Delivery {cap}.
Arguments dv_signum {cap}.
Arguments dv_si_signo {cap}.
Arguments dv_si_code {cap}.
Arguments dv_local {cap}.
Arguments dv_return {cap}.

Class SignalOS (cap W : Type) := {
  sys_sigaction : Z -> sig_handler -> Z -> W -> (unit + Z) * W;
  sys_kill_self : Z -> W -> ((unit + Z) * list (sig_handler * delivery cap)) * W;
  sys_sigaltstack : Z -> Z -> Z -> W -> (unit + Z) * W;  (* ss_sp, ss_size, ss_flags *)
  os_malloc : Z -> W -> option cap * W;
  SIG_USR1 : Z;                                          (* SIGUSR1 *)
  SA_SIGINFO : Z;
  SA_ONSTACK : Z;
  SS_DISABLE : Z;
  SI_USER : Z;
  SIGSTKSZ : Z;
}.

(** The static objects that the handlers write. *)
Record statics (cap : Type) := Statics {
  handler_signum : Z;
  sigaction_signum : Z;
  sigaction_info_si_signo : Z;
  sigaction_info_si_code : Z;
  sigaltstack_local_addr : Z;
  sigaltstack_disable_local_addr : Z;
  handler_returncap : cap;
}.
Arguments Statics {cap}.
Arguments handler_signum {cap}.
Arguments sigaction_signum {cap}.
Arguments sigaction_info_si_signo {cap}.
Arguments sigaction_info_si_code {cap}.
Arguments sigaltstack_local_addr {cap}.
Arguments sigaltstack_disable_local_addr {cap}.
Arguments handler_returncap {cap}.

Section Signals.
Context {cap W : Type} {CH : Cheri cap} {LC : Libc cap W} {HP : Perms} {IR : InitRegs cap W}
  {SG : SignalOS cap W}.
Context (g : config).

Abbreviation USR1 := (SIG_USR1 (cap := cap) (W := W)).

(** At the start, and after the assignment of zero that each test makes. *)
Definition statics0 : statics cap := Statics 0 0 0 0 0 0 cap_null.

Definition run_handler (st : statics cap) (x : sig_handler * delivery cap) : statics cap :=
  let '(h, d) := x in
  let '(Statics hs ss sg sc la da rc) := st in
  match h with
  | HandlerFunc => Statics (dv_signum d) ss sg sc la da rc
  | SigactionFunc => Statics hs (dv_signum d) (dv_si_signo d) (dv_si_code d) la da rc
  | SigaltstackFunc => Statics hs ss sg sc (dv_local d) da rc
  | SigaltstackDisableFunc => Statics hs ss sg sc la (dv_local d) rc
  | ReturncapFunc => Statics hs ss sg sc la da (dv_return d)
  end.

Definition run_handlers (l : list (sig_handler * delivery cap)) (st : statics cap) : statics cap :=
  foldl run_handler st l.

(** [failure_errx(msg, strerror(errno))] *)
Definition fail_strerror {A} (msg : string) : test cap W A :=
  errno ← gets p_errno;
  cheriostest_failure_errx msg [AStr (strerror (cap := cap) (W := W) errno)].

(** [if (call != 0) failure_errx(msg, strerror(errno))] *)
Definition must (f : W -> (unit + Z) * W) (msg : string) : test cap W unit :=
  r ← try_sys f;
  match r with Some _ => mret tt | None => fail_strerror msg end.

Definition install (h : sig_handler) (flags : Z) : test cap W unit :=
  must (sys_sigaction (cap := cap) USR1 h flags) "sigaction failed: %s".

(** kill(getpid(), SIGUSR1), the static object being zero. *)
Definition kill_usr1 : test cap W (statics cap) :=
  r ← libcall (sys_kill_self (cap := cap) USR1);
  match r with
  | (inl _, l) => mret (run_handlers l statics0)
  | (inr e, _) => modify (set_errno e) ;;
                  fail_strerror "kill(getpid(), SIGUSR1) failed: %s"
  end.

Definition signal_handler_usr1 : cheri_test cap W :=
  CHERIOSTEST "signal_handler_usr1"
    "Install a signal handler (sa_handler) for SIGUSR1 and check it works"
    (install HandlerFunc 0 ;;
     st ← kill_usr1;
     fail_if (negb (handler_signum st =? USR1)) "handler_signum (%d) != SIGUSR1 (%d)"
       [AInt (handler_signum st); AInt USR1] ;;
     cheriostest_success).

Definition signal_sigaction_usr1 : cheri_test cap W :=
  CHERIOSTEST "signal_sigaction_usr1"
    "Install a signal handler (sa_sigaction) for SIGUSR1 and check it works"
    (install SigactionFunc (SA_SIGINFO (cap := cap) (W := W)) ;;
     st ← kill_usr1;
     fail_if (negb (sigaction_signum st =? USR1)) "signum (%d) != SIGUSR1 (%d)"
       [AInt (sigaction_signum st); AInt USR1] ;;
     fail_if (negb (sigaction_info_si_signo st =? USR1)) "si_signo (%d) != SIGUSR1 (%d)"
       [AInt (sigaction_info_si_signo st); AInt USR1] ;;
     fail_if (negb (sigaction_info_si_code st =? SI_USER (cap := cap) (W := W)))
       "si_code (%d) != SI_USER (%d)"
       [AInt (sigaction_info_si_code st); AInt (SI_USER (cap := cap) (W := W))] ;;
     cheriostest_success).

Abbreviation STKSZ := (SIGSTKSZ (cap := cap) (W := W)).

(** The start of the two tests of the alternate stack: its address. *)
Definition new_altstack : test cap W Z :=
  p ← libcall (os_malloc (cap := cap) STKSZ);
  match p with
  | None => fail_strerror "malloc(SIGSTKSZ) failed: %s"
  | Some p =>
      let altstack_addr := cheri_address_get p in
      must (sys_sigaltstack (cap := cap) altstack_addr STKSZ 0) "sigaltstack failed: %s" ;;
      mret altstack_addr
  end.

Definition XFAIL_C18N_SIGALTSTACK : option string :=
  if cfg_c18n g
  then Some "sigaltstack is currently unsupported by library-based compartmentalisation"%string
  else None.

Definition signal_sigaltstack : cheri_test cap W :=
  with_xfail XFAIL_C18N_SIGALTSTACK
    (CHERIOSTEST "signal_sigaltstack"
      "Check signal handlers use the alternate stack when enabled"
      (altstack_addr ← new_altstack;
       install SigaltstackFunc (SA_ONSTACK (cap := cap) (W := W)) ;;
       st ← kill_usr1;
       let local := sigaltstack_local_addr st in
       fail_if (local <? altstack_addr) "stack local (0x%zx) < sigstk.ss_sp (0x%zx)"
         [AInt local; AInt altstack_addr] ;;
       fail_if (u64 (altstack_addr + STKSZ) <=? local)
         "stack local (0x%zx) >= sigstk.ss_sp+SIGSTKSZ (0x%zx)"
         [AInt local; AInt (u64 (altstack_addr + STKSZ))] ;;
       cheriostest_success)).

Definition signal_sigaltstack_disable : cheri_test cap W :=
  CHERIOSTEST "signal_sigaltstack_disable"
    "Check signal handlers don't use a given alternate stack when re-disabled"
    (altstack_addr ← new_altstack;
     must (sys_sigaltstack (cap := cap) altstack_addr STKSZ (SS_DISABLE (cap := cap) (W := W)))
       "sigaltstack (disable) failed: %s" ;;
     install SigaltstackDisableFunc (SA_ONSTACK (cap := cap) (W := W)) ;;
     st ← kill_usr1;
     let local := sigaltstack_disable_local_addr st in
     fail_if ((altstack_addr <=? local) && (local <? u64 (altstack_addr + STKSZ)))
       "stack local (0x%zx) in range of sigstk.ss_sp (0x%zx-0x%zx)"
       [AInt local; AInt altstack_addr; AInt (u64 (altstack_addr + STKSZ))] ;;
     cheriostest_success).

(** The longest code that a handler may return to. *)
Definition sigcode_length : Z :=
  if cfg_benchmark_abi g then CHERI_CAP_USER_CODE_LENGTH (cap := cap) (W := W)
  else if cfg_c18n g then 0x300 else 0x100.

(** In a pure-capability program. *)
Definition signal_returncap : cheri_test cap W :=
  CHERIOSTEST "signal_returncap" "Test value of signal handler return capability"
    (install ReturncapFunc 0 ;;
     st ← kill_usr1;
     let c := handler_returncap st in
     CHERIOSTEST_VERIFY2 (cheri_length_get c <=? sigcode_length)
       "length %#jx (expected <= %#jx)" [AInt (cheri_length_get c); AInt sigcode_length] ;;
     CHERIOSTEST_VERIFY2 (cheri_type_get c =? CHERI_OTYPE_SENTRY (cap := cap))
       "otype %jx (expected %jx)"
       [AInt (cheri_type_get c); AInt (CHERI_OTYPE_SENTRY (cap := cap))] ;;
     CHERIOSTEST_VERIFY (cheri_is_sealed c) "cheri_is_sealed(handler_returncap)" ;;
     CHERIOSTEST_VERIFY (cheri_tag_get c) "cheri_tag_get(handler_returncap)" ;;
     let v := cheri_perms_get c in
     CHERIOSTEST_VERIFY2 (Z.land v (mask PExecute) =? mask PExecute)
       "perms %jx (execute missing)" [AInt v] ;;
     CHERIOSTEST_VERIFY2 (Z.land v (mask PStore) =? 0) "perms %jx (store present)" [AInt v] ;;
     when (HAS_CHERI_PERM_LOAD_STORE_CAP g)
       (CHERIOSTEST_VERIFY2 (Z.land v (mask PStoreCap) =? 0)
          "perms %jx (storecap present)" [AInt v]) ;;
     when (HAS_CHERI_PERM_CAP g)
       (CHERIOSTEST_VERIFY2 (negb (Z.land v (mask PCap) =? 0))
          "perms %jx (cap missing)" [AInt v]) ;;
     CHERIOSTEST_VERIFY2 (Z.land v (mask PStoreLocalCap) =? 0)
       "perms %jx (store_local_cap present)" [AInt v] ;;
     when (is_zcheri g)
       (CHERIOSTEST_VERIFY2 (negb (Z.land v (mask PCap) =? 0))
          "perms %jx (cap missing)" [AInt v]) ;;
     cheriostest_success).
End Signals.

(** ** A kernel that delivers signals *)

Record sig_state := SigState {
  s_action : option (sig_handler * Z);    (* of SIGUSR1, with its flags *)
  s_alt : option (Z * Z);                 (* the alternate stack, when enabled *)
}.

(** What such a kernel is free to choose. *)
Class SigPolicy (cap : Type) := {
  info_signo : Z;
  info_code : Z;
  local_at : option (Z * Z) -> Z;         (* a local of the handler, by its stack *)
  return_cap : cap;
  malloc_block : cap;
}.

Section SigRules.
Context {cap W : Type} {CH : Cheri cap} {SG : SignalOS cap W} {SP : SigPolicy cap}.

Abbreviation USR1 := (SIG_USR1 (cap := cap) (W := W)).
Abbreviation ONSTACK := (SA_ONSTACK (cap := cap) (W := W)).
Abbreviation STKSZ := (SIGSTKSZ (cap := cap) (W := W)).

Definition stack_used (flags : Z) (v : sig_state) : option (Z * Z) :=
  if flag_set flags ONSTACK then s_alt v else None.

Class SigRules := {
  sabs : W -> sig_state;
  g_sigaction h flags w : exists w', sys_sigaction (cap := cap) USR1 h flags w = (inl tt, w') /\
    sabs w' = SigState (Some (h, flags)) (s_alt (sabs w));
  g_kill h flags w : s_action (sabs w) = Some (h, flags) -> exists w',
    sys_kill_self USR1 w =
      (inl tt, [(h, Delivery USR1 (info_signo (cap := cap)) (info_code (cap := cap))
                      (local_at (cap := cap) (stack_used flags (sabs w))) return_cap)], w') /\
    sabs w' = sabs w;
  g_altstack a n flags w : exists w',
    sys_sigaltstack (cap := cap) a n flags w = (inl tt, w') /\
    sabs w' = SigState (s_action (sabs w))
                (if flag_set flags (SS_DISABLE (cap := cap) (W := W)) then None else Some (a, n));
  g_malloc w : exists w', os_malloc STKSZ w = (Some malloc_block, w') /\ sabs w' = sabs w;
  g_onstack : flag_set ONSTACK ONSTACK = true;
  g_disable : flag_set (SS_DISABLE (cap := cap) (W := W)) (SS_DISABLE (cap := cap) (W := W)) = true;
}.
End SigRules.
Arguments SigRules cap W {_ _}.

Section Facts.
Context {cap W : Type} {CH : Cheri cap} {LC : Libc cap W} {HP : Perms} {IR : InitRegs cap W}
  {SG : SignalOS cap W} {SP : SigPolicy cap} {RR : SigRules cap W}.
Context (g : config).

Abbreviation steps := (Judge.steps (cap := cap) (W := W) sabs).
Abbreviation judged := (Judge.judged (cap := cap) (W := W) sabs).
Abbreviation USR1 := (SIG_USR1 (cap := cap) (W := W)).
Abbreviation STKSZ := (SIGSTKSZ (cap := cap) (W := W)).
Abbreviation ONSTACK := (SA_ONSTACK (cap := cap) (W := W)).

Lemma steps_must (f : W -> (unit + Z) * W) msg v (P : sig_state -> Prop) :
  (forall w, sabs w = v -> exists w', f w = (inl tt, w') /\ P (sabs w')) ->
  steps (must f msg) v (fun _ => P).
Proof.
  intros Hf. eapply steps_bind; [apply (steps_try _ _ (fun _ => P))|].
  - intros w Hw. destruct (Hf w Hw) as (w' & ? & ?). by exists tt, w'.
  - intros r v' (a & -> & HP'). by apply steps_ret.
Qed.

Lemma steps_install h flags v :
  steps (install h flags) v (fun _ v' => v' = SigState (Some (h, flags)) (s_alt v)).
Proof.
  apply steps_must. intros w Hw. destruct (g_sigaction h flags w) as (w' & ? & Ha).
  exists w'. by rewrite Ha, Hw.
Qed.

(** What the handler that is installed leaves in the statics. *)
Lemma steps_kill h flags a :
  steps kill_usr1 (SigState (Some (h, flags)) a) (fun st v' =>
    v' = SigState (Some (h, flags)) a /\
    st = run_handler statics0 (h, Delivery USR1 (info_signo (cap := cap))
           (info_code (cap := cap))
           (local_at (cap := cap) (if flag_set flags ONSTACK then a else None)) return_cap)).
Proof.
  intros s [Hs Hv]. destruct (g_kill h flags (p_world s)) as (w' & Hr & Ha); [by rewrite Hv|].
  unfold kill_usr1, libcall, mbind, eff_bind. rewrite Hr. eexists _, _, _.
  split; [reflexivity|]. split; [split; [reflexivity|]|split; [exact Hs|simpl; congruence]].
  by rewrite Hv.
Qed.

Lemma steps_altstack v :
  steps new_altstack v (fun a v' => a = cheri_address_get (malloc_block (cap := cap)) /\
    v' = SigState (s_action v) (if flag_set 0 (SS_DISABLE (cap := cap) (W := W)) then None
                                else Some (a, STKSZ))).
Proof.
  eapply (steps_bind _ _ _ (fun p v' => p = Some malloc_block /\ v' = v)).
  { apply steps_libcall. intros w Hw. destruct (g_malloc w) as (w' & -> & Ha).
    by rewrite <- Hw. }
  intros p ? [-> ->]. eapply steps_bind.
  { apply (steps_must _ _ _ (fun v' => v' = SigState (s_action v)
      (if flag_set 0 (SS_DISABLE (cap := cap) (W := W)) then None
       else Some (cheri_address_get (malloc_block (cap := cap)), STKSZ)))).
    intros w Hw. destruct (g_altstack (cheri_address_get (malloc_block (cap := cap))) STKSZ 0 w)
      as (w' & ? & Ha). exists w'. by rewrite Ha, Hw. }
  intros [] ? ->. by apply steps_ret.
Qed.

(** The return capability that the last test accepts. *)
Definition returns_to_sigcode (c : cap) : Prop :=
  cheri_length_get c <= sigcode_length (cap := cap) (W := W) g /\
  cheri_is_sealed c = true /\ sentry g c.

(** C39: on a kernel that delivers SIGUSR1 once, to the handler that was installed
    last, the test of a plain handler passes; the test of the arguments passes
    exactly when the information has the signal and says that a user sent it;
    the tests of the alternate stack pass exactly when the local of the handler
    is inside it while it is enabled, and outside once it is disabled; the test
    of the return capability exactly when it is a sentry of the signal code. *)
Theorem signal_tests_verdict (s : proc cap W) :
  shared s ->
  let a := cheri_address_get (malloc_block (cap := cap)) in
  let on_altstack x := a <= x < u64 (a + STKSZ) in
  succeeds (ct_func signal_handler_usr1) s /\
  (succeeds (ct_func signal_sigaction_usr1) s <->
   info_signo (cap := cap) = USR1 /\ info_code (cap := cap) = SI_USER (cap := cap) (W := W)) /\
  (succeeds (ct_func (signal_sigaltstack g)) s <->
   on_altstack (local_at (cap := cap) (Some (a, STKSZ)))) /\
  (succeeds (ct_func signal_sigaltstack_disable) s <->
   ~ on_altstack (local_at (cap := cap) None)) /\
  (succeeds (ct_func (signal_returncap g)) s <-> returns_to_sigcode return_cap).
Proof.
  intros Hs a on_altstack. set (v := sabs (p_world s)).
  assert (forall (m : test cap W unit) P, judged m v P -> succeeds m s <-> P) as Hj
    by (intros m P H; by apply H).
  assert (forall v' (P : Prop), P -> judged (cheriostest_success (A := unit)) v' P) as Hok
    by (intros; by apply judged_success).
  split; [|split; [|split; [|split]]].
  - apply (Hj _ True); [|done].
    eapply judged_bind; [apply steps_install|]. intros _ ? ->.
    eapply judged_bind; [apply steps_kill|]. intros st ? [-> ->].
    eapply judged_iff; [eapply judged_checks; [apply _|by apply (Hok _ True)]|].
    simpl. by rewrite Z.eqb_refl.
  - apply Hj. eapply judged_bind; [apply steps_install|]. intros _ ? ->.
    eapply judged_bind; [apply steps_kill|]. intros st ? [-> ->].
    eapply judged_iff.
    { eapply judged_checks; [apply _|]. eapply judged_checks; [apply _|].
      eapply judged_checks; [apply _|by apply (Hok _ True)]. }
    simpl. rewrite Z.eqb_refl, !andb_true_r, !negb_involutive, !Z.eqb_eq. tauto.
  - apply Hj. eapply judged_bind; [apply steps_altstack|]. intros x ? [-> ->]. fold a.
    eapply judged_bind; [apply steps_install|]. intros _ ? ->.
    eapply judged_bind; [apply steps_kill|]. intros st ? [-> ->].
    eapply judged_iff.
    { eapply judged_checks; [apply _|]. eapply judged_checks; [apply _|by apply (Hok _ True)]. }
    simpl. rewrite g_onstack, !andb_true_r, !negb_true_iff, Z.ltb_ge, Z.leb_gt.
    unfold on_altstack. tauto.
  - apply Hj. eapply judged_bind; [apply steps_altstack|]. intros x ? [-> ->]. fold a.
    eapply judged_bind.
    { apply (steps_must _ _ _ (fun v' => v' = SigState (s_action v) None)). intros w Hw.
      destruct (g_altstack a STKSZ (SS_DISABLE (cap := cap) (W := W)) w) as (w' & ? & Ha).
      exists w'. by rewrite Ha, Hw, g_disable. }
    intros _ ? ->. eapply judged_bind; [apply steps_install|]. intros _ ? ->.
    eapply judged_bind; [apply steps_kill|]. intros st ? [-> ->].
    eapply judged_iff; [eapply judged_checks; [apply _|by apply (Hok _ True)]|].
    simpl. rewrite g_onstack, andb_true_r, negb_true_iff, <- not_true_iff_false, andb_true_iff,
      Z.leb_le, Z.ltb_lt. unfold on_altstack. tauto.
  - apply Hj. eapply judged_bind; [apply steps_install|]. intros _ ? ->.
    eapply judged_bind; [apply steps_kill|]. intros st ? [-> ->]. simpl.
    set (c := return_cap). unfold returns_to_sigcode, sentry, has_perm, flag_set, HAS_CHERI_PERM_CAP.
    eapply judged_iff; [repeat (eapply judged_checks; [apply _|]); by apply (Hok _ True)|].
    destruct (HAS_CHERI_PERM_LOAD_STORE_CAP g), (is_zcheri g); cbn [app forallb chk_ok];
      rewrite ?andb_true_r, ?negb_true_iff, ?negb_false_iff, ?Z.eqb_eq, ?Z.eqb_neq, ?Z.leb_le;
      naive_solver.
Qed.
End Facts.

(** ** A concrete kernel *)

(** kill(2) says SI_USER; the alternate stack is at 0x50000. *)
#[export] Instance toy_sig_policy : SigPolicy scap := {|
  info_signo := 30;
  info_code := 0x10001;
  local_at st := match st with Some (a, n) => a + n - 64 | None => 0x7ff000 end;
  return_cap := SCap true 0x100000 0x100000 64 (mask PExecute) (-2);
  malloc_block := toy_cap 0x50000 0x8000 0 0;
|}.

#[export] Instance toy_signals : SignalOS scap sig_state := {|
  sys_sigaction _ h flags v := (inl tt, SigState (Some (h, flags)) (s_alt v));
  sys_kill_self sig v :=
    (inl tt,
     match s_action v with
     | Some (h, flags) =>
         [(h, Delivery sig info_signo info_code
                (local_at (if flag_set flags 1 then s_alt v else None)) return_cap)]
     | None => []
     end, v);
  sys_sigaltstack a n flags v :=
    (inl tt, SigState (s_action v) (if flag_set flags 4 then None else Some (a, n)));
  os_malloc _ v := (Some malloc_block, v);
  SIG_USR1 := 30;
  SA_SIGINFO := 64;
  SA_ONSTACK := 1;
  SS_DISABLE := 4;
  SI_USER := 0x10001;
  SIGSTKSZ := 0x8000;
|}.

#[export] Instance toy_sig_rules : SigRules scap sig_state.
Proof.
  refine {| sabs v := v |}; try done; try (intros; by eexists).
  intros h flags v Ha. simpl. rewrite Ha. by eexists.
Defined.

Definition sig_proc : proc scap sig_state :=
  Proc (Some child_state_zero) 0 ∅ "" "" 0 (SigState None None).

Lemma signal_tests_verdict_witness :
  succeeds (ct_func (signal_sigaltstack toy_freebsd)) sig_proc /\
  succeeds (ct_func signal_sigaltstack_disable) sig_proc /\
  succeeds (ct_func (signal_returncap toy_freebsd)) sig_proc.
Proof.
  destruct (signal_tests_verdict (RR := toy_sig_rules) toy_freebsd sig_proc)
    as (_ & _ & H1 & H2 & H3); [by eexists|].
  split; [|split].
  - apply H1. by vm_compute.
  - apply H2. intros [_ H]. by vm_compute in H.
  - apply H3. split; [by vm_compute|]. split; [done|].
    split_and!; try reflexivity; done.
Defined.
