(* ===== verification/Formats.v ===== *)
(** * Formats: capabilities as text (cheriostest_strfcap.c, cheriostest_printf.c)

    The tests of strfcap(3) and of the conversion %#lp print a capability and
    read the text back with sscanf(3), or compare it with what printf(3) makes
    of the same number.  The C library that prints is a parameter; the scanner
    [sscanf_cap] and the checks are translated from the sources.

    [render] is the documented text of a capability; [cap_text_round_trip]
    says that the checks accept it, and that a text they accept determines what
    they looked at; [format_tests_verdict] says which libraries pass the five
    tests.  [ref_strfcap] is a library that does. *)

From S2P Require Import Prelude Printf Cheri TagMem Perms Harness Toy StringTests Registers AddrGap Kernel Judge Traps.

Class CapFormat (cap : Type) := {
  (* maxsize, format, capability: the result, and the string in the buffer *)
  os_strfcap : Z -> string -> cap -> Z * string;
  cheri_flags_set : cap -> Z -> cap;
  (* CHERI_FLAGS_CAP_MODE and CHERI_FLAGS_INT_MODE, where they are defined *)
  flags_modes : option (Z * Z);
}.

(** ** sscanf(str, "%lx [%15[^,],%lx-%lx] %31s", ...) *)

(** The number of conversions, and what they stored: a member that the count
    does not cover is not set. *)
Record scanned := Scanned {
  sc_tokens : Z; sc_address : Z; sc_letters : string; sc_base_text : Z; sc_top_text : Z;
  sc_attr : string }.

Definition scan_lit (c : ascii) (s : string) : option string :=
  match s with
  | String d s' => if Ascii.eqb c d then Some s' else None
  | EmptyString => None
  end.

(** At most [n] characters of [p]: what was read, and the rest. *)
Fixpoint scan_while (p : ascii -> bool) (n : nat) (s : string) : string * string :=
  match n, s with
  | S k, String c s' =>
      if p c then let '(a, b) := scan_while p k s' in (String c a, b) else (EmptyString, s)
  | _, _ => (EmptyString, s)
  end.

(** A conversion that needs at least one character. *)
Definition scan_some (p : ascii -> bool) (n : nat) (s : string) : option (string * string) :=
  match scan_while p n s with
  | (EmptyString, _) => None
  | r => Some r
  end.

Definition no_comma (c : ascii) : bool := negb (Ascii.eqb c ",").
Definition no_space (c : ascii) : bool := negb (isspace c).

Definition scan_attr (s : string) : option (string * string) :=
  s ← scan_lit "]" s; scan_some no_space 31 (skip_space (skip_space s)).

Definition sscanf_cap (str : string) : scanned :=
  match scan_llx str with
  | None => Scanned (if String.eqb (skip_space str) EmptyString then -1 else 0) 0 "" 0 0 ""
  | Some (addr, s) =>
  match scan_lit "[" (skip_space s) ≫= scan_some no_comma 15 with
  | None => Scanned 1 addr "" 0 0 ""
  | Some (perms, s) =>
  match scan_lit "," s ≫= scan_llx with
  | None => Scanned 2 addr perms 0 0 ""
  | Some (base, s) =>
  match scan_lit "-" s ≫= scan_llx with
  | None => Scanned 3 addr perms base 0 ""
  | Some (top, s) =>
  match scan_attr s with
  | None => Scanned 4 addr perms base top ""
  | Some (attr, _) => Scanned 5 addr perms base top attr
  end end end end end.

Example sscanf_cap_ex1 :
  sscanf_cap "0x4000 [rwRW,0x4000-0x4040] (invalid,sealed)"
  = Scanned 5 0x4000 "rwRW" 0x4000 0x4040 "(invalid,sealed)".
Proof. reflexivity. Qed.

Example sscanf_cap_ex2 : sc_tokens (sscanf_cap "0x4") = 1.
Proof. reflexivity. Qed.

(** Without permissions the conversion of the letters fails. *)
Example sscanf_cap_ex3 : sc_tokens (sscanf_cap "0x10 [,0x10-0x20]") = 1.
Proof. reflexivity. Qed.

(** ** The checks of one capability *)

Record perm_row := PermRow { pl_defined : bool; pl_perm : perm; pl_char : ascii; pl_msg : string }.

Section Formats.
Context {cap W : Type} {CH : Cheri cap} {CM : CapMem cap} {LC : Libc cap W} {KE : Kernel cap W}
  {HP : Perms} {IR : InitRegs cap W} {CF : CapFormat cap}.
Context (g : config).

Definition perm_rows (executive : bool) : list perm_row :=
  [PermRow true PLoad "r" "Missing 'r' permission for %s";
   PermRow true PStore "w" "Missing 'w' permission for %s";
   PermRow true PExecute "x" "Missing 'x' permission for %s";
   PermRow (HAS_CHERI_PERM_LOAD_STORE_CAP g) PLoadCap "R" "Missing 'R' permission for %s";
   PermRow (HAS_CHERI_PERM_LOAD_STORE_CAP g) PStoreCap "W" "Missing 'W' permission for %s";
   PermRow (HAS_CHERI_PERM_CAP g) PCap "C" "Missing 'C' permission for %s";
   PermRow (HAS_CHERI_PERM_LOAD_MUTABLE g) PLoadMutable "M" "Missing 'l' permission for %s";
   PermRow executive PExecutive "E" "Missing 'E' permission for %s"]%char%string.

(** [if ((perms & PERM) != 0) { if ( *permsp != c) failure; permsp++; }] *)
Definition perm_step (p : cap) (descr : string) (row : perm_row) (permsp : string)
    : test cap W string :=
  if pl_defined row && flag_set (cheri_perms_get p) (mask (pl_perm row)) then
    match scan_lit (pl_char row) permsp with
    | Some permsp' => mret permsp'
    | None => cheriostest_failure_errx (pl_msg row) [AStr descr]
    end
  else mret permsp.

Fixpoint perm_steps (p : cap) (descr : string) (rows : list perm_row) (permsp : string)
    : test cap W string :=
  match rows with
  | [] => mret permsp
  | row :: rows' => permsp' ← perm_step p descr row permsp; perm_steps p descr rows' permsp'
  end.

Definition check_attr (p : cap) (descr attr : string) : test cap W unit :=
  (if cheri_tag_get p then
     fail_if (strstr attr "invalid") "Tagged cap marked invalid for %s" [AStr descr]
   else
     fail_if (negb (strstr attr "invalid")) "Untagged cap not marked invalid for %s"
       [AStr descr]) ;;
  let type := cheri_type_get p in
  if type =? CHERI_OTYPE_UNSEALED (cap := cap) then
    fail_if (strstr attr "sealed") "Unsealed cap marked as sealed for %s" [AStr descr] ;;
    fail_if (strstr attr "sentry") "Unsealed cap marked as sentry for %s" [AStr descr]
  else if type =? CHERI_OTYPE_SENTRY (cap := cap) then
    fail_if (strstr attr "sealed") "Sentry cap marked as sealed for %s" [AStr descr] ;;
    fail_if (negb (strstr attr "sentry")) "Sentry cap not marked as sentry for %s" [AStr descr]
  else
    fail_if (negb (strstr attr "sealed")) "Sealed cap not marked as sealed for %s" [AStr descr] ;;
    fail_if (strstr attr "sentry") "Sealed cap marked as sentry for %s" [AStr descr].

(** [cheri_flags_get(p) == CHERI_FLAGS_CAP_MODE] on code. *)
Definition in_cap_mode (p : cap) (cap_mode : Z) : bool :=
  flag_set (cheri_perms_get p) (mask PExecute) && (cheri_flags_get p =? cap_mode).

Definition check_mode (p : cap) (descr attr : string) : test cap W unit :=
  match flags_modes (cap := cap) with
  | None => mret tt
  | Some (cap_mode, _) =>
      if in_cap_mode p cap_mode then
        fail_if (negb (strstr attr "capmode"))
          "Capability mode code cap not marked capmode for %s" [AStr descr]
      else
        fail_if (strstr attr "capmode")
          "Non-capability mode code cap marked capmode for %s" [AStr descr]
  end.

(** What the functions of the two files have in common, from the text on: the
    one of printf(3) has neither the letter E nor the check of the mode. *)
Definition check_cap_text (executive mode : bool) (str : string) (p : cap)
    (expected_tokens : Z) (descr : string) : test cap W unit :=
  let sc := sscanf_cap str in
  let tokens := sc_tokens sc in
  fail_if (negb (tokens =? expected_tokens)) "Mismatched tokens for %s, expected %d got %d"
    [AStr descr; AInt expected_tokens; AInt tokens] ;;
  fail_if (negb (sc_address sc =? cheri_address_get p)) "Mismatched address for %s" [AStr descr] ;;
  if tokens =? 1 then mret tt else
  permsp ← perm_steps p descr (perm_rows executive) (sc_letters sc);
  fail_if (negb (String.eqb permsp EmptyString)) "Extra permissions '%s' for %s"
    [AStr permsp; AStr descr] ;;
  fail_if (negb (sc_base_text sc =? cheri_base_get p)) "Mismatched base for %s" [AStr descr] ;;
  fail_if (negb (sc_top_text sc =? u64 (cheri_base_get p + cheri_length_get p)))
    "Mismatched top for %s" [AStr descr] ;;
  if tokens =? 4 then mret tt else
  check_attr p descr (sc_attr sc) ;;
  when mode (check_mode p descr (sc_attr sc)).

Definition test_strfcap_C_cap_one (p : cap) (expected_tokens : Z) (descr : string)
    : test cap W unit :=
  check_cap_text (is_aarch64 g) true (os_strfcap 128 "%C" p).2 p expected_tokens descr.

Definition test_printf_cap_one (p : cap) (expected_tokens : Z) (descr : string)
    : test cap W unit :=
  check_cap_text false false (format (LC := LC) "%#lp" [APtr p]) p expected_tokens descr.

(** ** Numbers *)

Record fmt_row := FmtRow { fr_strfcap : string; fr_printf : string; fr_desc : string }.

Definition formats : list fmt_row :=
  (if is_freebsd g then
     [FmtRow "%S" "%ld" "plain number";
      FmtRow "%.4S" "%.4ld" "precision";
      FmtRow "%16S" "%16ld" "padding";
      FmtRow "%-16S" "%-16ld" "right align padding";
      FmtRow "%16.4S" "%16.4ld" "padding and precision"]
   else
     [FmtRow "%S" "%lu" "plain number";
      FmtRow "%.4S" "%.4lu" "precision";
      FmtRow "%16S" "%16lu" "padding";
      FmtRow "%-16S" "%-16lu" "right align padding";
      FmtRow "%16.4S" "%16.4lu" "padding and precision"]) ++
  [FmtRow "%xS" "%lx" "plain number";
   FmtRow "%#xS" "%#lx" "0x prefix";
   FmtRow "%#.4xS" "%#.4lx" "precision";
   FmtRow "%#16xS" "%#16lx" "padding";
   FmtRow "%#16xS" "%#16lx" "right align padding";
   FmtRow "%#16.4xS" "%#16.4lx" "padding and precision";
   FmtRow "%XS" "%lX" "uppercase, plain number";
   FmtRow "%#XS" "%#lX" "uppercase, 0x prefix";
   FmtRow "%#.4XS" "%#.4lX" "uppercase, precision";
   FmtRow "%#16XS" "%#16lX" "uppercase, padding";
   FmtRow "%#16XS" "%#16lX" "uppercase, right align padding";
   FmtRow "%#16.4XS" "%#16.4lX" "uppercase, padding and precision"]%string.

Definition spec_chars : list ascii := bytes_of "ablopstv".

(** [*strchr(format, 'S') = c] *)
Fixpoint set_spec (c : ascii) (fmt : string) : string :=
  match fmt with
  | String d fmt' => if Ascii.eqb d "S" then String c fmt' else String d (set_spec c fmt')
  | EmptyString => EmptyString
  end.

(** The switch over the specifier; a size_t. *)
Definition spec_value (scp : ascii) (c : cap) : option Z :=
  if Ascii.eqb scp "a" then Some (cheri_address_get c)
  else if Ascii.eqb scp "b" then Some (cheri_base_get c)
  else if Ascii.eqb scp "l" then Some (cheri_length_get c)
  else if Ascii.eqb scp "o" then Some (cheri_offset_get c)
  else if Ascii.eqb scp "p" then Some (cheri_perms_get c)
  else if Ascii.eqb scp "s" then Some (u64 (cheri_type_get c))
  else if Ascii.eqb scp "S" then Some (u64 (cheri_type_get c))
  else if Ascii.eqb scp "t" then Some (u64 (cheri_base_get c + cheri_length_get c))
  else if Ascii.eqb scp "v" then Some (tag_int c)
  else None.

(** [snprintf(buf, size, fmt, ...)], as the string in the buffer. *)
Definition snprintf_str (size : nat) (fmt : string) (ap : list (arg cap)) : string :=
  String.substring 0 (size - 1) (format (LC := LC) fmt ap).

Definition expected_number (scp : ascii) (value : Z) (row : fmt_row) : string :=
  if Ascii.eqb scp "S" && (value =? u64 (CHERI_OTYPE_UNSEALED (cap := cap))) then "<unsealed>"
  else if Ascii.eqb scp "S" && (value =? u64 (CHERI_OTYPE_SENTRY (cap := cap))) then "<sentry>"
  else snprintf_str 33 (fr_printf row) [AInt value].

Definition number_step (c : cap) (cap_desc : string) (row : fmt_row) (scp : ascii)
    : test cap W unit :=
  let fmt := set_spec scp (fr_strfcap row) in
  let '(ret_s, str_s) := os_strfcap 33 fmt c in
  CHERIOSTEST_VERIFY2 (0 <? ret_s) "strfcap() failed with %s" [AStr fmt] ;;
  match spec_value scp c with
  | None => cheriostest_failure_errx "Internal error: unknown specifier %c"
              [AInt (Z.of_N (N_of_ascii scp))]
  | Some value =>
      let str_p := expected_number scp value row in
      fail_if (negb (String.eqb str_s str_p))
        "strfcap (%s) and printf (%s) don't match when formatting %s with %s (%s)"
        [AStr str_s; AStr str_p; AStr cap_desc; AStr (fr_desc row); AStr fmt]
  end.

Definition hex_bytes_format : string :=
  "%02hhx%02hhx%02hhx%02hhx%02hhx%02hhx%02hhx%02hhx%02hhx%02hhx%02hhx%02hhx%02hhx%02hhx%02hhx%02hhx".

Definition raw_hex (c : cap) : string :=
  snprintf_str 33 hex_bytes_format (map AInt (cap_bytes c)).

Definition test_strfcap_number_one_cap (c : cap) (cap_desc : string) : test cap W unit :=
  foreach formats (fun row => foreach spec_chars (number_step c cap_desc row)) ;;
  let '(ret_s, str_s) := os_strfcap 33 "%B" c in
  fail_if (negb (u64 ret_s =? 32))
    "wrong size (%zu) returned from %%B format should be (%zu) string: (%s)"
    [AInt ret_s; AInt 32; AStr str_s] ;;
  fail_if (negb (String.eqb str_s (raw_hex c)))
    "strfcap output (%s) does not match byte-wise printf (%s) when formatting %s with %%B (raw hex)"
    [AStr str_s; AStr (raw_hex c); AStr cap_desc].

(** ** The tests *)

Definition SIGNATURE_WARN : string :=
  "The function signatures of strfcap() differ on Morello Linux and CheriBSD".

Abbreviation local n := (stack_local (W := W) n).

Definition number_caps : list (cap * string) :=
  let foop := local 4 in
  [(cap_of_int 4, "scalar (4)"); (foop, "stack array"); (cheri_tag_clear foop, "stack array");
   (cheri_ddc_get (W := W), "DDC"); (cheri_pcc_get (W := W), "PCC")]%string.

Definition strfcap_numbers : cheri_test cap W :=
  CHERIOSTEST "strfcap_numbers" "Checks of formats of a single number"
    (foreach number_caps (fun x => test_strfcap_number_one_cap x.1 x.2) ;;
     cheriostest_success_with_warn SIGNATURE_WARN).

Definition strfcap_T : cheri_test cap W :=
  CHERIOSTEST "strfcap_T" "Check of tag in format"
    (let c := local 128 in
     let str_t := (os_strfcap 128 "%C" c).2 in
     let str_u := (os_strfcap 128 "%C" (cheri_tag_clear c)).2 in
     fail_if (String.eqb str_t str_u)
       "Tagged (%s) and untagged (%s) %%C formatted output is identical"
       [AStr str_t; AStr str_u] ;;
     let str_u := (os_strfcap 128 "%T%C" (cheri_tag_clear c)).2 in
     fail_if (negb (String.eqb str_t str_u))
       "Tagged (%s) and untagged (%s) differs when untagged formatted with %%T%%C"
       [AStr str_t; AStr str_u] ;;
     cheriostest_success_with_warn SIGNATURE_WARN).

Definition strfcap_textual : cheri_test cap W :=
  CHERIOSTEST "strfcap_textual" "Checks of %? and %%"
    (let c := local 128 in
     let fmt := "%%"%string in
     let str := (os_strfcap 128 fmt cap_null).2 in
     fail_if (negb (String.eqb str "%")) "(%s) produced (%s)" [AStr fmt; AStr str] ;;
     let fmt := "%?12345%a"%string in
     let str := (os_strfcap 128 fmt c).2 in
     fail_if (negb (has_prefix "12345" str)) "(%s) did not include 12345 (%s)"
       [AStr fmt; AStr str] ;;
     let fmt := "%?12345%A"%string in
     let str := (os_strfcap 128 fmt c).2 in
     fail_if (negb (String.eqb str "")) "(%s) of valid cap is not empty (%s)"
       [AStr fmt; AStr str] ;;
     let str := (os_strfcap 128 fmt (cheri_tag_clear c)).2 in
     fail_if (negb (has_prefix "12345" str)) "(%s) of untagged cap did not include 12345 (%s)"
       [AStr fmt; AStr str] ;;
     cheriostest_success_with_warn SIGNATURE_WARN).

(** The formats of the scalar 4, the texts and the messages. *)
Definition scalar_rows : list (string * string * string) :=
  [("%#C", "0x4", "Wrong output for simple scalar '%s'");
   ("%#.4C", "0x0004", "Wrong output for simple scalar with precision '%s'");
   ("%#8C", "     0x4", "Wrong output for simple scalar with padding '%s'");
   ("%#-8C", "0x4     ", "Wrong output for simple scalar with left adjust padding '%s'");
   ("%#8.4C", "  0x0004", "Wrong output for simple scalar with precision and padding '%s'")]%string.

(** The capabilities of the test, with the tokens that it expects. *)
Definition c_caps : list (cap * Z * string) :=
  let datap := local 64 in
  (if cfg_purecap g then [(return_address (W := W), 5, "return address"%string)] else []) ++
  match flags_modes (cap := cap) with
  | Some (cap_mode, int_mode) =>
      let pcc_alt := cheri_pcc_get (W := W) in
      if cfg_purecap g
      then [(cheri_flags_set pcc_alt int_mode, 4, "non-capability mode PCC"%string)]
      else [(cheri_flags_set pcc_alt cap_mode, 5, "capability mode PCC"%string)]
  | None => []
  end ++
  [(datap, 4, "stack array"%string); (cheri_tag_clear datap, 5, "untagged stack array"%string)].

Definition strfcap_C : cheri_test cap W :=
  CHERIOSTEST "strfcap_C" "Various checks of %C (%A and %P indirectly)"
    (foreach scalar_rows (fun '(fmt, text, msg) =>
       let '(ret, data) := os_strfcap 64 fmt (cap_of_int 4) in
       CHERIOSTEST_VERIFY2 (0 <? ret) "strfcap() failed" [] ;;
       fail_if (negb (String.eqb data text)) msg [AStr data]) ;;
     foreach c_caps (fun '(p, n, descr) => test_strfcap_C_cap_one p n descr) ;;
     cheriostest_success_with_warn SIGNATURE_WARN).

Definition printf_scalar_rows : list (string * string * string) :=
  [("%#lp", "0x4", "Wrong output for simple scalar");
   ("%#.4lp", "0x0004", "Wrong output for simple scalar with precision");
   ("%#8lp", "     0x4", "Wrong output for simple scalar with padding");
   ("%#-8lp", "0x4     ", "Wrong output for simple scalar with left adjust padding");
   ("%#8.4lp", "  0x0004", "Wrong output for simple scalar with precision and padding")]%string.

Definition printf_caps : list (cap * Z * string) :=
  let datap := local 64 in
  (if cfg_purecap g then [(return_address (W := W), 5, "return address"%string)] else []) ++
  [(datap, 4, "stack array"%string); (cheri_tag_clear datap, 5, "untagged stack array"%string)].

(** In a hybrid program [%p] prints the pointer, [%lp] the capability. *)
Definition printf_cap : cheri_test cap W :=
  CHERIOSTEST "printf_cap" "Various checks of %#p"
    (let datap := local 64 in
     foreach printf_scalar_rows (fun '(fmt, text, msg) =>
       fail_if (negb (String.eqb (snprintf_str 64 fmt [APtr (cap_of_int 4)]) text)) msg []) ;;
     when (negb (cfg_purecap g))
       (let data := snprintf_str 32 "%lp" [APtr datap] in
        let data2 := snprintf_str 32 "%p" [APtr (cap_of_int (cheri_address_get datap))] in
        fail_if (negb (String.eqb data data2)) "Mismatched output for %%p (%s) and %%lp (%s)"
          [AStr data2; AStr data]) ;;
     foreach printf_caps (fun '(p, n, descr) => test_printf_cap_one p n descr) ;;
     cheriostest_success).
End Formats.

(** ** What the checks accept *)

Inductive seal_kind := Unsealed | Sentry | Sealed.

Section Accepted.
Context {cap W : Type} {CH : Cheri cap} {HP : Perms} {CF : CapFormat cap}.
Context (g : config).

Definition seal_of (p : cap) : seal_kind :=
  if cheri_type_get p =? CHERI_OTYPE_UNSEALED (cap := cap) then Unsealed
  else if cheri_type_get p =? CHERI_OTYPE_SENTRY (cap := cap) then Sentry
  else Sealed.

Definition marked (p : cap) (row : perm_row) : bool :=
  pl_defined row && flag_set (cheri_perms_get p) (mask (pl_perm row)).

(** The letters of a capability. *)
Fixpoint letters (p : cap) (rows : list perm_row) : string :=
  match rows with
  | [] => EmptyString
  | row :: rows' =>
      if marked p row then String (pl_char row) (letters p rows') else letters p rows'
  end.

Definition top_of (p : cap) : Z := u64 (cheri_base_get p + cheri_length_get p).

Definition capmode (p : cap) : bool :=
  match flags_modes (cap := cap) with
  | Some (cap_mode, _) => in_cap_mode p cap_mode
  | None => false
  end.

(** The documented attributes. *)
Definition attributes (mode : bool) (p : cap) : list string :=
  (if cheri_tag_get p then [] else ["invalid"]) ++
  (match seal_of p with Unsealed => [] | Sentry => ["sentry"] | Sealed => ["sealed"] end) ++
  (if mode && capmode p then ["capmode"] else []).

Fixpoint join (l : list string) : string :=
  match l with
  | [] => EmptyString
  | [s] => s
  | s :: l' => s +:+ "," +:+ join l'
  end.

Definition attr_text (l : list string) : string :=
  match l with [] => EmptyString | _ => " (" +:+ join l +:+ ")" end.

(** [%x] or [%#x]. *)
Definition hexnum (alt : bool) (n : Z) : string :=
  fmt_unsigned (FSpec alt false false 0 None LL) false 16 n.

(** The text of a capability: "0x4000 [rwRW,0x4000-0x4040] (invalid)". *)
Definition render (executive mode alt : bool) (p : cap) : string :=
  hexnum alt (cheri_address_get p) +:+ " [" +:+ letters p (perm_rows g executive) +:+ "," +:+
  hexnum alt (cheri_base_get p) +:+ "-" +:+ hexnum alt (top_of p) +:+ "]" +:+
  attr_text (attributes mode p).

Definition tokens_of (mode : bool) (p : cap) : Z :=
  if decide (attributes mode p = []) then 4 else 5.

Definition attr_ok (p : cap) (attr : string) : bool :=
  Bool.eqb (strstr attr "invalid") (negb (cheri_tag_get p)) &&
  (Bool.eqb (strstr attr "sealed") (match seal_of p with Sealed => true | _ => false end) &&
   Bool.eqb (strstr attr "sentry") (match seal_of p with Sentry => true | _ => false end)).

Definition mode_ok (p : cap) (attr : string) : bool :=
  match flags_modes (cap := cap) with
  | Some _ => Bool.eqb (strstr attr "capmode") (capmode p)
  | None => true
  end.

(** The conditions of [check_cap_text], as one. *)
Definition cap_text_ok (executive mode : bool) (str : string) (p : cap) (expected : Z) : bool :=
  let sc := sscanf_cap str in
  (sc_tokens sc =? expected) && ((sc_address sc =? cheri_address_get p) &&
  (if sc_tokens sc =? 1 then true else
   String.eqb (sc_letters sc) (letters p (perm_rows g executive)) &&
   ((sc_base_text sc =? cheri_base_get p) && ((sc_top_text sc =? top_of p) &&
   (if sc_tokens sc =? 4 then true else
    attr_ok p (sc_attr sc) && (if mode then mode_ok p (sc_attr sc) else true)))))).
End Accepted.

Section Facts.
Context {cap W : Type} {CH : Cheri cap} {CM : CapMem cap} {LC : Libc cap W} {KE : Kernel cap W}
  {HP : Perms} {IR : InitRegs cap W} {CF : CapFormat cap}.
Context (g : config).

(** The checks look at no state of the kernel. *)
Abbreviation decides := (Judge.decides (cap := cap) (fun _ : W => tt)).
Abbreviation judged := (Judge.judged (cap := cap) (fun _ : W => tt)).

Lemma decides_fail_if b msg ap v :
  decides (fail_if b msg ap) v (negb b) (fun _ v' => v' = v).
Proof. destruct b; [apply fails_errx|by apply steps_ret]. Qed.

Lemma decides_letters p descr rows permsp :
  decides (perm_steps p descr rows permsp) tt (has_prefix (letters p rows) permsp)
    (fun rest _ => permsp = letters p rows +:+ rest).
Proof.
  revert permsp. induction rows as [|row rows IH]; intros permsp; simpl.
  { by apply steps_ret. }
  unfold perm_step. fold (marked p row). destruct (marked p row); simpl.
  - destruct permsp as [|d permsp]; simpl; [by apply fails_bind, fails_errx|].
    destruct (Ascii.eqb (pl_char row) d) eqn:E; simpl; [|by apply fails_bind, fails_errx].
    apply Ascii.eqb_eq in E as <-.
    apply (decides_steps _ _ _ _ (fun a v' => a = permsp /\ v' = tt)); [by apply steps_ret|].
    intros ? ? [-> ->]. eapply decides_mono; [apply IH|]. by intros ? ? ->.
  - apply (decides_steps _ _ _ _ (fun a v' => a = permsp /\ v' = tt)); [by apply steps_ret|].
    intros ? ? [-> ->]. apply IH.
Qed.

Lemma eqb_prefix (l s : string) : has_prefix l s && String.eqb s l = String.eqb s l.
Proof.
  destruct (String.eqb_spec s l) as [->|]; [|apply andb_false_r].
  rewrite andb_true_r. induction l as [|c l IH]; [done|]. simpl. by rewrite Ascii.eqb_refl.
Qed.

Lemma decides_eq {A} (m : test cap W A) v b b' (Q : A -> unit -> Prop) :
  b = b' -> decides m v b Q -> decides m v b' Q.
Proof. by intros ->. Qed.

Lemma decides_fail_if_is b b' msg ap v :
  negb b = b' -> decides (fail_if b msg ap) v b' (fun _ v' => v' = v).
Proof. intros H. eapply decides_eq; [exact H|apply decides_fail_if]. Qed.

Lemma decides_then {B} (m : test cap W unit) (k : test cap W B) b b' R :
  decides m tt b (fun _ v' => v' = tt) -> (b = true -> decides k tt b' R) ->
  decides (m ;; k) tt (b && b') R.
Proof. intros Hm Hk. eapply decides_bind; [exact Hm|]. intros Hb _ ? ->. by apply Hk. Qed.

Lemma eqb_app_l (l s : string) : String.eqb (l +:+ s) l = String.eqb s EmptyString.
Proof.
  induction l as [|c l IH].
  - by destruct s.
  - change (String c l +:+ s) with (String c (l +:+ s)). cbn [String.eqb].
    by rewrite Ascii.eqb_refl.
Qed.

Lemma decides_attr p descr attr :
  decides (check_attr p descr attr) tt (attr_ok p attr) (fun _ v' => v' = tt).
Proof.
  unfold check_attr, attr_ok, seal_of. apply decides_then; [|intros _].
  { destruct (cheri_tag_get p); apply decides_fail_if_is; by destruct (strstr attr "invalid"). }
  destruct (cheri_type_get p =? _); [|destruct (cheri_type_get p =? _)];
    (apply decides_then; [|intros _]; apply decides_fail_if_is; by destruct (strstr attr _)).
Qed.

Lemma decides_mode p descr attr :
  decides (check_mode p descr attr) tt (mode_ok p attr) (fun _ v' => v' = tt).
Proof.
  unfold check_mode, mode_ok, capmode. destruct flags_modes as [[cap_mode int_mode]|].
  - destruct (in_cap_mode p cap_mode); apply decides_fail_if_is; by destruct (strstr attr _).
  - by apply steps_ret.
Qed.

(** The checks go on exactly when the text describes the capability. *)
Lemma decides_cap_text executive mode str p expected descr :
  decides (check_cap_text g executive mode str p expected descr) tt
    (cap_text_ok g executive mode str p expected) (fun _ v' => v' = tt).
Proof.
  unfold check_cap_text, cap_text_ok. set (sc := sscanf_cap str).
  apply decides_then; [by apply decides_fail_if_is, negb_involutive|intros _].
  apply decides_then; [by apply decides_fail_if_is, negb_involutive|intros _].
  destruct (sc_tokens sc =? 1); [by apply steps_ret|].
  rewrite <- eqb_prefix, <- andb_assoc.
  eapply decides_bind; [apply decides_letters|]. intros _ rest [] Hrest.
  apply decides_then; [|intros _].
  { apply decides_fail_if_is. rewrite negb_involutive, Hrest.
    symmetry. apply eqb_app_l. }
  apply decides_then; [by apply decides_fail_if_is, negb_involutive|intros _].
  apply decides_then; [by apply decides_fail_if_is, negb_involutive|intros _].
  destruct (sc_tokens sc =? 4); [by apply steps_ret|].
  apply decides_then; [apply decides_attr|intros _].
  destruct mode; [apply decides_mode|by apply steps_ret].
Qed.

End Facts.

(** ** The scanner reads the text back *)

Lemma hexnum_spec alt n : 0 <= n < 2 ^ 64 ->
  hexnum alt n = (if alt && negb (n =? 0) then "0x"%string else EmptyString) +:+ hex 0 n.
Proof.
  intros Hn. unfold hexnum, fmt_unsigned, pad, zero_fill, prec_digits. cbn [f_prec f_left f_zero
    f_width f_len len_bits f_alt andb Nat.sub replicate_str]. rewrite wrapu_small by done.
  by destruct alt, (n =? 0).
Qed.

Lemma scan_llx_0x n c tl : 0 <= n < 2 ^ 64 -> digit_val c = None ->
  scan_llx ("0x" +:+ (hex 0 n +:+ String c tl)) = Some (n, String c tl).
Proof.
  intros Hn Hc. change ("0x" +:+ ?t) with (String "0" (String "x" t)). unfold scan_llx.
  cbn [skip_space]. change (isspace "0") with false. cbn [scan_sign].
  change (Ascii.eqb "0" "-") with false. change (Ascii.eqb "0" "+") with false. cbn [scan_0x].
  change (Ascii.eqb "0" "0" && (Ascii.eqb "x" "x" || Ascii.eqb "x" "X")) with true.
  pose proof (strtou_hex 0 n (String c tl) Hn) as Hs. destruct (numeral_hex 0 n) as [Hne Hall];
    [lia|].
  destruct (hex 0 n) as [|a s]; [done|]. cbn [bytes_of] in Hall.
  apply Forall_cons in Hall as [[d Hd] _]. rewrite string_app_cons in *. cbn [strtou] in Hs.
  rewrite Hd in *. destruct (hex_digit_plain a d Hd) as (_ & _ & _ & _ & Hr).
  rewrite (proj2 (Z.ltb_lt d 16)) in Hs by lia.
  rewrite Z.mul_0_l, Z.add_0_l in Hs. rewrite Hs, Hc. by rewrite (proj2 (Z.leb_gt _ _)) by lia.
Qed.

Lemma string_app_assoc (s t u : string) : (s +:+ t) +:+ u = s +:+ (t +:+ u).
Proof.
  induction s as [|c s IH]; [done|].
  change (String c ((s +:+ t) +:+ u) = String c (s +:+ (t +:+ u))). by rewrite IH.
Qed.

Lemma scan_llx_hexnum alt n c tl :
  0 <= n < 2 ^ 64 -> digit_val c = None -> Ascii.eqb c "x" || Ascii.eqb c "X" = false ->
  scan_llx (hexnum alt n +:+ String c tl) = Some (n, String c tl).
Proof.
  intros Hn Hc Hx. rewrite hexnum_spec by done. rewrite string_app_assoc.
  destruct (alt && negb (n =? 0)); [by apply scan_llx_0x|by apply scan_llx_hex].
Qed.

Lemma scan_while_stop p n s c tl :
  Forall (fun d => p d = true) (bytes_of s) -> (String.length s <= n)%nat -> p c = false ->
  scan_while p n (s +:+ String c tl) = (s, String c tl).
Proof.
  revert n. induction s as [|d s IH]; intros n Hs Hn Hc.
  - destruct n; [done|]. change (scan_while p (S n) (String c tl) = (EmptyString, String c tl)).
    cbn [scan_while]. by rewrite Hc.
  - destruct n as [|n]; simpl in Hn; [lia|]. cbn [bytes_of] in Hs.
    apply Forall_cons in Hs as [Hd Hs]. rewrite string_app_cons. cbn [scan_while].
    rewrite Hd, IH by (try done; lia). done.
Qed.

Lemma string_app_nil_r (s : string) : s +:+ EmptyString = s.
Proof.
  induction s as [|c s IH]; [done|].
  change (String c (s +:+ EmptyString) = String c s). by rewrite IH.
Qed.

Section RoundTrip.
Context {cap W : Type} {CH : Cheri cap} {CL : CheriLaws cap} {CM : CapMem cap} {LC : Libc cap W}
  {KE : Kernel cap W} {HP : Perms} {IR : InitRegs cap W} {CF : CapFormat cap}.
Context (g : config).

Abbreviation letters_of executive p := (letters p (perm_rows g executive)).

Lemma letters_chars p rows :
  Forall (fun c => exists row, row ∈ rows /\ pl_char row = c) (bytes_of (letters p rows)) /\
  (String.length (letters p rows) <= length rows)%nat.
Proof.
  induction rows as [|row rows [IHc IHl]]; [split; [constructor|done]|].
  assert (Forall (fun c => exists r, r ∈ row :: rows /\ pl_char r = c)
    (bytes_of (letters p rows))) as Hall.
  { eapply Forall_impl; [exact IHc|]. intros c (r & Hr & Hc). exists r. by split; [right|]. }
  simpl. destruct (marked p row); simpl; [|split; [exact Hall|lia]].
  split; [|lia]. constructor; [|exact Hall]. exists row. by split; [left|].
Qed.

Lemma letters_no_comma executive p :
  Forall (fun c => no_comma c = true) (bytes_of (letters_of executive p)) /\
  (String.length (letters_of executive p) <= 15)%nat.
Proof.
  destruct (letters_chars p (perm_rows g executive)) as [Hc Hl]. split; [|simpl in *; lia].
  eapply Forall_impl; [exact Hc|]. intros c (row & Hrow & <-).
  unfold perm_rows in Hrow. repeat (apply elem_of_cons in Hrow as [->|Hrow]); try done.
  by apply not_elem_of_nil in Hrow.
Qed.

(** What the scanner makes of the attributes. *)
Definition attr_read (mode : bool) (p : cap) : option string :=
  match attributes mode p with
  | [] => None
  | l => Some ("(" +:+ join l +:+ ")")
  end.

Lemma scan_attr_text mode p :
  fst <$> scan_attr ("]" +:+ attr_text (attributes mode p)) = attr_read mode p.
Proof.
  unfold attr_read, attributes.
  by destruct (cheri_tag_get p), (seal_of p), (mode && capmode p).
Qed.

Lemma sscanf_render executive mode alt p : letters_of executive p <> EmptyString ->
  sscanf_cap (render g executive mode alt p) =
  match attr_read mode p with
  | None => Scanned 4 (cheri_address_get p) (letters_of executive p) (cheri_base_get p)
              (top_of p) ""
  | Some a => Scanned 5 (cheri_address_get p) (letters_of executive p) (cheri_base_get p)
                (top_of p) a
  end.
Proof.
  intros Hne. unfold sscanf_cap, render.
  pose proof (address_range p). pose proof (base_range p).
  assert (0 <= top_of p < 2 ^ 64) by (by apply wrapu_range).
  destruct (letters_no_comma executive p) as [Hcomma Hlen]. set (l := letters_of executive p) in *.
  change (" [" +:+ ?t) with (String " " (String "[" t)).
  rewrite scan_llx_hexnum by done. cbn [skip_space]. change (isspace " ") with true.
  change (isspace "[") with false. cbn iota.
  change (scan_lit "[" (String "[" ?t)) with (Some t). cbn [mbind option_bind].
  change ("," +:+ ?t) with (String "," t). unfold scan_some at 1.
  rewrite scan_while_stop by done. destruct l as [|c l']; [done|].
  change (scan_lit "," (String "," ?t)) with (Some t). cbn [mbind option_bind].
  change ("-" +:+ ?t) with (String "-" t). rewrite scan_llx_hexnum by done.
  change (scan_lit "-" (String "-" ?t)) with (Some t). cbn [mbind option_bind].
  change ("]" +:+ ?t) with (String "]" t). rewrite scan_llx_hexnum by done.
  rewrite <- scan_attr_text. change (String "]" ?t) with ("]" +:+ t).
  by destruct (scan_attr _) as [[a r]|].
Qed.

(** The attributes that were read say what the checks ask of them. *)
Lemma attr_read_ok mode p : 
  match attr_read mode p with
  | None => attributes mode p = []
  | Some a => attributes mode p <> [] /\ attr_ok p a = true /\
              (mode = true -> mode_ok p a = true)
  end.
Proof.
  unfold attr_read, attributes, attr_ok, mode_ok, capmode.
  destruct flags_modes as [[m i]|].
  - destruct (cheri_tag_get p), (seal_of p), mode, (in_cap_mode p m); simpl; try done;
      (split; [done|]; split; [done|]; intros; by vm_compute).
  - rewrite andb_false_r. destruct (cheri_tag_get p), (seal_of p); simpl; done.
Qed.
(** *** What a text determines *)

Lemma letters_inj (p q : cap) rows : NoDup (map pl_char rows) ->
  letters p rows = letters q rows -> Forall (fun row => marked p row = marked q row) rows.
Proof.
  assert (forall (p : cap) row rows t, NoDup (map pl_char (row :: rows)) ->
    letters p rows <> String (pl_char row) t) as Hfirst.
  { intros p' row rows' t Hn Heq. destruct (letters_chars p' rows') as [Hc _].
    rewrite Heq in Hc. cbn [bytes_of] in Hc. apply Forall_cons in Hc as [(r & Hr & Hrc) _].
    simpl in Hn. apply NoDup_cons in Hn as [Hn _]. apply Hn. rewrite <- Hrc.
    by apply list_elem_of_fmap_2. }
  induction rows as [|row rows IH]; intros Hn Heq; [constructor|].
  pose proof Hn as Hn'. simpl in Hn'. apply NoDup_cons in Hn' as [_ Hn'].
  simpl in Heq. destruct (marked p row) eqn:Ep, (marked q row) eqn:Eq.
  - injection Heq as Heq. constructor; [congruence|by apply IH].
  - by apply eq_sym, Hfirst in Heq.
  - by apply Hfirst in Heq.
  - constructor; [congruence|by apply IH].
Qed.

Lemma perm_rows_nodup executive : NoDup (map pl_char (perm_rows g executive)).
Proof. apply (bool_decide_eq_true_1 _). by vm_compute. Qed.

Lemma top_inj (p q : cap) : cheri_base_get p = cheri_base_get q -> top_of p = top_of q ->
  cheri_length_get p = cheri_length_get q.
Proof.
  unfold top_of, wrapu. intros Hb Ht. rewrite Hb in Ht.
  pose proof (length_range p) as Hp. pose proof (length_range q) as Hq.
  rewrite <- (Z.mod_small _ _ Hp), <- (Z.mod_small _ _ Hq).
  replace (cheri_length_get p) with (cheri_base_get q + cheri_length_get p - cheri_base_get q)
    by lia.
  replace (cheri_length_get q) with (cheri_base_get q + cheri_length_get q - cheri_base_get q)
    by lia.
  rewrite <- Zminus_mod_idemp_l, Ht. by rewrite Zminus_mod_idemp_l.
Qed.

Lemma attr_inj p q a : attr_ok p a = true -> attr_ok q a = true ->
  cheri_tag_get p = cheri_tag_get q /\ seal_of p = seal_of q.
Proof.
  unfold attr_ok.
  destruct (cheri_tag_get p), (cheri_tag_get q), (seal_of p), (seal_of q), (strstr a "invalid"),
    (strstr a "sealed"), (strstr a "sentry"); simpl; intros; (done || by split).
Qed.

Lemma mode_inj p q a : mode_ok p a = true -> mode_ok q a = true -> capmode p = capmode q.
Proof.
  unfold mode_ok. destruct flags_modes as [[m i]|] eqn:E; [|unfold capmode; by rewrite E].
  intros Hp Hq. apply eqb_prop in Hp, Hq. congruence.
Qed.

(** The body goes on. *)
Definition returns (m : test cap W unit) (s : proc cap W) : Prop := exists s', m s = (Val tt, s').

Lemma returns_iff executive mode str p n descr s : shared s ->
  (returns (check_cap_text g executive mode str p n descr) s <->
   cap_text_ok g executive mode str p n = true).
Proof.
  intros Hs. pose proof (decides_cap_text (W := W) g executive mode str p n descr) as H.
  assert (Judge.on (fun _ : W => tt) tt s) as Hon by done. unfold returns.
  destruct (cap_text_ok g executive mode str p n).
  - split; [done|intros _]. destruct (H s Hon) as ([] & s' & _ & Hr & _). by exists s'.
  - split; [|done]. intros [s' Hr]. destruct (H s Hon) as (s1 & _ & Hr' & _).
    rewrite Hr in Hr'. done.
Qed.

Lemma render_ok executive mode alt p : letters_of executive p <> EmptyString ->
  cap_text_ok g executive mode (render g executive mode alt p) p (tokens_of mode p) = true.
Proof.
  intros Hne. unfold cap_text_ok, tokens_of. rewrite sscanf_render by done.
  pose proof (attr_read_ok mode p) as Ha. destruct (attr_read mode p) as [a|]; simpl.
  - destruct Ha as (Hn & Hok & Hm). rewrite decide_False by done. rewrite !Z.eqb_refl.
    rewrite String.eqb_refl, Hok. simpl. destruct mode; [by apply Hm|done].
  - rewrite decide_True by done. by rewrite !Z.eqb_refl, String.eqb_refl.
Qed.

(** The two functions differ in the letter E. *)
Lemma extra_letter_rejected mode mode' alt p n :
  letters_of false p <> letters_of true p ->
  cap_text_ok g false mode' (render g true mode alt p) p n = false.
Proof.
  intros Hne. assert (letters_of true p <> EmptyString) as He.
  { intros Ht. apply Hne. rewrite Ht.
    change (perm_rows g true) with (take 7 (perm_rows g false) ++ drop 7 (perm_rows g true)) in Ht.
    change (perm_rows g false) with (take 7 (perm_rows g false) ++ drop 7 (perm_rows g false)).
    revert Ht. generalize (take 7 (perm_rows g false)). intros l. induction l as [|r l IH].
    - done.
    - simpl. by destruct (marked p r). }
  unfold cap_text_ok. rewrite sscanf_render by done.
  assert (String.eqb (letters_of true p) (letters_of false p) = false) as E
    by (apply String.eqb_neq; congruence).
  destruct (attr_read mode p); cbn [sc_tokens sc_letters sc_address sc_base_text sc_top_text];
    rewrite E; simpl; by rewrite !andb_false_r.
Qed.

(** C20: the checks of a text accept the documented text of every capability
    that has a permission; a text with four or five tokens that they accept for
    two capabilities gives both the same address, base, length and letters, and
    with five tokens the same tag and kind of seal (with four it says nothing of
    them); and the checks of printf(3), which know no letter E, refuse the text
    of strfcap(3) for every executive capability. *)
Theorem cap_text_round_trip executive mode (s : proc cap W) :
  shared s ->
  (forall alt p descr, letters_of executive p <> EmptyString ->
   returns (check_cap_text g executive mode (render g executive mode alt p) p
              (tokens_of mode p) descr) s) /\
  (forall str n p q d1 d2, n = 4 \/ n = 5 ->
   returns (check_cap_text g executive mode str p n d1) s ->
   returns (check_cap_text g executive mode str q n d2) s ->
   cheri_address_get p = cheri_address_get q /\ cheri_base_get p = cheri_base_get q /\
   cheri_length_get p = cheri_length_get q /\
   Forall (fun row => marked p row = marked q row) (perm_rows g executive) /\
   (n = 5 -> cheri_tag_get p = cheri_tag_get q /\ seal_of p = seal_of q /\
             (mode = true -> capmode p = capmode q))) /\
  (forall alt p n descr, flag_set (cheri_perms_get p) (mask PExecutive) = true ->
   ~ returns (check_cap_text g false false (render g true mode alt p) p n descr) s).
Proof.
  intros Hs. split; [|split].
  - intros alt p descr Hne. apply returns_iff; [done|]. by apply render_ok.
  - intros str n p q d1 d2 Hn Hp Hq. apply returns_iff in Hp, Hq; [|done..].
    unfold cap_text_ok in Hp, Hq. set (sc := sscanf_cap str) in *.
    apply andb_prop in Hp as [Ht Hp], Hq as [_ Hq]. apply Z.eqb_eq in Ht.
    apply andb_prop in Hp as [Ha Hp], Hq as [Ha' Hq]. apply Z.eqb_eq in Ha, Ha'.
    assert ((sc_tokens sc =? 1) = false) as E by (apply Z.eqb_neq; lia). rewrite E in Hp, Hq.
    apply andb_prop in Hp as [Hl Hp], Hq as [Hl' Hq]. apply String.eqb_eq in Hl, Hl'.
    apply andb_prop in Hp as [Hb Hp], Hq as [Hb' Hq]. apply Z.eqb_eq in Hb, Hb'.
    apply andb_prop in Hp as [Hto Hp], Hq as [Hto' Hq]. apply Z.eqb_eq in Hto, Hto'.
    split; [congruence|]. split; [congruence|]. split; [apply top_inj; congruence|].
    split; [apply letters_inj; [apply perm_rows_nodup|congruence]|].
    intros ->. rewrite Ht in Hp, Hq. cbn [Z.eqb Pos.eqb] in Hp, Hq.
    apply andb_prop in Hp as [Hat Hm], Hq as [Hat' Hm'].
    destruct (attr_inj _ _ _ Hat Hat'). split_and!; [done|done|].
    intros ->. by eapply mode_inj.
  - intros alt p n descr He. rewrite returns_iff by done. rewrite extra_letter_rejected; [done|].
    intros Heq. unfold perm_rows in Heq. simpl in Heq. unfold marked in Heq. simpl in Heq.
    rewrite He in Heq. repeat (case_match; simpl in Heq; [injection Heq as Heq|]); done.
Qed.
End RoundTrip.

(** ** What the five tests accept *)

Section Verdict.
Context {cap W : Type} {CH : Cheri cap} {CL : CheriLaws cap} {CM : CapMem cap} {LC : Libc cap W}
  {KE : Kernel cap W} {HP : Perms} {IR : InitRegs cap W} {CF : CapFormat cap}.
Context (g : config).

Abbreviation decides := (Judge.decides (cap := cap) (fun _ : W => tt)).

(** The number that a specifier stands for. *)
Definition field (scp : ascii) (c : cap) : Z := default 0 (spec_value scp c).

(** strfcap(3) prints the number as printf(3) does. *)
Definition number_ok (c : cap) (row : fmt_row) (scp : ascii) : Prop :=
  let '(ret, str) := os_strfcap 33 (set_spec scp (fr_strfcap row)) c in
  0 < ret /\ str = snprintf_str (W := W) 33 (fr_printf row) [AInt (field scp c)].

Definition numbers_ok (c : cap) : Prop :=
  (forall row scp, row ∈ formats g -> scp ∈ spec_chars -> number_ok c row scp) /\
  let '(ret, str) := os_strfcap 33 "%B" c in u64 ret = 32 /\ str = raw_hex (W := W) c.

(** The first part, evaluated. *)
Definition numbers_okb (c : cap) : bool :=
  forallb (fun row => forallb (fun scp =>
    let '(ret, str) := os_strfcap 33 (set_spec scp (fr_strfcap row)) c in
    (0 <? ret) && String.eqb str (snprintf_str (W := W) 33 (fr_printf row) [AInt (field scp c)]))
    spec_chars) (formats g).

Lemma numbers_okb_spec c : numbers_okb c = true ->
  forall row scp, row ∈ formats g -> scp ∈ spec_chars -> number_ok c row scp.
Proof.
  intros H row scp Hrow Hscp. unfold numbers_okb in H. rewrite forallb_forall in H.
  specialize (H row (proj1 (list_elem_of_In _ _) Hrow)). rewrite forallb_forall in H.
  specialize (H scp (proj1 (list_elem_of_In _ _) Hscp)). unfold number_ok.
  destruct (os_strfcap 33 _ c). apply andb_prop in H as [H1 H2].
  split; [by apply Z.ltb_lt|by apply String.eqb_eq].
Qed.

(** A check that decides a proposition. *)
Definition checks_prop {A} (m : test cap W A) (P : Prop) : Prop :=
  exists b, decides m tt b (fun _ v => v = tt) /\ (b = true <-> P).

Lemma checks_then {B} (m : test cap W unit) (k : test cap W B) P Q :
  checks_prop m P -> checks_prop k Q -> checks_prop (m ;; k) (P /\ Q).
Proof.
  intros (b & Hm & Hb) (b' & Hk & Hb'). exists (b && b'). split.
  - by apply decides_then.
  - by rewrite andb_true_iff, Hb, Hb'.
Qed.

Lemma checks_verify_prop b msg ap (P : Prop) : (b = true <-> P) ->
  checks_prop (CHERIOSTEST_VERIFY2 b msg ap) P.
Proof. intros Hb. exists b. split; [apply decides_verify|done]. Qed.

Lemma checks_fail_prop b msg ap (P : Prop) : (negb b = true <-> P) ->
  checks_prop (fail_if b msg ap) P.
Proof. intros Hb. exists (negb b). split; [apply decides_fail_if|done]. Qed.

Lemma checks_all {A} (f : A -> test cap W unit) (P : A -> Prop) l :
  (forall x, x ∈ l -> checks_prop (f x) (P x)) ->
  checks_prop (foreach l f) (forall x, x ∈ l -> P x).
Proof.
  intros Hf. induction l as [|x l IH].
  { exists true. split; [by apply steps_ret|]. split; [|done].
    intros _ x Hx. by apply not_elem_of_nil in Hx. }
  destruct (checks_then (f x) (foreach l f) (P x) (forall y, y ∈ l -> P y)) as (b & Hd & Hb).
  - apply Hf. left.
  - apply IH. intros y Hy. apply Hf. by right.
  - exists b. split; [exact Hd|]. rewrite Hb. split.
    + intros [Hx Hl] y Hy. apply elem_of_cons in Hy as [->|Hy]; [done|by apply Hl].
    + intros H. split; [apply H; left|]. intros y Hy. apply H. by right.
Qed.

Lemma checks_prop_iff {A} (m : test cap W A) P Q :
  checks_prop m P -> (P <-> Q) -> checks_prop m Q.
Proof. intros (b & Hm & Hb) HPQ. exists b. split; [exact Hm|]. by rewrite Hb. Qed.

Lemma neg_eqb (a b : string) : negb (negb (String.eqb a b)) = true <-> a = b.
Proof. rewrite negb_involutive. apply String.eqb_eq. Qed.

(** The whole of a body: it succeeds exactly when [P] holds. *)
Definition judges {A} (m : test cap W A) (P : Prop) : Prop :=
  forall s, shared s -> (succeeds m s <-> P).

Lemma judges_then {A} (m : test cap W unit) (next : test cap W A) P Q :
  checks_prop m P -> judges next Q -> judges (m ;; next) (P /\ Q).
Proof.
  intros (b & Hm & Hb) Hn s Hs.
  apply (judged_decides (absf := fun _ : W => tt) m (fun _ => next) tt b (fun _ v => v = tt)).
  - exact Hm.
  - intros E _ v' _ s' [Hs' _]. rewrite (Hn s' Hs'). rewrite <- Hb. naive_solver.
  - rewrite Hb. by intros [? _].
  - by split.
Qed.

Lemma judges_success : judges (cheriostest_success (A := unit)) True.
Proof. intros s Hs. split; [done|]. intros _. by apply succeeds_success. Qed.

Lemma judges_success_with_warn msg :
  judges (cheriostest_success_with_warn (A := unit) msg) True.
Proof. intros s Hs. split; [done|]. intros _. by apply succeeds_success_with_warn. Qed.

Lemma judges_iff {A} (m : test cap W A) P Q s :
  judges m P -> shared s -> (P <-> Q) -> (succeeds m s <-> Q).
Proof. intros Hm Hs HPQ. by rewrite (Hm s Hs). Qed.

Lemma checks_when (b : bool) m P :
  checks_prop m P -> checks_prop (when b m) (b = true -> P).
Proof.
  intros Hm. destruct b; [eapply checks_prop_iff; [exact Hm|]; naive_solver|].
  exists true. split; [by apply steps_ret|]. naive_solver.
Qed.

Lemma number_step_checks c d row scp : scp ∈ spec_chars ->
  checks_prop (number_step (W := W) c d row scp) (number_ok c row scp).
Proof.
  intros Hin. unfold number_step, number_ok, field.
  assert (exists v, spec_value scp c = Some v /\
    expected_number (W := W) scp v row = snprintf_str (W := W) 33 (fr_printf row) [AInt v])
    as (v & -> & He).
  { unfold spec_chars in Hin. simpl in Hin.
    repeat (apply elem_of_cons in Hin as [->|Hin]; [by eexists|]).
    by apply not_elem_of_nil in Hin. }
  destruct (os_strfcap 33 _ c) as [ret str]. rewrite He.
  apply checks_then; [apply checks_verify_prop, Z.ltb_lt|apply checks_fail_prop, neg_eqb].
Qed.

Lemma number_one_checks c d :
  checks_prop (test_strfcap_number_one_cap (W := W) g c d) (numbers_ok c).
Proof.
  unfold test_strfcap_number_one_cap, numbers_ok.
  destruct (os_strfcap 33 "%B" c) as [ret str].
  apply checks_then; [|apply checks_then;
    [apply checks_fail_prop; by rewrite negb_involutive, Z.eqb_eq|apply checks_fail_prop, neg_eqb]].
  eapply checks_prop_iff.
  - apply checks_all. intros row Hrow. apply checks_all. intros scp Hscp.
    by apply number_step_checks.
  - naive_solver.
Qed.

Lemma cap_text_checks executive mode str p n d :
  checks_prop (check_cap_text (W := W) g executive mode str p n d)
    (cap_text_ok g executive mode str p n = true).
Proof. eexists. split; [apply decides_cap_text|done]. Qed.

Abbreviation text_C p := (os_strfcap 128 "%C" p).2.
Abbreviation local n := (stack_local (W := W) n).

(** C40: the test of numbers passes exactly when, for each of its five
    capabilities, strfcap(3) prints each of the eight numbers in each of the
    seventeen formats as printf(3) does, and the bytes with %B; the test of %T
    exactly when the tag shows in the text of a capability and %T hides that;
    the test of the text directives exactly when they act as the test says; and
    the tests of whole capabilities exactly when the scalar is printed as in
    their tables and each text describes its capability. *)
Theorem format_tests_verdict (s : proc cap W) :
  shared s ->
  (succeeds (ct_func (strfcap_numbers g)) s <->
   forall x, x ∈ number_caps (cap := cap) (W := W) -> numbers_ok x.1) /\
  (succeeds (ct_func strfcap_T) s <->
   let c := local 128 in
   text_C c <> text_C (cheri_tag_clear c) /\
   (os_strfcap 128 "%T%C" (cheri_tag_clear c)).2 = text_C c) /\
  (succeeds (ct_func strfcap_textual) s <->
   let c := local 128 in
   (os_strfcap 128 "%%" cap_null).2 = "%"%string /\
   has_prefix "12345" (os_strfcap 128 "%?12345%a" c).2 = true /\
   (os_strfcap 128 "%?12345%A" c).2 = ""%string /\
   has_prefix "12345" (os_strfcap 128 "%?12345%A" (cheri_tag_clear c)).2 = true) /\
  (succeeds (ct_func (strfcap_C g)) s <->
   (forall fmt text msg, (fmt, text, msg) ∈ scalar_rows ->
    0 < (os_strfcap 64 fmt (cap_of_int 4)).1 /\ (os_strfcap 64 fmt (cap_of_int 4)).2 = text) /\
   (forall p n descr, (p, n, descr) ∈ c_caps (W := W) g ->
    cap_text_ok g (is_aarch64 g) true (text_C p) p n = true)) /\
  (succeeds (ct_func (printf_cap g)) s <->
   (forall fmt text msg, (fmt, text, msg) ∈ printf_scalar_rows ->
    snprintf_str (W := W) 64 fmt [APtr (cap_of_int 4)] = text) /\
   (cfg_purecap g = false ->
    snprintf_str (W := W) 32 "%lp" [APtr (local 64)] =
    snprintf_str (W := W) 32 "%p" [APtr (cap_of_int (cheri_address_get (local 64)))]) /\
   (forall p n descr, (p, n, descr) ∈ printf_caps (W := W) g ->
    cap_text_ok g false false (format (LC := LC) "%#lp" [APtr p]) p n = true)).
Proof.
  intros Hs. split; [|split; [|split; [|split]]].
  - eapply judges_iff; [|exact Hs|].
    + apply judges_then; [|apply judges_success_with_warn].
      apply (checks_all _ (fun x => numbers_ok x.1)). intros [c d] _. apply number_one_checks.
    + naive_solver.
  - eapply judges_iff; [|exact Hs|].
    + apply judges_then; [apply checks_fail_prop, reflexivity|].
      apply judges_then; [apply checks_fail_prop, neg_eqb|apply judges_success_with_warn].
    + simpl. rewrite negb_true_iff, String.eqb_neq. naive_solver.
  - eapply judges_iff; [|exact Hs|].
    + apply judges_then; [apply checks_fail_prop, neg_eqb|].
      apply judges_then; [apply checks_fail_prop; by rewrite negb_involutive|].
      apply judges_then; [apply checks_fail_prop, neg_eqb|].
      apply judges_then; [apply checks_fail_prop; by rewrite negb_involutive|].
      apply judges_success_with_warn.
    + naive_solver.
  - eapply judges_iff; [|exact Hs|].
    + apply judges_then; [|apply judges_then; [|apply judges_success_with_warn]].
      * apply (checks_all _ (fun x => let '(fmt, text, msg) := x in
          0 < (os_strfcap 64 fmt (cap_of_int 4)).1 /\
          (os_strfcap 64 fmt (cap_of_int 4)).2 = text)).
        intros [[fmt text] msg] _. destruct (os_strfcap 64 fmt _) as [ret data].
        apply checks_then; [apply checks_verify_prop, Z.ltb_lt|apply checks_fail_prop, neg_eqb].
      * apply (checks_all _ (fun x => let '(p, n, descr) := x in
          cap_text_ok g (is_aarch64 g) true (text_C p) p n = true)).
        intros [[p n] descr] _. apply cap_text_checks.
    + split.
      * intros (H1 & H2 & _). split; [intros fmt text msg H; apply (H1 _ H)|].
        intros p n descr H. apply (H2 _ H).
      * intros [H1 H2]. split; [intros [[fmt text] msg] H; by apply (H1 _ _ msg)|].
        split; [|done]. intros [[p n] descr] H. by apply (H2 _ _ descr).
  - eapply judges_iff; [|exact Hs|].
    + apply judges_then; [|apply judges_then; [|apply judges_then; [|apply judges_success]]].
      * apply (checks_all _ (fun x => let '(fmt, text, msg) := x in
          snprintf_str (W := W) 64 fmt [APtr (cap_of_int 4)] = text)).
        intros [[fmt text] msg] _. apply checks_fail_prop, neg_eqb.
      * apply checks_when, checks_fail_prop, neg_eqb.
      * apply (checks_all _ (fun x => let '(p, n, descr) := x in
          cap_text_ok g false false (format (LC := LC) "%#lp" [APtr p]) p n = true)).
        intros [[p n] descr] _. apply cap_text_checks.
    + rewrite negb_true_iff. split.
      * intros (H1 & H2 & H3 & _). split; [intros fmt text msg H; apply (H1 _ H)|].
        split; [exact H2|]. intros p n descr H. apply (H3 _ H).
      * intros (H1 & H2 & H3). split; [intros [[fmt text] msg] H; by apply (H1 _ _ msg)|].
        split; [exact H2|]. split; [|done]. intros [[p n] descr] H. by apply (H3 _ _ descr).
Qed.
End Verdict.

(** ** A library that prints as documented *)

Definition with_tag (t : bool) (c : scap) : scap :=
  SCap (t || sc_tag c) (sc_addr c) (sc_base c) (sc_len c) (sc_perms c) (sc_type c).

(** An integer: untagged, with the bounds and permissions of no object. *)
Definition is_scalar (c : scap) : bool := bool_decide (c = cap_of_int (sc_addr c)).

Section Reference.
Context (g : config).

#[local] Instance no_modes : CapFormat scap := {|
  os_strfcap _ _ _ := (0, EmptyString);
  cheri_flags_set c _ := c;
  flags_modes := None;
|}.

(** One conversion of a number; [base] is set by x and X. *)
Definition ref_number (f : fspec) (base : option bool) (v : Z) : string :=
  let f := FSpec (f_alt f) (f_left f) (f_zero f) (f_width f) (f_prec f) LL in
  match base with
  | Some upper => fmt_unsigned f upper 16 v
  | None => if is_freebsd g then fmt_signed f v else fmt_unsigned f false 10 v
  end.

Definition ref_whole (f : fspec) (c : scap) : string :=
  if is_scalar c then ref_number f (Some false) (sc_addr c)
  else render (HP := toy_perms) g (is_aarch64 g) true (f_alt f) c.

(** One conversion; [tagged] after %T. *)
Definition ref_convert (f : fspec) (base : option bool) (tagged : bool) (ch : ascii) (c : scap)
    : option string :=
  if Ascii.eqb ch "C" then Some (ref_whole f (with_tag tagged c))
  else if Ascii.eqb ch "A" then Some (attr_text (attributes true (with_tag tagged c)))
  else if Ascii.eqb ch "P" then
    Some (letters (HP := toy_perms) c (perm_rows g (is_aarch64 g)))
  else if Ascii.eqb ch "B" then
    Some (vformat (fun _ (_ : scap) => EmptyString) hex_bytes_format (map AInt (cap_bytes c)))
  else ref_number f base <$> spec_value ch c.

(** [pend] is the text after %?, which a conversion to nothing drops. *)
Fixpoint ref_from (c : scap) (tagged : bool) (pend : option string)
    (st : option (fspec * option bool)) (fmt : string) : string :=
  match fmt with
  | EmptyString => EmptyString
  | String ch fmt' =>
      match st with
      | None =>
          if Ascii.eqb ch "%" then ref_from c tagged pend (Some (fspec0, None)) fmt'
          else match pend with
               | Some t => ref_from c tagged (Some (t +:+ String ch "")) None fmt'
               | None => String ch (ref_from c tagged None None fmt')
               end
      | Some (f, base) =>
          if Ascii.eqb ch "%" then String ch (ref_from c tagged pend None fmt')
          else if Ascii.eqb ch "?" then ref_from c tagged (Some EmptyString) None fmt'
          else if Ascii.eqb ch "T" then ref_from c true pend None fmt'
          else if Ascii.eqb ch "x" then ref_from c tagged pend (Some (f, Some false)) fmt'
          else if Ascii.eqb ch "X" then ref_from c tagged pend (Some (f, Some true)) fmt'
          else match ref_convert f base tagged ch c with
               | Some t =>
                   (if String.eqb t EmptyString then EmptyString
                    else default EmptyString pend +:+ t) +:+ ref_from c tagged None None fmt'
               | None =>
                   match spec_step f ch with
                   | Some f' => ref_from c tagged pend (Some (f', base)) fmt'
                   | None => EmptyString
                   end
               end
      end
  end.

Definition ref_strfcap (maxsize : Z) (fmt : string) (c : scap) : Z * string :=
  let t := ref_from c false None None fmt in
  (Z.of_nat (String.length t), String.substring 0 (Z.to_nat maxsize - 1) t).
End Reference.

Section Witness.
#[local] Instance ref_format : CapFormat scap := {|
  os_strfcap := ref_strfcap toy_freebsd;
  cheri_flags_set c _ := c;
  flags_modes := None;
|}.

#[local] Instance ref_libc : Libc scap trap_world := {|
  strerror _ := "error";
  fmt_ptr f c := if f_alt f then ref_whole toy_freebsd f c
                 else "0x" +:+ utoa false 16 (cheri_address_get c);
  os_sigaction _ _ := None;
  SIGALRM := 14; SIGPROT := 34; SIGSEGV := 11; SIGBUS := 7; SIGEMT := 0;
  SIGTRAP := 5;
|}.

(** Programs return through sealed entries. *)
#[local] Instance ref_regs : InitRegs scap trap_world := {|
  CHERI_CAP_USER_CODE_BASE := 0;
  CHERI_CAP_USER_CODE_LENGTH := 2 ^ 47;
  freebsd_user_data_base := 0;
  CHERI_CAP_USER_DATA_LENGTH := 2 ^ 47;
  CHERI_CAP_USER_DATA_OFFSET := 0;
  freebsd_maxssiz := 2 ^ 30;
  os_mmap_min_addr _ := Some (Some 65536);
  os_rlimit_stack _ := Some (2 ^ 23);
  cheri_ddc_get := cap_null;
  cheri_pcc_get := toy_code_cap;
  cheri_stack_get := cap_null;
  return_address := SCap true 0x10040 0x10000 0x10000 (Z.lor (mask PLoad) (mask PExecute)) (-2);
  extract_return_addr c := c;
  rddc_el0 := cap_null;
  rcsp_el0 := cap_null;
  rctpidr_el0 := cap_null;
|}.

Definition format_proc : proc scap trap_world :=
  Proc (Some child_state_zero) 0 ∅ "" "" 0 TrapWorld.

Example ref_ex1 : (ref_strfcap toy_freebsd 128 "%C" (toy_object 0x7000 64)).2
  = "7000 [rw,7000-7040]"%string.
Proof. reflexivity. Qed.

Lemma format_tests_verdict_witness :
  succeeds (ct_func (strfcap_numbers toy_freebsd)) format_proc /\
  succeeds (ct_func strfcap_T) format_proc /\
  succeeds (ct_func strfcap_textual) format_proc /\
  succeeds (ct_func (strfcap_C toy_freebsd)) format_proc /\
  succeeds (ct_func (printf_cap toy_freebsd)) format_proc.
Proof.
  destruct (format_tests_verdict toy_freebsd format_proc) as (Hn & HT & Ht & HC & Hp);
    [by eexists|].
  split; [|split; [|split; [|split]]].
  - apply Hn. intros x Hx. unfold number_caps in Hx.
    repeat (apply elem_of_cons in Hx as [->|Hx]); [..|by apply not_elem_of_nil in Hx];
      (split; [apply numbers_okb_spec|]; by vm_compute).
  - apply HT. split; [|by vm_compute]. intros H. by vm_compute in H.
  - apply Ht. split_and!; by vm_compute.
  - apply HC. split.
    + intros fmt text msg Hx. unfold scalar_rows in Hx.
      repeat (apply elem_of_cons in Hx as [Hx|Hx]; [injection Hx as -> -> ->; by vm_compute|]).
      by apply not_elem_of_nil in Hx.
    + intros q n descr Hx. unfold c_caps in Hx. simpl in Hx.
      repeat (apply elem_of_cons in Hx as [Hx|Hx]; [injection Hx as -> -> ->; by vm_compute|]).
      by apply not_elem_of_nil in Hx.
  - apply Hp. split; [|split].
    + intros fmt text msg Hx. unfold printf_scalar_rows in Hx.
      repeat (apply elem_of_cons in Hx as [Hx|Hx]; [injection Hx as -> -> ->; by vm_compute|]).
      by apply not_elem_of_nil in Hx.
    + done.
    + intros q n descr Hx. unfold printf_caps in Hx. simpl in Hx.
      repeat (apply elem_of_cons in Hx as [Hx|Hx]; [injection Hx as -> -> ->; by vm_compute|]).
      by apply not_elem_of_nil in Hx.
Defined.

Lemma cap_text_round_trip_witness :
  returns (check_cap_text (W := trap_world) toy_freebsd false true
    "0x7000 [rw,0x7000-0x7040]" (toy_object 0x7000 64) 4 "an object") format_proc.
Proof.
  destruct (cap_text_round_trip toy_freebsd false true format_proc) as (H & _ & _);
    [by eexists|].
  exact (H true (toy_object 0x7000 64) "an object" ltac:(by vm_compute)).
Defined.
End Witness.
