(* ===== verification/Ptrace.v ===== *)
(** * Ptrace: a stopped child seen by its parent (cheriostest_ptrace.c)

    Each test forks a child that asks to be traced and stops itself, reads or
    writes its memory or registers, and lets it finish.  The child runs up to
    its stop when the parent waits for it, and to its end when the parent waits
    again.

    [TraceRules] is a kernel with a copy of the memory for the stopped child,
    free to choose what it reports of a capability and what it makes of what
    is written ([TracePolicy]); [ptrace_tests_verdict] says which choices each
    test accepts. *)

From S2P Require Import Prelude Printf Cheri TagMem Perms Harness Runner Spawn Toy StringTests Registers Kernel VmTags Mappings Judge.

(** struct user_morello_state, as far as the tests read it; the 128 bits of a
    register, its tag in the map. *)
Record morello_state := MorelloState {
  m_cregs : list Z; m_csp : Z; m_pcc : Z; m_tag_map : Z }.

(** struct user_cap *)
Record user_cap := UserCap { uc_val : list Z; uc_tag : Z }.

Class TraceOS (cap W : Type) := {
  os_traceme : W -> (unit + Z) * W;                  (* ptrace(PT_TRACE_ME) *)
  os_continue : Z -> W -> (unit + Z) * W;            (* PT_CONTINUE *)
  (* PT_IO: the length that was transferred, and the buffer *)
  io_read_caps : Z -> cap -> Z -> W -> ((Z * list Z) + Z) * W;
  io_read_tags : Z -> cap -> Z -> W -> ((Z * list Z) + Z) * W;
  io_write_caps : Z -> cap -> list Z -> W -> (Z + Z) * W;
  os_getcapreg_pcc : Z -> W -> (cap + Z) * W;        (* PT_GETCAPREGS, CAPREG_PCC *)
  morello_getregs : Z -> W -> (morello_state + Z) * W;
  morello_setregs : Z -> morello_state -> W -> (unit + Z) * W;
  riscv_getregs : Z -> W -> (list Z + Z) * W;        (* elf_gregset_t *)
  riscv_setregs : Z -> list Z -> W -> (unit + Z) * W;
  os_peekcap : Z -> cap -> W -> (user_cap + Z) * W;
  os_pokecap : Z -> cap -> user_cap -> W -> (unit + Z) * W;
  heap_alloc : Z -> W -> cap * W;                    (* malloc, aligned_alloc *)
  heap_zero : cap -> Z -> W -> (unit + siginfo cap) * W;   (* memset(p, 0, n) *)
  os_stat_forge_cap : W -> option Z;                 (* errno of the stat *)
  os_model_file : W -> option (list string);         (* fopen, and its lines *)
  ENOENT : Z;
  sizeof_piod : Z;                                   (* struct ptrace_io_desc *)
  TAG_BIT_PCC : Z;                                   (* MORELLO_PT_TAG_MAP_REG_BIT *)
  TAG_BIT_CSP : Z;
  STOP_SIGNAL : Z;                                   (* SIGSTOP *)
  (* [__uint128_t == uintcap_t], on the bytes of the number *)
  val_eq : list Z -> cap -> bool;
}.

(** errno.h of Linux. *)
Definition EPERM : Z := 1.

Section Ptrace.
Context {cap W : Type} {CH : Cheri cap} {CM : CapMem cap} {LC : Libc cap W} {KE : Kernel cap W}
  {VC : VmConsts} {FO : ForkOS W} {TR : TraceOS cap W}.
Context (g : config).

Abbreviation csize := (Z.of_nat CAPSIZE).

(** [ptrace(...) == 0] *)
Definition verify_ptrace (f : W -> (unit + Z) * W) (text : string) : test cap W unit :=
  r ← try_sys f; CHERIOSTEST_VERIFY (bool_decide (is_Some r)) text.

(** The child, up to raise(SIGSTOP), and what it does when it is continued. *)
Definition tracee_start : test cap W unit :=
  verify_ptrace (os_traceme (cap := cap)) "ptrace(PT_TRACE_ME, 0, NULL, 0) == 0".
Definition tracee_rest : test cap W unit := exit 0.

(** waitpid(2) for the traced child: the status of its stop, or of its end when
    it did not get there. *)
Definition wait_stopped : test cap W Z := fun s =>
  match tracee_start (set_world (as_child (p_world s)) s) with
  | (Val _, s') =>
      (Val (Z.lor (Z.shiftl (STOP_SIGNAL (cap := cap) (W := W)) 8) 0x7f),
       set_errno (p_errno s) (set_world (as_parent (p_world s')) s'))
  | _ => wait_child g tracee_start s
  end.

(** The pid that waitpid(2) returns is the one that it was given. *)
Definition fork_child : test cap W Z :=
  fpid ← try_sys (sys_fork Fork);
  match fpid with
  | None => errno ← gets p_errno;
            cheriostest_failure_errx "Could not fork: errno=%d" [AInt errno]
  | Some fpid =>
      status ← wait_stopped;
      CHERIOSTEST_VERIFY (WIFSTOPPED status) "WIFSTOPPED(status)" ;;
      mret fpid
  end.

Definition finish_child (pid : Z) : test cap W unit :=
  verify_ptrace (os_continue (cap := cap) pid) "ptrace(PT_CONTINUE, pid, (caddr_t)1, 0) == 0" ;;
  status ← wait_child g tracee_rest;
  CHERIOSTEST_VERIFY (WIFEXITED status) "WIFEXITED(status)".

(** [cheri_tag_get(pp[i]) == tag] *)
Definition verify_tag (pp : cap) (i : Z) (tag : bool) : test cap W unit :=
  c ← access (mem_load_cap pp (i * csize));
  CHERIOSTEST_VERIFY (Bool.eqb (cheri_tag_get c) tag) "cheri_tag_get(pp[i])".

Definition piod_cap : cap := stack_local (W := W) (sizeof_piod (cap := cap) (W := W)).

(** memcpy from the buffer to a local: the tag does not come along. *)
Definition cap_from_buffer (buf : list Z) (off : nat) : cap :=
  cap_of_bytes false (take CAPSIZE (drop off buf)).

Definition buffer_byte (buf : list Z) (i : nat) : Z := default 0 (buf !! i).

(** *** CheriBSD *)

Definition ptrace_readcap : cheri_test cap W :=
  CHERIOSTEST "ptrace_readcap" "Basic tests of PIOD_READ_CHERI_CAP"
    (pp ← libcall (heap_alloc (csize * 2));
     access (mem_store_cap pp 0 piod_cap) ;;
     access (mem_store_cap pp csize (cap_of_int 42)) ;;
     verify_tag pp 0 true ;;
     verify_tag pp 1 false ;;
     pid ← fork_child;
     let len := 2 * (csize + 1) in
     r ← try_sys (io_read_caps pid pp len);
     match r with
     | None => CHERIOSTEST_VERIFY false "ptrace(PT_IO, pid, (caddr_t)&piod, 0) == 0"
     | Some (piod_len, capbuf) =>
         CHERIOSTEST_VERIFY (piod_len =? len) "piod.piod_len == sizeof(capbuf)" ;;
         CHERIOSTEST_VERIFY2 (buffer_byte capbuf 0 =? 1) "Tag not set in returned buffer" [] ;;
         let c := cap_from_buffer capbuf 1 in
         p0 ← access (mem_load_cap pp 0);
         CHERIOSTEST_VERIFY2 (cheri_is_equal_exact (cheri_tag_clear p0) c)
           "Mismatch in non-tag bits of first capability" [] ;;
         CHERIOSTEST_VERIFY2 (buffer_byte capbuf (CAPSIZE + 1) =? 0)
           "Tag set in returned buffer" [] ;;
         let c := cap_from_buffer capbuf (CAPSIZE + 2) in
         p1 ← access (mem_load_cap pp csize);
         CHERIOSTEST_VERIFY2 (cheri_is_equal_exact p1 c)
           "Mismatch in non-tag bits of second capability" [] ;;
         finish_child pid ;;
         cheriostest_success
     end).

Definition ptrace_readtags : cheri_test cap W :=
  CHERIOSTEST "ptrace_readtags" "Basic test of PIOD_READ_CHERI_TAGS"
    (let ppsz := 8 * csize in
     pp ← libcall (heap_alloc ppsz);
     access (heap_zero pp ppsz) ;;
     access (mem_store_cap pp 0 piod_cap) ;;
     access (mem_store_cap pp (2 * csize) (stack_local (W := W) 1)) ;;
     foreach [(0, true); (1, false); (2, true); (3, false); (4, false); (5, false); (6, false);
              (7, false)] (fun '(i, tag) => verify_tag pp i tag) ;;
     pid ← fork_child;
     r ← try_sys (io_read_tags pid pp 1);
     match r with
     | None => CHERIOSTEST_VERIFY false "ptrace(PT_IO, pid, (caddr_t)&piod, 0) == 0"
     | Some (piod_len, tagbuf) =>
         CHERIOSTEST_VERIFY (piod_len =? 1) "piod.piod_len == sizeof(tagbuf)" ;;
         CHERIOSTEST_VERIFY (buffer_byte tagbuf 0 =? 0x05) "tagbuf[0] == 0x05" ;;
         finish_child pid ;;
         cheriostest_success
     end).

Abbreviation page := (getpagesize (cap := cap) (W := W)).

Definition ptrace_readcap_pageend : cheri_test cap W :=
  CHERIOSTEST "ptrace_readcap_pageend"
    "Use PIOD_READ_CHERI_CAP to fetch capability at the end of a page"
    (let page_size := page in
     pp ← libcall (heap_alloc page_size);
     access (heap_zero pp page_size) ;;
     let last_index := page_size / csize - 1 in
     access (mem_store_cap pp (last_index * csize) piod_cap) ;;
     verify_tag pp last_index true ;;
     pid ← fork_child;
     let len := csize + 1 in
     r ← try_sys (io_read_caps pid (ptr_add pp (last_index * csize)) len);
     match r with
     | None => CHERIOSTEST_VERIFY false "ptrace(PT_IO, pid, (caddr_t)&piod, 0) == 0"
     | Some (piod_len, capbuf) =>
         CHERIOSTEST_VERIFY (piod_len =? len) "piod.piod_len == sizeof(capbuf)" ;;
         CHERIOSTEST_VERIFY2 (buffer_byte capbuf 0 =? 1) "Tag not set in returned buffer" [] ;;
         let c := cap_from_buffer capbuf 1 in
         p ← access (mem_load_cap pp (last_index * csize));
         CHERIOSTEST_VERIFY2 (cheri_is_equal_exact (cheri_tag_clear p) c)
           "Mismatch in non-tag bits of first capability" [] ;;
         finish_child pid ;;
         cheriostest_success
     end).

Definition ptrace_writecap : cheri_test cap W :=
  CHERIOSTEST "ptrace_writecap" "Basic tests of PIOD_WRITE_CHERI_CAP"
    (fd ← CHERIOSTEST_CHECK_SYSCALL (sys (sys_shm_open ShmAnon O_RDWR 0x180))
            "shm_open(SHM_ANON, O_RDWR, 0600)";
     CHERIOSTEST_CHECK_SYSCALL (sys (sys_ftruncate fd page)) "ftruncate(fd, getpagesize())" ;;
     if negb (cfg_prot_cap g) then cheriostest_failure_errx "PROT_CAP is not defined" [] else
     map ← CHERIOSTEST_CHECK_SYSCALL (sys (sys_mmap cap_null page
             (Z.lor (Z.lor PROT_READ PROT_WRITE) PROT_CAP) MAP_SHARED fd 0))
             "mmap(NULL, getpagesize(), PROT_READ | PROT_WRITE | PROT_CAP, MAP_SHARED, fd, 0)";
     pid ← fork_child;
     pcc ← CHERIOSTEST_CHECK_SYSCALL (sys (os_getcapreg_pcc pid))
             "ptrace(PT_GETCAPREGS, pid, (caddr_t)&capreg, 0)";
     let pp0 := ptr_add pcc 16 in
     let pp1 := cap_of_int 42 in
     let capbuf := (1 :: cap_bytes pp0) ++ (0 :: cap_bytes pp1) in
     piod_len ← CHERIOSTEST_CHECK_SYSCALL (sys (io_write_caps pid map capbuf))
                  "ptrace(PT_IO, pid, (caddr_t)&piod, 0)";
     CHERIOSTEST_VERIFY (piod_len =? 2 * (csize + 1)) "piod.piod_len == sizeof(capbuf)" ;;
     m0 ← access (mem_load_cap map 0);
     CHERIOSTEST_VERIFY2 (cheri_tag_get m0) "Tag not set in first injected capability" [] ;;
     m0 ← access (mem_load_cap map 0);
     CHERIOSTEST_VERIFY2 (cheri_is_equal_exact (cheri_tag_clear m0) pp0)
       "Mismatch in non-tag bits of first capability" [] ;;
     m1 ← access (mem_load_cap map csize);
     CHERIOSTEST_VERIFY2 (negb (cheri_tag_get m1)) "Tag set in second injected capability" [] ;;
     m1 ← access (mem_load_cap map csize);
     CHERIOSTEST_VERIFY2 (cheri_is_equal_exact m1 pp1)
       "Mismatch in non-tag bits of second capability" [] ;;
     finish_child pid ;;
     cheriostest_success).

(** *** Linux for Morello *)

Definition GETREGSET_text : string := "ptrace(PTRACE_GETREGSET, pid, (void *)NT_ARM_MORELLO, &iov)".
Definition forge_cap_text : string :=
  "PTRACE_POKECAP is only allowed if the sysctl cheri.ptrace_forge_cap is set".

(** [(map >> i) & 0x1] *)
Definition tag_bit (map i : Z) : Z := Z.land (Z.shiftr map i) 0x1.

Definition morello_ptrace_getcapregs : cheri_test cap W :=
  CHERIOSTEST "ptrace_getcapregs" "Tests PTRACE_GETREGSET with NT_ARM_MORELLO"
    (pid ← fork_child;
     regs ← CHERIOSTEST_CHECK_SYSCALL (sys (morello_getregs (cap := cap) pid)) GETREGSET_text;
     CHERIOSTEST_VERIFY2 (tag_bit (m_tag_map regs) (TAG_BIT_PCC (cap := cap) (W := W)) =? 1)
       "PCC tag must be set" [] ;;
     CHERIOSTEST_VERIFY2 (tag_bit (m_tag_map regs) (TAG_BIT_CSP (cap := cap) (W := W)) =? 1)
       "CSP tag must be set" [] ;;
     finish_child pid ;;
     cheriostest_success).

Definition creg0 (r : morello_state) : Z := default 0 (m_cregs r !! 0%nat).
Definition set_creg0 (v map : Z) (r : morello_state) : morello_state :=
  MorelloState (<[0%nat := v]> (m_cregs r)) (m_csp r) (m_pcc r) map.

(** The result of a ptrace call that the code does not check for -1. *)
Definition ptrace_ret (f : W -> (unit + Z) * W) : test cap W Z :=
  r ← try_sys f; mret (match r with Some _ => 0 | None => -1 end).

Definition restored (old : Z) (old_tag : Z) (r : morello_state) : morello_state :=
  set_creg0 old (if old_tag =? 0 then Z.land (m_tag_map r) (Z.lnot 0x1) else m_tag_map r) r.

Definition morello_ptrace_setcapregs : cheri_test cap W :=
  CHERIOSTEST "ptrace_setcapregs" "Tests PTRACE_SETREGSET with NT_ARM_MORELLO"
    (pid ← fork_child;
     get_regs ← CHERIOSTEST_CHECK_SYSCALL (sys (morello_getregs (cap := cap) pid)) GETREGSET_text;
     let c0_old_val := creg0 get_regs in
     let c0_old_tag := Z.land (m_tag_map get_regs) 0x1 in
     let c0_new_val := m_pcc get_regs in
     ret ← ptrace_ret (morello_setregs (cap := cap) pid
             (set_creg0 c0_new_val (Z.lor (m_tag_map get_regs) 0x1) get_regs));
     CHERIOSTEST_VERIFY2 (negb (ret =? - EPERM)) forge_cap_text [] ;;
     get_regs ← CHERIOSTEST_CHECK_SYSCALL (sys (morello_getregs (cap := cap) pid)) GETREGSET_text;
     CHERIOSTEST_VERIFY2 (creg0 get_regs =? c0_new_val) "c0 wasn't set" [] ;;
     CHERIOSTEST_VERIFY2 (Z.land (m_tag_map get_regs) 0x1 =? 0x1) "Tag wasn't set" [] ;;
     CHERIOSTEST_CHECK_SYSCALL (sys (morello_setregs (cap := cap) pid
       (restored c0_old_val c0_old_tag get_regs)))
       "ptrace(PTRACE_SETREGSET, pid, (void *)NT_ARM_MORELLO, &set_iov)" ;;
     finish_child pid ;;
     cheriostest_success).

(** *** Linux for RISC-V *)

Definition GETREGSET_riscv : string := "ptrace(PTRACE_GETREGSET, pid, (void *)NT_PRSTATUS, &iov)".

Definition greg (regs : list Z) (i : nat) : Z := default 0 (regs !! i).

Definition riscv_ptrace_getcapregs : cheri_test cap W :=
  CHERIOSTEST "ptrace_getcapregs" "Tests PTRACE_GETREGSET"
    (pid ← fork_child;
     regs ← CHERIOSTEST_CHECK_SYSCALL (sys (riscv_getregs (cap := cap) pid)) GETREGSET_riscv;
     let bitmap := greg regs 33 in
     foreach [(0, "PCC tag must be set"); (1, "RA tag must be set"); (2, "SP tag must be set");
              (3, "GP tag must be set"); (4, "TP tag must be set")]%string
       (fun '(i, msg) => CHERIOSTEST_VERIFY2 (tag_bit bitmap i =? 1) msg []) ;;
     finish_child pid ;;
     cheriostest_success).

(** fgets(3) on the null FILE of a failed fopen(3) is undefined. *)
Definition is_running_on_qemu : test cap W bool :=
  w ← gets p_world;
  match os_model_file (cap := cap) w with
  | None => undef
  | Some lines => mret (existsb (fun l => strstr l "qemu") lines)
  end.

Definition riscv_ptrace_setcapregs : cheri_test cap W :=
  CHERIOSTEST "ptrace_setcapregs" "Tests PTRACE_SETREGSET"
    (when (is_zcheri g)
       (qemu ← is_running_on_qemu;
        fail_if qemu "This test case wasn't executed because it crashes Qemu" []) ;;
     pid ← fork_child;
     get_regs ← CHERIOSTEST_CHECK_SYSCALL (sys (riscv_getregs (cap := cap) pid)) GETREGSET_riscv;
     let c5_old_val := greg get_regs 5 in
     let c5_old_tag := Z.land (greg get_regs 33) 0x1 in
     let c5_new_val := greg get_regs 0 in
     let set_regs := <[5%nat := c5_new_val]>
       (<[33%nat := Z.lor (greg get_regs 33) (Z.shiftl 0x1 5)]> get_regs) in
     ret ← ptrace_ret (riscv_setregs (cap := cap) pid set_regs);
     cheriostest_success (A := unit) ;;
     CHERIOSTEST_VERIFY2 (negb (ret =? - EPERM)) forge_cap_text [] ;;
     get_regs ← CHERIOSTEST_CHECK_SYSCALL (sys (riscv_getregs (cap := cap) pid)) GETREGSET_riscv;
     CHERIOSTEST_VERIFY2 (greg get_regs 5 =? c5_new_val) "c5 wasn't set" [] ;;
     CHERIOSTEST_VERIFY2 (tag_bit (greg get_regs 33) 5 =? 0x1) "Tag wasn't set" [] ;;
     let tags := if c5_old_tag =? 0
                 then Z.land (greg get_regs 33) (Z.lnot (Z.shiftl 0x1 5)) else greg get_regs 33 in
     CHERIOSTEST_CHECK_SYSCALL (sys (riscv_setregs (cap := cap) pid
       (<[5%nat := c5_old_val]> (<[33%nat := tags]> get_regs))))
       "ptrace(PTRACE_SETREGSET, pid, (void *)NT_PRSTATUS, &set_iov)" ;;
     finish_child pid ;;
     cheriostest_success).

(** *** Linux *)

(** [ptrace(PTRACE_PEEKCAP, pid, p, &buf) == 0] *)
Definition peek (pid : Z) (p : cap) (text : string) : test cap W user_cap :=
  r ← try_sys (os_peekcap pid p);
  CHERIOSTEST_VERIFY (bool_decide (is_Some r)) text ;;
  mret (default (UserCap [] 0) r).

(** The array [tracee_buf] on the stack, of two capabilities. *)
Definition ptrace_peekcap : cheri_test cap W :=
  CHERIOSTEST "ptrace_peekcap" "Basic tests of ptrace PTRACE_PEEKCAP"
    (let tracee_buf := stack_local (W := W) (2 * csize) in
     access (heap_zero tracee_buf (2 * csize)) ;;
     access (mem_store_cap tracee_buf 0 cap_null) ;;
     access (mem_store_cap tracee_buf csize tracee_buf) ;;
     verify_tag tracee_buf 0 false ;;
     verify_tag tracee_buf 1 true ;;
     pid ← fork_child;
     read0 ← peek pid tracee_buf "ptrace(PTRACE_PEEKCAP, pid, &tracee_buf[0], &read_buf[0]) == 0";
     read1 ← peek pid (ptr_add tracee_buf csize)
               "ptrace(PTRACE_PEEKCAP, pid, &tracee_buf[1], &read_buf[1]) == 0";
     CHERIOSTEST_VERIFY2 (uc_tag read0 =? 0) "Tag set for returned integer" [] ;;
     b0 ← access (mem_load_cap tracee_buf 0);
     CHERIOSTEST_VERIFY2 (val_eq (W := W) (uc_val read0) b0) "Mismatch in non-tag bits" [] ;;
     CHERIOSTEST_VERIFY2 (uc_tag read1 =? 1) "Tag not set for returned capability" [] ;;
     b1 ← access (mem_load_cap tracee_buf csize);
     CHERIOSTEST_VERIFY2 (val_eq (W := W) (uc_val read1) b1) "Mismatch in non-tag bits" [] ;;
     finish_child pid ;;
     cheriostest_success).

Definition ptrace_forge_cap_sysctl_exists : test cap W bool :=
  w ← gets p_world;
  match os_stat_forge_cap (cap := cap) w with
  | None => mret true
  | Some e =>
      modify (set_errno e) ;;
      if e =? ENOENT (cap := cap) (W := W) then mret false
      else CHERIOSTEST_VERIFY2 false "stat() failed" [] ;; mret true
  end.

Definition ptrace_pokecap : cheri_test cap W :=
  CHERIOSTEST "ptrace_pokecap" "Basic tests of ptrace PTRACE_POKECAP"
    (exists_ ← ptrace_forge_cap_sysctl_exists;
     CHERIOSTEST_VERIFY2 exists_ "sysctl cheri.ptrace_forge_cap does not exist" [] ;;
     map ← libcall (heap_alloc page);
     access (heap_zero map page) ;;
     pid ← fork_child;
     let write_cap := UserCap (cap_bytes map) 1 in
     ret ← ptrace_ret (os_pokecap pid map write_cap);
     CHERIOSTEST_VERIFY2 (negb (ret =? - EPERM)) forge_cap_text [] ;;
     CHERIOSTEST_VERIFY2 (ret =? 0) "PTRACE_POKECAP failed" [] ;;
     read_cap ← peek pid map "ptrace(PTRACE_PEEKCAP, pid, (caddr_t) &map[0], &read_cap) == 0";
     CHERIOSTEST_VERIFY2 (val_eq (W := W) (uc_val read_cap) map)
       "Written and read capabilities don't match" [] ;;
     CHERIOSTEST_VERIFY2 (uc_tag read_cap =? 1) "Tag not set for written capability" [] ;;
     finish_child pid ;;
     cheriostest_success).
End Ptrace.

(** ** A kernel that traces *)

(** What it is free to choose. *)
Class TracePolicy (cap : Type) := {
  (* the 17 bytes reported for a capability in memory, and the byte of 8 tags *)
  pol_read : cap -> list Z;
  pol_tags : list bool -> Z;
  pol_write : Z -> list Z -> cap;             (* what a tag and 16 bytes leave in memory *)
  pol_pcc : cap;                              (* the PCC that it reports *)
  (* the registers after a PTRACE_SETREGSET, if it is allowed *)
  pol_set : morello_state -> morello_state -> option morello_state;
  pol_rset : list Z -> list Z -> option (list Z);
  pol_peek : cap -> user_cap;
  pol_poke : user_cap -> option cap;
  pol_forge : option Z;                       (* the errno of the stat *)
  heap_block : Z -> cap;
  map_block : cap;
}.

(** The memory of the parent and of the stopped child, by address, the address
    that both share, and the registers of the child. *)
Record tstate (cap : Type) := TState {
  ts_mem : Z -> cap; ts_child : Z -> cap; ts_shared : option Z;
  ts_regs : morello_state; ts_rregs : list Z }.
Arguments TState {cap}.
Arguments ts_mem {cap}.
Arguments ts_child {cap}.
Arguments ts_shared {cap}.
Arguments ts_regs {cap}.
Arguments ts_rregs {cap}.

Section Machine.
Context {cap : Type} {CH : Cheri cap}.

Definition upd (a : Z) (c : cap) (m : Z -> cap) : Z -> cap :=
  fun x => if x =? a then c else m x.
Definition set_mem (m : Z -> cap) (v : tstate cap) : tstate cap :=
  TState m (ts_child v) (ts_shared v) (ts_regs v) (ts_rregs v).
Definition set_regs_to (r : morello_state) (v : tstate cap) : tstate cap :=
  TState (ts_mem v) (ts_child v) (ts_shared v) r (ts_rregs v).
Definition set_rregs (r : list Z) (v : tstate cap) : tstate cap :=
  TState (ts_mem v) (ts_child v) (ts_shared v) (ts_regs v) r.
Definition set_shared (a : Z) (v : tstate cap) : tstate cap :=
  TState (ts_mem v) (ts_child v) (Some a) (ts_regs v) (ts_rregs v).
Definition forked (v : tstate cap) : tstate cap :=
  TState (ts_mem v) (ts_mem v) (ts_shared v) (ts_regs v) (ts_rregs v).
Definition zeroed (a n : Z) (m : Z -> cap) : Z -> cap :=
  fun x => if (a <=? x) && (x <? a + n) then cap_null else m x.

(** A write to the child, which its parent sees at the shared address. *)
Definition child_write (a : Z) (f : (Z -> cap) -> Z -> cap) (v : tstate cap) : tstate cap :=
  TState (if decide (ts_shared v = Some a) then f (ts_mem v) else ts_mem v) (f (ts_child v))
    (ts_shared v) (ts_regs v) (ts_rregs v).
End Machine.

Section Rules.
Context {cap W : Type} {CH : Cheri cap} {CM : CapMem cap} {LC : Libc cap W} {KE : Kernel cap W}
  {VC : VmConsts} {FO : ForkOS W} {TR : TraceOS cap W} {TP : TracePolicy cap}.

Abbreviation csize := (Z.of_nat CAPSIZE).
Abbreviation page := (getpagesize (cap := cap) (W := W)).
Abbreviation local n := (stack_local (cap := cap) (W := W) n).
Abbreviation piod := (sizeof_piod (cap := cap) (W := W)).

(** An aligned block of [n] bytes. *)
Record block (p : cap) (n : Z) : Prop := {
  bl_top : cheri_address_get p + n < 2 ^ 64;
  bl_tag : cheri_tag_get p = true;
}.

Class TraceRules := {
  tabs : W -> tstate cap;
  t_page : exists k, 2 <= k /\ page = csize * k;
  t_heap n : 0 < n <= Z.max 128 page -> block (heap_block n) n;
  t_map : block (map_block (cap := cap)) page;
  t_piod : 0 < piod <= 128;
  t_stack n : 0 < n <= 128 -> block (local n) n;
  t_alloc n w : exists w', heap_alloc n w = (heap_block n, w') /\ tabs w' = tabs w;
  t_zero (p : cap) n w : block p n -> exists w', heap_zero p n w = (inl tt, w') /\
    tabs w' = set_mem (zeroed (cheri_address_get p) n (ts_mem (tabs w))) (tabs w);
  t_store (p : cap) n i c w : block p n -> 0 <= i -> (i + 1) * csize <= n -> exists w',
    mem_store_cap p (i * csize) c w = (inl tt, w') /\
    tabs w' = set_mem (upd (cheri_address_get p + i * csize) c (ts_mem (tabs w))) (tabs w);
  t_load (p : cap) n i w : block p n -> 0 <= i -> (i + 1) * csize <= n -> exists w',
    mem_load_cap p (i * csize) w = (inl (ts_mem (tabs w) (cheri_address_get p + i * csize)), w') /\
    tabs w' = tabs w;
  t_fork w : exists pid w', sys_fork Fork w = (inl pid, w') /\ tabs w' = forked (tabs w);
  t_as_child w : tabs (as_child w) = tabs w;
  t_as_parent w : tabs (as_parent w) = tabs w;
  t_traceme w : exists w', os_traceme (cap := cap) w = (inl tt, w') /\ tabs w' = tabs w;
  t_continue pid w : exists w', os_continue (cap := cap) pid w = (inl tt, w') /\ tabs w' = tabs w;
  t_read_caps pid (p : cap) n w : exists w',
    io_read_caps pid p ((csize + 1) * Z.of_nat n) w =
      (inl ((csize + 1) * Z.of_nat n,
            concat (map (fun i => pol_read (ts_child (tabs w) (cheri_address_get p + i * csize)))
                      (seqZ 0 (Z.of_nat n)))), w') /\ tabs w' = tabs w;
  t_read_tags pid (p : cap) w : exists w',
    io_read_tags pid p 1 w =
      (inl (1, [pol_tags (cap := cap) (map (fun i =>
         cheri_tag_get (ts_child (tabs w) (cheri_address_get p + i * csize))) (seqZ 0 8))]), w') /\
    tabs w' = tabs w;
  t_write_caps pid (p : cap) t0 b0 t1 b1 w :
    length b0 = CAPSIZE -> length b1 = CAPSIZE -> exists w',
    io_write_caps pid p ((t0 :: b0) ++ (t1 :: b1)) w = (inl (2 * (csize + 1)), w') /\
    let a := cheri_address_get p in
    tabs w' = child_write a (fun m => upd (a + csize) (pol_write t1 b1) (upd a (pol_write t0 b0) m))
                (tabs w);
  t_pcc pid w : exists w', os_getcapreg_pcc pid w = (inl pol_pcc, w') /\ tabs w' = tabs w;
  t_getregs pid w : exists w', morello_getregs (cap := cap) pid w = (inl (ts_regs (tabs w)), w') /\
    tabs w' = tabs w;
  t_setregs pid r w :
    match pol_set (cap := cap) (ts_regs (tabs w)) r with
    | Some r' => exists w', morello_setregs (cap := cap) pid r w = (inl tt, w') /\
                   tabs w' = set_regs_to r' (tabs w)
    | None => exists e w', morello_setregs (cap := cap) pid r w = (inr e, w') /\ tabs w' = tabs w
    end;
  t_rgetregs pid w : exists w', riscv_getregs (cap := cap) pid w = (inl (ts_rregs (tabs w)), w') /\
    tabs w' = tabs w;
  t_rsetregs pid r w :
    match pol_rset (cap := cap) (ts_rregs (tabs w)) r with
    | Some r' => exists w', riscv_setregs (cap := cap) pid r w = (inl tt, w') /\
                   tabs w' = set_rregs r' (tabs w)
    | None => exists e w', riscv_setregs (cap := cap) pid r w = (inr e, w') /\ tabs w' = tabs w
    end;
  t_peek pid (p : cap) w : exists w',
    os_peekcap pid p w = (inl (pol_peek (ts_child (tabs w) (cheri_address_get p))), w') /\
    tabs w' = tabs w;
  t_poke pid (p : cap) u w : 
    match pol_poke u with
    | Some c => exists w', os_pokecap pid p u w = (inl tt, w') /\
        tabs w' = child_write (cheri_address_get p) (upd (cheri_address_get p) c) (tabs w)
    | None => exists e w', os_pokecap pid p u w = (inr e, w') /\ tabs w' = tabs w
    end;
  t_forge w : os_stat_forge_cap (cap := cap) w = pol_forge (cap := cap);
  t_model w : exists l, os_model_file (cap := cap) w = Some l /\
    existsb (fun x => strstr x "qemu") l = false;
  t_shm_open w : exists fd w', sys_shm_open (cap := cap) ShmAnon O_RDWR 0x180 w = (inl fd, w') /\
    tabs w' = tabs w;
  t_ftruncate fd n w : exists w', sys_ftruncate (cap := cap) fd n w = (inl 0, w') /\
    tabs w' = tabs w;
  t_mmap fd w : exists w',
    sys_mmap cap_null page (Z.lor (Z.lor PROT_READ PROT_WRITE) PROT_CAP) MAP_SHARED fd 0 w =
      (inl map_block, w') /\
    tabs w' = set_shared (cheri_address_get (map_block (cap := cap))) (tabs w);
  t_length (c : cap) : length (cap_bytes c) = CAPSIZE;
  t_read_length (c : cap) : length (pol_read c) = S CAPSIZE;
}.
End Rules.
Arguments TraceRules cap W {_ _ _ _ _ _ _}.

Section Facts.
Context {cap W : Type} {CH : Cheri cap} {CL : CheriLaws cap} {CM : CapMem cap} {LC : Libc cap W}
  {KE : Kernel cap W} {VC : VmConsts} {FO : ForkOS W} {TR : TraceOS cap W} {TP : TracePolicy cap}
  {RR : TraceRules cap W}.
Context (g : config).

Abbreviation csize := (Z.of_nat CAPSIZE).
Abbreviation page := (getpagesize (cap := cap) (W := W)).
Abbreviation local n := (stack_local (cap := cap) (W := W) n).
Abbreviation steps := (Judge.steps (cap := cap) tabs).
Abbreviation judged := (Judge.judged (cap := cap) tabs).
Abbreviation at_slot p i := (cheri_address_get p + i * csize).

(** *** Steps *)

Lemma steps_verify_ptrace f text v :
  (forall w, exists w', f w = (inl tt, w') /\ tabs w' = tabs w) ->
  steps (verify_ptrace f text) v (fun _ v' => v' = v).
Proof.
  intros Hf. eapply steps_bind; [apply (steps_try _ _ (fun _ v' => v' = v))|].
  - intros w Hw. destruct (Hf w) as (w' & ? & ?). exists tt, w'. split; [done|congruence].
  - intros r v' (a & -> & ->). by apply steps_verify, bool_decide_eq_true_2.
Qed.

Lemma stopped_status sig : WIFSTOPPED (Z.lor (Z.shiftl sig 8) 0x7f) = true.
Proof.
  unfold WIFSTOPPED. apply Z.eqb_eq. rewrite Z.land_lor_distr_l.
  assert (Z.land (Z.shiftl sig 8) 0xff = 0) as ->; [|done].
  change 0xff with (Z.ones 8). rewrite Z.land_ones by lia. rewrite Z.shiftl_mul_pow2 by lia.
  by apply Z.mod_mul.
Qed.

Lemma steps_wait_stopped v :
  steps (wait_stopped g) v (fun st v' => WIFSTOPPED st = true /\ v' = v).
Proof.
  intros s [Hs Hv]. unfold wait_stopped.
  destruct (steps_verify_ptrace (os_traceme (cap := cap)) "ptrace(PT_TRACE_ME, 0, NULL, 0) == 0" v
    ltac:(intros w; apply t_traceme) (set_world (as_child (p_world s)) s))
    as ([] & s' & v' & Hr & -> & Hs' & Hv').
  { split; [exact Hs|]. simpl. by rewrite t_as_child. }
  unfold tracee_start. rewrite Hr. eexists _, _, v.
  split; [reflexivity|]. split; [split; [apply stopped_status|done]|].
  split; [exact Hs'|]. simpl. by rewrite t_as_parent.
Qed.

Lemma steps_fork_child v : steps (fork_child g) v (fun _ v' => v' = forked v).
Proof.
  unfold fork_child. eapply steps_bind; [apply (steps_try _ _ (fun _ v' => v' = forked v))|].
  - intros w Hw. destruct (t_fork w) as (pid & w' & ? & Ha). exists pid, w'. by rewrite Ha, Hw.
  - intros r v' (pid & -> & ->). eapply steps_bind; [apply steps_wait_stopped|].
    intros st v' [Hst ->]. eapply steps_bind; [by apply steps_verify|]. intros _ ? ->.
    by apply steps_ret.
Qed.

Lemma steps_finish pid v : steps (finish_child g pid) v (fun _ v' => v' = v).
Proof.
  unfold finish_child. eapply steps_bind.
  { apply steps_verify_ptrace. intros w. apply t_continue. }
  intros _ ? ->. eapply (steps_bind _ _ _ (fun st v' => st = 0 /\ v' = v)).
  - intros s [Hs Hv]. unfold wait_child, tracee_rest. simpl. eexists _, _, v.
    split; [reflexivity|]. split; [done|]. split; [exact Hs|]. simpl.
    by rewrite t_as_parent, t_as_child.
  - intros st ? [-> ->]. by apply steps_verify.
Qed.

Lemma steps_alloc n v : steps (libcall (heap_alloc n)) v (fun p v' => p = heap_block n /\ v' = v).
Proof.
  apply steps_libcall. intros w Hw. destruct (t_alloc n w) as (w' & -> & Ha). by rewrite <- Hw.
Qed.

Lemma steps_slot_store (p : cap) n i c v : block p n -> 0 <= i -> (i + 1) * csize <= n ->
  steps (access (mem_store_cap p (i * csize) c)) v
    (fun _ v' => v' = set_mem (upd (at_slot p i) c (ts_mem v)) v).
Proof.
  intros Hp H0 Hn. apply steps_access. intros w Hw.
  destruct (t_store p n i c w Hp H0 Hn) as (w' & ? & Ha). exists tt, w'. by rewrite Ha, Hw.
Qed.

Lemma steps_slot_load (p : cap) n i v : block p n -> 0 <= i -> (i + 1) * csize <= n ->
  steps (access (mem_load_cap p (i * csize))) v
    (fun c v' => c = ts_mem v (at_slot p i) /\ v' = v).
Proof.
  intros Hp H0 Hn. apply steps_access. intros w Hw.
  destruct (t_load p n i w Hp H0 Hn) as (w' & ? & Ha). eexists _, w'. by rewrite <- Hw.
Qed.

Lemma steps_zero (p : cap) n v : block p n ->
  steps (access (heap_zero p n)) v
    (fun _ v' => v' = set_mem (zeroed (cheri_address_get p) n (ts_mem v)) v).
Proof.
  intros Hp. apply steps_access. intros w Hw.
  destruct (t_zero p n w Hp) as (w' & ? & Ha). exists tt, w'. by rewrite Ha, Hw.
Qed.

(** A check that the machine satisfies. *)
Lemma steps_verify_tag (p : cap) n i tag v : block p n -> 0 <= i -> (i + 1) * csize <= n ->
  cheri_tag_get (ts_mem v (at_slot p i)) = tag ->
  steps (verify_tag p i tag) v (fun _ v' => v' = v).
Proof.
  intros Hp H0 Hn Ht. eapply steps_bind; [by eapply steps_slot_load|].
  intros c ? [-> ->]. apply steps_verify. rewrite Ht. apply eqb_reflx.
Qed.

Lemma steps_ptrace_ret f v (b : bool) (Q : tstate cap -> Prop) :
  (forall w, tabs w = v -> if b then exists w', f w = (inl tt, w') /\ Q (tabs w')
                         else exists e w', f w = (inr e, w') /\ Q (tabs w')) ->
  steps (ptrace_ret f) v (fun r v' => r = (if b then 0 else -1) /\ Q v').
Proof.
  intros Hf s [Hs Hv]. specialize (Hf _ Hv). unfold ptrace_ret.
  destruct b; [destruct Hf as (w' & Hr & HQ)|destruct Hf as (e & w' & Hr & HQ)];
    apply (try_sys_run _ s) in Hr; rewrite (test_bind _ _ _ _ _ Hr); eexists _, _, _;
    (split; [reflexivity|]); by split.
Qed.

(** A check, then the rest. *)
Lemma judged_check {B} (b : bool) msg ap (k : test cap W B) v (P Q : Prop) :
  (b = true <-> P) -> (P -> judged k v Q) ->
  judged (CHERIOSTEST_VERIFY2 b msg ap ;; k) v (P /\ Q).
Proof.
  intros Hb Hk. apply judged_verify.
  - intros H. apply Hb in H. eapply judged_iff; [by apply Hk|]. naive_solver.
  - intros H [HP' _]. apply Hb in HP'. congruence.
Qed.

(** The end of the tests. *)
Lemma judged_finish_child pid v :
  judged (finish_child g pid ;; cheriostest_success (A := unit)) v True.
Proof. eapply judged_bind; [apply steps_finish|]. intros _ ? ->. by apply judged_success. Qed.

(** *** What the tests look at *)

(** The kernel reports the tag and the bits of a capability. *)
Definition faithful (c : cap) : Prop :=
  buffer_byte (pol_read c) 0 = (if cheri_tag_get c then 1 else 0) /\
  cap_from_buffer (pol_read c) 1 = cheri_tag_clear c.

Lemma piod_block : block (piod_cap (cap := cap) (W := W)) (sizeof_piod (cap := cap) (W := W)).
Proof. apply t_stack, t_piod. Qed.

Lemma exact_iff (c d : cap) : cheri_is_equal_exact c d = true <-> c = d.
Proof. split; [apply equal_exact_eq|intros ->; apply equal_exact_refl]. Qed.

Lemma buffer_two (l0 l1 : list Z) : length l0 = S CAPSIZE ->
  buffer_byte (l0 ++ l1) 0 = buffer_byte l0 0 /\
  cap_from_buffer (cap := cap) (l0 ++ l1) 1 = cap_from_buffer l0 1 /\
  buffer_byte (l0 ++ l1) (CAPSIZE + 1) = buffer_byte l1 0 /\
  cap_from_buffer (cap := cap) (l0 ++ l1) (CAPSIZE + 2) = cap_from_buffer l1 1.
Proof.
  intros Hl. unfold buffer_byte, cap_from_buffer.
  split_and!.
  - by rewrite lookup_app_l by (rewrite Hl; lia).
  - f_equal. rewrite drop_app_le by (rewrite Hl; unfold CAPSIZE; lia).
    apply take_app_le. rewrite length_drop, Hl. unfold CAPSIZE. lia.
  - rewrite lookup_app_r by (rewrite Hl; unfold CAPSIZE; lia). rewrite Hl. done.
  - do 2 f_equal. rewrite drop_app_ge by (rewrite Hl; unfold CAPSIZE; lia). by rewrite Hl.
Qed.

(** Look up a slot of a memory that is written out. *)
Ltac slots := unfold upd, zeroed; simpl ts_mem; simpl ts_child;
  change (Z.of_nat CAPSIZE) with 16 in *;
  repeat match goal with
         | |- context [?a =? ?b] => destruct (Z.eqb_spec a b); try lia
         end.

Lemma readcap_judged v :
  judged (ct_func (ptrace_readcap g)) v
    (faithful (piod_cap (W := W)) /\ faithful (cap_of_int 42)).
Proof.
  set (p0 := piod_cap (W := W)). set (p1 := cap_of_int (cap := cap) 42).
  assert (block (heap_block (cap := cap) 32) 32) as Hb by (apply t_heap; lia).
  assert (cheri_tag_get p0 = true) as Ht0 by apply piod_block.
  assert (cheri_tag_get p1 = false) as Ht1 by apply of_int_tag.
  eapply judged_bind; [apply (steps_alloc 32)|]. intros pp ? [-> ->].
  set (pp := heap_block 32) in *.
  eapply judged_bind; [apply (steps_slot_store pp 32 0); [done|lia|done]|]. intros _ ? ->.
  eapply judged_bind; [apply (steps_slot_store pp 32 1); [done|lia|done]|]. intros _ ? ->.
  eapply judged_bind; [apply (steps_verify_tag pp 32 0); [done|lia|done|by slots]|]. intros _ ? ->.
  eapply judged_bind; [apply (steps_verify_tag pp 32 1); [done|lia|done|by slots]|]. intros _ ? ->.
  eapply judged_bind; [apply steps_fork_child|]. intros pid ? ->.
  match goal with |- judged _ (forked ?x) _ => set (v1 := x) end.
  assert (ts_mem v1 (at_slot pp 0) = p0) as E0 by (unfold v1; slots; done).
  assert (ts_mem v1 (at_slot pp 1) = p1) as E1 by (unfold v1; slots; done).
  eapply judged_bind.
  { apply (steps_try _ _ (fun x v' => x = ((csize + 1) * 2, pol_read p0 ++ pol_read p1) /\
      v' = forked v1)).
    intros w Hw. destruct (t_read_caps pid pp 2 w) as (w' & Hr & Ha). eexists _, w'.
    split; [exact Hr|]. split; [|congruence]. rewrite Hw. simpl. f_equal.
    change (pol_read (ts_mem v1 (at_slot pp 0)) ++ pol_read (ts_mem v1 (at_slot pp 1)) ++ [] =
            pol_read p0 ++ pol_read p1). by rewrite E0, E1, app_nil_r. }
  intros r ? (x & -> & -> & ->). cbv beta iota.
  destruct (buffer_two (pol_read p0) (pol_read p1)) as (B1 & B2 & B3 & B4);
    [apply t_read_length|]. rewrite B1, B2, B3, B4.
  eapply judged_iff.
  { eapply (judged_check _ _ _ _ _ True); [by rewrite Z.eqb_eq|intros _].
    eapply judged_check; [apply Z.eqb_eq|intros _].
    eapply judged_bind; [apply (steps_slot_load pp 32 0); [done|lia|done]|]. intros c ? [-> ->].
    change (ts_mem (forked v1)) with (ts_mem v1). rewrite E0.
    eapply judged_check; [apply exact_iff|intros _].
    eapply judged_check; [apply Z.eqb_eq|intros _].
    eapply judged_bind; [apply (steps_slot_load pp 32 1); [done|lia|done]|]. intros c ? [-> ->].
    change (ts_mem (forked v1)) with (ts_mem v1). rewrite E1.
    eapply judged_check; [apply exact_iff|intros _]. apply judged_finish_child. }
  unfold faithful. rewrite Ht0, Ht1, (tag_clear_idemp p1 Ht1). naive_solver.
Qed.

Lemma pageend_judged v :
  judged (ct_func (ptrace_readcap_pageend g)) v (faithful (piod_cap (W := W))).
Proof.
  set (p0 := piod_cap (W := W)). assert (cheri_tag_get p0 = true) as Ht0 by apply piod_block.
  destruct t_page as (k & Hk & Hpage). set (pp := heap_block page).
  assert (block pp page) as Hb by (apply t_heap; rewrite Hpage; change csize with 16; lia).
  assert (page / csize - 1 = k - 1) as Elast.
  { rewrite Hpage, Z.mul_comm. change csize with 16. rewrite Z.div_mul by lia. done. }
  eapply judged_bind; [apply steps_alloc|]. intros ? ? [-> ->]. fold pp.
  eapply judged_bind; [by apply steps_zero|]. intros _ ? ->. cbv zeta. rewrite Elast.
  assert ((k - 1 + 1) * csize <= page) as Hfit by (rewrite Hpage; change csize with 16; lia).
  eapply judged_bind; [apply (steps_slot_store pp page (k - 1)); [done|lia|done]|]. intros _ ? ->.
  eapply judged_bind.
  { apply (steps_verify_tag pp page (k - 1)); [done|lia|done|by slots]. }
  intros _ ? ->.
  eapply judged_bind; [apply steps_fork_child|]. intros pid ? ->.
  match goal with |- judged _ (forked ?x) _ => set (v1 := x) end.
  assert (ts_mem v1 (at_slot pp (k - 1)) = p0) as E0 by (unfold v1; slots; done).
  assert (cheri_address_get (ptr_add pp ((k - 1) * csize)) = at_slot pp (k - 1)) as Ea.
  { unfold ptr_add. rewrite address_set_address. pose proof (bl_top _ _ Hb).
    pose proof (address_range pp). change csize with 16 in *.
    rewrite !wrapu_small; [done|lia|rewrite wrapu_small; lia]. }
  eapply judged_bind.
  { apply (steps_try _ _ (fun x v' => x = ((csize + 1) * 1, pol_read p0) /\ v' = forked v1)).
    intros w Hw. destruct (t_read_caps pid (ptr_add pp ((k - 1) * csize)) 1 w) as (w' & Hr & Ha).
    eexists _, w'. split; [exact Hr|]. split; [|congruence]. rewrite Hw. simpl. f_equal.
    change (pol_read (ts_mem v1 (cheri_address_get (ptr_add pp ((k - 1) * csize)) + 0)) ++ [] =
            pol_read p0).
    by rewrite Z.add_0_r, app_nil_r, Ea, E0. }
  intros r ? (x & -> & -> & ->). cbv beta iota.
  eapply judged_iff.
  { eapply (judged_check _ _ _ _ _ True); [by rewrite Z.eqb_eq|intros _].
    eapply judged_check; [apply Z.eqb_eq|intros _].
    eapply judged_bind; [apply (steps_slot_load pp page (k - 1)); [done|lia|done]|]. intros c ? [-> ->].
    change (ts_mem (forked v1)) with (ts_mem v1). rewrite E0.
    eapply judged_check; [apply exact_iff|intros _]. apply judged_finish_child. }
  unfold faithful. rewrite Ht0. naive_solver.
Qed.

Lemma readtags_judged v :
  judged (ct_func (ptrace_readtags g)) v
    (pol_tags (cap := cap) [true; false; true; false; false; false; false; false] = 0x05).
Proof.
  set (p0 := piod_cap (W := W)). set (p2 := local 1). set (pp := heap_block (cap := cap) 128).
  assert (cheri_tag_get p0 = true) as Ht0 by apply piod_block.
  assert (cheri_tag_get p2 = true) as Ht2 by (apply (t_stack 1); lia).
  assert (cheri_tag_get (cap_null (cap := cap)) = false) as Htn by apply of_int_tag.
  assert (block pp 128) as Hb by (apply t_heap; lia).
  eapply judged_bind; [apply (steps_alloc 128)|]. intros ? ? [-> ->]. fold pp.
  eapply judged_bind; [by apply (steps_zero pp 128)|]. intros _ ? ->.
  eapply judged_bind; [apply (steps_slot_store pp 128 0); [done|lia|done]|]. intros _ ? ->.
  eapply judged_bind; [apply (steps_slot_store pp 128 2); [done|lia|done]|]. intros _ ? ->.
  match goal with |- judged _ ?x _ => set (v1 := x) end.
  set (tags := [true; false; true; false; false; false; false; false]).
  assert (map (fun i => cheri_tag_get (ts_mem v1 (at_slot pp i))) (seqZ 0 8) = tags) as Htags.
  { unfold v1, tags. change (seqZ 0 8) with [0; 1; 2; 3; 4; 5; 6; 7]. simpl map.
    pose proof (bl_top _ _ Hb). repeat f_equal; slots; try done;
      (rewrite (proj2 (Z.leb_le _ _)) by lia; rewrite (proj2 (Z.ltb_lt _ _)) by lia; done). }
  eapply (judged_bind _ _ _ (fun _ v' => v' = v1)).
  { cbn [foreach]. injection Htags as H0 H1 H2 H3 H4 H5 H6 H7.
    repeat (eapply (steps_bind _ _ _ (fun _ v' => v' = v1));
      [apply (steps_verify_tag pp 128); [done|lia|done|done]|intros _ ? ->]).
    by apply steps_ret. }
  intros _ ? ->. eapply judged_bind; [apply steps_fork_child|]. intros pid ? ->.
  eapply judged_bind.
  { apply (steps_try _ _ (fun x v' => x = (1, [pol_tags (cap := cap) tags]) /\ v' = forked v1)).
    intros w Hw. destruct (t_read_tags pid pp w) as (w' & Hr & Ha). eexists _, w'.
    split; [exact Hr|]. split; [|congruence]. rewrite Hw. do 3 f_equal. exact Htags. }
  intros r ? (x & -> & -> & ->). cbv beta iota.
  eapply judged_iff.
  { eapply (judged_check _ _ _ _ _ True); [done|intros _].
    eapply judged_check; [apply Z.eqb_eq|intros _]. apply judged_finish_child. }
  unfold buffer_byte. simpl. naive_solver.
Qed.

(** What ptrace(2) must leave in memory for the first and second value. *)
Definition injected (pp0 : cap) : Prop :=
  let m0 := pol_write 1 (cap_bytes pp0) in
  let m1 := pol_write 0 (cap_bytes (cap_of_int 42)) in
  cheri_tag_get m0 = true /\ cheri_tag_clear m0 = pp0 /\
  cheri_tag_get m1 = false /\ m1 = cap_of_int 42.

Lemma writecap_judged v : cfg_prot_cap g = true ->
  judged (ct_func (ptrace_writecap g)) v (injected (ptr_add pol_pcc 16)).
Proof.
  intros Hg. set (map := map_block (cap := cap)). set (pp0 := ptr_add (pol_pcc (cap := cap)) 16).
  pose proof t_map as Hb. fold map in Hb. destruct t_page as (k & Hk & Hpage).
  eapply judged_bind.
  { apply (steps_call2 _ _ _ _ (fun _ v' => v' = v)). intros w Hw.
    destruct (t_shm_open w) as (fd & w' & ? & Ha). exists fd, w'. split; [done|congruence]. }
  intros fd ? ->. eapply judged_bind.
  { apply (steps_call2 _ _ _ _ (fun _ v' => v' = v)). intros w Hw.
    destruct (t_ftruncate fd page w) as (w' & ? & Ha). exists 0, w'. split; [done|congruence]. }
  intros _ ? ->. rewrite Hg. cbn [negb]. eapply judged_bind.
  { apply (steps_call2 _ _ _ _ (fun m v' => m = map /\
      v' = set_shared (cheri_address_get map) v)). intros w Hw.
    destruct (t_mmap fd w) as (w' & ? & Ha). exists map, w'. split; [done|]. by rewrite Ha, Hw. }
  intros ? ? [-> ->]. eapply judged_bind; [apply steps_fork_child|]. intros pid ? ->.
  match goal with |- judged _ ?x _ => set (v1 := x) end.
  eapply judged_bind.
  { apply (steps_call2 _ _ _ _ (fun c v' => c = pol_pcc /\ v' = v1)). intros w Hw.
    destruct (t_pcc pid w) as (w' & ? & Ha). exists pol_pcc, w'. split; [done|].
    split; [done|congruence]. }
  intros ? ? [-> ->]. cbv zeta. fold pp0.
  set (m0 := pol_write 1 (cap_bytes pp0)). set (m1 := pol_write 0 (cap_bytes (cap_of_int 42))).
  eapply judged_bind.
  { apply (steps_call2 _ _ _ _ (fun n v' => n = 2 * (csize + 1) /\
      ts_mem v' (at_slot map 0) = m0 /\ ts_mem v' (at_slot map 1) = m1)). intros w Hw.
    destruct (t_write_caps pid map 1 (cap_bytes pp0) 0 (cap_bytes (cap_of_int 42)) w)
      as (w' & ? & Ha); [apply t_length..|]. eexists _, w'. split; [done|]. split; [done|].
    rewrite Ha, Hw. unfold child_write. simpl ts_mem. rewrite decide_True by done.
    split; slots; done. }
  intros ? v2 (-> & E0 & E1).
  assert ((0 + 1) * csize <= page /\ (1 + 1) * csize <= page) as [Hf0 Hf1]
    by (change csize with 16 in *; lia).
  eapply judged_iff.
  { eapply (judged_check _ _ _ _ _ True); [by rewrite Z.eqb_refl|intros _].
    eapply judged_bind; [apply (steps_slot_load map page 0); [done|lia|done]|]. intros c ? [-> ->].
    rewrite E0. eapply judged_check; [reflexivity|intros _].
    eapply judged_bind; [apply (steps_slot_load map page 0); [done|lia|done]|]. intros c ? [-> ->].
    rewrite E0. eapply judged_check; [apply exact_iff|intros _].
    eapply judged_bind; [apply (steps_slot_load map page 1); [done|lia|done]|]. intros c ? [-> ->].
    rewrite E1. eapply judged_check; [apply negb_true_iff|intros _].
    eapply judged_bind; [apply (steps_slot_load map page 1); [done|lia|done]|]. intros c ? [-> ->].
    rewrite E1. eapply judged_check; [apply exact_iff|intros _]. apply judged_finish_child. }
  unfold injected. fold m0 m1. naive_solver.
Qed.

(** *** Registers *)

Lemma tag_bit_spec map i : 0 <= i -> (tag_bit map i =? 1) = Z.testbit map i.
Proof.
  intros Hi. unfold tag_bit. change 1 with (Z.ones 1) at 1. rewrite Z.land_ones by lia.
  rewrite <- (Z.add_0_l i) at 2. rewrite <- Z.shiftr_spec by lia.
  rewrite <- Z.bit0_mod. by destruct (Z.testbit (Z.shiftr map i) 0).
Qed.

Lemma steps_getregs pid text v :
  steps (CHERIOSTEST_CHECK_SYSCALL (sys (morello_getregs (cap := cap) pid)) text) v
    (fun r v' => r = ts_regs v /\ v' = v).
Proof.
  apply steps_call2. intros w Hw. destruct (t_getregs pid w) as (w' & ? & ?).
  eexists _, w'. split; [done|]. split; congruence.
Qed.

Lemma steps_rgetregs pid text v :
  steps (CHERIOSTEST_CHECK_SYSCALL (sys (riscv_getregs (cap := cap) pid)) text) v
    (fun r v' => r = ts_rregs v /\ v' = v).
Proof.
  apply steps_call2. intros w Hw. destruct (t_rgetregs pid w) as (w' & ? & ?).
  eexists _, w'. split; [done|]. split; congruence.
Qed.

Lemma morello_get_judged v :
  0 <= TAG_BIT_PCC (cap := cap) (W := W) -> 0 <= TAG_BIT_CSP (cap := cap) (W := W) ->
  judged (ct_func (morello_ptrace_getcapregs g)) v
    (Z.testbit (m_tag_map (ts_regs v)) (TAG_BIT_PCC (cap := cap) (W := W)) = true /\
     Z.testbit (m_tag_map (ts_regs v)) (TAG_BIT_CSP (cap := cap) (W := W)) = true).
Proof.
  intros Hp Hc. eapply judged_bind; [apply steps_fork_child|]. intros pid ? ->.
  eapply judged_bind; [apply steps_getregs|]. intros r ? [-> ->].
  eapply judged_iff.
  { eapply judged_check; [reflexivity|intros _]. eapply judged_check; [reflexivity|intros _].
    apply judged_finish_child. }
  rewrite !tag_bit_spec by done. simpl. naive_solver.
Qed.

(** A checked call that fails. *)
Lemma judged_call_fails {A B} (f : W -> (A + Z) * W) text (k : A -> test cap W B) v P :
  (forall w, tabs w = v -> exists e w', f w = (inr e, w')) -> ~ P ->
  judged (CHERIOSTEST_CHECK_SYSCALL (sys f) text ≫= k) v P.
Proof.
  intros Hf HP s [Hs Hv]. destruct (Hf _ Hv) as (e & w' & Hr). split; [|done].
  intros H. by apply (fail_check f text k s e w' Hr) in H.
Qed.

Lemma judged_restore pid back text v :
  judged (CHERIOSTEST_CHECK_SYSCALL (sys (morello_setregs (cap := cap) pid back)) text ;;
          finish_child g pid ;; cheriostest_success (A := unit)) v
    (pol_set (cap := cap) (ts_regs v) back <> None).
Proof.
  pose proof (fun w => t_setregs pid back w) as H.
  destruct (pol_set (cap := cap) (ts_regs v) back) as [r2|] eqn:E.
  - eapply judged_iff.
    + eapply (judged_bind _ _ _ (fun _ _ => True)); [|intros _ ? _; apply judged_finish_child].
      apply steps_call2. intros w Hw. specialize (H w). rewrite Hw, E in H.
      destruct H as (w' & Hr & _). by exists tt, w'.
    + done.
  - apply judged_call_fails; [|tauto]. intros w Hw. specialize (H w). rewrite Hw, E in H.
    destruct H as (e & w' & Hr & _). by exists e, w'.
Qed.

(** The kernel sets register 0 to the PCC with its tag, and puts it back. *)
Definition sets_c0 (r0 : morello_state) : Prop :=
  exists r1, pol_set (cap := cap) r0 (set_creg0 (m_pcc r0) (Z.lor (m_tag_map r0) 1) r0) = Some r1 /\
    creg0 r1 = m_pcc r0 /\ Z.land (m_tag_map r1) 1 = 1 /\
    pol_set (cap := cap) r1 (restored (creg0 r0) (Z.land (m_tag_map r0) 1) r1) <> None.

Lemma morello_set_judged v :
  judged (ct_func (morello_ptrace_setcapregs g)) v (sets_c0 (ts_regs v)).
Proof.
  set (r0 := ts_regs v). eapply judged_bind; [apply steps_fork_child|]. intros pid ? ->.
  eapply judged_bind; [apply steps_getregs|]. intros ? ? [-> ->].
  change (ts_regs (forked v)) with r0. cbv zeta.
  set (want := set_creg0 (m_pcc r0) (Z.lor (m_tag_map r0) 1) r0).
  destruct (pol_set (cap := cap) r0 want) as [r1|] eqn:E1.
  - eapply judged_bind.
    { apply (steps_ptrace_ret _ _ true (fun v' => v' = set_regs_to r1 (forked v))).
      intros w Hw. pose proof (t_setregs pid want w) as H. rewrite Hw in H.
      change (ts_regs (forked v)) with r0 in H. by rewrite E1 in H. }
    intros ? ? [-> ->]. eapply judged_iff.
    { eapply (judged_check _ _ _ _ _ True); [done|intros _].
      eapply judged_bind; [apply steps_getregs|]. intros ? ? [-> ->].
      eapply judged_check; [apply Z.eqb_eq|intros _].
      eapply judged_check; [apply Z.eqb_eq|intros _].
      apply (judged_restore pid). }
    unfold sets_c0. fold want. rewrite E1. naive_solver.
  - eapply judged_bind.
    { apply (steps_ptrace_ret _ _ false (fun v' => v' = forked v)).
      intros w Hw. pose proof (t_setregs pid want w) as H. rewrite Hw in H.
      change (ts_regs (forked v)) with r0 in H. rewrite E1 in H.
      destruct H as (e & w' & Hr & Ha). exists e, w'. split; [done|congruence]. }
    intros ? ? [-> ->]. apply judged_verify; [done|]. intros _ (r1 & H & _).
    fold want in H. congruence.
Qed.

Lemma riscv_get_judged v :
  judged (ct_func (riscv_ptrace_getcapregs g)) v
    (forall i, 0 <= i < 5 -> Z.testbit (greg (ts_rregs v) 33) i = true).
Proof.
  eapply judged_bind; [apply steps_fork_child|]. intros pid ? ->.
  eapply judged_bind; [apply steps_rgetregs|]. intros r ? [-> ->].
  change (ts_rregs (forked v)) with (ts_rregs v). cbv zeta. cbn [foreach].
  eapply judged_iff.
  { do 5 (apply judged_assoc; eapply judged_check; [reflexivity|intros _]).
    apply judged_ret, judged_finish_child. }
  rewrite !tag_bit_spec by lia. split.
  - intros (H0 & H1 & H2 & H3 & H4 & _) i Hi.
    assert (i = 0 \/ i = 1 \/ i = 2 \/ i = 3 \/ i = 4) as [-> | [-> | [-> | [-> | ->]]]]
      by lia; done.
  - intros H. split_and!; try apply H; lia || done.
Qed.

(** Whatever PTRACE_SETREGSET does. *)
Lemma riscv_set_judged v : judged (ct_func (riscv_ptrace_setcapregs g)) v True.
Proof.
  eapply (judged_bind _ _ _ (fun _ v' => v' = v)).
  { apply steps_when. intros _. eapply (steps_bind _ _ _ (fun q v' => q = false /\ v' = v)).
    - intros s Hs. unfold is_running_on_qemu, gets, mbind, eff_bind.
      destruct (t_model (p_world s)) as (l & -> & Hl). eexists _, _, v.
      split; [reflexivity|]. done.
    - intros q ? [-> ->]. by apply steps_ret. }
  intros _ ? ->. eapply judged_bind; [apply steps_fork_child|]. intros pid ? ->.
  eapply judged_bind; [apply steps_rgetregs|]. intros r ? [-> ->].
  change (ts_rregs (forked v)) with (ts_rregs v). cbv zeta.
  match goal with |- context [riscv_setregs pid ?x] => set (want := x) end.
  eapply (judged_bind _ _ _ (fun _ _ => True)); [|intros; apply judged_after_success].
  eapply steps_mono; [|by intros].
  apply (steps_ptrace_ret _ _ (bool_decide (is_Some (pol_rset (cap := cap) (ts_rregs v) want)))
    (fun _ => True)).
  intros w Hw. pose proof (t_rsetregs pid want w) as H. rewrite Hw in H.
  change (ts_rregs (forked v)) with (ts_rregs v) in H.
  destruct (pol_rset (cap := cap) (ts_rregs v) want) as [r'|].
  - rewrite bool_decide_eq_true_2 by done. destruct H as (w' & ? & _). by exists w'.
  - rewrite bool_decide_eq_false_2 by by intros []. destruct H as (e & w' & ? & _).
    by exists e, w'.
Qed.

(** *** PTRACE_PEEKCAP and PTRACE_POKECAP *)

Lemma slot_address (p : cap) n i : block p n -> 0 <= i -> (i + 1) * csize <= n ->
  cheri_address_get (ptr_add p (i * csize)) = at_slot p i.
Proof.
  intros Hb H0 Hn. unfold ptr_add. rewrite address_set_address. pose proof (bl_top _ _ Hb).
  pose proof (address_range p). change csize with 16 in *.
  rewrite !wrapu_small; [done|lia|rewrite wrapu_small; lia].
Qed.

Lemma steps_peek pid (p : cap) text v :
  steps (peek pid p text) v
    (fun u v' => u = pol_peek (ts_child v (cheri_address_get p)) /\ v' = v).
Proof.
  eapply steps_bind.
  { apply (steps_try _ _ (fun u v' => u = pol_peek (ts_child v (cheri_address_get p)) /\ v' = v)).
    intros w Hw. destruct (t_peek pid p w) as (w' & ? & ?). eexists _, w'.
    split; [done|]. split; congruence. }
  intros r ? (u & -> & -> & ->).
  eapply steps_bind; [by apply steps_verify, bool_decide_eq_true_2|]. intros _ ? ->.
  by apply steps_ret.
Qed.

(** The kernel reports the tag and the bits. *)
Definition peeks (c : cap) : Prop :=
  uc_tag (pol_peek c) = (if cheri_tag_get c then 1 else 0) /\
  val_eq (W := W) (uc_val (pol_peek c)) c = true.

Lemma peek_judged v :
  judged (ct_func (ptrace_peekcap g)) v (peeks cap_null /\ peeks (local 32)).
Proof.
  set (buf := local 32). assert (block buf 32) as Hb by (apply t_stack; lia).
  assert (cheri_tag_get (cap_null (cap := cap)) = false) as Htn by apply of_int_tag.
  pose proof (bl_tag _ _ Hb) as Htb.
  eapply judged_bind; [by apply (steps_zero buf 32)|]. intros _ ? ->.
  eapply judged_bind; [apply (steps_slot_store buf 32 0); [done|lia|done]|]. intros _ ? ->.
  eapply judged_bind; [apply (steps_slot_store buf 32 1); [done|lia|done]|]. intros _ ? ->.
  eapply judged_bind; [apply (steps_verify_tag buf 32 0); [done|lia|done|by slots]|]. intros _ ? ->.
  eapply judged_bind; [apply (steps_verify_tag buf 32 1); [done|lia|done|by slots]|]. intros _ ? ->.
  eapply judged_bind; [apply steps_fork_child|]. intros pid ? ->.
  match goal with |- judged _ (forked ?x) _ => set (v1 := x) end.
  assert (ts_mem v1 (at_slot buf 0) = cap_null) as E0 by (unfold v1; slots; done).
  assert (ts_mem v1 (at_slot buf 1) = buf) as E1 by (unfold v1; slots; done).
  eapply judged_bind; [apply steps_peek|]. intros ? ? [-> ->].
  eapply judged_bind; [apply steps_peek|]. intros ? ? [-> ->].
  change (local (2 * csize)) with buf.
  assert (ts_child (forked v1) (cheri_address_get buf) = cap_null) as ->.
  { rewrite <- E0. change (at_slot buf 0) with (cheri_address_get buf + 0). by rewrite Z.add_0_r. }
  assert (ts_child (forked v1) (cheri_address_get (ptr_add buf csize)) = buf) as ->.
  { rewrite <- E1 at 2. change csize with (1 * csize) at 1. by rewrite (slot_address buf 32). }
  eapply judged_iff.
  { eapply judged_check; [apply Z.eqb_eq|intros _].
    eapply judged_bind; [apply (steps_slot_load buf 32 0); [done|lia|done]|]. intros c ? [-> ->].
    change (ts_mem (forked v1)) with (ts_mem v1). rewrite E0.
    eapply judged_check; [reflexivity|intros _]. eapply judged_check; [apply Z.eqb_eq|intros _].
    eapply judged_bind; [apply (steps_slot_load buf 32 1); [done|lia|done]|]. intros c ? [-> ->].
    change (ts_mem (forked v1)) with (ts_mem v1). rewrite E1.
    eapply judged_check; [reflexivity|intros _]. apply judged_finish_child. }
  unfold peeks. rewrite Htn, Htb. naive_solver.
Qed.

(** The kernel lets the tracer make the capability [map] out of its bits. *)
Definition pokes (map : cap) : Prop :=
  pol_forge (cap := cap) = None /\
  exists c, pol_poke (UserCap (cap_bytes map) 1) = Some c /\
    val_eq (W := W) (uc_val (pol_peek c)) map = true /\ uc_tag (pol_peek c) = 1.

Lemma poke_judged v : judged (ct_func (ptrace_pokecap g)) v (pokes (heap_block page)).
Proof.
  set (map := heap_block page). destruct t_page as (k & Hk & Hpage).
  assert (block map page) as Hb by (apply t_heap; rewrite Hpage; change csize with 16; lia).
  destruct (pol_forge (cap := cap)) as [e|] eqn:Ef.
  { apply (judged_iff _ _ False); [|unfold pokes; rewrite Ef; split; [done|by intros [? _]]].
    unfold ptrace_pokecap, ptrace_forge_cap_sysctl_exists. simpl. apply judged_assoc.
    eapply judged_bind; [apply (steps_gets _ _ (fun w v2 => v2 = v)); by intros|]. intros w ? ->.
    rewrite t_forge, Ef. apply judged_assoc.
    eapply (judged_bind _ _ _ (fun _ v' => v' = v)); [intros s [Hs Hv]; by eexists _, _, v|].
    intros _ ? ->. destruct (e =? _); [apply judged_ret; apply judged_verify; [by intros|by intros _ []]|].
    apply judged_assoc. apply judged_failure; intros H; exact H. }
  eapply (judged_bind _ _ _ (fun b v' => b = true /\ v' = v)).
  { intros s Hs. unfold ptrace_forge_cap_sysctl_exists, gets, mbind, eff_bind.
    rewrite t_forge, Ef. by exists true, s, v. }
  intros ? ? [-> ->]. eapply judged_bind; [by apply steps_verify|]. intros _ ? ->.
  eapply judged_bind; [apply steps_alloc|]. intros ? ? [-> ->]. fold map.
  eapply judged_bind; [by apply steps_zero|]. intros _ ? ->.
  eapply judged_bind; [apply steps_fork_child|]. intros pid ? ->. cbv zeta.
  match goal with |- judged _ ?x _ => set (v1 := x) end.
  set (u := UserCap (cap_bytes map) 1).
  pose proof (fun w => t_poke pid map u w) as Hpoke. destruct (pol_poke u) as [c|] eqn:Ep.
  - eapply judged_bind.
    { apply (steps_ptrace_ret _ _ true (fun v' => ts_child v' (cheri_address_get map) = c)).
      intros w Hw. destruct (Hpoke w) as (w' & Hr & Ha). exists w'. split; [exact Hr|].
      rewrite Ha. unfold child_write. slots. done. }
    intros ? v2 [-> E]. eapply judged_bind; [by apply steps_verify|]. intros _ ? ->.
    eapply judged_bind; [by apply steps_verify|]. intros _ ? ->.
    eapply judged_bind; [apply steps_peek|]. intros ? ? [-> ->]. rewrite E.
    eapply judged_iff.
    { eapply judged_check; [reflexivity|intros _]. eapply judged_check; [apply Z.eqb_eq|intros _].
      apply judged_finish_child. }
    unfold pokes. fold u. rewrite Ep. naive_solver.
  - eapply judged_bind.
    { apply (steps_ptrace_ret _ _ false (fun _ => True)).
      intros w Hw. destruct (Hpoke w) as (e & w' & Hr & Ha). by exists e, w'. }
    intros ? ? [-> _]. apply judged_verify; [done|]. intros _ (_ & c & H & _).
    fold u in H. congruence.
Qed.

(** C12: on such a kernel, and not on QEMU, the tests of CheriBSD pass exactly when it reports the
    tag and the bits of the capabilities in the memory of the child, the tags
    of a block of eight, and makes the tagged and the untagged value that the
    parent writes; the tests of Linux for Morello exactly when the tags of PCC
    and of the stack pointer are reported, and register 0 can be set to the PCC
    and put back; on RISC-V the test of the tags likewise for five registers,
    but the test that sets a register passes whatever the kernel does with it,
    because it declares success first; and the tests of single capabilities
    exactly when what is peeked is what was stored or poked. *)
Theorem ptrace_tests_verdict (s : proc cap W) :
  shared s -> cfg_prot_cap g = true ->
  0 <= TAG_BIT_PCC (cap := cap) (W := W) -> 0 <= TAG_BIT_CSP (cap := cap) (W := W) ->
  let v := tabs (p_world s) in
  (succeeds (ct_func (ptrace_readcap g)) s <->
   faithful (piod_cap (W := W)) /\ faithful (cap_of_int 42)) /\
  (succeeds (ct_func (ptrace_readtags g)) s <->
   pol_tags (cap := cap) [true; false; true; false; false; false; false; false] = 0x05) /\
  (succeeds (ct_func (ptrace_readcap_pageend g)) s <-> faithful (piod_cap (W := W))) /\
  (succeeds (ct_func (ptrace_writecap g)) s <-> injected (ptr_add pol_pcc 16)) /\
  (succeeds (ct_func (morello_ptrace_getcapregs g)) s <->
   Z.testbit (m_tag_map (ts_regs v)) (TAG_BIT_PCC (cap := cap) (W := W)) = true /\
   Z.testbit (m_tag_map (ts_regs v)) (TAG_BIT_CSP (cap := cap) (W := W)) = true) /\
  (succeeds (ct_func (morello_ptrace_setcapregs g)) s <-> sets_c0 (ts_regs v)) /\
  (succeeds (ct_func (riscv_ptrace_getcapregs g)) s <->
   forall i, 0 <= i < 5 -> Z.testbit (greg (ts_rregs v) 33) i = true) /\
  succeeds (ct_func (riscv_ptrace_setcapregs g)) s /\
  (succeeds (ct_func (ptrace_peekcap g)) s <-> peeks cap_null /\ peeks (local 32)) /\
  (succeeds (ct_func (ptrace_pokecap g)) s <-> pokes (heap_block page)).
Proof.
  intros Hs Hg Hp Hc v. assert (Judge.on (tabs (cap := cap)) v s) as Hon by done.
  exact (conj (readcap_judged v s Hon) (conj (readtags_judged v s Hon)
    (conj (pageend_judged v s Hon) (conj (writecap_judged v Hg s Hon)
    (conj (morello_get_judged v Hp Hc s Hon) (conj (morello_set_judged v s Hon)
    (conj (riscv_get_judged v s Hon) (conj (proj2 (riscv_set_judged v s Hon) I)
    (conj (peek_judged v s Hon) (poke_judged v s Hon)))))))))).
Qed.
End Facts.

(** ** A concrete kernel *)

#[export] Instance toy_trace_policy : TracePolicy scap := {|
  pol_read c := (if sc_tag c then 1 else 0) :: cap_bytes c;
  pol_tags l := foldr (fun b n => (if (b : bool) then 1 else 0) + 2 * n) 0 l;
  pol_write t bs := cap_of_bytes (t =? 1) bs;
  pol_pcc := SCap false 0x10040 0x10000 0x10000 0 (-1);
  pol_set _ r := Some r;
  pol_rset _ _ := None;
  pol_peek c := UserCap (cap_bytes c) (if sc_tag c then 1 else 0);
  pol_poke u := Some (cap_of_bytes (uc_tag u =? 1) (uc_val u));
  pol_forge := None;
  heap_block n := toy_cap 0x10000 n 0 0;
  map_block := toy_cap 0x20000 4096 0 0;
|}.

Abbreviation trace_world := (tstate scap).

#[export] Instance trace_kernel : Kernel scap trace_world := {|
  getpagesize := 4096;
  sys_mmap _ _ _ _ _ _ w := (inl map_block, set_shared 0x20000 w);
  sys_munmap _ _ w := (inl 0, w);
  sys_mprotect _ _ _ w := (inl 0, w);
  sys_minherit _ _ _ w := (inl 0, w);
  sys_shmget _ _ _ w := (inr 78, w);
  sys_shmat _ _ _ w := (inr 78, w);
  sys_shmdt _ w := (inr 78, w);
  sys_shm_open _ _ _ w := (inl 3, w);
  sys_shm_unlink _ w := (inl 0, w);
  sys_memfd_create _ _ w := (inr 78, w);
  sys_open _ _ w := (inr 78, w);
  sys_mkstemp t w := (inr 78, w);
  sys_unlink _ w := (inl 0, w);
  sys_ftruncate _ _ w := (inl 0, w);
  sys_close _ w := (inl 0, w);
  os_random w := (7, w);
  mem_load_cap c off w := (inl (ts_mem w (cheri_address_get c + off)), w);
  mem_store_cap c off x w :=
    (inl tt, set_mem (upd (cheri_address_get c + off) x (ts_mem w)) w);
  mem_store_byte _ _ _ w := (inl tt, w);
  stack_local n := toy_cap 0x7000 n 0 0;
|}.

#[export] Instance trace_fork : ForkOS trace_world := {|
  sys_fork _ w := (inl 42, forked w);
  as_child w := w;
  as_parent w := w;
|}.

#[export] Instance trace_os : TraceOS scap trace_world := {|
  os_traceme w := (inl tt, w);
  os_continue _ w := (inl tt, w);
  io_read_caps _ p len w :=
    (inl (len, concat (map (fun i => pol_read (ts_child w (cheri_address_get p + i * 16)))
                 (seqZ 0 (len / 17)))), w);
  io_read_tags _ p _ w :=
    (inl (1, [pol_tags (map (fun i => sc_tag (ts_child w (cheri_address_get p + i * 16)))
                (seqZ 0 8))]), w);
  io_write_caps _ p buf w :=
    let a := cheri_address_get p in
    (inl 34, child_write a (fun m =>
       upd (a + 16) (pol_write (buffer_byte buf 17) (drop 18 buf))
         (upd a (pol_write (buffer_byte buf 0) (take 16 (drop 1 buf))) m)) w);
  os_getcapreg_pcc _ w := (inl pol_pcc, w);
  morello_getregs _ w := (inl (ts_regs w), w);
  morello_setregs _ r w := (inl tt, set_regs_to r w);
  riscv_getregs _ w := (inl (ts_rregs w), w);
  riscv_setregs _ _ w := (inr 1, w);
  os_peekcap _ p w := (inl (pol_peek (ts_child w (cheri_address_get p))), w);
  os_pokecap _ p u w :=
    (inl tt, child_write (cheri_address_get p)
               (upd (cheri_address_get p) (cap_of_bytes (uc_tag u =? 1) (uc_val u))) w);
  heap_alloc n w := (heap_block n, w);
  heap_zero p n w := (inl tt, set_mem (zeroed (cheri_address_get p) n (ts_mem w)) w);
  os_stat_forge_cap _ := None;
  os_model_file _ := Some ["ucbbar,spike-bare"%string];
  ENOENT := 2;
  sizeof_piod := 64;
  TAG_BIT_PCC := 1;
  TAG_BIT_CSP := 2;
  STOP_SIGNAL := 17;
  val_eq bs c := bool_decide (bs = cap_bytes c);
|}.

#[export] Instance trace_rules : TraceRules scap trace_world.
Proof.
  refine {| tabs w := w |}; try done; try (intros; by eexists).
  - by exists 256.
  - intros n Hn. split; [|done]. simpl in *. rewrite wrapu_small by lia. lia.
  - intros n Hn. split; [|done]. simpl in *. rewrite wrapu_small by lia. lia.
  - intros w. by exists 42, (forked w).
  - intros pid p n w. exists w. split; [|done]. simpl io_read_caps.
    change (Z.of_nat CAPSIZE + 1) with 17. change (Z.of_nat CAPSIZE) with 16.
    rewrite (Z.mul_comm 17), Z.div_mul by done. done.
  - intros pid p t0 b0 t1 b1 w H0 H1. eexists. split; [reflexivity|]. cbv zeta.
    destruct (buffer_two (cap := scap) (t0 :: b0) (t1 :: b1)) as (_ & _ & E2 & _); [by simpl; rewrite H0|].
    assert (take 16 (drop 1 ((t0 :: b0) ++ t1 :: b1)) = b0) as Eb0.
    { simpl. change 16%nat with CAPSIZE. rewrite <- H0. apply take_app_length. }
    assert (drop 18 ((t0 :: b0) ++ t1 :: b1) = b1) as Eb1.
    { rewrite (drop_app_ge (t0 :: b0)) by (simpl; rewrite H0; unfold CAPSIZE; lia).
      simpl length. by rewrite H0. }
    unfold child_write.
    change (buffer_byte ((t0 :: b0) ++ t1 :: b1) 17) with
      (buffer_byte ((t0 :: b0) ++ t1 :: b1) (CAPSIZE + 1)). rewrite E2, Eb0, Eb1.
    done.
  - intros pid r w. by exists 1, w.
  - intros w. by exists 3, w.
Defined.

Definition toy_trace_config : config :=
  Config FreeBSD Aarch64 true false false true "cheriostest" "-purecap" "../libexec".

Definition trace_proc : proc scap trace_world :=
  Proc (Some child_state_zero) 0 ∅ "" "" 0
    (TState (fun _ => cap_null) (fun _ => cap_null) None (MorelloState [5] 0 9 6) (replicate 34 31)).

Lemma ptrace_tests_verdict_witness :
  succeeds (ct_func (ptrace_readcap toy_trace_config)) trace_proc /\
  succeeds (ct_func (ptrace_readtags toy_trace_config)) trace_proc /\
  succeeds (ct_func (ptrace_readcap_pageend toy_trace_config)) trace_proc /\
  succeeds (ct_func (ptrace_writecap toy_trace_config)) trace_proc /\
  succeeds (ct_func (morello_ptrace_getcapregs toy_trace_config)) trace_proc /\
  succeeds (ct_func (morello_ptrace_setcapregs toy_trace_config)) trace_proc /\
  succeeds (ct_func (riscv_ptrace_setcapregs toy_trace_config)) trace_proc /\
  succeeds (ct_func (ptrace_peekcap toy_trace_config)) trace_proc /\
  succeeds (ct_func (ptrace_pokecap toy_trace_config)) trace_proc.
Proof.
  destruct (ptrace_tests_verdict (RR := trace_rules) toy_trace_config trace_proc)
    as (H1 & H2 & H3 & H4 & H5 & H6 & _ & H8 & H9 & H10); [by eexists|done..|].
  split_and!.
  - apply H1. by split; split.
  - by apply H2.
  - apply H3. by split.
  - apply H4. unfold injected. split_and!; by vm_compute.
  - apply H5. by split.
  - apply H6. by eexists.
  - exact H8.
  - apply H9. by split; split.
  - apply H10. split; [done|]. by eexists.
Defined.
