(* ===== verification/Contexts.v ===== *)
(** * Contexts: transfers of control (cheriostest_context.c, cheriostest_longjmp.c)

    setjmp(3), setcontext(3) and swapcontext(3) leave the function that calls
    them and enter another one, or the same one again.  The C library says
    where control goes and with which arguments; the code that it reaches is
    translated as a function of them, so that a test is the run of the pieces
    that the library chains. *)

From S2P Require Import Prelude Printf Cheri Perms Harness Toy Registers Kernel VmTags Judge Ptrace.

(** The functions that a context can start. *)
Inductive ctx_func := SetcontextFunc | SwapcontextFunc.

(** ucontext_t, as far as the file sets it; the rest is what getcontext(3) saved. *)
Record ucontext (cap : Type) := Ucontext {
  uc_stack : option (cap * Z);             (* ss_sp, ss_size *)
  uc_link_set : bool;                      (* uc_link is not NULL *)
  uc_start : option (ctx_func * list Z);   (* makecontext(3) *)
}.
Arguments Ucontext {cap}.
Arguments uc_stack {cap}.
Arguments uc_link_set {cap}.
Arguments uc_start {cap}.

Class ContextOS (cap W : Type) := {
  os_setjmp : W -> Z * W;                        (* the direct return *)
  (* the value that setjmp returns again, or a return to the caller *)
  os_longjmp : Z -> W -> option Z * W;
  os_getcontext : W -> (unit + Z) * W;
  (* -1 with an errno, or the function that is entered and its arguments; None
     is a return of 0 to the caller *)
  os_setcontext : ucontext cap -> W -> (option (ctx_func * list Z) + Z) * W;
  os_swapcontext : ucontext cap -> W -> (option (ctx_func * list Z) + Z) * W;
  (* after a function of a context returns: the result of swapcontext(3) in
     the context of uc_link, or the end of the process *)
  os_resume_link : ucontext cap -> W -> option Z * W;
  ctx_stack_size : Z;                            (* SIGSTKSZ *)
}.

Section Contexts.
Context {cap W : Type} {CH : Cheri cap} {LC : Libc cap W} {KE : Kernel cap W} {VC : VmConsts}
  {CX : ContextOS cap W}.
Context (g : config) (musl : bool).                (* __musl_libc_heuristic__ *)

(** *** cheriostest_longjmp.c *)

Definition libc_setjmp : cheri_test cap W :=
  CHERIOSTEST "libc_setjmp" "Exercise setjmp without longjmp"
    (ret ← libcall (os_setjmp (cap := cap));
     fail_if (negb (ret =? 0)) "setjmp returned non-zero value" [] ;;
     cheriostest_success).

(** The code after setjmp, which a jump runs again with another result. *)
Fixpoint after_setjmp (fuel : nat) (ret : Z) : test cap W unit :=
  match fuel with
  | O => undef
  | S fuel' =>
      if ret =? 0 then
        r ← libcall (os_longjmp (cap := cap) 123);
        match r with
        | Some ret' => after_setjmp fuel' ret'
        | None => cheriostest_failure_errx "longjmp returned" []
        end
      else
        fail_if (negb (ret =? 123)) "setjmp returned unexpected non-zero value" [] ;;
        cheriostest_success
  end.

Definition libc_setjmp_longjmp (fuel : nat) : cheri_test cap W :=
  CHERIOSTEST "libc_setjmp_longjmp" "Exercise setjmp with longjmp"
    (ret ← libcall (os_setjmp (cap := cap)); after_setjmp fuel ret).

(** *** cheriostest_context.c *)

Definition GET_AND_SETCONTEXT_FAILURE_MESSAGE : string :=
  "getcontext() and related functions are not supported by musl libc".

Definition SWAPCONTEXT_ARG1 : Z := 0x53574150.
Definition SETCONTEXT_ARG1 : Z := 0x43485249.
Definition SETCONTEXT_ARG2 : Z := 0x534554.

Definition XFAIL_FLAKY_C18N_CONTEXT : option string :=
  if cfg_c18n g
  then Some "setcontext and swapcontext are currently unsupported by library-based compartmentalisation"%string
  else None.

Definition ucontext_mmap_stack (uctx : ucontext cap) : test cap W (ucontext cap) :=
  let len := ctx_stack_size (cap := cap) (W := W) in
  p ← try_sys (sys_mmap cap_null len (Z.lor PROT_READ PROT_WRITE) MAP_ANON (-1) 0);
  match p with
  | None => cheriostest_failure_errx "failed to map new stack" []
  | Some p => mret (Ucontext (Some (p, len)) (uc_link_set uctx) (uc_start uctx))
  end.

Definition setcontext_func (arg1 arg2 : Z) : test cap W unit :=
  CHERIOSTEST_VERIFY (arg1 =? SETCONTEXT_ARG1) "arg1 == SETCONTEXT_ARG1" ;;
  CHERIOSTEST_VERIFY (arg2 =? SETCONTEXT_ARG2) "arg2 == SETCONTEXT_ARG2" ;;
  cheriostest_success.

(** A function of the file runs on the new stack, [swapcontext_arg1] being the
    static object that it gives back; a wrong function has no meaning here. *)
Definition run_context (f : ctx_func) (args : list Z) (swapcontext_arg1 : Z) : test cap W Z :=
  match f, args with
  | SetcontextFunc, arg1 :: arg2 :: _ => setcontext_func arg1 arg2 ;; mret swapcontext_arg1
  | SwapcontextFunc, arg1 :: _ => mret arg1
  | _, _ => undef
  end.

Definition saved_context : ucontext cap := Ucontext None false None.

(** [.ct_flaky_reason] and [.ct_xfail_reason] of both tests. *)
Definition with_context_reasons (t : cheri_test cap W) : cheri_test cap W :=
  if musl then with_xfail (Some "Not supported"%string) t
  else CheriTest (ct_name t) (ct_desc t) (ct_func t) (ct_child_func t) (ct_check_skip t)
         (ct_check_xfail t) (ct_flags t) (ct_signum t) (ct_si_code t) (ct_si_trapno t)
         (ct_stdin_string t) (ct_stdout_string t) (ct_xfail_reason t) XFAIL_FLAKY_C18N_CONTEXT.

Definition setcontext_basic : cheri_test cap W :=
  with_context_reasons (CHERIOSTEST "setcontext_basic" "Check that setcontext works"
    (if musl then cheriostest_failure_errx GET_AND_SETCONTEXT_FAILURE_MESSAGE [] else
     CHERIOSTEST_CHECK_SYSCALL (sys (os_getcontext (cap := cap))) "getcontext(&uc)" ;;
     uc ← ucontext_mmap_stack saved_context;
     let uc := Ucontext (uc_stack uc) false
                 (Some (SetcontextFunc, [SETCONTEXT_ARG1; SETCONTEXT_ARG2])) in
     entered ← CHERIOSTEST_CHECK_SYSCALL (sys (os_setcontext uc)) "setcontext(&uc)";
     match entered with
     | Some (f, args) => run_context f args 0 ;; exit 0        (* uc_link is NULL *)
     | None => cheriostest_failure_errx "returned from successful setcontext" []
     end)).

Definition swapcontext_basic : cheri_test cap W :=
  with_context_reasons (CHERIOSTEST "swapcontext_basic" "Check that swapcontext works"
    (if musl then cheriostest_failure_errx GET_AND_SETCONTEXT_FAILURE_MESSAGE [] else
     CHERIOSTEST_CHECK_SYSCALL (sys (os_getcontext (cap := cap))) "getcontext(&uc)" ;;
     uc ← ucontext_mmap_stack saved_context;
     let uc := Ucontext (uc_stack uc) true (Some (SwapcontextFunc, [SWAPCONTEXT_ARG1])) in
     entered ← CHERIOSTEST_CHECK_SYSCALL (sys (os_swapcontext uc)) "swapcontext(&uc_link, &uc)";
     '(ret, swapcontext_arg1) ←
       match entered with
       | Some (f, args) =>
           arg1 ← run_context f args 0;
           r ← libcall (os_resume_link uc);
           match r with
           | Some ret => mret (ret, arg1)
           | None => exit 0
           end
       | None => mret (0, 0)
       end;
     CHERIOSTEST_VERIFY2 (ret =? 0) "unknown return value from swapcontext" [] ;;
     CHERIOSTEST_VERIFY (swapcontext_arg1 =? SWAPCONTEXT_ARG1)
       "swapcontext_arg1 == SWAPCONTEXT_ARG1" ;;
     cheriostest_success)).
End Contexts.

(** ** What the tests accept *)

(** What the library may choose. *)
Class ControlPolicy (cap : Type) := {
  jump_value : Z -> Z;                          (* what a jump delivers *)
  entry_args : list Z -> list Z;                (* what an entered function gets *)
  resumes_with : Z;                             (* what swapcontext returns with *)
}.

Section Rules.
Context {cap W : Type} {CH : Cheri cap} {KE : Kernel cap W} {VC : VmConsts} {CX : ContextOS cap W}
  {CP : ControlPolicy cap}.

(** Each call goes where it should. *)
Class ControlRules := {
  x_setjmp w : exists w', os_setjmp (cap := cap) w = (0, w');
  x_longjmp n w : exists w', os_longjmp (cap := cap) n w = (Some (jump_value (cap := cap) n), w');
  x_getcontext w : exists w', os_getcontext (cap := cap) w = (inl tt, w');
  x_mmap n w : exists (p : cap) w',
    sys_mmap cap_null n (Z.lor PROT_READ PROT_WRITE) MAP_ANON (-1) 0 w = (inl p, w');
  x_setcontext uc f args w : uc_start uc = Some (f, args) -> exists w',
    os_setcontext uc w = (inl (Some (f, entry_args (cap := cap) args)), w');
  x_swapcontext uc f args w : uc_start uc = Some (f, args) -> exists w',
    os_swapcontext uc w = (inl (Some (f, entry_args (cap := cap) args)), w');
  x_resume uc w : uc_link_set uc = true -> exists w',
    os_resume_link uc w = (Some (resumes_with (cap := cap)), w');
}.
End Rules.
Arguments ControlRules cap W {_ _ _ _ _}.

Section Facts.
Context {cap W : Type} {CH : Cheri cap} {LC : Libc cap W} {KE : Kernel cap W} {VC : VmConsts}
  {CX : ContextOS cap W} {CP : ControlPolicy cap} {RR : ControlRules cap W}.
Context (g : config).

Abbreviation steps := (Judge.steps (cap := cap) (fun _ : W => tt)).
Abbreviation judged := (Judge.judged (cap := cap) (fun _ : W => tt)).

Lemma steps_lib {A} (f : W -> A * W) (a : A) v : (forall w, exists w', f w = (a, w')) ->
  steps (libcall f) v (fun b _ => b = a).
Proof. intros Hf. apply steps_libcall. intros w _. by destruct (Hf w) as [w' ->]. Qed.

Lemma steps_checked {A} (f : W -> (A + Z) * W) (a : A) text v :
  (forall w, exists w', f w = (inl a, w')) ->
  steps (CHERIOSTEST_CHECK_SYSCALL (sys f) text) v (fun b _ => b = a).
Proof.
  intros Hf. apply steps_call2. intros w _. destruct (Hf w) as [w' Hr]. by exists a, w'.
Qed.

Lemma steps_stack uc v : steps (ucontext_mmap_stack uc) v (fun _ _ => True).
Proof.
  eapply steps_bind; [apply (steps_try _ _ (fun _ _ => True))|].
  - intros w _. destruct (x_mmap (ctx_stack_size (cap := cap) (W := W)) w) as (p & w' & Hr).
    by exists p, w'.
  - intros r v' (p & -> & _). by apply steps_ret.
Qed.

(** The jump of the test is never one that runs the code again with 0: any
    fuel from two on gives the same run. *)
Lemma after_setjmp_fuel n v : jump_value (cap := cap) 123 <> 0 ->
  judged (after_setjmp (cap := cap) (S (S n)) 0) v (jump_value (cap := cap) 123 = 123).
Proof.
  intros H0. cbn [after_setjmp]. rewrite Z.eqb_refl.
  eapply judged_bind; [apply steps_lib, x_longjmp|]. intros ? [] ->. cbn [after_setjmp].
  rewrite (proj2 (Z.eqb_neq _ _)) by done.
  eapply judged_iff; [eapply judged_checks; [apply _|by apply (judged_success _ True)]|].
  simpl. rewrite andb_true_r, negb_involutive, Z.eqb_eq. tauto.
Qed.

Lemma judged_undef {A B} (k : A -> test cap W B) v P : ~ P -> judged (undef ≫= k) v P.
Proof. intros HP s _. split; [|done]. by intros [? ?]. Qed.

Abbreviation delivered := (entry_args (cap := cap)).

Lemma setjmp_judged : judged (ct_func libc_setjmp) tt True.
Proof.
  eapply judged_bind; [apply steps_lib, x_setjmp|]. intros ? [] ->.
  rewrite Z.eqb_refl. eapply judged_iff.
  - eapply judged_checks; [apply _|by apply (judged_success _ True)].
  - done.
Qed.

Lemma longjmp_judged n : jump_value (cap := cap) 123 <> 0 ->
  judged (ct_func (libc_setjmp_longjmp (S (S n)))) tt (jump_value (cap := cap) 123 = 123).
Proof.
  intros Hj. eapply judged_bind; [apply steps_lib, x_setjmp|]. intros ? [] ->.
  by apply after_setjmp_fuel.
Qed.

Lemma setcontext_judged :
  judged (ct_func (setcontext_basic g false)) tt
    (exists rest, delivered [SETCONTEXT_ARG1; SETCONTEXT_ARG2] =
                    SETCONTEXT_ARG1 :: SETCONTEXT_ARG2 :: rest).
Proof.
  eapply judged_bind; [apply steps_checked, x_getcontext|]. intros ? [] ->.
  eapply judged_bind; [apply steps_stack|]. intros uc [] _. cbv zeta.
  eapply judged_bind; [by apply steps_checked; intros w; apply x_setcontext|]. intros ? [] ->.
  destruct (delivered [SETCONTEXT_ARG1; SETCONTEXT_ARG2]) as [|a1 [|a2 rest]] eqn:E.
  - apply judged_undef. by intros [? ?].
  - apply judged_undef. by intros [? ?].
  - do 2 apply judged_assoc. eapply judged_iff.
    { eapply judged_checks; [apply _|]. apply judged_assoc.
      eapply judged_checks; [apply _|]. apply judged_after_success. }
    simpl. rewrite !andb_true_r, !Z.eqb_eq. split.
    + intros (-> & -> & _). by exists rest.
    + intros (r & H). by injection H as -> ->.
Qed.

Lemma swapcontext_judged :
  judged (ct_func (swapcontext_basic g false)) tt
    (resumes_with (cap := cap) = 0 /\
     exists rest, delivered [SWAPCONTEXT_ARG1] = SWAPCONTEXT_ARG1 :: rest).
Proof.
  eapply judged_bind; [apply steps_checked, x_getcontext|]. intros ? [] ->.
  eapply judged_bind; [apply steps_stack|]. intros uc [] _. cbv zeta.
  eapply judged_bind; [by apply steps_checked; intros w; apply x_swapcontext|]. intros ? [] ->.
  destruct (delivered [SWAPCONTEXT_ARG1]) as [|a1 rest] eqn:E.
  - apply judged_assoc, judged_undef. by intros [_ [? ?]].
  - do 2 apply judged_assoc.
    eapply judged_bind; [by apply steps_lib; intros w; apply x_resume|]. intros ? [] ->.
    apply judged_ret.
    eapply judged_iff.
    { eapply judged_checks; [apply _|]. eapply judged_checks; [apply _|].
      by apply (judged_success _ True). }
    simpl. rewrite !andb_true_r, !Z.eqb_eq. split.
    + intros (-> & -> & _). split; [done|]. by exists rest.
    + intros (-> & r & H). by injection H as -> ->.
Qed.

(** On a library that goes where it should, the four tests pass exactly when
    it also delivers what it was given: the value of the jump (which is not 0),
    the arguments of the context, and the result 0. *)
Theorem control_tests_verdict n (s : proc cap W) :
  shared s -> jump_value (cap := cap) 123 <> 0 ->
  succeeds (ct_func libc_setjmp) s /\
  (succeeds (ct_func (libc_setjmp_longjmp (S (S n)))) s <-> jump_value (cap := cap) 123 = 123) /\
  (succeeds (ct_func (setcontext_basic g false)) s <->
   exists rest, entry_args (cap := cap) [SETCONTEXT_ARG1; SETCONTEXT_ARG2] =
                  SETCONTEXT_ARG1 :: SETCONTEXT_ARG2 :: rest) /\
  (succeeds (ct_func (swapcontext_basic g false)) s <->
   resumes_with (cap := cap) = 0 /\
   exists rest, entry_args (cap := cap) [SWAPCONTEXT_ARG1] = SWAPCONTEXT_ARG1 :: rest).
Proof.
  intros Hs Hj. assert (Judge.on (fun _ : W => tt) tt s) as Hon by done.
  exact (conj (proj2 (setjmp_judged s Hon) I) (conj (longjmp_judged n Hj s Hon)
    (conj (setcontext_judged s Hon) (swapcontext_judged s Hon)))).
Qed.
End Facts.

(** ** A concrete library *)

#[export] Instance toy_control : ControlPolicy scap := {|
  jump_value n := n;
  entry_args l := l;
  resumes_with := 0;
|}.

#[export] Instance toy_contexts : ContextOS scap trace_world := {|
  os_setjmp w := (0, w);
  os_longjmp n w := (Some n, w);
  os_getcontext w := (inl tt, w);
  os_setcontext uc w := (inl (uc_start uc), w);
  os_swapcontext uc w := (inl (uc_start uc), w);
  os_resume_link _ w := (Some 0, w);
  ctx_stack_size := 0x8000;
|}.

#[export] Instance toy_control_rules : ControlRules scap trace_world.
Proof.
  split; try (intros; by eexists).
  - intros n w. by exists map_block, (set_shared 0x20000 w).
  - intros uc f args w Hs. exists w. simpl. by rewrite Hs.
  - intros uc f args w Hs. exists w. simpl. by rewrite Hs.
Qed.

Lemma control_tests_verdict_witness :
  succeeds (ct_func (libc_setjmp_longjmp 2)) trace_proc /\
  succeeds (ct_func (setcontext_basic toy_freebsd false)) trace_proc /\
  succeeds (ct_func (swapcontext_basic toy_freebsd false)) trace_proc.
Proof.
  destruct (control_tests_verdict (RR := toy_control_rules) toy_freebsd 0 trace_proc)
    as (_ & H1 & H2 & H3); [by eexists|done|].
  split; [by apply H1|]. split; [apply H2; by exists []|]. apply H3. split; [done|by exists []].
Defined.
