(* ===== verification/Malloc.v ===== *)
(** * Malloc: the allocator and its quarantine (cheriostest_malloc.c)

    Tests of malloc(3) and of the revocation of what was freed, of zero-sized
    and aligned allocations, and of the ways to switch revocation on or off for
    a program, with the two helper programs (malloc_revoke_enabled.c,
    malloc_early_constructor.c) that these start.

    [heap] is a reference machine: objects with a status, and the variables that
    hold references to them.  [AllocRules] is an allocator that implements it
    with the choices of an [alloc_policy]; the theorem says which choices each
    test accepts. *)

From S2P Require Import Prelude Printf Cheri Harness Runner Toy RunnerFacts Faults Spawn Kernel VmTags Reservations Judge Revocation.

(** The variables that hold pointers: locals, and the externals of the file. *)
Inductive pvar := PPtr | PPtr1 | PPtr2 | PEptr | PEptr1 | PEptr2.

#[export] Instance pvar_eq_dec : EqDecision pvar.
Proof. solve_decision. Defined.

Definition is_extern (v : pvar) : bool :=
  match v with PEptr | PEptr1 | PEptr2 => true | _ => false end.

(** The argument of PROC_CHERI_REVOKE_CTL. *)
Inductive revoke_ctl := PROC_CHERI_REVOKE_FORCE_ENABLE | PROC_CHERI_REVOKE_FORCE_DISABLE.

(** stdlib.h, malloc_np.h, procctl(2) and statfs(2).  A call of the allocator
    gives a pointer, or the fault that it dies of; a null pointer is a
    capability whose address is zero. *)
Class AllocOS (cap W : Type) := {
  os_malloc : Z -> W -> (cap + siginfo cap) * W;
  malloc_no_quarantine : Z -> W -> (cap + siginfo cap) * W;
  os_calloc2 : Z -> Z -> W -> (cap + siginfo cap) * W;
  os_realloc : cap -> Z -> W -> (cap + siginfo cap) * W;
  aligned_alloc : Z -> Z -> W -> (cap + siginfo cap) * W;
  posix_memalign : Z -> Z -> W -> ((Z * cap) + siginfo cap) * W;  (* and [ptr] after it *)
  memalign : Z -> Z -> W -> (cap + siginfo cap) * W;
  mallocx : Z -> Z -> W -> (cap + siginfo cap) * W;
  rallocx : cap -> Z -> Z -> W -> (cap + siginfo cap) * W;
  MALLOCX_ALIGN : Z -> Z;
  free_ptr : cap -> W -> (unit + siginfo cap) * W;
  malloc_revoke : W -> W;
  malloc_revoke_quarantine_force_flush : W -> Z * W;
  malloc_revoke_enabled : W -> bool;
  var_get : pvar -> W -> cap;
  var_set : pvar -> cap -> W -> W;
  abort_info : siginfo cap;                     (* of the SIGABRT of abort(3) *)
  procctl_revoke : revoke_ctl -> W -> (Z + Z) * W;
  statfs_fstypename : string -> W -> string + Z;
}.

(** ** The tests *)

Section Malloc.
Context {cap W : Type} {CH : Cheri cap} {LC : Libc cap W} {KE : Kernel cap W}
  {RV : ResvOS cap W} {RK : RevokeOS cap W} {FO : ForkOS W} {SO : SpawnOS W}
  {AO : AllocOS cap W}.
Context (g : config) (have_cheribsd : bool).

Definition SIGABRT : Z := si_signo (abort_info (cap := cap) (W := W)).

Definition abort {A} : test cap W A := raise_fault abort_info.

Definition skip_malloc_revocation_disabled (name : string) (w : W) : option string * W :=
  (if have_cheribsd then
     if malloc_revoke_enabled (cap := cap) w then None
     else Some "malloc quarantine disabled"%string
   else Some REVOCATION_IS_NOT_SUPPORTED_MSG, w).

Definition get_var (v : pvar) : test cap W cap := gets (fun s => var_get v (p_world s)).
Definition set_var (v : pvar) (c : cap) : test cap W unit :=
  libcall (fun w => (tt, var_set v c w)).
Definition free_var (v : pvar) : test cap W unit :=
  c ← get_var v; access (free_ptr c).

(** [ext = local = call] *)
Definition alloc_into (ext local : pvar) (call : W -> (cap + siginfo cap) * W)
    : test cap W unit :=
  c ← access call; set_var local c ;; set_var ext c.

(** The tests of CheriBSD that report on other systems that there is nothing to
    test. *)
Definition quarantine_test (flags signum : Z) (name desc : string) (body : test cap W unit)
    : cheri_test cap W :=
  if have_cheribsd then
    with_skip skip_malloc_revocation_disabled
      (with_signal flags signum 0 0 (CHERIOSTEST name desc body))
  else
    with_xfail (Some "Not supported"%string)
      (with_signal flags signum 0 0
         (CHERIOSTEST name desc (cheriostest_failure_errx REVOCATION_IS_NOT_SUPPORTED_MSG []))).

Definition malloc_double_free : cheri_test cap W :=
  quarantine_test CT_FLAG_SIGEXIT SIGABRT "malloc_double_free" "malloc aborts on double free"
    (alloc_into PEptr PPtr (os_malloc 2) ;;
     free_var PPtr ;;
     free_var PPtr ;;
     cheriostest_failure_errx "malloc() did not abort" []).

(** The tag of a variable. *)
Definition verify_var (v : pvar) (tag : bool) (msg : string) : test cap W unit :=
  c ← get_var v;
  c' ← get_var v;
  CHERIOSTEST_VERIFY2 (Bool.eqb (cheri_tag_get c) tag) msg [APtr c'].

Definition malloc_revoke_basic : cheri_test cap W :=
  quarantine_test 0 0 "malloc_revoke_basic"
    "verify that a free'd pointer is revoked by malloc_revoke"
    (alloc_into PEptr PPtr (os_malloc 1) ;;
     free_var PPtr ;;
     libcall (fun w => (tt, malloc_revoke (cap := cap) w)) ;;
     verify_var PPtr false "revoked ptr not revoked %#lp" ;;
     verify_var PEptr false "revoked eptr not revoked %#lp" ;;
     cheriostest_success).

Definition force_flush : test cap W unit :=
  ret ← libcall (malloc_revoke_quarantine_force_flush (cap := cap));
  CHERIOSTEST_VERIFY2 (ret =? 0) "malloc_revoke_quarantine_force_flush returned %d" [AInt ret].

Definition malloc_revoke_quarantine_force_flush_basic : cheri_test cap W :=
  with_skip skip_malloc_revocation_disabled
    (CHERIOSTEST "malloc_revoke_quarantine_force_flush_basic"
       "verify that a free'd pointer is revoked by malloc_revoke_quarantine_force_flush"
       (alloc_into PEptr PPtr (os_malloc 1) ;;
        free_var PPtr ;;
        force_flush ;;
        verify_var PPtr false "revoked ptr not revoked %#lp" ;;
        verify_var PEptr false "revoked eptr not revoked %#lp" ;;
        cheriostest_success)).

Definition malloc_revoke_quarantine_force_flush_twice : cheri_test cap W :=
  with_skip skip_malloc_revocation_disabled
    (CHERIOSTEST "malloc_revoke_quarantine_force_flush_twice"
       "flush the quarantine twice back to back"
       (alloc_into PEptr1 PPtr1 (os_malloc 1) ;;
        alloc_into PEptr2 PPtr2 (os_malloc 1) ;;
        free_var PPtr1 ;;
        force_flush ;;
        verify_var PPtr1 false "revoked ptr1 not revoked %#lp" ;;
        verify_var PEptr1 false "revoked eptr1 not revoked %#lp" ;;
        free_var PPtr2 ;;
        force_flush ;;
        verify_var PPtr2 false "revoked ptr2 not revoked %#lp" ;;
        verify_var PEptr2 false "revoked eptr2 not revoked %#lp" ;;
        cheriostest_success)).

Definition malloc_no_quarantine_not_revoked : cheri_test cap W :=
  with_skip skip_malloc_revocation_disabled
    (CHERIOSTEST "malloc_no_quarantine_not_revoked"
       "verify that a malloc_no_quarantine is not revoked"
       (alloc_into PEptr PPtr (malloc_no_quarantine 1) ;;
        free_var PPtr ;;
        force_flush ;;
        verify_var PPtr true "freed no-quarantine ptr revoked %#lp" ;;
        verify_var PEptr true "freed no-quarantine eptr revoked %#lp" ;;
        cheriostest_success)).

(** *** Zero-sized allocations *)

Definition non_null (c : cap) : bool := negb (cheri_address_get c =? 0).

(** [CHERIOSTEST_VERIFY((ptr = call) != NULL)] *)
Definition must_alloc (call : W -> (cap + siginfo cap) * W) (text : string) : test cap W cap :=
  c ← access call; CHERIOSTEST_VERIFY (non_null c) text ;; mret c.

Definition alloc_and_free (call : W -> (cap + siginfo cap) * W) (text : string)
    : test cap W unit :=
  c ← must_alloc call text; access (free_ptr c).

Definition malloc_zero_size : cheri_test cap W :=
  let ptr_size := sizeof_ptr (cap := cap) (W := W) in
  CHERIOSTEST "malloc_zero_size" "Check that allocators return non-NULL for size=0"
    (alloc_and_free (os_malloc 0) "(ptr = malloc(0)) != NULL" ;;
     alloc_and_free (os_calloc2 0 1) "(ptr = calloc(0, 1)) != NULL" ;;
     alloc_and_free (os_calloc2 1 0) "(ptr = calloc(1, 0)) != NULL" ;;
     alloc_and_free (os_calloc2 0 0) "(ptr = calloc(0, 0)) != NULL" ;;
     ptr ← must_alloc (os_realloc cap_null 0) "(ptr = realloc(NULL, 0)) != NULL";
     alloc_and_free (os_realloc ptr 0) "(ptr2 = realloc(ptr, 0)) != NULL" ;;
     alloc_and_free (aligned_alloc ptr_size 0)
       "(ptr = aligned_alloc(sizeof(void *), 0)) != NULL" ;;
     r ← access (posix_memalign ptr_size 0);
     errno ← gets p_errno;
     CHERIOSTEST_VERIFY2 (r.1 =? 0) "posix_memalign failed, errno %d" [AInt errno] ;;
     CHERIOSTEST_VERIFY2 (non_null r.2) "posix_memalign returned NULL" [] ;;
     access (free_ptr r.2) ;;
     alloc_and_free (memalign ptr_size 0) "(ptr = memalign(sizeof(void *), 0)) != NULL" ;;
     cheriostest_success).

(** *** Aligned allocations (CheriBSD and FreeBSD) *)

Definition alignment_sizes : list Z :=
  [0x400; 0x800; 0x1000; 0x2000; 0x4000; 0x8000; 0x10000].

Definition verify_aligned (what : string) (size : Z) (data : cap) : test cap W unit :=
  let a := cheri_address_get data in
  CHERIOSTEST_VERIFY2 (builtin_is_aligned a size)
    (what +:+ "(%#zx, MALLOCX_ALIGN(%#zx (%#x))) -> %#lp: Not correctly aligned! offset: %#zx
")
    [AInt size; AInt size; AInt (MALLOCX_ALIGN (cap := cap) (W := W) size); APtr data;
     AInt (u64 (a - builtin_align_down a size))].

Definition check_mallocx (size : Z) : test cap W unit :=
  data ← access (mallocx size (MALLOCX_ALIGN (cap := cap) (W := W) size));
  verify_aligned "mallocx" size data ;;
  access (free_ptr data).

Definition mallocx_alignment : cheri_test cap W :=
  CHERIOSTEST "mallocx_alignment" "Check that mallocx aligns allocations"
    (foreach alignment_sizes check_mallocx ;; cheriostest_success).

Definition check_rallocx (size : Z) : test cap W unit :=
  data ← access (os_malloc 1);
  data ← access (rallocx data size (MALLOCX_ALIGN (cap := cap) (W := W) size));
  verify_aligned "rallocx" size data.

Definition rallocx_alignment : cheri_test cap W :=
  CHERIOSTEST "rallocx_alignment" "Check that rallocx aligns allocations"
    (foreach alignment_sizes check_rallocx ;; cheriostest_success).

(** *** Programs that are started *)

(** main of malloc_revoke_enabled.c, and what exit(3) makes of its result. *)
Definition malloc_revoke_enabled_main : test cap W Z :=
  w ← gets p_world;
  mret (if malloc_revoke_enabled (cap := cap) w then 0 else 1).

(** malloc_early_constructor.c: the constructor, and main. *)
Definition foo : test cap W unit :=
  ptr ← access (os_malloc 1); access (free_ptr ptr).
Definition early_constructor_main : test cap W Z := mret 0.

(** [execve(argv[0], argv, NULL); abort();], where the program at the path is
    [program]. *)
Definition execve_or_abort (path : string) (program : test cap W Z) : test cap W unit :=
  r ← world_op (os_execve path [path] None);
  match r with
  | None => n ← program; exit n
  | Some e => modify (set_errno e) ;; abort
  end.

Definition fork_pid : test cap W Z :=
  pid ← try_sys (sys_fork Fork);
  let pid := default (-1) pid in
  CHERIOSTEST_VERIFY (0 <=? pid) "pid >= 0" ;;
  mret pid.

(** waitpid(2) for the child whose program is [child]. *)
Definition child_is_revoking (child : test cap W unit) : test cap W bool :=
  res ← wait_child g child;
  if WIFEXITED res then mret (WEXITSTATUS res =? 0)
  else cheriostest_failure_errx "child exec failed" [].

(** [helper_dir]: the static buffer of cheriostest_get_helper_dir. *)
Definition malloc_revocation_ctl_common_procctl (helper_dir progname : string)
    (should_be_revoking : bool) (procctl_arg : option revoke_ctl) : test cap W unit :=
  _ ← fork_pid;
  revoking ← child_is_revoking
    (match procctl_arg with
     | Some a => _ ← CHERIOSTEST_CHECK_SYSCALL (sys (procctl_revoke (cap := cap) a))
                       "procctl(P_PID, getpid(), PROC_CHERI_REVOKE_CTL, procctl_arg)";
                 mret tt
     | None => mret tt
     end ;;
     dir ← cheriostest_get_helper_dir g helper_dir;
     execve_or_abort (dir +:+ "/" +:+ progname) malloc_revoke_enabled_main);
  if Bool.eqb revoking should_be_revoking then cheriostest_success
  else if should_be_revoking then
    cheriostest_failure_errx "child is not revoking and should be" []
  else cheriostest_failure_errx "child is revoking and should not be" [].

Definition malloc_revocation_ctl_common (helper_dir progname : string)
    (should_be_revoking : bool) : test cap W unit :=
  malloc_revocation_ctl_common_procctl helper_dir progname should_be_revoking None.

(** The reason to skip, as the controller asks for it. *)
Definition skip_need_suid_helpers_and_cheri_revoke (helper_dir name : string)
    : test cap W (option string) :=
  reason ← libcall (skip_need_cheri_revoke g name);
  match reason with
  | Some reason => mret (Some reason)
  | None =>
      dir ← cheriostest_get_helper_dir g helper_dir;
      w ← gets p_world;
      match statfs_fstypename (cap := cap) dir w with
      | inr e => modify (set_errno e) ;;
                 mret (Some "could not statfs the helper directory"%string)
      | inl fs =>
          mret (if String.eqb fs "p9fs"
                then Some "helpers are on p9fs, which ignores the setuid bit"%string
                else None)
      end
  end.

(** A skip function that calls others with effects, on the world alone.  A call
    that ends the controller itself (err(3)) has no result to give here. *)
Definition skip_on_world (m : string -> test cap W (option string)) (name : string) (w : W)
    : option string * W :=
  match m name (Proc None 0 ∅ EmptyString EmptyString 0 w) with
  | (Val r, s) => (r, p_world s)
  | (_, s) => (None, p_world s)
  end.

(** The tests of this part: [ctl_test] is what their descriptions share. *)
Definition ctl_test (skip : string -> W -> option string * W) (name desc : string)
    (body : test cap W unit) : cheri_test cap W :=
  with_skip skip (CHERIOSTEST name desc body).

Context (helper_dir : string).
Abbreviation skip_default := (skip_need_default_cheri_revoke (cap := cap) g).
Abbreviation skip_revoke := (skip_need_cheri_revoke (cap := cap) g).
Abbreviation skip_suid := (skip_on_world (skip_need_suid_helpers_and_cheri_revoke helper_dir)).

Definition malloc_revocation_ctl_baseline : cheri_test cap W :=
  ctl_test skip_default "malloc_revocation_ctl_baseline"
    "A base binary reports revocation is enabled"
    (malloc_revocation_ctl_common helper_dir "malloc_revoke_enabled" true).
Definition malloc_revocation_ctl_elfnote_disable : cheri_test cap W :=
  ctl_test skip_revoke "malloc_revocation_ctl_elfnote_disable"
    "A binary with elfnote disabling reports revocation is disable"
    (malloc_revocation_ctl_common helper_dir "malloc_revoke_enabled_elfnote_disable" false).
Definition malloc_revocation_ctl_elfnote_enable : cheri_test cap W :=
  ctl_test skip_revoke "malloc_revocation_ctl_elfnote_enable"
    "A binary with elfnote enabling reports revocation is enabled"
    (malloc_revocation_ctl_common helper_dir "malloc_revoke_enabled_elfnote_enable" true).
Definition malloc_revocation_ctl_elfnote_disable_protctl_enable : cheri_test cap W :=
  ctl_test skip_revoke "malloc_revocation_ctl_elfnote_disable_protctl_enable"
    "A binary with elfnote disabling reports revocation is disable"
    (malloc_revocation_ctl_common_procctl helper_dir "malloc_revoke_enabled_elfnote_disable"
       true (Some PROC_CHERI_REVOKE_FORCE_ENABLE)).
Definition malloc_revocation_ctl_elfnote_enable_protctl_disable : cheri_test cap W :=
  ctl_test skip_revoke "malloc_revocation_ctl_elfnote_enable_protctl_disable"
    "A binary with elfnote enabling reports revocation is enabled"
    (malloc_revocation_ctl_common_procctl helper_dir "malloc_revoke_enabled_elfnote_enable"
       false (Some PROC_CHERI_REVOKE_FORCE_DISABLE)).
Definition malloc_revocation_ctl_suid_baseline : cheri_test cap W :=
  ctl_test skip_default "malloc_revocation_ctl_suid_baseline"
    "A suid binary reports revocation is enabled"
    (malloc_revocation_ctl_common helper_dir "malloc_revoke_enabled_suid" true).
Definition malloc_revocation_ctl_suid_elfnote_disable : cheri_test cap W :=
  ctl_test skip_revoke "malloc_revocation_ctl_suid_elfnote_disable"
    "A suid binary with elfnote disabling reports revocation is disable"
    (malloc_revocation_ctl_common helper_dir "malloc_revoke_enabled_elfnote_disable" false).
Definition malloc_revocation_ctl_suid_elfnote_enable : cheri_test cap W :=
  ctl_test skip_revoke "malloc_revocation_ctl_suid_elfnote_enable"
    "A suid binary with elfnote enabling reports revocation is enabled"
    (malloc_revocation_ctl_common helper_dir "malloc_revoke_enabled_elfnote_enable" true).
Definition malloc_revocation_ctl_suid_elfnote_disable_protctl_enable : cheri_test cap W :=
  ctl_test skip_suid "malloc_revocation_ctl_suid_elfnote_disable_protctl_enable"
    "A binary with elfnote disabling reports revocation is disable"
    (malloc_revocation_ctl_common_procctl helper_dir
       "malloc_revoke_enabled_suid_elfnote_disable" false
       (Some PROC_CHERI_REVOKE_FORCE_ENABLE)).
Definition malloc_revocation_ctl_suid_elfnote_enable_protctl_disable : cheri_test cap W :=
  ctl_test skip_suid "malloc_revocation_ctl_suid_elfnote_enable_protctl_disable"
    "A binary with elfnote enabling reports revocation is enabled"
    (malloc_revocation_ctl_common_procctl helper_dir
       "malloc_revoke_enabled_suid_elfnote_enable" true
       (Some PROC_CHERI_REVOKE_FORCE_DISABLE)).

(** The test finds its helper by its own name. *)
Definition malloc_early_constructor : cheri_test cap W :=
  let name := "malloc_early_constructor"%string in
  let desc := "invoke malloc in an early constructor"%string in
  let self := CHERIOSTEST name desc (mret tt) in
  with_skip
    (skip_on_world (fun _ => r ← cheriostest_skip_no_helper g helper_dir (Some self); mret r.1))
    (CHERIOSTEST name desc
       (r ← cheriostest_get_helper_path g (Some self) helper_dir;
        match r.1 with
        | None => undef
        | Some helper_path =>
            _ ← fork_pid;
            res ← wait_child g
                    (execve_or_abort helper_path (foo ;; early_constructor_main));
            if WIFEXITED res && (WEXITSTATUS res =? 0) then cheriostest_success
            else cheriostest_failure_errx "child %s exited improperly" [AStr helper_path]
        end)).
End Malloc.

(** ** The reference machine *)

(** The status of an object; [nq]: it was made by malloc_no_quarantine. *)
Inductive ostatus := Live (nq : bool) | Quarantined | Reusable.

(** The object that a capability was made for (none: a null pointer), and its
    tag. *)
Record ref := Ref { r_obj : option nat; r_tag : bool }.

Record heap := Heap {
  h_next : nat;
  h_status : nat -> ostatus;
  h_vars : pvar -> ref;
}.

(** What a revoker and an allocator choose. *)
Inductive xresult := XNull | XAligned | XMisaligned.
Inductive zero_call := ZMalloc | ZCalloc (n m : Z) | ZReallocNull | ZRealloc | ZAligned | ZMemalign.

Record alloc_policy (cap : Type) := AllocPolicy {
  ap_after : bool -> ostatus;                  (* an object after free *)
  ap_hits : bool -> ostatus -> bool;           (* a sweep, of externals and of locals *)
  ap_free : ostatus -> option (siginfo cap);   (* free of what is not live *)
  ap_free_untagged : option (siginfo cap);
  ap_flush : Z;
  ap_zero : zero_call -> bool;                 (* not null *)
  ap_posix : Z * bool;                         (* the result, and whether [ptr] is set *)
  ap_mallocx : Z -> xresult;
  ap_rallocx : Z -> xresult;
  ap_enabled : string -> option revoke_ctl -> bool;
  ap_early : option (siginfo cap);             (* malloc before main *)
}.
Arguments ap_after {cap} _ _.
Arguments ap_hits {cap} _ _ _.
Arguments ap_free {cap} _ _.
Arguments ap_free_untagged {cap} _.
Arguments ap_flush {cap} _.
Arguments ap_zero {cap} _ _.
Arguments ap_posix {cap} _.
Arguments ap_mallocx {cap} _ _.
Arguments ap_rallocx {cap} _ _.
Arguments ap_enabled {cap} _ _ _.
Arguments ap_early {cap} _.

(** The process: its heap, its setting of procctl(2), and the program that it
    was made to execute. *)
Record mstate := MState {
  ms_heap : heap;
  ms_ctl : option revoke_ctl;
  ms_image : option string;
}.

Definition heap0 : heap := Heap 0 (fun _ => Reusable) (fun _ => Ref None false).

Definition on_heap (f : heap -> heap) (v : mstate) : mstate :=
  MState (f (ms_heap v)) (ms_ctl v) (ms_image v).

Definition set_status (i : nat) (st : ostatus) (h : heap) : heap :=
  Heap (h_next h) (fun j => if decide (j = i) then st else h_status h j) (h_vars h).

Definition h_new (nq : bool) (h : heap) : heap :=
  set_status (h_next h) (Live nq) (Heap (S (h_next h)) (h_status h) (h_vars h)).

Definition h_set (x : pvar) (r : ref) (h : heap) : heap :=
  Heap (h_next h) (h_status h) (fun y => if decide (y = x) then r else h_vars h y).

Section Machine.
Context {cap : Type} (P : alloc_policy cap).

Definition h_free (i : nat) (h : heap) : heap :=
  match h_status h i with
  | Live nq => set_status i (ap_after P nq) h
  | _ => h
  end.

(** The fault of [free]. *)
Definition free_fault (r : ref) (h : heap) : option (siginfo cap) :=
  match r_obj r with
  | None => None
  | Some i =>
      if r_tag r then
        match h_status h i with Live _ => None | st => ap_free P st end
      else ap_free_untagged P
  end.

Definition h_free_ref (r : ref) (h : heap) : heap :=
  match r_obj r with
  | Some i => if r_tag r then h_free i h else h
  | None => h
  end.

Definition hit (x : pvar) (r : ref) (h : heap) : bool :=
  match r_obj r with
  | Some i => ap_hits P (is_extern x) (h_status h i)
  | None => false
  end.

Definition h_sweep (h : heap) : heap :=
  Heap (h_next h) (h_status h) (fun x =>
    let r := h_vars h x in Ref (r_obj r) (r_tag r && negb (hit x r h))).
End Machine.

(** An allocator that implements the machine. *)
Section Rules.
Context {cap W : Type} {CH : Cheri cap} {RK : RevokeOS cap W} {FO : ForkOS W} {SO : SpawnOS W}
  {AO : AllocOS cap W}.

Abbreviation psize := (sizeof_ptr (cap := cap) (W := W)).

Class AllocRules := {
  a_view : W -> mstate;
  a_policy : alloc_policy cap;
  ref_of : cap -> ref;
  ref_tag c : r_tag (ref_of c) = cheri_tag_get c;
  ref_null c : r_obj (ref_of c) = None <-> cheri_address_get c = 0;
  a_fresh (nq : bool) (v : mstate) (c : cap) (w' : W) : Prop :=
    ref_of c = Ref (Some (h_next (ms_heap v))) true /\ a_view w' = on_heap (h_new nq) v;
  a_malloc n w : 0 < n -> ms_image (a_view w) = None ->
    exists c w', os_malloc n w = (inl c, w') /\ a_fresh false (a_view w) c w';
  a_no_quarantine n w : 0 < n ->
    exists c w', malloc_no_quarantine n w = (inl c, w') /\ a_fresh true (a_view w) c w';
  a_free c w :
    match free_fault a_policy (ref_of c) (ms_heap (a_view w)) with
    | None => exists w', free_ptr c w = (inl tt, w') /\
                a_view w' = on_heap (h_free_ref a_policy (ref_of c)) (a_view w)
    | Some si => exists w', free_ptr c w = (inr si, w')
    end;
  a_set x c w : a_view (var_set x c w) = on_heap (h_set x (ref_of c)) (a_view w);
  a_get x w : ref_of (var_get x w) = h_vars (ms_heap (a_view w)) x;
  a_sweep w : a_view (malloc_revoke (cap := cap) w) = on_heap (h_sweep a_policy) (a_view w);
  a_flush w : exists w', malloc_revoke_quarantine_force_flush (cap := cap) w
      = (ap_flush a_policy, w') /\ a_view w' = on_heap (h_sweep a_policy) (a_view w);
  (* the calls with size zero *)
  a_zero (z : zero_call) (f : W -> (cap + siginfo cap) * W) (v : mstate) (w : W) : Prop :=
    exists c w', f w = (inl c, w') /\
      if ap_zero a_policy z then a_fresh false v c w' else cheri_address_get c = 0;
  z_malloc w : ms_image (a_view w) = None -> a_zero ZMalloc (os_malloc 0) (a_view w) w;
  z_calloc n m w : n = 0 \/ m = 0 -> a_zero (ZCalloc n m) (os_calloc2 n m) (a_view w) w;
  z_realloc_null w : a_zero ZReallocNull (os_realloc cap_null 0) (a_view w) w;
  z_realloc c w : r_tag (ref_of c) = true ->
    a_zero ZRealloc (os_realloc c 0)
      (on_heap (h_free_ref a_policy (ref_of c)) (a_view w)) w;
  z_aligned w : a_zero ZAligned (aligned_alloc psize 0) (a_view w) w;
  z_memalign w : a_zero ZMemalign (memalign psize 0) (a_view w) w;
  z_posix w : exists c w', posix_memalign psize 0 w = (inl ((ap_posix a_policy).1, c), w') /\
    if (ap_posix a_policy).2 then a_fresh false (a_view w) c w'
    else cheri_address_get c = 0;
  a_aligned (r : xresult) (size : Z) (v : mstate) (c : cap) (w' : W) : Prop :=
    match r with
    | XNull => cheri_address_get c = 0 /\ a_view w' = v
    | XAligned => a_fresh false v c w' /\ builtin_is_aligned (cheri_address_get c) size = true
    | XMisaligned => builtin_is_aligned (cheri_address_get c) size = false
    end;
  x_mallocx size w : exists c w',
    mallocx size (MALLOCX_ALIGN (cap := cap) (W := W) size) w = (inl c, w') /\
    a_aligned (ap_mallocx a_policy size) size (a_view w) c w';
  x_rallocx d size w : r_tag (ref_of d) = true -> exists c w',
    rallocx d size (MALLOCX_ALIGN (cap := cap) (W := W) size) w = (inl c, w') /\
    ms_image (a_view w') = ms_image (a_view w) /\
    a_aligned (ap_rallocx a_policy size) size
      (on_heap (h_free_ref a_policy (ref_of d)) (a_view w)) c w';
  (* processes and programs *)
  a_fork w : exists pid w', sys_fork Fork w = (inl pid, w') /\ 0 < pid /\ a_view w' = a_view w;
  a_child w : a_view (as_child w) = a_view w;
  a_parent w : a_view (as_parent w) = a_view w;
  a_procctl a w : exists r w', procctl_revoke (cap := cap) a w = (inl r, w') /\
    a_view w' = MState (ms_heap (a_view w)) (Some a) (ms_image (a_view w));
  a_exec path argv w : exists w', os_execve path argv None w = (None, w') /\
    a_view w' = MState heap0 (ms_ctl (a_view w)) (Some path);
  a_enabled p w : ms_image (a_view w) = Some p ->
    malloc_revoke_enabled (cap := cap) w = ap_enabled a_policy p (ms_ctl (a_view w));
  a_early p n w : ms_image (a_view w) = Some p -> 0 < n ->
    match ap_early a_policy with
    | Some si => exists w', os_malloc n w = (inr si, w')
    | None => exists c w', os_malloc n w = (inl c, w') /\ a_fresh false (a_view w) c w'
    end;
  a_early_signal si : ap_early a_policy = Some si -> 0 < si_signo si < 0x7f;
}.
End Rules.
Arguments AllocRules cap W {_ _ _ _ _}.

(** ** What the tests accept *)

Section Facts.
Context {cap W : Type} {CH : Cheri cap} {CL : CheriLaws cap} {LC : Libc cap W}
  {KE : Kernel cap W} {RV : ResvOS cap W} {RK : RevokeOS cap W} {FO : ForkOS W}
  {SO : SpawnOS W} {AO : AllocOS cap W} {AR : AllocRules cap W}.
Context (g : config) (helper_dir dir : string).

Abbreviation P := (a_policy (cap := cap) (W := W)).
Abbreviation steps := (steps (cap := cap) a_view).
Abbreviation judged := (judged (cap := cap) a_view).
Abbreviation var v x := (h_vars (ms_heap v) x).

(** The machine after [ext = local = malloc(n)]. *)
Definition allocated (nq : bool) (ext local : pvar) (v : mstate) : mstate :=
  let r := Ref (Some (h_next (ms_heap v))) true in
  on_heap (fun h => h_set ext r (h_set local r (h_new nq h))) v.

Lemma steps_alloc_into ext local call nq v :
  (forall w, a_view w = v -> exists c w', call w = (inl c, w') /\ a_fresh nq v c w') ->
  steps (alloc_into ext local call) v (fun _ v' => v' = allocated nq ext local v).
Proof.
  intros Hcall. eapply steps_bind; [apply (steps_access _ _ (fun c v' =>
    ref_of c = Ref (Some (h_next (ms_heap v))) true /\ v' = on_heap (h_new nq) v))|].
  { intros w Hw. destruct (Hcall w Hw) as (c & w' & ? & ? & ?). by exists c, w'. }
  intros c v' [Hc ->]. eapply steps_bind.
  { apply (steps_libcall _ _ (fun _ v' => v' = on_heap (h_set local (ref_of c)) (on_heap (h_new nq) v))).
    intros w Hw. simpl. by rewrite a_set, Hw. }
  intros _ ? ->. eapply steps_mono.
  { apply (steps_libcall _ _ (fun _ v' => v' = on_heap (h_set ext (ref_of c))
      (on_heap (h_set local (ref_of c)) (on_heap (h_new nq) v)))).
    intros w Hw. simpl. by rewrite a_set, Hw. }
  intros _ ? ->. by rewrite Hc.
Qed.

Lemma steps_get_var x v : steps (get_var x) v (fun c v' => ref_of c = var v x /\ v' = v).
Proof. apply steps_gets. intros s [_ Hv]. by rewrite a_get, Hv. Qed.

Lemma steps_free c v : free_fault P (ref_of c) (ms_heap v) = None ->
  steps (access (free_ptr c)) v (fun _ v' => v' = on_heap (h_free_ref P (ref_of c)) v).
Proof.
  intros Hf. apply steps_access. intros w <-. pose proof (a_free c w) as Hc.
  rewrite Hf in Hc. destruct Hc as (w' & ? & ?). by exists tt, w'.
Qed.

Lemma steps_free_var x v : free_fault P (var v x) (ms_heap v) = None ->
  steps (free_var x) v (fun _ v' => v' = on_heap (h_free_ref P (var v x)) v).
Proof.
  intros Hf. eapply steps_bind; [apply steps_get_var|]. intros c ? [Hc ->].
  rewrite <- Hc in *. by apply steps_free.
Qed.

Lemma judged_free_fault {B} x si (k : unit -> test cap W B) v (Q : Prop) :
  free_fault P (var v x) (ms_heap v) = Some si -> ~ Q -> judged (free_var x ≫= k) v Q.
Proof.
  intros Hf HQ. apply judged_assoc. eapply judged_bind; [apply steps_get_var|].
  intros c ? [Hc ->]. apply judged_fault; [|done]. intros w <-.
  pose proof (a_free c w) as Ha. rewrite Hc, Hf in Ha. destruct Ha as (w' & ?).
  by exists si, w'.
Qed.

Lemma judged_verify_var {B} x b msg (k : test cap W B) v (Q : Prop) :
  (r_tag (var v x) = b -> judged k v Q) ->
  judged (verify_var x b msg ;; k) v (r_tag (var v x) = b /\ Q).
Proof.
  intros Hk. unfold verify_var. apply judged_assoc.
  eapply judged_bind; [apply steps_get_var|]. intros c ? [Hc ->].
  apply judged_assoc. eapply judged_bind; [apply steps_get_var|]. intros c' ? [_ ->].
  rewrite <- ref_tag, Hc. apply judged_verify.
  - intros Hb. apply eqb_prop in Hb. eapply judged_iff; [by apply Hk|]. naive_solver.
  - intros Hb [Heq _]. by rewrite Heq, eqb_reflx in Hb.
Qed.

Definition swept (v : mstate) : mstate := on_heap (h_sweep P) v.

Lemma judged_force_flush {B} (k : test cap W B) v (Q : Prop) :
  (ap_flush P = 0 -> judged k (swept v) Q) -> judged (force_flush ;; k) v (ap_flush P = 0 /\ Q).
Proof.
  intros Hk. unfold force_flush. apply judged_assoc. eapply judged_bind.
  { apply (steps_libcall _ _ (fun r v' => r = ap_flush P /\ v' = swept v)).
    intros w <-. destruct (a_flush w) as (w' & -> & ?). done. }
  intros r ? [-> ->]. apply judged_verify.
  - intros Hb. apply Z.eqb_eq in Hb. eapply judged_iff; [by apply Hk|]. naive_solver.
  - intros Hb [H _]. apply Z.eqb_neq in Hb. done.
Qed.

(** *** Tests of the quarantine *)

Abbreviation after := (ap_after P).
Abbreviation hits := (ap_hits P).
Abbreviation both st := (hits false st = true /\ hits true st = true).

Definition freed (x : pvar) (v : mstate) : mstate := on_heap (h_free_ref P (var v x)) v.

(** A fresh object, and its two references. *)
Lemma allocated_vars nq ext local v : ext <> local ->
  let r := Ref (Some (h_next (ms_heap v))) true in
  var (allocated nq ext local v) local = r /\ var (allocated nq ext local v) ext = r /\
  h_status (ms_heap (allocated nq ext local v)) (h_next (ms_heap v)) = Live nq /\
  h_next (ms_heap (allocated nq ext local v)) = S (h_next (ms_heap v)).
Proof.
  intros Hne r. unfold allocated, h_set, h_new, set_status. simpl.
  rewrite (decide_True (P := ext = ext)), (decide_True (P := local = local)) by done.
  rewrite (decide_True (P := h_next (ms_heap v) = _)) by done. by rewrite decide_False by done.
Qed.

Lemma free_live x v i nq :
  var v x = Ref (Some i) true -> h_status (ms_heap v) i = Live nq ->
  free_fault P (var v x) (ms_heap v) = None /\
  ms_heap (freed x v) = set_status i (after nq) (ms_heap v).
Proof.
  intros Hx Hi. unfold freed, free_fault, h_free_ref, h_free. rewrite Hx. simpl. by rewrite Hi.
Qed.

Lemma sweep_var x v i t :
  var v x = Ref (Some i) t ->
  var (swept v) x = Ref (Some i) (t && negb (hits (is_extern x) (h_status (ms_heap v) i))).
Proof. intros Hx. unfold swept, h_sweep, hit. simpl. by rewrite Hx. Qed.

Lemma malloc_image n v : 0 < n -> ms_image v = None ->
  forall w, a_view w = v -> exists c w', os_malloc n w = (inl c, w') /\ a_fresh false v c w'.
Proof. intros Hn Hi w <-. by apply a_malloc. Qed.

(** After the allocation of one object, its release, and a sweep. *)
Definition revoked_state (nq : bool) (v : mstate) : mstate :=
  swept (freed PPtr (allocated nq PEptr PPtr v)).

Lemma revoked_vars nq v x : x = PPtr \/ x = PEptr ->
  r_tag (var (revoked_state nq v) x) = negb (hits (is_extern x) (after nq)).
Proof.
  intros Hx. destruct (allocated_vars nq PEptr PPtr v) as (Hp & He & Hs & _); [done|].
  destruct (free_live PPtr _ _ nq Hp Hs) as [_ Hf]. unfold revoked_state.
  rewrite (sweep_var x (freed PPtr (allocated nq PEptr PPtr v)) (h_next (ms_heap v)) true).
  - rewrite Hf. simpl. by rewrite decide_True.
  - rewrite Hf. simpl. by destruct Hx as [-> | ->].
Qed.

Lemma malloc_revoke_basic_judged v : ms_image v = None ->
  judged (ct_func (malloc_revoke_basic true)) v (both (after false)).
Proof.
  intros Hi. destruct (allocated_vars false PEptr PPtr v) as (Hp & He & Hs & _); [done|].
  destruct (free_live PPtr _ _ _ Hp Hs) as [Hf _].
  eapply judged_bind; [apply steps_alloc_into, malloc_image; [lia|done]|]. intros _ ? ->.
  eapply judged_bind; [by apply steps_free_var|]. intros _ ? ->.
  eapply judged_bind.
  { apply (steps_libcall _ _ (fun _ v' => v' = revoked_state false v)).
    intros w Hw. simpl. by rewrite a_sweep, Hw. }
  intros _ ? ->. eapply judged_iff.
  { apply judged_verify_var. intros _. apply judged_verify_var. intros _.
    by apply (judged_success _ True). }
  rewrite !revoked_vars by auto. simpl. rewrite !negb_false_iff. tauto.
Qed.

Lemma force_flush_basic_judged v : ms_image v = None ->
  judged (ct_func (malloc_revoke_quarantine_force_flush_basic true)) v
    (ap_flush P = 0 /\ both (after false)).
Proof.
  intros Hi. destruct (allocated_vars false PEptr PPtr v) as (Hp & He & Hs & _); [done|].
  destruct (free_live PPtr _ _ _ Hp Hs) as [Hf _].
  eapply judged_bind; [apply steps_alloc_into, malloc_image; [lia|done]|]. intros _ ? ->.
  eapply judged_bind; [by apply steps_free_var|]. intros _ ? ->.
  eapply judged_iff.
  { apply judged_force_flush. intros _. apply judged_verify_var. intros _.
    apply judged_verify_var. intros _. by apply (judged_success _ True). }
  change (swept _) with (revoked_state false v).
  rewrite !revoked_vars by auto. simpl. rewrite !negb_false_iff. tauto.
Qed.

Lemma no_quarantine_judged v :
  judged (ct_func (malloc_no_quarantine_not_revoked true)) v
    (ap_flush P = 0 /\ hits false (after true) = false /\ hits true (after true) = false).
Proof.
  destruct (allocated_vars true PEptr PPtr v) as (Hp & He & Hs & _); [done|].
  destruct (free_live PPtr _ _ _ Hp Hs) as [Hf _].
  eapply judged_bind.
  { apply steps_alloc_into. intros w <-. apply a_no_quarantine. lia. }
  intros _ ? ->. eapply judged_bind; [by apply steps_free_var|]. intros _ ? ->.
  eapply judged_iff.
  { apply judged_force_flush. intros _. apply judged_verify_var. intros _.
    apply judged_verify_var. intros _. by apply (judged_success _ True). }
  change (swept _) with (revoked_state true v).
  rewrite !revoked_vars by auto. simpl. rewrite !negb_true_iff. tauto.
Qed.

(** Two objects, of which the first was released before a sweep. *)
Definition flushed_once (v : mstate) : mstate :=
  swept (freed PPtr1 (allocated false PEptr2 PPtr2 (allocated false PEptr1 PPtr1 v))).

Lemma flushed_once_vars v : let n := h_next (ms_heap v) in let v3 := flushed_once v in
  r_tag (var v3 PPtr1) = negb (hits false (after false)) /\
  r_tag (var v3 PEptr1) = negb (hits true (after false)) /\
  var v3 PPtr2 = Ref (Some (S n)) (negb (hits false (Live false))) /\
  var v3 PEptr2 = Ref (Some (S n)) (negb (hits true (Live false))) /\
  h_status (ms_heap v3) (S n) = Live false.
Proof.
  intros n v3. set (v1 := allocated false PEptr1 PPtr1 v).
  set (v2 := allocated false PEptr2 PPtr2 v1).
  assert (h_status (ms_heap v2) n = Live false) as Hn.
  { simpl. fold n. rewrite decide_False by lia. by rewrite decide_True. }
  destruct (free_live PPtr1 v2 n false) as [_ Hf]; [done|exact Hn|].
  assert (forall x i, var v2 x = Ref (Some i) true ->
    var v3 x = Ref (Some i) (negb (hits (is_extern x) (h_status (ms_heap (freed PPtr1 v2)) i)))) as Hv3.
  { intros x i Hx. unfold v3, flushed_once. fold v1 v2.
    rewrite (sweep_var x (freed PPtr1 v2) i true); [done|]. by rewrite Hf. }
  assert (h_status (ms_heap (freed PPtr1 v2)) n = after false) as Hs1.
  { rewrite Hf. simpl. by rewrite decide_True. }
  assert (h_status (ms_heap (freed PPtr1 v2)) (S n) = Live false) as Hs2.
  { rewrite Hf. simpl. fold n. rewrite decide_False by lia. by rewrite decide_True. }
  rewrite (Hv3 PPtr1 n), (Hv3 PEptr1 n), (Hv3 PPtr2 (S n)), (Hv3 PEptr2 (S n)), Hs1, Hs2 by done.
  by split_and!.
Qed.

Lemma force_flush_twice_judged v : ms_image v = None ->
  judged (ct_func (malloc_revoke_quarantine_force_flush_twice true)) v
    (ap_flush P = 0 /\ both (after false) /\
     (hits false (Live false) = true ->
      ap_free_untagged P = None /\ hits true (Live false) = true)).
Proof.
  intros Hi. set (n := h_next (ms_heap v)).
  eapply judged_bind; [apply steps_alloc_into, malloc_image; [lia|done]|]. intros _ ? ->.
  set (v1 := allocated false PEptr1 PPtr1 v).
  eapply judged_bind; [apply steps_alloc_into, malloc_image; [lia|done]|]. intros _ ? ->.
  set (v2 := allocated false PEptr2 PPtr2 v1).
  assert (h_status (ms_heap v2) n = Live false) as Hn.
  { simpl. fold n. rewrite decide_False by lia. by rewrite decide_True. }
  destruct (free_live PPtr1 v2 n false) as [Hf _]; [done|exact Hn|].
  eapply judged_bind; [by apply steps_free_var|]. intros _ ? ->.
  destruct (flushed_once_vars v) as (H1 & H2 & H3 & H4 & H5). fold n in H3, H4, H5.
  eapply (judged_iff _ _ (ap_flush P = 0 /\ r_tag (var (flushed_once v) PPtr1) = false /\
    r_tag (var (flushed_once v) PEptr1) = false /\
    (hits false (after false) = true -> hits true (after false) = true ->
     hits false (Live false) = true ->
     ap_free_untagged P = None /\ hits true (Live false) = true))).
  2: { rewrite H1, H2, !negb_false_iff. tauto. }
  apply judged_force_flush. intros Hfl. fold (freed PPtr1 v2). fold v1 v2.
  change (swept (freed PPtr1 v2)) with (flushed_once v).
  apply judged_verify_var. rewrite H1, negb_false_iff. intros Ha.
  apply judged_verify_var. rewrite H2, negb_false_iff. intros Hb.
  destruct (hits false (Live false)) eqn:Hl.
  - destruct (ap_free_untagged P) as [si|] eqn:Hu.
    { apply (judged_free_fault _ si); [|by intros [? _]].
      unfold free_fault. rewrite H3. exact Hu. }
    eapply judged_bind; [apply steps_free_var; unfold free_fault; by rewrite H3|]. intros _ ? ->.
    fold (freed PPtr2 (flushed_once v)).
    assert (ms_heap (freed PPtr2 (flushed_once v)) = ms_heap (flushed_once v)) as Hh.
    { unfold freed, h_free_ref. by rewrite H3. }
    eapply judged_iff.
    { apply judged_force_flush. intros _. apply judged_verify_var. intros _.
      apply judged_verify_var. intros _. by apply (judged_success _ True). }
    rewrite (sweep_var PPtr2 _ _ _ (eq_trans (f_equal (fun h => h_vars h PPtr2) Hh) H3)).
    rewrite (sweep_var PEptr2 _ _ _ (eq_trans (f_equal (fun h => h_vars h PEptr2) Hh) H4)).
    rewrite Hh, H5. simpl. rewrite andb_false_iff, !negb_false_iff. tauto.
  - destruct (free_live PPtr2 (flushed_once v) (S n) false) as [Hf2 Hh]; [done|done|].
    eapply judged_bind; [by apply steps_free_var|]. intros _ ? ->.
    fold (freed PPtr2 (flushed_once v)).
    eapply judged_iff.
    { apply judged_force_flush. intros _. apply judged_verify_var. intros _.
      apply judged_verify_var. intros _. by apply (judged_success _ True). }
    rewrite (sweep_var PPtr2 _ _ _ (eq_trans (f_equal (fun h => h_vars h PPtr2) Hh) H3)).
    rewrite (sweep_var PEptr2 _ _ _ (eq_trans (f_equal (fun h => h_vars h PEptr2) Hh) H4)).
    rewrite Hh. simpl. rewrite decide_True by done. rewrite Ha, Hb, !andb_false_r. naive_solver.
Qed.

(** *** Zero-sized allocations *)

Lemma steps_free_fresh nq c v :
  ref_of c = Ref (Some (h_next (ms_heap v))) true ->
  steps (access (free_ptr c)) (on_heap (h_new nq) v)
    (fun _ v' => v' = on_heap (h_free_ref P (ref_of c)) (on_heap (h_new nq) v)).
Proof.
  intros Hc. apply steps_free. unfold free_fault. rewrite Hc. simpl. by rewrite decide_True.
Qed.

Lemma fresh_non_null nq c v w' : a_fresh nq v c w' -> non_null c = true.
Proof.
  intros [Hc _]. unfold non_null. apply negb_true_iff, Z.eqb_neq. intros H0.
  apply ref_null in H0. by rewrite Hc in H0.
Qed.

Lemma null_is_null c : cheri_address_get c = 0 -> non_null c = false.
Proof. intros H. unfold non_null. by rewrite H. Qed.

(** A call that gives a pointer which is not null exactly when the policy says so. *)
Lemma judged_must_alloc {B} call text z (k : cap -> test cap W B) v v0 (Q : Prop) :
  (forall w, a_view w = v -> a_zero z call v0 w) ->
  (forall c, ref_of c = Ref (Some (h_next (ms_heap v0))) true ->
   judged (k c) (on_heap (h_new false) v0) Q) ->
  judged (must_alloc call text ≫= k) v (ap_zero P z = true /\ Q).
Proof.
  intros Hcall Hk. unfold must_alloc. apply judged_assoc.
  eapply judged_bind.
  { apply (steps_access _ _ (fun c v' => if ap_zero P z then
      ref_of c = Ref (Some (h_next (ms_heap v0))) true /\ v' = on_heap (h_new false) v0 /\
      non_null c = true else non_null c = false)).
    intros w Hw. destruct (Hcall w Hw) as (c & w' & Hr & Hz). exists c, w'. split; [done|].
    destruct (ap_zero P z); [|by apply null_is_null].
    pose proof (fresh_non_null _ _ _ _ Hz). destruct Hz. by split_and!. }
  intros c v' Hc. apply judged_assoc. apply judged_verify.
  - intros Hn. destruct (ap_zero P z); [|congruence]. destruct Hc as (Hc & -> & _).
    eapply judged_iff; [by apply judged_ret, Hk|]. tauto.
  - intros Hn [Hz _]. rewrite Hz in Hc. destruct Hc as (_ & _ & Hc). congruence.
Qed.

Lemma judged_alloc_and_free {B} call text z (k : test cap W B) v v0 (Q : Prop) :
  ms_image v0 = None -> (forall w, a_view w = v -> a_zero z call v0 w) ->
  (forall v', ms_image v' = None -> judged k v' Q) ->
  judged (alloc_and_free call text ;; k) v (ap_zero P z = true /\ Q).
Proof.
  intros Hi Hcall Hk. unfold alloc_and_free. apply judged_assoc.
  eapply judged_must_alloc; [exact Hcall|]. intros c Hc.
  eapply judged_bind; [by apply steps_free_fresh|]. intros _ ? ->. by apply Hk.
Qed.

Definition zero_calls : list zero_call :=
  [ZMalloc; ZCalloc 0 1; ZCalloc 1 0; ZCalloc 0 0; ZReallocNull; ZRealloc; ZAligned].

Lemma malloc_zero_judged v : ms_image v = None ->
  judged (ct_func malloc_zero_size) v
    ((forall z, z ∈ zero_calls -> ap_zero P z = true) /\ ap_posix P = (0, true) /\
     ap_zero P ZMemalign = true).
Proof.
  intros Hi. eapply judged_iff; cycle 1.
  { transitivity (ap_zero P ZMalloc = true /\ ap_zero P (ZCalloc 0 1) = true /\
      ap_zero P (ZCalloc 1 0) = true /\ ap_zero P (ZCalloc 0 0) = true /\
      ap_zero P ZReallocNull = true /\ ap_zero P ZRealloc = true /\
      ap_zero P ZAligned = true /\ ((ap_posix P).1 = 0 /\ (ap_posix P).2 = true /\
      ap_zero P ZMemalign = true)); [reflexivity|].
    split.
    - intros (? & ? & ? & ? & ? & ? & ? & H1 & H2 & ?). split; [|split; [|done]].
      + intros z Hz. unfold zero_calls in Hz.
        repeat (apply elem_of_cons in Hz as [->|Hz]; [done|]). by apply not_elem_of_nil in Hz.
      + destruct (ap_posix P). simpl in *. by subst.
    - intros (Hz & Hp & Hm). rewrite Hp.
      split_and!; try done; apply Hz; unfold zero_calls; set_solver. }
  apply (judged_alloc_and_free _ _ _ _ _ v); [done| |].
  { intros w <-. by apply z_malloc. }
  intros v1 Hi1. apply (judged_alloc_and_free _ _ _ _ _ v1); [done| |].
  { intros w <-. apply z_calloc. auto. }
  intros v2 Hi2. apply (judged_alloc_and_free _ _ _ _ _ v2); [done| |].
  { intros w <-. apply z_calloc. auto. }
  intros v3 Hi3. apply (judged_alloc_and_free _ _ _ _ _ v3); [done| |].
  { intros w <-. apply z_calloc. auto. }
  intros v4 Hi4. apply (judged_must_alloc _ _ _ _ _ v4).
  { intros w <-. apply z_realloc_null. }
  intros c Hc. apply (judged_alloc_and_free _ _ _ _ _
    (on_heap (h_free_ref P (ref_of c)) (on_heap (h_new false) v4))); [done| |].
  { intros w <-. apply z_realloc. by rewrite Hc. }
  intros v5 Hi5. apply (judged_alloc_and_free _ _ _ _ _ v5); [done| |].
  { intros w <-. apply z_aligned. }
  intros v6 Hi6. eapply judged_bind.
  { apply (steps_access _ _ (fun r v' => r.1 = (ap_posix P).1 /\
      if (ap_posix P).2 then ref_of r.2 = Ref (Some (h_next (ms_heap v6))) true /\
        v' = on_heap (h_new false) v6 /\ non_null r.2 = true else non_null r.2 = false)).
    intros w <-. destruct (z_posix w) as (c' & w' & Hr & Hz). exists ((ap_posix P).1, c'), w'.
    split; [done|]. split; [done|]. destruct (ap_posix P).2; [|by apply null_is_null].
    pose proof (fresh_non_null _ _ _ _ Hz). destruct Hz. by split_and!. }
  intros [r c'] v' [Hr Hz]. simpl in Hr, Hz. subst r. simpl fst. simpl snd.
  eapply judged_bind; [by apply (steps_gets _ _ (fun _ v'' => v'' = v'))|]. intros e ? ->.
  apply judged_verify; [|by intros H0%Z.eqb_neq [? _]]. intros H0%Z.eqb_eq.
  apply judged_verify.
  - intros Hn. destruct (ap_posix P).2; [|congruence]. destruct Hz as (Hc' & -> & _).
    eapply judged_bind; [by apply steps_free_fresh|]. intros _ ? ->.
    eapply judged_iff.
    { apply (judged_alloc_and_free _ _ ZMemalign _ _
        (on_heap (h_free_ref P (ref_of c')) (on_heap (h_new false) v6))); [exact Hi6| |].
      - intros w <-. apply z_memalign.
      - intros v7 _. by apply (judged_success _ True). }
    rewrite H0. tauto.
  - intros Hn (_ & Hp & _). rewrite Hp in Hz. destruct Hz as (_ & _ & Hz). congruence.
Qed.

(** *** Aligned allocations *)

(** What both checks accept: a null pointer too. *)
Definition accepted_result (r : xresult) : bool :=
  match r with XMisaligned => false | _ => true end.

Lemma null_aligned size : builtin_is_aligned 0 size = true.
Proof. done. Qed.

Lemma aligned_result r size v c w' :
  a_aligned r size v c w' ->
  builtin_is_aligned (cheri_address_get c) size = accepted_result r.
Proof. destruct r; simpl; [intros (-> & _)|intros (_ & ->)|intros ->]; done. Qed.

Lemma mallocx_free r size v c w' :
  a_aligned r size v c w' -> accepted_result r = true ->
  free_fault P (ref_of c) (ms_heap (a_view w')) = None.
Proof.
  destruct r; simpl; [intros (H0 & _) _|intros ([Hc Hw] & _) _|done].
  - apply ref_null in H0. unfold free_fault. by rewrite H0.
  - unfold free_fault. rewrite Hc, Hw. simpl. by rewrite decide_True.
Qed.

Lemma decides_mallocx size v :
  decides (cap := cap) a_view (check_mallocx size) v (accepted_result (ap_mallocx P size))
    (fun _ _ => True).
Proof.
  unfold check_mallocx. eapply decides_steps.
  { apply (steps_access _ _ (fun c v' => exists w', v' = a_view w' /\
      a_aligned (ap_mallocx P size) size v c w')).
    intros w <-. destruct (x_mallocx size w) as (c & w' & ? & ?). exists c, w'. eauto. }
  intros c v' (w' & -> & Hal). unfold verify_aligned. rewrite (aligned_result _ _ _ _ _ Hal).
  replace (accepted_result (ap_mallocx P size))
    with (accepted_result (ap_mallocx P size) && true) at 2 by apply andb_true_r.
  eapply decides_bind; [apply decides_verify|]. intros Hacc _ ? ->.
  eapply steps_mono; [|done].
  apply steps_free. by apply (mallocx_free (ap_mallocx P size) size v c w').
Qed.

Lemma decides_rallocx size v : ms_image v = None ->
  decides (cap := cap) a_view (check_rallocx size) v (accepted_result (ap_rallocx P size))
    (fun _ v' => ms_image v' = None).
Proof.
  intros Hi. unfold check_rallocx. eapply decides_steps.
  { apply (steps_access _ _ (fun c v' => r_tag (ref_of c) = true /\ ms_image v' = None)).
    intros w <-. destruct (a_malloc 1 w) as (c & w' & ? & Hc & Hw'); [lia|done|].
    exists c, w'. by rewrite Hc, Hw'. }
  intros d v1 [Hd Hi1]. eapply decides_steps.
  { apply (steps_access _ _ (fun c v' => ms_image v' = None /\ exists w',
      a_aligned (ap_rallocx P size) size (on_heap (h_free_ref P (ref_of d)) v1) c w')).
    intros w <-. destruct (x_rallocx d size w Hd) as (c & w' & ? & Hiw & ?). exists c, w'.
    split; [done|]. rewrite Hiw. eauto. }
  intros c v2 (Hi2 & w' & Hal). unfold verify_aligned. rewrite (aligned_result _ _ _ _ _ Hal).
  eapply decides_mono; [apply decides_verify|]. by intros _ ? ->.
Qed.

(** Checks that keep an invariant [I] of the machine. *)
Lemma decides_all {A} (f : A -> test cap W unit) (b : A -> bool) (I : mstate -> Prop) l v :
  (forall x v, I v -> decides (cap := cap) a_view (f x) v (b x) (fun _ v' => I v')) ->
  I v -> decides (cap := cap) a_view (foreach l f) v (forallb b l) (fun _ v' => I v').
Proof.
  intros Hf. revert v. induction l as [|x l IH]; intros v Hv; [by apply steps_ret|].
  apply (decides_bind _ _ _ _ _ (fun _ v' => I v')); [by apply Hf|]. intros _ [] v' Hv'. by apply IH.
Qed.

Lemma judged_all_then (m : test cap W unit) v b I :
  decides (cap := cap) a_view m v b I -> judged (m ;; cheriostest_success (A := unit)) v (b = true).
Proof. intros Hm. eapply judged_decides; [exact Hm| |done]. intros ? [] ? ?. by apply judged_success. Qed.

Lemma mallocx_judged v :
  judged (ct_func mallocx_alignment) v
    (forallb (fun n => accepted_result (ap_mallocx P n)) alignment_sizes = true).
Proof.
  eapply judged_all_then. apply (decides_all _ _ (fun _ => True)); [|done].
  intros x v' _. apply decides_mallocx.
Qed.

Lemma rallocx_judged v : ms_image v = None ->
  judged (ct_func rallocx_alignment) v
    (forallb (fun n => accepted_result (ap_rallocx P n)) alignment_sizes = true).
Proof.
  intros Hi. eapply judged_all_then. apply (decides_all _ _ (fun v => ms_image v = None)); [|done].
  intros x v' Hv'. by apply decides_rallocx.
Qed.

(** *** Programs that are started *)

Lemma steps_fork_pid v : steps fork_pid v (fun _ v' => v' = v).
Proof.
  unfold fork_pid. eapply steps_bind.
  { apply (steps_try _ _ (fun pid v' => 0 < pid /\ v' = v)). intros w <-.
    destruct (a_fork w) as (pid & w' & ? & ? & ?). eauto. }
  intros r v' (pid & -> & Hpid & ->). simpl.
  eapply steps_bind; [apply steps_verify, Z.leb_le; lia|]. intros _ ? ->. by apply steps_ret.
Qed.

Lemma exits_execve path (program : test cap W Z) v n (Q : mstate -> Prop) :
  steps program (MState heap0 (ms_ctl v) (Some path)) (fun r v' => r = n /\ Q v') ->
  exits (cap := cap) a_view (execve_or_abort path program) v n Q.
Proof.
  intros Hp. unfold execve_or_abort. eapply exits_bind.
  { apply (steps_libcall _ _ (fun r v' => r = None /\ v' = MState heap0 (ms_ctl v) (Some path))).
    intros w <-. destruct (a_exec path [path] w) as (w' & -> & ?). done. }
  intros r ? [-> ->]. eapply exits_bind; [exact Hp|]. intros ? v' [-> HQ]. by apply exits_exit.
Qed.

Lemma steps_enabled_main p v : ms_image v = Some p ->
  steps malloc_revoke_enabled_main v
    (fun r v' => r = (if ap_enabled P p (ms_ctl v) then 0 else 1) /\ v' = v).
Proof.
  intros Hi. unfold malloc_revoke_enabled_main. eapply steps_bind.
  { apply (steps_gets _ _ (fun w v' => a_view w = v /\ v' = v)). by intros s [_ ?]. }
  intros w ? [Hw ->]. apply steps_ret. split; [|done]. rewrite <- Hw in *.
  by rewrite (a_enabled p) by exact Hi.
Qed.

(** The setting with which a test runs its program. *)
Definition ctl_of (arg : option revoke_ctl) (v : mstate) : option revoke_ctl :=
  match arg with Some a => Some a | None => ms_ctl v end.

Lemma steps_procctl arg v :
  steps (match arg with
     | Some a => _ ← CHERIOSTEST_CHECK_SYSCALL (sys (procctl_revoke (cap := cap) a))
                       "procctl(P_PID, getpid(), PROC_CHERI_REVOKE_CTL, procctl_arg)";
                 mret tt
     | None => mret tt
     end) v (fun _ v' => v' = MState (ms_heap v) (ctl_of arg v) (ms_image v)).
Proof.
  destruct arg as [a|]; [|apply steps_ret; by destruct v].
  eapply steps_bind.
  { apply (steps_call2 _ _ _ _ (fun _ v' => v' = MState (ms_heap v) (Some a) (ms_image v))).
    intros w <-. destruct (a_procctl a w) as (r & w' & ? & ?). eauto. }
  intros _ ? ->. by apply steps_ret.
Qed.

Context (Hdir : forall s, cheriostest_get_helper_dir (cap := cap) (W := W) g helper_dir s = (Val dir, s)).

Lemma steps_helper_dir v :
  steps (cheriostest_get_helper_dir g helper_dir) v (fun d v' => d = dir /\ v' = v).
Proof. intros s Hs. exists dir, s, v. by split. Qed.

Definition helper (progname : string) : string := dir +:+ "/" +:+ progname.

Lemma ctl_judged progname (expected : bool) arg v :
  judged (malloc_revocation_ctl_common_procctl g helper_dir progname expected arg) v
    (ap_enabled P (helper progname) (ctl_of arg v) = expected).
Proof.
  eapply judged_bind; [apply steps_fork_pid|]. intros _ ? ->.
  set (b := ap_enabled P (helper progname) (ctl_of arg v)).
  unfold child_is_revoking. apply judged_assoc.
  eapply (judged_wait_any g (fun v => v) a_child _ (if b then 0 else 1) (fun _ => True));
    [by destruct b| |].
  { eapply exits_bind; [apply steps_procctl|]. intros _ ? ->.
    eapply exits_bind; [apply steps_helper_dir|]. intros d ? [-> ->].
    apply exits_execve. eapply steps_mono; [by apply steps_enabled_main|].
    intros r v' [-> _]. done. }
  intros v'. destruct (exit_status (if b then 0 else 1)) as [-> ->]; [by destruct b|].
  apply judged_ret. replace ((if b then 0 else 1) =? 0) with b by (by destruct b).
  destruct b, expected; simpl; by (apply judged_success || apply judged_failure_end).
Qed.

(** The ten tests, with the program, the expected answer and the setting. *)
Definition ctl_tests : list (cheri_test cap W * (string * bool * option revoke_ctl)) :=
  let enabled := "malloc_revoke_enabled"%string in
  let disable := "malloc_revoke_enabled_elfnote_disable"%string in
  let enable := "malloc_revoke_enabled_elfnote_enable"%string in
  let on := Some PROC_CHERI_REVOKE_FORCE_ENABLE in
  let off := Some PROC_CHERI_REVOKE_FORCE_DISABLE in
  [(malloc_revocation_ctl_baseline g helper_dir, (enabled, true, None));
   (malloc_revocation_ctl_elfnote_disable g helper_dir, (disable, false, None));
   (malloc_revocation_ctl_elfnote_enable g helper_dir, (enable, true, None));
   (malloc_revocation_ctl_elfnote_disable_protctl_enable g helper_dir, (disable, true, on));
   (malloc_revocation_ctl_elfnote_enable_protctl_disable g helper_dir, (enable, false, off));
   (malloc_revocation_ctl_suid_baseline g helper_dir,
    ("malloc_revoke_enabled_suid"%string, true, None));
   (* the two that follow do not start a set-user-id program *)
   (malloc_revocation_ctl_suid_elfnote_disable g helper_dir, (disable, false, None));
   (malloc_revocation_ctl_suid_elfnote_enable g helper_dir, (enable, true, None));
   (malloc_revocation_ctl_suid_elfnote_disable_protctl_enable g helper_dir,
    ("malloc_revoke_enabled_suid_elfnote_disable"%string, false, on));
   (malloc_revocation_ctl_suid_elfnote_enable_protctl_disable g helper_dir,
    ("malloc_revoke_enabled_suid_elfnote_enable"%string, true, off))].

Lemma ctl_tests_judged t prog expected arg v :
  (t, (prog, expected, arg)) ∈ ctl_tests ->
  judged (ct_func t) v (ap_enabled P (helper prog) (ctl_of arg v) = expected).
Proof.
  intros Hin. unfold ctl_tests in Hin.
  repeat (apply elem_of_cons in Hin as [Hin|Hin]; [injection Hin as -> -> -> ->; apply ctl_judged|]).
  by apply not_elem_of_nil in Hin.
Qed.

Lemma early_judged v :
  judged (ct_func (malloc_early_constructor g helper_dir)) v (ap_early P = None).
Proof.
  set (path := cut (PATH_MAX g) (dir +:+ "/" +:+ "malloc_early_constructor" +:+ cfg_prog_suffix g)).
  apply (judged_bind _ _ _ (fun r v' => r = (Some path, dir) /\ v' = v)).
  { intros s Hs. exists (Some path, dir), s, v. split; [|by split].
    unfold cheriostest_get_helper_path, _cheriostest_get_helper_path.
    by erewrite test_bind by apply Hdir. }
  intros r ? [-> ->]. simpl fst. cbv iota.
  eapply judged_bind; [apply steps_fork_pid|]. intros _ ? ->.
  set (v1 := MState heap0 (ms_ctl v) (Some path)). destruct (ap_early P) as [si|] eqn:He.
  - apply (judged_wait_fault g (fun v => v) a_child _ si).
    + intros s [Hs Hv].
      destruct (a_exec path [path] (p_world s)) as (w1 & Hx & Hw1).
      pose proof (a_early path 1 w1) as Hm. rewrite He, Hw1 in Hm.
      destruct Hm as (w2 & Hm); [done|lia|]. exists (set_world w2 (set_world w1 s)).
      split; [|exact Hs]. unfold execve_or_abort, world_op, foo.
      unfold mbind, eff_bind. rewrite Hx. unfold access. simpl. by rewrite Hm.
    + intros st v' Hst. pose proof (a_early_signal si He).
      replace (WIFEXITED st && (WEXITSTATUS st =? 0)) with false; [by apply judged_failure_end|].
      symmetry. destruct Hst as [-> | ->]; [|done]. unfold WIFEXITED.
      change 0x7f with (Z.ones 7). rewrite Z.land_ones by lia.
      rewrite Z.mod_small by (change (2 ^ 7) with 128; lia).
      apply andb_false_intro1. apply Z.eqb_neq. lia.
  - apply (judged_wait_any g (fun v => v) a_child _ 0 (fun _ => True)); [done| |].
    + apply exits_execve. fold v1.
      apply (steps_bind _ _ _ (fun _ _ => True)); [|by intros; apply steps_ret].
      eapply steps_bind.
      { apply (steps_access _ _ (fun c v' => ref_of c = Ref (Some (h_next (ms_heap v1))) true /\
          v' = on_heap (h_new false) v1)).
        intros w Hw. pose proof (a_early path 1 w) as Hm. rewrite He, Hw in Hm.
        destruct Hm as (c & w' & ? & ? & ?); [done|lia|]. by exists c, w'. }
      intros c ? [Hc ->]. eapply steps_mono; [by apply steps_free_fresh|]. done.
    + intros v'. by apply judged_success.
Qed.

(** *** Double free *)

(** The fault of the second free of an object. *)
Definition second_free : option (siginfo cap) :=
  match after false with Live _ => None | st => ap_free P st end.

Lemma first_free_run s : ms_image (a_view (p_world s)) = None ->
  exists w0 w, alloc_into PEptr PPtr (os_malloc 2) s = (Val tt, set_world w0 s) /\
    free_var PPtr (set_world w0 s) = (Val tt, set_world w s) /\
    a_view w = freed PPtr (allocated false PEptr PPtr (a_view (p_world s))).
Proof.
  intros Hi. set (v := a_view (p_world s)).
  destruct (a_malloc 2 (p_world s)) as (c & w1 & Hm & Hc & Hw1); [lia|done|]. fold v in Hc, Hw1.
  set (w2 := var_set PPtr c w1). set (w3 := var_set PEptr c w2).
  assert (a_view w3 = allocated false PEptr PPtr v) as Hw3.
  { unfold w3, w2. by rewrite !a_set, Hw1, Hc. }
  destruct (allocated_vars false PEptr PPtr v) as (Hp & _ & Hs & _); [done|].
  destruct (free_live PPtr _ _ _ Hp Hs) as [Hf _].
  pose proof (a_free (var_get PPtr w3) w3) as Ha. rewrite a_get, Hw3, Hf in Ha.
  destruct Ha as (w4 & Ha & Hw4). exists w3, w4. split; [|split; [|exact Hw4]].
  - unfold alloc_into, set_var. unfold mbind, eff_bind, access, libcall. by rewrite Hm.
  - unfold free_var, get_var. unfold mbind, eff_bind, access, gets. simpl. by rewrite Ha.
Qed.

Lemma double_free_spec s r : at_start g s -> ms_image (a_view (p_world s)) = None ->
  let t := malloc_double_free (cap := cap) (W := W) true in
  exists st s' c, end_of_process g ((ct_func t ;; exit 0) s) = Some (st, s') /\
    p_ccsp s' = Some c /\
    (accepted g t st c r <->
     exists si, second_free = Some si /\ si_signo si = SIGABRT (cap := cap) (W := W) /\
       ~ si_signo si ∈ p_handlers s).
Proof.
  intros (Hp & Ho & Hh) Hi t. destruct (first_free_run s Hi) as (w0 & w & Hrun1 & Hrun2 & Hw).
  set (v := a_view (p_world s)) in *.
  destruct (allocated_vars false PEptr PPtr v) as (Hx & _ & Hs & _); [done|].
  destruct (free_live PPtr _ _ _ Hx Hs) as [_ Hf].
  assert (ref_of (var_get PPtr w) = Ref (Some (h_next (ms_heap v))) true) as Hr.
  { by rewrite a_get, Hw, Hf. }
  assert (free_fault P (ref_of (var_get PPtr w)) (ms_heap (a_view w)) = second_free) as Hff.
  { unfold free_fault. rewrite Hr, Hw, Hf. simpl. by rewrite decide_True. }
  pose proof (a_free (var_get PPtr w) w) as Ha. rewrite Hff in Ha.
  unfold t, malloc_double_free, quarantine_test. cbn [ct_func with_skip with_signal CHERIOSTEST].
  assert (forall k : unit -> test cap W unit, ((alloc_into PEptr PPtr (os_malloc 2) ;;
     u ← free_var PPtr; k u) ;; exit (A := unit) 0) s = (k tt ;; exit 0) (set_world w s)) as Hrun'.
  { intros k. unfold mbind, eff_bind. by rewrite Hrun1, Hrun2. }
  unfold accepted, status_accepted. cbn [ct_flags ct_signum with_skip with_signal].
  rewrite Hrun'. clear Hrun'. unfold free_var, get_var.
  destruct second_free as [si|].
  - destruct Ha as (w' & Ha).
    assert (((u ← (c ← gets (fun s => var_get PPtr (p_world s)); access (free_ptr c));
      cheriostest_failure_errx (A := unit) "malloc() did not abort" []) ;; exit 0) (set_world w s)
      = (Raised (A := unit) si, set_world w' s)) as ->.
    { unfold mbind, eff_bind, gets, access. simpl. by rewrite Ha. }
    simpl end_of_process. destruct (decide (si_signo si ∈ p_handlers s)) as [Hin|Hin].
    + unfold signal_handler, with_ccsp, mbind, eff_bind, gets, modify, exit. simpl. rewrite Hp.
      eexists _, _, _. split; [reflexivity|]. split; [reflexivity|]. split.
      * by intros [[_ H] _].
      * intros (si' & [= <-] & _ & Hn). done.
    + eexists _, _, _. split; [reflexivity|]. split; [exact Hp|]. split.
      * intros [[_ H] _]. exists si. split; [done|]. split; [|done]. by injection H.
      * intros (si' & [= <-] & Hsig & _). split; [|done]. split; [done|]. simpl. by rewrite <- Hsig.
  - destruct Ha as (w' & Ha & _).
    assert (exists s' c, ((u ← (c ← gets (fun s => var_get PPtr (p_world s)); access (free_ptr c));
      cheriostest_failure_errx (A := unit) "malloc() did not abort" []) ;; exit 0) (set_world w s)
      = (Exited (A := unit) EX_SOFTWARE, s') /\ p_ccsp s' = Some c /\
      ccs_testresult c = TESTRESULT_FAILURE) as (s' & c & Hr' & Hc & Hres).
    { unfold mbind, eff_bind, gets, access, cheriostest_failure_errx, vcheriostest_failure_errx.
      simpl. rewrite Ha. simpl. unfold mbind, eff_bind, gets. simpl. rewrite Hp.
      eexists _, _. split; [reflexivity|]. by split. }
    rewrite Hr'. eexists _, s', c. split; [reflexivity|]. split; [done|]. split.
    + by intros [[H _] _].
    + by intros (? & ? & _).
Qed.

(** C9: on an allocator whose revoker decides by the place of a reference and
    the status of its object, malloc_revoke_basic passes exactly when a sweep
    takes both references to a freed object; the tests of a forced flush when it
    also reports success, the one with two flushes whether or not the first one
    takes references to a live object, as long as it takes both and the free of
    a revoked pointer goes unnoticed; the test without quarantine when no
    reference is taken; the test of sizes zero when no call gives a null pointer;
    the tests of alignment when no result is misaligned, null pointers included;
    each of the ten tests of settings when the program it starts reports what it
    expects (two of the set-user-id tests start the program of another test); the
    early constructor when its malloc works; and the controller accepts the test
    of a double free exactly when the second free dies of an unhandled SIGABRT. *)
Theorem malloc_tests_verdict (v : mstate) :
  ms_image v = None ->
  judged (ct_func (malloc_revoke_basic true)) v (both (after false)) /\
  judged (ct_func (malloc_revoke_quarantine_force_flush_basic true)) v
    (ap_flush P = 0 /\ both (after false)) /\
  judged (ct_func (malloc_revoke_quarantine_force_flush_twice true)) v
    (ap_flush P = 0 /\ both (after false) /\
     (hits false (Live false) = true ->
      ap_free_untagged P = None /\ hits true (Live false) = true)) /\
  judged (ct_func (malloc_no_quarantine_not_revoked true)) v
    (ap_flush P = 0 /\ hits false (after true) = false /\ hits true (after true) = false) /\
  judged (ct_func malloc_zero_size) v
    ((forall z, z ∈ zero_calls -> ap_zero P z = true) /\ ap_posix P = (0, true) /\
     ap_zero P ZMemalign = true) /\
  judged (ct_func mallocx_alignment) v
    (forallb (fun n => accepted_result (ap_mallocx P n)) alignment_sizes = true) /\
  judged (ct_func rallocx_alignment) v
    (forallb (fun n => accepted_result (ap_rallocx P n)) alignment_sizes = true) /\
  (forall t prog expected arg, (t, (prog, expected, arg)) ∈ ctl_tests ->
   judged (ct_func t) v (ap_enabled P (helper prog) (ctl_of arg v) = expected)) /\
  judged (ct_func (malloc_early_constructor g helper_dir)) v (ap_early P = None) /\
  (forall s r, at_start g s -> ms_image (a_view (p_world s)) = None ->
   let t := malloc_double_free (cap := cap) (W := W) true in
   exists st s' c, end_of_process g ((ct_func t ;; exit 0) s) = Some (st, s') /\
     p_ccsp s' = Some c /\
     (accepted g t st c r <->
      exists si, second_free = Some si /\ si_signo si = SIGABRT (cap := cap) (W := W) /\
        ~ si_signo si ∈ p_handlers s)).
Proof.
  intros Hi. split; [by apply malloc_revoke_basic_judged|].
  split; [by apply force_flush_basic_judged|]. split; [by apply force_flush_twice_judged|].
  split; [apply no_quarantine_judged|]. split; [by apply malloc_zero_judged|].
  split; [apply mallocx_judged|]. split; [by apply rallocx_judged|].
  split; [intros; by apply ctl_tests_judged|]. split; [apply early_judged|].
  intros s r Hs Hv. by apply double_free_spec.
Qed.

(** A test of a set-user-id program with a note to disable, or to enable,
    revocation accepts exactly the systems that the test of the plain program
    accepts. *)
Corollary suid_elfnote_tests_redundant (v : mstate) s : on (cap := cap) a_view v s ->
  (succeeds (ct_func (malloc_revocation_ctl_suid_elfnote_disable g helper_dir)) s <->
   succeeds (ct_func (malloc_revocation_ctl_elfnote_disable g helper_dir)) s) /\
  (succeeds (ct_func (malloc_revocation_ctl_suid_elfnote_enable g helper_dir)) s <->
   succeeds (ct_func (malloc_revocation_ctl_elfnote_enable g helper_dir)) s).
Proof. intros _. done. Qed.
End Facts.

(** ** A concrete allocator *)

Abbreviation toy_alloc_abort := (Siginfo (C := scap) 6 0 0 cap_null).

(** What CheriBSD promises. *)
Definition good_policy : alloc_policy scap := {|
  ap_after nq := if nq then Reusable else Quarantined;
  ap_hits _ st := match st with Quarantined => true | _ => false end;
  ap_free _ := Some toy_alloc_abort;
  ap_free_untagged := Some toy_alloc_abort;
  ap_flush := 0;
  ap_zero _ := true;
  ap_posix := (0, true);
  ap_mallocx n := if builtin_is_aligned 0x10000 n then XAligned else XMisaligned;
  ap_rallocx n := if builtin_is_aligned 0x10000 n then XAligned else XMisaligned;
  ap_enabled p arg :=
    match arg with
    | Some PROC_CHERI_REVOKE_FORCE_ENABLE => true
    | Some PROC_CHERI_REVOKE_FORCE_DISABLE => false
    | None => negb (String.eqb p "lib/malloc_revoke_enabled_elfnote_disable")
    end;
  ap_early := None;
|}.

(** A capability names its object in its permissions. *)
Definition toy_ref (c : scap) : ref :=
  Ref (if cheri_address_get c =? 0 then None else Some (Z.to_nat (sc_perms c))) (sc_tag c).
Definition toy_of_ref (r : ref) : scap :=
  match r_obj r with
  | Some i => SCap (r_tag r) 0x10000 0x10000 16 (Z.of_nat i) (-1)
  | None => SCap (r_tag r) 0 0 0 0 (-1)
  end.

Lemma toy_ref_of r : toy_ref (toy_of_ref r) = r.
Proof. destruct r as [[i|] t]; unfold toy_ref; simpl; [by rewrite Nat2Z.id|done]. Qed.

Definition toy_new (nq : bool) (v : mstate) : (scap + siginfo scap) * mstate :=
  (inl (toy_of_ref (Ref (Some (h_next (ms_heap v))) true)), on_heap (h_new nq) v).
Definition toy_renew (c : scap) (v : mstate) : (scap + siginfo scap) * mstate :=
  if r_tag (toy_ref c) then toy_new false (on_heap (h_free_ref good_policy (toy_ref c)) v)
  else toy_new false v.

#[export] Instance malloc_resv : ResvOS scap mstate := {|
  mem_load_int _ w := (inl 0, w);
  cheri_pcc_get := toy_cap 0x8000 0x1000 0 2;
  test_bufferp := toy_cap 0x9000 64 0 2;
  CHERI_ALIGN_SHIFT _ := 12;
  feature_present _ _ := true;
  sysctl_runtime_revocation_default _ := inl 1;
  sysctl_quarantine_unmapped _ := inr 2;
  cheri_revoke_get_shadow_info w := (inl 0, w);
  ENOENT := 2;
|}.

#[export] Instance malloc_revoke_os : RevokeOS scap mstate := {|
  sizeof_ptr := 16;
  CHERI_REVOKE_LAST_PASS := 1; CHERI_REVOKE_IGNORE_START := 4; CHERI_REVOKE_TAKE_STATS := 8;
  CHERI_REVOKE_ASYNC := 2;
  sys_cheri_revoke _ _ w := (inr 78, w);
  sys_get_shadow_novmem _ w := (inr 78, w);
  cri_enqueue _ := 0; cri_dequeue _ := 0; cri_base_mem_nomap _ := 0;
  cheri_revoke_epoch_clears now epoch := epoch + 2 <=? now;
  caprev_shadow_nomap_set _ _ _ _ w := (1, w);
  caprev_shadow_nomap_clear _ _ _ w := w;
  dump_shadow what _ _ _ _ := what;
  os_srand _ w := w;
  os_rand w := (4, w);
  os_usleep _ w := w;
|}.

#[export] Instance malloc_fork : ForkOS mstate := {|
  sys_fork _ w := (inl 42, w); as_child w := w; as_parent w := w;
|}.

#[export] Instance malloc_spawn : SpawnOS mstate := {|
  os_exe_path _ := inl "bin/cheriostest"%string;
  os_aux_execpath _ := inl "bin/cheriostest"%string;
  os_environ := [];
  os_posix_spawn _ _ _ w := (inl 42, w);
  os_forks _ w := (inl 42, w);
  os_execve path _ _ w := (None, MState heap0 (ms_ctl w) (Some path));
  os_waitpid _ w := (0, w);
  os_stat _ w := (None, w);
|}.

#[export] Instance malloc_os : AllocOS scap mstate := {|
  os_malloc _ := toy_new false;
  malloc_no_quarantine _ := toy_new true;
  os_calloc2 _ _ := toy_new false;
  os_realloc c _ := toy_renew c;
  aligned_alloc _ _ := toy_new false;
  posix_memalign _ _ w :=
    (inl (0, toy_of_ref (Ref (Some (h_next (ms_heap w))) true)), on_heap (h_new false) w);
  memalign _ _ := toy_new false;
  mallocx _ _ := toy_new false;
  rallocx c _ _ := toy_renew c;
  MALLOCX_ALIGN n := Z.log2 n;
  free_ptr c w :=
    match free_fault good_policy (toy_ref c) (ms_heap w) with
    | Some si => (inr si, w)
    | None => (inl tt, on_heap (h_free_ref good_policy (toy_ref c)) w)
    end;
  malloc_revoke := on_heap (h_sweep good_policy);
  malloc_revoke_quarantine_force_flush w := (0, on_heap (h_sweep good_policy) w);
  malloc_revoke_enabled w :=
    match ms_image w with Some p => ap_enabled good_policy p (ms_ctl w) | None => true end;
  var_get x w := toy_of_ref (h_vars (ms_heap w) x);
  var_set x c := on_heap (h_set x (toy_ref c));
  abort_info := toy_alloc_abort;
  procctl_revoke a w := (inl 0, MState (ms_heap w) (Some a) (ms_image w));
  statfs_fstypename _ _ := inl "ufs"%string;
|}.

Lemma toy_fresh nq w : exists c w', toy_new nq w = (inl c, w') /\
  toy_ref c = Ref (Some (h_next (ms_heap w))) true /\ w' = on_heap (h_new nq) w.
Proof. eexists _, _. split; [reflexivity|]. by rewrite toy_ref_of. Qed.

Lemma toy_aligned v size :
  let c := toy_of_ref (Ref (Some (h_next (ms_heap v))) true) in
  match (if builtin_is_aligned 0x10000 size then XAligned else XMisaligned) with
  | XNull => cheri_address_get c = 0 /\ on_heap (h_new false) v = v
  | XAligned => (toy_ref c = Ref (Some (h_next (ms_heap v))) true /\
                 on_heap (h_new false) v = on_heap (h_new false) v) /\
                builtin_is_aligned (cheri_address_get c) size = true
  | XMisaligned => builtin_is_aligned (cheri_address_get c) size = false
  end.
Proof.
  intros c. change (cheri_address_get c) with 0x10000.
  destruct (builtin_is_aligned 0x10000 size); [|done]. unfold c. by rewrite toy_ref_of.
Qed.

#[export] Instance malloc_rules : AllocRules scap mstate.
Proof.
  refine {| a_view := fun v => v; a_policy := good_policy; ref_of := toy_ref |}; try done;
    try (intros; apply toy_fresh); try (by intros; eexists _, _).
  - intros c. simpl. unfold toy_ref. simpl. destruct (Z.eqb_spec (u64 (sc_addr c)) 0); split;
      simpl; try done; congruence.
  - intros c w. simpl. destruct (free_fault _ _ _); by eexists.
  - intros x w. apply toy_ref_of.
  - intros w. by eexists.
  - intros c w Hc. simpl. unfold toy_renew. rewrite Hc. apply toy_fresh.
  - intros w. eexists _, _. split; [reflexivity|]. simpl. by rewrite toy_ref_of.
  - intros size w. eexists _, _. split; [reflexivity|]. apply toy_aligned.
  - intros d size w Hd. simpl. unfold toy_renew. rewrite Hd.
    eexists _, _. split; [reflexivity|]. split; [done|]. apply toy_aligned.
  - intros path argv w. by eexists.
  - intros p w Hw. simpl. by rewrite Hw.
Defined.

Definition malloc_state : mstate := MState heap0 None None.

Lemma malloc_tests_verdict_witness :
  ms_image malloc_state = None /\
  judged (cap := scap) (fun v => v)
    (ct_func (malloc_revoke_quarantine_force_flush_twice (cap := scap) (W := mstate) true))
    malloc_state
    (0 = 0 /\ (true = true /\ true = true) /\
     (false = true -> Some toy_alloc_abort = None /\ false = true)) /\
  judged (cap := scap) (fun v => v)
    (ct_func (malloc_revocation_ctl_elfnote_disable (cap := scap) (W := mstate) toy_config "lib"))
    malloc_state (false = false).
Proof.
  destruct (malloc_tests_verdict (AR := malloc_rules) toy_config "lib" "lib"
    ltac:(reflexivity) malloc_state) as (_ & _ & Ht & _ & _ & _ & _ & Hc & _); [reflexivity|].
  split; [reflexivity|]. split; [exact Ht|].
  apply (Hc _ "malloc_revoke_enabled_elfnote_disable" false None).
  right. left.
Defined.
