(* ===== verification/Buffers.v ===== *)
(** * Buffers: copies through the kernel and zlib (cheriostest_kbounce.c,
    cheriostest_zlib.c)

    The test of kbounce(2) on two pages between guard pages: a kernel is seen as
    a memory of bytes with closed regions, and kbounce as any function on it
    ([BounceRules]).  [kbounce_verdict] reduces the test to a run on that
    memory.  The tests of zlib compare what the library produces with the
    constants of the file; a decoder of the format (RFC 1950 and 1951) checks
    these constants against each other. *)

From S2P Require Import Prelude Printf Cheri Harness Runner Toy Kernel VmTags Mappings Reservations Judge Traps.

(** ** kbounce *)

Class BounceOS (cap W : Type) := {
  sys_kbounce : cap -> cap -> Z -> Z -> W -> (Z + Z) * W;   (* src, dst, len, flags *)
  sizeof_cap : Z;                          (* sizeof(void * __capability) *)
}.

(** The lengths to test, [b] being BUFLEN. *)
Definition kbounce_lengths (b : Z) : list Z :=
  [1; 2; 3; 4; 5; 6; 7; 8; 9; 10; 11; 12; 13; 14; 15; 16;
   17; 18; 19; 20; 21; 22; 23; 24; 25; 26; 27; 28; 29; 30; 31; 32;
   b; -1; -2; -3; -4; -5; -6; -7; -8; -9; -10; -11; -12; -13; -14; -15;
   -16; -17; -18; -19; -20; -21; -22; -23; -24; -25; -26; -27; -28; -29; -30; -31].

Definition kbounce_len (b off l : Z) : Z :=
  if l =? b then b - off else if l <? 0 then b - off + l else l.

Section Kbounce.
Context {cap W : Type} {CH : Cheri cap} {LC : Libc cap W} {KE : Kernel cap W}
  {VC : VmConsts} {TR : TrapOS cap W} {BO : BounceOS cap W}.

Definition BUFLEN : Z := getpagesize (cap := cap) (W := W).
Definition GUARDLEN : Z := getpagesize (cap := cap) (W := W).

(** Bytes: [char] is unsigned on the architectures of the suite. *)
Definition fillbuf (buf : cap) (len : Z) : test cap W unit :=
  foreach (seqZ 0 len) (fun i => access (mem_store_byte buf i (Z.land i 0xFF))).

Definition spoilbuf (buf : cap) (len : Z) : test cap W unit :=
  fillbuf buf len ;;
  foreach (seqZ 0 len) (fun i =>
    c ← access (mem_load_byte buf i);
    access (mem_store_byte buf i (Z.land (Z.lnot c) 0xFF))).

Definition checkbuf (buf : cap) (offset len : Z) (where_ : string) : test cap W unit :=
  foreach (seqZ offset len) (fun i =>
    c ← access (mem_load_byte buf i);
    when (negb (c =? Z.land i 0xFF))
      (c' ← access (mem_load_byte buf i);
       cheriostest_failure_errx "%s: buf[%zu] != 0x%02x (0x%02x)"
         [AStr where_; AInt i; AInt (Z.land i 0xFF); AInt c'])).

(** [if (call == -1) cheriostest_failure_err(msg)] *)
Definition or_fail {A} (call : W -> (A + Z) * W) (msg : string) (ap : list (arg cap))
    : test cap W A :=
  r ← try_sys call;
  match r with Some a => mret a | None => cheriostest_failure_err msg ap end.

(** [if (kbounce(src, dst, len, 0) != 0)] *)
Definition bounce (src dst : cap) (len : Z) (msg : string) : test cap W unit :=
  r ← try_sys (sys_kbounce src dst len 0);
  when (negb (match r with Some x => x =? 0 | None => false end))
    (cheriostest_failure_err msg [APtr src; APtr dst; AInt len]).

Definition bounce_step (src dst : cap) (off l : Z) : test cap W unit :=
  spoilbuf dst BUFLEN ;;
  let len := kbounce_len BUFLEN off l in
  bounce (ptr_add src off) (ptr_add dst off) len
    "kbounce(
  %#p,
  %#p,
%zu, 0)" ;;
  checkbuf src off len "partial buffer".

Definition sys_kbounce_test : cheri_test cap W :=
  CHERIOSTEST "sys_kbounce" "Exercise copyin/out via kbounce(2) syscall"
    (let total := BUFLEN * 2 + getpagesize (cap := cap) (W := W) * 3 in
     buf ← or_fail (sys_mmap cap_null total PROT_RW (Z.lor MAP_ANON MAP_PRIVATE) (-1) 0)
             "mmap of %d failed" [AInt total];
     _ ← or_fail (sys_mprotect buf GUARDLEN PROT_NONE)
           "mprotect of first guard region failed" [];
     _ ← or_fail (sys_mprotect (ptr_add buf (GUARDLEN + BUFLEN)) GUARDLEN PROT_NONE)
           "mprotect of second guard region failed" [];
     _ ← or_fail (sys_mprotect (ptr_add buf (2 * (GUARDLEN + BUFLEN))) GUARDLEN PROT_NONE)
           "mprotect of third guard region failed" [];
     let src := ptr_add buf GUARDLEN in
     let dst := ptr_add src (BUFLEN + GUARDLEN) in
     fillbuf src BUFLEN ;;
     checkbuf src 0 BUFLEN "src" ;;
     spoilbuf dst BUFLEN ;;
     bounce src dst BUFLEN "kbounce(%p, %p, %d, 0)" ;;
     checkbuf src 0 BUFLEN "full buffer" ;;
     foreach (seqZ 0 (sizeof_cap (cap := cap) (W := W))) (fun off =>
       foreach (kbounce_lengths BUFLEN) (fun l => bounce_step src dst off l)) ;;
     cheriostest_success).
End Kbounce.

(** *** The memory *)

(** The bytes, and the regions that are closed to any access. *)
Record bview := BView { b_bytes : gmap Z Z; b_closed : list (Z * Z) }.

Definition b_open (v : bview) (a : Z) : bool :=
  forallb (fun r => negb ((r.1 <=? a) && (a <? r.1 + r.2))) (b_closed v).

Definition fill (a n : Z) (m : gmap Z Z) : gmap Z Z :=
  foldl (fun m i => <[a + i := Z.land i 0xFF]> m) m (seqZ 0 n).

Definition spoil (a n : Z) (m : gmap Z Z) : gmap Z Z :=
  foldl (fun m i => <[a + i := Z.land (Z.lnot (default 0 (m !! (a + i)))) 0xFF]> m)
    (fill a n m) (seqZ 0 n).

(** [n] bytes behind the address of [c] can be reached by adding to it. *)
Record reach {cap} `{Cheri cap} (c : cap) (n : Z) : Prop := {
  rc_tag : cheri_tag_get c = true;
  rc_unsealed : cheri_is_sealed c = false;
  rc_base : cheri_base_get c <= cheri_address_get c;
  rc_top : cheri_address_get c + n <= cheri_base_get c + cheri_length_get c;
  rc_end : cheri_address_get c + n < 2 ^ 64;
}.

Section BounceRules.
Context {cap W : Type} {CH : Cheri cap} {LC : Libc cap W} {KE : Kernel cap W}
  {VC : VmConsts} {TR : TrapOS cap W} {BO : BounceOS cap W}.

Abbreviation p := (BUFLEN (cap := cap) (W := W)).

(** An access at [off] behind [c] is allowed. *)
Definition allowed (c : cap) (off : Z) (v : bview) : Prop :=
  cheri_tag_get c = true /\ cheri_is_sealed c = false /\
  cheri_base_get c <= cheri_address_get c + off < cheri_base_get c + cheri_length_get c /\
  b_open v (cheri_address_get c + off) = true.

(** A kernel whose kbounce does to the memory what [b_kbounce] says ([Some e]:
    it fails), and whose mmap gives the block [b_buf]. *)
Class BounceRules := {
  b_view : W -> bview;
  b_buf : cap;
  b_kbounce : Z -> Z -> Z -> gmap Z Z -> option Z * gmap Z Z;
  b_page : 64 <= p;
  b_sizeof : 0 < sizeof_cap (cap := cap) (W := W) <= 32;
  b_reach : reach b_buf (5 * p);
  b_seal (c : cap) a : cheri_is_sealed (cheri_address_set c a) = cheri_is_sealed c;
  b_mmap len w : len <= 5 * p -> exists w',
    sys_mmap cap_null len PROT_RW (Z.lor MAP_ANON MAP_PRIVATE) (-1) 0 w = (inl b_buf, w') /\
    b_view w' = b_view w;
  b_mprotect c n w : reach c n -> exists r w', sys_mprotect c n PROT_NONE w = (inl r, w') /\
    b_view w' = BView (b_bytes (b_view w)) ((cheri_address_get c, n) :: b_closed (b_view w));
  b_store c off x w : allowed c off (b_view w) -> exists w',
    mem_store_byte c off x w = (inl tt, w') /\
    b_view w' = BView (<[cheri_address_get c + off := x]> (b_bytes (b_view w)))
                  (b_closed (b_view w));
  b_load c off w : allowed c off (b_view w) -> exists w',
    mem_load_byte c off w
    = (inl (default 0 (b_bytes (b_view w) !! (cheri_address_get c + off))), w') /\
    b_view w' = b_view w;
  b_call s d n w : cheri_tag_get s = true -> cheri_tag_get d = true -> exists w',
    let r := b_kbounce (cheri_address_get s) (cheri_address_get d) n (b_bytes (b_view w)) in
    sys_kbounce s d n 0 w = (match r.1 with None => inl 0 | Some e => inr e end, w') /\
    b_view w' = BView r.2 (b_closed (b_view w));
}.
End BounceRules.
Arguments BounceRules cap W {_ _ _ _ _}.

(** *** The run on the memory *)

Section Run.
Context (b src dst : Z) (kb : Z -> Z -> Z -> gmap Z Z -> option Z * gmap Z Z).

Definition intact (off len : Z) (m : gmap Z Z) : bool :=
  forallb (fun i => default 0 (m !! (src + i)) =? Z.land i 0xFF) (seqZ off len).

(** Spoiling the destination, one call, and the check of the source. *)
Definition bounce_at (off len : Z) (m : gmap Z Z) : option (gmap Z Z) :=
  let r := kb (src + off) (dst + off) len (spoil dst b m) in
  match r.1 with
  | None => if intact off len r.2 then Some r.2 else None
  | Some _ => None
  end.

Fixpoint bounces (calls : list (Z * Z)) (m : gmap Z Z) : option (gmap Z Z) :=
  match calls with
  | [] => Some m
  | (off, len) :: calls' => bounce_at off len m ≫= bounces calls'
  end.

Definition bounce_calls (size : Z) : list (Z * Z) :=
  flat_map (fun off => map (fun l => (off, kbounce_len b off l)) (kbounce_lengths b))
    (seqZ 0 size).

Lemma bounces_app l1 l2 m : bounces (l1 ++ l2) m = bounces l1 m ≫= bounces l2.
Proof.
  revert m. induction l1 as [|[off len] l1 IH]; intros m; [done|]. simpl.
  destruct (bounce_at off len m); simpl; [apply IH|done].
Qed.

End Run.

(** Each call is inside the buffers. *)
Lemma bounce_calls_inside b size off len : 64 <= b -> size <= 32 ->
  (off, len) ∈ bounce_calls b size -> 0 <= off /\ 0 < len /\ off + len <= b.
Proof.
  intros Hb Hs Hin. unfold bounce_calls in Hin.
  apply list_elem_of_In, in_flat_map in Hin as (o & Ho & Hin).
  apply list_elem_of_In, elem_of_seqZ in Ho.
  apply in_map_iff in Hin as (l & [= <- <-] & Hl).
  assert (l = b \/ - 31 <= l <= -1 \/ 1 <= l <= 32) as Hl'.
  { revert Hl. unfold kbounce_lengths. simpl. intuition lia. }
  unfold kbounce_len. destruct (Z.eqb_spec l b), (Z.ltb_spec l 0); lia.
Qed.

(** *** Filling and spoiling *)

Lemma fill_lookup a n m x : 0 <= n ->
  fill a n m !! x = if decide (a <= x < a + n) then Some (Z.land (x - a) 0xFF) else m !! x.
Proof.
  intros Hn. unfold fill. replace (a + n) with (a + Z.of_nat (Z.to_nat n)) by lia.
  replace (seqZ 0 n) with (seqZ 0 (Z.of_nat (Z.to_nat n))) by (f_equal; lia).
  induction (Z.to_nat n) as [|k IH]; [simpl; by rewrite decide_False by lia|].
  rewrite Nat2Z.inj_succ, <- Z.add_1_r, seqZ_app, foldl_app by lia. simpl.
  destruct (decide (x = a + Z.of_nat k)) as [->|Hne].
  - rewrite lookup_insert_eq, decide_True by lia. do 2 f_equal. lia.
  - rewrite lookup_insert_ne by lia. rewrite IH. destruct (decide (a <= x < a + Z.of_nat k)) as [Hd|Hd];
      [rewrite decide_True by lia|rewrite decide_False by lia]; done.
Qed.

Lemma spoil_outside a n m x : 0 <= n -> ~ a <= x < a + n -> spoil a n m !! x = m !! x.
Proof.
  intros Hn Hx. unfold spoil.
  assert (forall l (m' : gmap Z Z), (forall i, i ∈ l -> 0 <= i < n) ->
    foldl (fun m i => <[a + i := Z.land (Z.lnot (default 0 (m !! (a + i)))) 0xFF]> m) m' l !! x
    = m' !! x) as H.
  { induction l as [|i l IH]; intros m' Hl; [done|]. simpl. rewrite IH.
    - apply lookup_insert_ne. pose proof (Hl i (list_elem_of_here _ _)). lia.
    - intros j Hj. apply Hl. by right. }
  rewrite H by (intros i Hi; by apply elem_of_seqZ in Hi).
  rewrite fill_lookup by done. by rewrite decide_False.
Qed.

Section BounceFacts.
Context {cap W : Type} {CH : Cheri cap} {CL : CheriLaws cap} {CO : CapOps cap}
  {LC : Libc cap W} {KE : Kernel cap W} {VC : VmConsts} {TR : TrapOS cap W}
  {BO : BounceOS cap W} {BR : BounceRules cap W}.

Abbreviation p := (BUFLEN (cap := cap) (W := W)).
Abbreviation steps := (steps (cap := cap) b_view).
Abbreviation fails := (fails (cap := cap) b_view).
Abbreviation decides := (decides (cap := cap) b_view).

(** The block and its parts. *)
Abbreviation A := (cheri_address_get (b_buf (cap := cap) (W := W))).
Definition src_at : Z := A + p.
Definition dst_at : Z := A + 3 * p.
Definition guards : list (Z * Z) := [(A + 4 * p, p); (A + 2 * p, p); (A, p)].

(** A pointer into the block. *)
Definition part (c : cap) (d : Z) : Prop :=
  cheri_tag_get c = true /\ cheri_is_sealed c = false /\ cheri_address_get c = A + d /\
  cheri_base_get c = cheri_base_get (b_buf (cap := cap) (W := W)) /\
  cheri_length_get c = cheri_length_get (b_buf (cap := cap) (W := W)).

Lemma part_buf : part b_buf 0.
Proof.
  pose proof (b_reach (cap := cap) (W := W)) as [T S B E F].
  split_and!; try done. lia.
Qed.

Lemma part_add c d e : part c d -> 0 <= d + e < 5 * p -> part (ptr_add c e) (d + e).
Proof.
  intros (T & S & E & B & L) Hin.
  pose proof (b_reach (cap := cap) (W := W)) as [T0 S0 B0 E0 F0].
  pose proof (address_range (b_buf (cap := cap) (W := W))). unfold ptr_add.
  rewrite (wrapu_small 64 (cheri_address_get c + e)) by lia.
  assert (cheri_tag_get (cheri_address_set c (cheri_address_get c + e)) = true) as Ht.
  { apply address_set_tag; [done|done|rewrite B, L; lia|lia]. }
  destruct (address_set_bounds _ _ Ht) as [Hb Hl].
  split_and!; [done|by rewrite b_seal| |by rewrite Hb|by rewrite Hl].
  rewrite address_set_address, wrapu_small; lia.
Qed.

Lemma part_reach c d n : part c d -> 0 <= d -> d + n <= 5 * p -> reach c n.
Proof.
  intros (T & S & E & B & L) Hd Hn.
  pose proof (b_reach (cap := cap) (W := W)) as [T0 S0 B0 E0 F0].
  split; rewrite ?B, ?L, ?E; try done; lia.
Qed.

(** The two buffers are open between the guards. *)
Lemma part_allowed c d i m : part c d -> d = p \/ d = 3 * p -> 0 <= i < p ->
  allowed c i (BView m guards).
Proof.
  intros (T & S & E & B & L) Hd Hi.
  pose proof (b_reach (cap := cap) (W := W)) as [T0 S0 B0 E0 F0].
  split; [done|]. split; [done|]. split; [rewrite B, L, E; lia|].
  unfold b_open, guards. simpl. rewrite E, !andb_true_iff.
  split_and!; try done; apply negb_true_iff, andb_false_iff;
    rewrite Z.leb_gt, Z.ltb_ge; lia.
Qed.

Lemma steps_fold {B} (f : B -> test cap W unit) (F : gmap Z Z -> B -> gmap Z Z) cl l m :
  (forall i m, i ∈ l -> steps (f i) (BView m cl) (fun _ v' => v' = BView (F m i) cl)) ->
  steps (foreach l f) (BView m cl) (fun _ v' => v' = BView (foldl F m l) cl).
Proof.
  revert m. induction l as [|i l IH]; intros m Hf; [by apply steps_ret|].
  eapply steps_bind; [apply Hf; left|]. intros _ ? ->. apply IH. intros j m' Hj.
  apply Hf. by right.
Qed.

Lemma steps_put c d i x m : part c d -> d = p \/ d = 3 * p -> 0 <= i < p ->
  steps (access (mem_store_byte c i x)) (BView m guards)
    (fun _ v' => v' = BView (<[A + d + i := x]> m) guards).
Proof.
  intros Hc Hd Hi. apply steps_access. intros w Hw.
  destruct (b_store c i x w) as (w' & Hr & Hv); [rewrite Hw; by apply (part_allowed c d)|].
  exists tt, w'. split; [done|]. rewrite Hv, Hw. simpl.
  destruct Hc as (_ & _ & -> & _). done.
Qed.

Lemma steps_take c d i m : part c d -> d = p \/ d = 3 * p -> 0 <= i < p ->
  steps (access (mem_load_byte c i)) (BView m guards)
    (fun x v' => x = default 0 (m !! (A + d + i)) /\ v' = BView m guards).
Proof.
  intros Hc Hd Hi. apply steps_access. intros w Hw.
  destruct (b_load c i w) as (w' & Hr & Hv); [rewrite Hw; by apply (part_allowed c d)|].
  eexists _, w'. split; [exact Hr|]. rewrite Hv, Hw. simpl.
  destruct Hc as (_ & _ & -> & _). done.
Qed.

Lemma steps_fillbuf c d m : part c d -> d = p \/ d = 3 * p ->
  steps (fillbuf c p) (BView m guards) (fun _ v' => v' = BView (fill (A + d) p m) guards).
Proof.
  intros Hc Hd. unfold fillbuf.
  apply (steps_fold _ (fun m i => <[A + d + i := Z.land i 0xFF]> m)).
  intros i m' Hi. apply elem_of_seqZ in Hi. by apply steps_put; [| |lia].
Qed.

Lemma steps_spoilbuf c d m : part c d -> d = p \/ d = 3 * p ->
  steps (spoilbuf c p) (BView m guards) (fun _ v' => v' = BView (spoil (A + d) p m) guards).
Proof.
  intros Hc Hd. eapply steps_bind; [by apply steps_fillbuf|]. intros _ ? ->.
  apply (steps_fold _
    (fun m i => <[A + d + i := Z.land (Z.lnot (default 0 (m !! (A + d + i)))) 0xFF]> m)).
  intros i m' Hi. apply elem_of_seqZ in Hi.
  eapply steps_bind; [by apply (steps_take c d); [| |lia]|]. intros x ? [-> ->].
  by apply steps_put; [| |lia].
Qed.

Lemma decides_checkbuf c off len where_ m : part c p -> 0 <= off -> off + len <= p ->
  decides (checkbuf c off len where_) (BView m guards) (intact src_at off len m)
    (fun _ v' => v' = BView m guards).
Proof.
  intros Hc Hoff Hlen. unfold checkbuf, intact. apply decides_foreach.
  intros i Hi. apply elem_of_seqZ in Hi.
  eapply decides_steps; [apply (steps_take c p); [done|by left|lia]|].
  intros x ? [-> ->]. fold src_at.
  destruct (default 0 (m !! (src_at + i)) =? Z.land i 0xFF) eqn:E; simpl; [by apply steps_ret|].
  eapply steps_fails; [apply (steps_take c p); [done|by left|lia]|].
  intros x ? [-> ->]. apply fails_errx.
Qed.

(** [m] is the run of [o] on the memory. *)
Definition runs_as (m : test cap W unit) (mem : gmap Z Z) (o : option (gmap Z Z)) : Prop :=
  match o with
  | Some mem' => steps m (BView mem guards) (fun _ v' => v' = BView mem' guards)
  | None => fails m (BView mem guards)
  end.

Lemma runs_bind m k mem o (f : gmap Z Z -> option (gmap Z Z)) :
  runs_as m mem o -> (forall mem', runs_as k mem' (f mem')) -> runs_as (m ;; k) mem (o ≫= f).
Proof.
  intros Hm Hk. destruct o as [mem'|]; simpl; [|by apply fails_bind]. specialize (Hk mem').
  unfold runs_as in *. destruct (f mem').
  - eapply steps_bind; [exact Hm|]. by intros _ ? ->.
  - eapply steps_fails; [exact Hm|]. by intros _ ? ->.
Qed.

(** One call. *)
Definition call_at (s d len : Z) (mem : gmap Z Z) : option (gmap Z Z) :=
  let r := b_kbounce (cap := cap) (W := W) s d len mem in
  match r.1 with None => Some r.2 | Some _ => None end.

Lemma runs_bounce s d es ed len msg mem : part s es -> part d ed ->
  runs_as (bounce s d len msg) mem (call_at (A + es) (A + ed) len mem).
Proof.
  intros (Ts & _ & Es & _) (Td & _ & Ed & _). unfold runs_as, call_at, bounce.
  rewrite <- Es, <- Ed.
  set (r := b_kbounce (cheri_address_get s) (cheri_address_get d) len mem).
  assert (forall w, b_view w = BView mem guards -> exists w',
    sys_kbounce s d len 0 w = (match r.1 with None => inl 0 | Some e => inr e end, w') /\
    b_view w' = BView r.2 guards) as Hcall.
  { intros w Hw. destruct (b_call s d len w Ts Td) as (w' & H). rewrite Hw in H. by exists w'. }
  destruct r.1 as [e|].
  - apply (steps_fails _ _ _ (fun x _ => x = None)).
    { intros st [Hs Hv]. destruct (Hcall _ Hv) as (w' & Hr & Hw').
      apply (try_sys_run _ st) in Hr. eexists None, _, _. split; [exact Hr|]. by split. }
    intros x v' ->. simpl. apply fails_err.
  - eapply steps_bind.
    { apply (steps_try _ _ (fun x v' => x = 0 /\ v' = BView r.2 guards)). intros w Hw.
      destruct (Hcall _ Hw) as (w' & ? & ?). by exists 0, w'. }
    intros x v' (? & -> & -> & ->). by apply steps_ret.
Qed.

Abbreviation kb := (b_kbounce (cap := cap) (W := W)).

Lemma runs_check c off len where_ mem : part c p -> 0 <= off -> off + len <= p ->
  runs_as (checkbuf c off len where_) mem (if intact src_at off len mem then Some mem else None).
Proof.
  intros Hc Ho Hl. pose proof (decides_checkbuf c off len where_ mem Hc Ho Hl) as H.
  unfold runs_as. by destruct (intact src_at off len mem).
Qed.

Lemma runs_step s d off l mem : part s p -> part d (3 * p) ->
  0 <= off < p -> off + kbounce_len p off l <= p ->
  runs_as (bounce_step s d off l) mem (bounce_at p src_at dst_at kb off (kbounce_len p off l) mem).
Proof.
  intros Hs Hd Ho Hl.
  assert (runs_as (spoilbuf d p) mem (Some (spoil dst_at p mem))) as Hsp.
  { apply steps_spoilbuf; auto. }
  pose proof (part_add _ _ off Hs) as Hs'. pose proof (part_add _ _ off Hd) as Hd'.
  unfold bounce_step. pose proof (b_page (cap := cap) (W := W)).
  replace (bounce_at p src_at dst_at kb off (kbounce_len p off l) mem) with
    (Some (spoil dst_at p mem) ≫= (fun mem =>
     call_at (A + (p + off)) (A + (3 * p + off)) (kbounce_len p off l) mem ≫= fun mem =>
     if intact src_at off (kbounce_len p off l) mem then Some mem else None)).
  2: { unfold bounce_at, call_at, src_at, dst_at. simpl.
       replace (A + (p + off)) with (A + p + off) by lia.
       replace (A + (3 * p + off)) with (A + 3 * p + off) by lia.
       by destruct (kb _ _ _ _) as [[e|] mem']. }
  apply runs_bind; [exact Hsp|]. intros mem1.
  apply runs_bind; [apply runs_bounce; [apply Hs'|apply Hd']; lia|]. intros mem2.
  apply runs_check; [done|lia|lia].
Qed.

Lemma runs_ret mem : runs_as (mret tt) mem (Some mem).
Proof. by apply steps_ret. Qed.

Lemma runs_lengths s d off ls mem : part s p -> part d (3 * p) -> 0 <= off < p ->
  (forall l, l ∈ ls -> off + kbounce_len p off l <= p) ->
  runs_as (foreach ls (fun l => bounce_step s d off l)) mem
    (bounces p src_at dst_at kb (map (fun l => (off, kbounce_len p off l)) ls) mem).
Proof.
  intros Hs Hd Ho. revert mem. induction ls as [|l ls IH]; intros mem Hl; [apply runs_ret|].
  apply runs_bind; [apply runs_step; try done; apply Hl; left|].
  intros mem'. apply IH. intros l' Hl'. apply Hl. by right.
Qed.

Lemma runs_offsets s d ls mem : part s p -> part d (3 * p) ->
  (forall off, off ∈ ls -> 0 <= off < p /\
     forall l, l ∈ kbounce_lengths p -> off + kbounce_len p off l <= p) ->
  runs_as (foreach ls (fun off => foreach (kbounce_lengths p) (fun l => bounce_step s d off l)))
    mem (bounces p src_at dst_at kb
           (flat_map (fun off => map (fun l => (off, kbounce_len p off l)) (kbounce_lengths p)) ls)
           mem).
Proof.
  intros Hs Hd. revert mem. induction ls as [|off ls IH]; intros mem Hl; [apply runs_ret|].
  cbn [flat_map foreach]. rewrite bounces_app.
  destruct (Hl off) as [Ho Hlen]; [left|].
  apply runs_bind; [by apply runs_lengths|].
  intros mem'. apply IH. intros o Ho'. apply Hl. by right.
Qed.

(** What the test computes on the memory: it fills the source, makes a call for
    the whole buffers, and then all the others. *)
Definition kbounce_run (mem : gmap Z Z) : option (gmap Z Z) :=
  call_at src_at dst_at p (spoil dst_at p (fill src_at p mem)) ≫= fun mem =>
  (if intact src_at 0 p mem then Some mem else None) ≫=
  bounces p src_at dst_at kb (bounce_calls p (sizeof_cap (cap := cap) (W := W))).

Lemma intact_fill mem : intact src_at 0 p (fill src_at p mem) = true.
Proof.
  pose proof (b_page (cap := cap) (W := W)). apply forallb_forall. intros i Hi.
  apply list_elem_of_In, elem_of_seqZ in Hi. rewrite fill_lookup by lia.
  rewrite decide_True by lia. simpl. apply Z.eqb_eq. f_equal. lia.
Qed.

Lemma steps_or_fail {B} (f : W -> (B + Z) * W) msg ap v (Q : B -> bview -> Prop) :
  (forall w, b_view w = v -> exists a w', f w = (inl a, w') /\ Q a (b_view w')) ->
  steps (or_fail f msg ap) v Q.
Proof.
  intros Hf. eapply steps_bind; [by apply steps_try|].
  intros r v' (a & -> & HQ). by apply steps_ret.
Qed.

Lemma steps_guard c d msg v : part c d -> 0 <= d -> d + p <= 5 * p ->
  steps (or_fail (sys_mprotect c GUARDLEN PROT_NONE) msg []) v
    (fun _ v' => v' = BView (b_bytes v) ((A + d, p) :: b_closed v)).
Proof.
  intros Hc Hd Hp. apply steps_or_fail. intros w Hw.
  destruct (b_mprotect c p w) as (r & w' & ? & Hv); [by apply (part_reach c d)|].
  exists r, w'. split; [done|]. rewrite Hv, Hw. destruct Hc as (_ & _ & -> & _). done.
Qed.

Lemma runs_after_fill s d mem : part s p -> part d (3 * p) ->
  runs_as (checkbuf s 0 p "src" ;;
     spoilbuf d p ;;
     bounce s d p "kbounce(%p, %p, %d, 0)" ;;
     checkbuf s 0 p "full buffer" ;;
     foreach (seqZ 0 (sizeof_cap (cap := cap) (W := W))) (fun off =>
       foreach (kbounce_lengths p) (fun l => bounce_step s d off l)))
    (fill src_at p mem) (kbounce_run mem).
Proof.
  intros Hs Hd. pose proof (b_page (cap := cap) (W := W)).
  pose proof (b_sizeof (cap := cap) (W := W)) as Hsz.
  change (kbounce_run mem) with (Some (fill src_at p mem) ≫= fun mem1 =>
    Some (spoil dst_at p mem1) ≫= fun mem2 => call_at src_at dst_at p mem2 ≫= fun mem =>
    (if intact src_at 0 p mem then Some mem else None) ≫=
    bounces p src_at dst_at kb (bounce_calls p (sizeof_cap (cap := cap) (W := W)))).
  apply runs_bind.
  { pose proof (runs_check s 0 p "src" (fill src_at p mem) Hs) as Hc.
    rewrite intact_fill in Hc. apply Hc; lia. }
  intros m1. apply runs_bind; [by apply steps_spoilbuf; auto|].
  intros m2. apply runs_bind; [by apply runs_bounce|].
  intros m3. apply runs_bind; [apply runs_check; [done|lia|lia]|].
  intros m4. apply runs_offsets; [done|done|]. intros off Hoff. apply elem_of_seqZ in Hoff.
  split; [lia|]. intros l Hl.
  destruct (bounce_calls_inside p (sizeof_cap (cap := cap) (W := W)) off (kbounce_len p off l));
    [lia|lia| |lia].
  unfold bounce_calls. apply list_elem_of_In, in_flat_map. exists off. split.
  - apply list_elem_of_In, elem_of_seqZ. lia.
  - apply in_map_iff. exists l. split; [done|]. by apply list_elem_of_In.
Qed.

Lemma seq5_assoc {B} (m1 m2 m3 m4 m5 : test cap W unit) (k : test cap W B) s :
  ((m1 ;; m2 ;; m3 ;; m4 ;; m5) ;; k) s = (m1 ;; m2 ;; m3 ;; m4 ;; m5 ;; k) s.
Proof.
  unfold mbind, eff_bind. destruct (m1 s) as [[] s1]; try done.
  destruct (m2 s1) as [[] s2]; try done. destruct (m3 s2) as [[] s3]; try done.
  by destruct (m4 s3) as [[] s4].
Qed.

Lemma kbounce_judged v : b_closed v = [] ->
  judged (cap := cap) b_view (ct_func sys_kbounce_test) v (is_Some (kbounce_run (b_bytes v))).
Proof.
  intros Hcl. pose proof (b_page (cap := cap) (W := W)). pose proof part_buf as Hb.
  eapply judged_bind.
  { apply (steps_or_fail _ _ _ _ (fun c v' => c = b_buf /\ v' = v)). intros w Hw.
    destruct (b_mmap (p * 2 + p * 3) w) as (w' & ? & ?); [lia|]. exists b_buf, w'.
    split; [done|]. split; congruence. }
  intros buf ? [-> ->]. set (buf := b_buf) in *.
  assert (part (ptr_add buf (p + p)) (0 + (p + p))) as H2 by (apply part_add; [done|lia]).
  assert (part (ptr_add buf (2 * (p + p))) (0 + 2 * (p + p))) as H4 by (apply part_add; [done|lia]).
  assert (part (ptr_add buf p) (0 + p)) as H1 by (apply part_add; [done|lia]).
  assert (part (ptr_add (ptr_add buf p) (p + p)) (0 + p + (p + p))) as H3
    by (apply part_add; [done|lia]).
  eapply judged_bind; [apply (steps_guard buf 0); [done|lia|lia]|]. intros ? ? ->.
  eapply judged_bind; [apply (steps_guard _ _ _ _ H2); lia|]. intros ? ? ->.
  eapply judged_bind; [apply (steps_guard _ _ _ _ H4); lia|]. intros ? ? ->.
  cbn [b_bytes b_closed]. rewrite Hcl.
  replace [(A + (0 + 2 * (p + p)), p); (A + (0 + (p + p)), p); (A + 0, p)] with guards
    by (unfold guards; repeat f_equal; lia).
  replace (0 + p) with p in H1 by lia. replace (0 + p + (p + p)) with (3 * p) in H3 by lia.
  eapply judged_bind; [by apply (steps_fillbuf _ p); auto|]. intros ? ? ->. fold src_at.
  pose proof (runs_after_fill _ _ (b_bytes v) H1 H3) as Hrun. revert Hrun.
  set (body := foreach (seqZ 0 _) _). intros Hrun s Hs.
  assert (forall Q, judged (cap := cap) b_view ((checkbuf (ptr_add buf p) 0 p "src" ;;
     spoilbuf (ptr_add (ptr_add buf p) (p + p)) p ;;
     bounce (ptr_add buf p) (ptr_add (ptr_add buf p) (p + p)) p "kbounce(%p, %p, %d, 0)" ;;
     checkbuf (ptr_add buf p) 0 p "full buffer" ;; body) ;; cheriostest_success (A := unit))
     (BView (fill src_at p (b_bytes v)) guards) Q ->
     (succeeds (checkbuf (ptr_add buf p) 0 p "src" ;;
     spoilbuf (ptr_add (ptr_add buf p) (p + p)) p ;;
     bounce (ptr_add buf p) (ptr_add (ptr_add buf p) (p + p)) p "kbounce(%p, %p, %d, 0)" ;;
     checkbuf (ptr_add buf p) 0 p "full buffer" ;; body ;; cheriostest_success (A := unit)) s
     <-> Q)) as Hassoc.
  { intros Q HQ. rewrite <- (HQ s Hs). unfold succeeds. by rewrite seq5_assoc. }
  apply Hassoc. clear Hassoc. unfold runs_as in Hrun.
  destruct (kbounce_run (b_bytes v)) as [mem'|].
  - eapply judged_bind; [exact Hrun|]. intros _ ? ->. by apply judged_success.
  - apply fails_judged; [by apply fails_bind|]. by intros [? ?].
Qed.

(** A kbounce that succeeds and leaves the source alone. *)
Definition source_kept : Prop :=
  forall s d n mem, let r := kb s d n mem in
    r.1 = None /\ forall a, src_at <= a < src_at + p -> r.2 !! a = mem !! a.

Definition patterned (mem : gmap Z Z) : Prop :=
  forall i, 0 <= i < p -> mem !! (src_at + i) = Some (Z.land i 0xFF).

Lemma patterned_intact off len mem : patterned mem -> 0 <= off -> off + len <= p ->
  intact src_at off len mem = true.
Proof.
  intros Hm Ho Hl. apply forallb_forall. intros i Hi.
  apply list_elem_of_In, elem_of_seqZ in Hi. rewrite Hm by lia. apply Z.eqb_refl.
Qed.

Lemma patterned_spoil mem : patterned mem -> patterned (spoil dst_at p mem).
Proof.
  intros Hm i Hi. pose proof (b_page (cap := cap) (W := W)).
  rewrite spoil_outside by (unfold src_at, dst_at; lia). by apply Hm.
Qed.

Lemma patterned_call s d n mem : source_kept -> patterned mem -> patterned (kb s d n mem).2.
Proof.
  intros Hk Hm i Hi. destruct (Hk s d n mem) as [_ Hk']. rewrite Hk' by lia. by apply Hm.
Qed.

Lemma kbounce_kept mem : source_kept -> is_Some (kbounce_run mem).
Proof.
  intros Hk. pose proof (b_page (cap := cap) (W := W)).
  pose proof (b_sizeof (cap := cap) (W := W)) as Hsz. unfold kbounce_run, call_at.
  assert (patterned (fill src_at p mem)) as Hf.
  { intros i Hi. rewrite fill_lookup by lia. rewrite decide_True by lia. do 2 f_equal. lia. }
  apply patterned_spoil in Hf. set (m1 := spoil _ _ _) in *.
  rewrite (proj1 (Hk src_at dst_at p m1)). cbn [mbind option_bind].
  apply (patterned_call src_at dst_at p m1 Hk) in Hf. set (m2 := (kb _ _ _ m1).2) in *.
  rewrite patterned_intact by (done || lia). cbn [mbind option_bind].
  pose proof (fun off len => bounce_calls_inside p (sizeof_cap (cap := cap) (W := W)) off len) as Hin.
  revert Hin. generalize (bounce_calls p (sizeof_cap (cap := cap) (W := W))).
  intros calls Hin. clearbody m2. clear m1. revert m2 Hf.
  induction calls as [|[off len] calls IH]; intros m Hm; [by eexists|]. simpl.
  unfold bounce_at. rewrite (proj1 (Hk _ _ _ _)).
  destruct (Hin off len) as (? & ? & ?); [lia|lia|left|].
  assert (patterned (kb (src_at + off) (dst_at + off) len (spoil dst_at p m)).2) as Hm'
    by (by apply patterned_call; [|apply patterned_spoil]).
  rewrite patterned_intact by (done || lia). simpl. apply IH; [|done].
  intros o l ? ? Hol. apply Hin; [done|done|by right].
Qed.

(** C15: on a kernel whose kbounce is any function on the memory, the test passes
    exactly when the run on the memory goes through, that is, when each of its
    calls succeeds and leaves in the source the bytes that are looked at; each
    call stays inside the two buffers; and as only the source is looked at, any
    kbounce that succeeds and leaves the source alone passes, also one that
    copies nothing. *)
Theorem kbounce_verdict (v : bview) :
  b_closed v = [] ->
  judged (cap := cap) b_view (ct_func sys_kbounce_test) v (is_Some (kbounce_run (b_bytes v))) /\
  (forall off len, (off, len) ∈ bounce_calls p (sizeof_cap (cap := cap) (W := W)) ->
   0 <= off /\ 0 < len /\ off + len <= p) /\
  (source_kept -> is_Some (kbounce_run (b_bytes v))).
Proof.
  intros Hcl. split; [by apply kbounce_judged|]. split; [|apply kbounce_kept].
  intros off len. apply bounce_calls_inside; [apply b_page|].
  pose proof (b_sizeof (cap := cap) (W := W)). lia.
Qed.
End BounceFacts.

(** *** A kernel that copies nothing *)

Definition lazy_buf : scap := toy_cap 0x10000 (5 * 4096) 0 (2 ^ 20 - 1).

Definition lazy_allowed (c : scap) (off : Z) (v : bview) : bool :=
  cheri_tag_get c && negb (cheri_is_sealed c) &&
  (cheri_base_get c <=? cheri_address_get c + off) &&
  (cheri_address_get c + off <? cheri_base_get c + cheri_length_get c) &&
  b_open v (cheri_address_get c + off).

Definition lazy_fault : siginfo scap := Siginfo 11 0 0 cap_null.

#[export] Instance lazy_kernel : Kernel scap bview := {|
  getpagesize := 4096;
  sys_mmap _ _ _ _ _ _ w := (inl lazy_buf, w);
  sys_munmap _ _ w := (inl 0, w);
  sys_mprotect c n _ w :=
    (inl 0, BView (b_bytes w) ((cheri_address_get c, n) :: b_closed w));
  sys_minherit _ _ _ w := (inl 0, w);
  sys_shmget _ _ _ w := (inr 78, w);
  sys_shmat _ _ _ w := (inr 78, w);
  sys_shmdt _ w := (inr 78, w);
  sys_shm_open _ _ _ w := (inr 78, w);
  sys_shm_unlink _ w := (inl 0, w);
  sys_memfd_create _ _ w := (inr 78, w);
  sys_open _ _ w := (inr 78, w);
  sys_mkstemp t w := (inr 78, w);
  sys_unlink _ w := (inl 0, w);
  sys_ftruncate _ _ w := (inl 0, w);
  sys_close _ w := (inl 0, w);
  os_random w := (7, w);
  mem_load_cap c off w := (inr lazy_fault, w);
  mem_store_cap c off _ w := (inr lazy_fault, w);
  mem_store_byte c off x w :=
    if lazy_allowed c off w
    then (inl tt, BView (<[cheri_address_get c + off := x]> (b_bytes w)) (b_closed w))
    else (inr lazy_fault, w);
  stack_local n := toy_object 0x7000 n;
|}.

#[export] Instance lazy_traps : TrapOS scap bview := {|
  mem_load_byte c off w :=
    (if lazy_allowed c off w
     then inl (default 0 (b_bytes w !! (cheri_address_get c + off))) else inr lazy_fault, w);
  ddc_load_byte _ w := (inr lazy_fault, w);
  ddc_store_byte _ _ w := (inr lazy_fault, w);
  branch_to _ w := (inr lazy_fault, w);
  static_array := toy_object 0x30000 2;
  cheri_cap_from_pointer := cheri_address_set;
  PROT_CHERI_PERM := 4;
  header_SEGV_CAPPERMERR := Some 13;
  SEGV_MAPERR := 1;
  TRAPNO_LOAD_PF := 14;
  TRAPNO_EXEC_PF := 14;
  VM_MIN_KERNEL_ADDRESS := 2 ^ 63;
|}.

#[export] Instance lazy_bounce : BounceOS scap bview := {|
  sys_kbounce _ _ _ _ w := (inl 0, w); sizeof_cap := 16;
|}.

Lemma lazy_allowed_iff c off v : allowed c off v <-> lazy_allowed c off v = true.
Proof.
  unfold allowed, lazy_allowed. rewrite !andb_true_iff, negb_true_iff, Z.leb_le, Z.ltb_lt. tauto.
Qed.

#[export] Instance lazy_rules : BounceRules scap bview.
Proof.
  refine {| b_view := fun w => w; b_buf := lazy_buf; b_kbounce := fun _ _ _ m => (None, m) |};
    try done.
  - intros len w _. by eexists.
  - intros c n w _. by eexists _, _.
  - intros c off x w Ha. apply lazy_allowed_iff in Ha. simpl. rewrite Ha. by eexists.
  - intros c off w Ha. apply lazy_allowed_iff in Ha. simpl. rewrite Ha. by eexists.
  - intros s d n w _ _. eexists. split; [reflexivity|]. by destruct w.
Defined.

Lemma kbounce_verdict_witness :
  b_closed (BView ∅ []) = [] /\
  judged (cap := scap) (fun w => w) (ct_func (sys_kbounce_test (cap := scap) (W := bview)))
    (BView ∅ []) (is_Some (kbounce_run (cap := scap) (W := bview) ∅)) /\
  is_Some (kbounce_run (cap := scap) (W := bview) ∅).
Proof.
  destruct (kbounce_verdict (BR := lazy_rules) (BView ∅ [])) as (Hj & _ & Hk); [reflexivity|].
  split; [reflexivity|]. split; [exact Hj|]. apply Hk. intros s d n mem. split; [reflexivity|].
  intros a _. reflexivity.
Defined.

(** ** zlib *)

Record zresult := ZResult {
  z_ret : Z;
  z_total_in : Z;
  z_total_out : Z;
  z_out : Z -> Z;                          (* the bytes of the output buffer *)
}.

(** zlib.h, and malloc(3). *)
Class ZlibOS (cap W : Type) := {
  z_malloc : Z -> W -> option cap * W;
  z_free : cap -> W -> W;
  deflateInit : Z -> W -> Z * W;
  deflate : list Z -> Z -> Z -> W -> zresult * W;    (* next_in, avail_out, flush *)
  deflateEnd : W -> Z * W;
  inflateInit : W -> Z * W;
  inflate : list Z -> Z -> Z -> W -> zresult * W;
  inflateEnd : W -> Z * W;
  Z_OK : Z;
  Z_STREAM_END : Z;
  Z_FINISH : Z;
  Z_DEFAULT_COMPRESSION : Z;
}.

Definition INFLATE_BUFSIZE : Z := 10 * 1024.
Definition uncompressed_zeroes_len : Z := INFLATE_BUFSIZE.
Definition uncompressed_zeroes : list Z := replicate (Z.to_nat uncompressed_zeroes_len) 0.

Definition compressed_zeroes : list Z :=
  [0x78; 0x9c; 0xed; 0xc1; 0x01; 0x0d; 0x00; 0x00;
   0x00; 0xc2; 0xa0; 0xf7; 0x4f; 0x6d; 0x0e; 0x37;
   0xa0; 0x00; 0x00; 0x00; 0x00; 0x00; 0x00; 0x00;
   0x00; 0x00; 0x80; 0x37; 0x03; 0x28; 0x00; 0x00;
   0x01].
Definition compressed_zeroes_len : Z := Z.of_nat (length compressed_zeroes).

Definition at_index (l : list Z) (i : Z) : Z := default 0 (l !! Z.to_nat i).

Section Zlib.
Context {cap W : Type} {CH : Cheri cap} {LC : Libc cap W} {ZL : ZlibOS cap W}.

Abbreviation OK := (Z_OK (cap := cap) (W := W)).
Abbreviation STREAM_END := (Z_STREAM_END (cap := cap) (W := W)).
Abbreviation FINISH := (Z_FINISH (cap := cap) (W := W)).

Definition check_compressed_data (data : Z -> Z) (datalen : Z) : test cap W unit :=
  fail_if (negb (datalen =? compressed_zeroes_len))
    "compressed data length wrong (expected %zu, got %zu)"
    [AInt compressed_zeroes_len; AInt datalen] ;;
  foreach (seqZ 0 compressed_zeroes_len) (fun i =>
    fail_if (negb (data i =? at_index compressed_zeroes i))
      "compressed data wrong at byte %zu" [AInt i]).

Definition check_uncompressed_data (data : Z -> Z) (datalen : Z) : test cap W unit :=
  fail_if (negb (datalen =? uncompressed_zeroes_len))
    "uncompressed data length wrong (expected %zu, got %zu)"
    [AInt uncompressed_zeroes_len; AInt datalen] ;;
  foreach (seqZ 0 uncompressed_zeroes_len) (fun i =>
    fail_if (negb (data i =? at_index uncompressed_zeroes i))
      "uncompressed data wrong at byte %zu" [AInt i]).

Definition malloc_or_fail (n : Z) (msg : string) : test cap W cap :=
  r ← libcall (z_malloc n);
  match r with Some c => mret c | None => cheriostest_failure_err msg [] end.

(** [if ((ret = call) != ok) cheriostest_failure_errx(msg, ret)] *)
Definition must_return (call : W -> Z * W) (ok : Z) (msg : string) : test cap W unit :=
  ret ← libcall call; fail_if (negb (ret =? ok)) msg [AInt ret].

Definition deflate_zeroes : cheri_test cap W :=
  CHERIOSTEST "deflate_zeroes" "Deflate a buffer of zeroes"
    (let compsize := uncompressed_zeroes_len * 2 in
     compbuf ← malloc_or_fail compsize "malloc compbuf";
     must_return (deflateInit (cap := cap) (Z_DEFAULT_COMPRESSION (cap := cap) (W := W))) OK
       "deflateInit returned %d" ;;
     zs ← libcall (deflate (cap := cap) uncompressed_zeroes compsize FINISH);
     fail_if (negb (z_ret zs =? STREAM_END)) "deflate returned %d" [AInt (z_ret zs)] ;;
     must_return (deflateEnd (cap := cap)) OK "deflateEnd returned %d" ;;
     check_compressed_data (z_out zs) (z_total_out zs) ;;
     libcall (fun w => (tt, z_free compbuf w)) ;;
     cheriostest_success).

Definition inflate_zeroes : cheri_test cap W :=
  CHERIOSTEST "inflate_zeroes" "Inflate a compressed buffer of zeroes"
    (outbuf ← malloc_or_fail uncompressed_zeroes_len "malloc outbuf";
     must_return (inflateInit (cap := cap)) OK "inflateInit returned %d" ;;
     zs ← libcall (inflate (cap := cap) compressed_zeroes uncompressed_zeroes_len FINISH);
     fail_if (negb (z_ret zs =? STREAM_END)) "inflate returned %d" [AInt (z_ret zs)] ;;
     must_return (inflateEnd (cap := cap)) OK "inflateEnd returned %d" ;;
     fail_if (negb (z_total_in zs =? compressed_zeroes_len))
       "expected to consume %zu bytes, got %zu" [AInt compressed_zeroes_len; AInt (z_total_in zs)] ;;
     check_uncompressed_data (z_out zs) (z_total_out zs) ;;
     libcall (fun w => (tt, z_free outbuf w)) ;;
     cheriostest_success).
End Zlib.

(** *** A decoder of the format

    RFC 1950 (header, checksum) and RFC 1951 (blocks with Huffman codes; stored
    blocks are not needed here), as the reference for what zlib promises. *)
Module Rfc.

Definition reader (A : Type) : Type := list bool -> option (A * list bool).

#[local] Instance reader_ret : MRet reader := fun A a bs => Some (a, bs).
#[local] Instance reader_bind : MBind reader := fun A B f m bs =>
  match m bs with Some (a, bs') => f a bs' | None => None end.

Definition stuck {A} : reader A := fun _ => None.
Definition bit : reader bool := fun bs => match bs with b :: bs' => Some (b, bs') | [] => None end.

(** [n] bits, the least significant one first. *)
Fixpoint bits (n : nat) : reader Z :=
  match n with
  | O => mret 0
  | S n' => b ← bit; x ← bits n'; mret (Z.b2z b + 2 * x)
  end.

(** The symbols of a canonical code, by the length of their code from 1 on. *)
Definition code (lens : list Z) : list (list Z) :=
  map (fun n => map fst (List.filter (fun p => p.2 =? n)
                           (zip (seqZ 0 (Z.of_nat (length lens))) lens)))
    (seqZ 1 15).

(** One symbol: [c] is the code read so far, [first] the first code of its length. *)
Fixpoint symbol (h : list (list Z)) (c first : Z) : reader Z :=
  match h with
  | [] => stuck
  | syms :: h' =>
      b ← bit;
      let c := c + Z.b2z b in
      match syms !! Z.to_nat (c - first) with
      | Some s => if first <=? c then mret s else stuck
      | None => symbol h' (2 * c) (2 * (first + Z.of_nat (length syms)))
      end
  end.

Definition len_base : list Z :=
  [3; 4; 5; 6; 7; 8; 9; 10; 11; 13; 15; 17; 19; 23; 27; 31; 35; 43; 51; 59; 67; 83; 99;
   115; 131; 163; 195; 227; 258].
Definition len_extra : list Z :=
  [0; 0; 0; 0; 0; 0; 0; 0; 1; 1; 1; 1; 2; 2; 2; 2; 3; 3; 3; 3; 4; 4; 4; 4; 5; 5; 5; 5; 0].
Definition dist_base : list Z :=
  [1; 2; 3; 4; 5; 7; 9; 13; 17; 25; 33; 49; 65; 97; 129; 193; 257; 385; 513; 769; 1025; 1537;
   2049; 3073; 4097; 6145; 8193; 12289; 16385; 24577].
Definition dist_extra : list Z :=
  [0; 0; 0; 0; 1; 1; 2; 2; 3; 3; 4; 4; 5; 5; 6; 6; 7; 7; 8; 8; 9; 9; 10; 10; 11; 11; 12; 12;
   13; 13].

Definition with_extra (base extra : list Z) (i : Z) : reader Z :=
  match base !! Z.to_nat i, extra !! Z.to_nat i with
  | Some b, Some e => x ← bits (Z.to_nat e); mret (b + x)
  | _, _ => stuck
  end.

(** [n] bytes from [dist] back; the output is kept in reverse. *)
Fixpoint copy (n : nat) (dist : nat) (out : list Z) : option (list Z) :=
  match n with
  | O => Some out
  | S n' => match out !! (dist - 1)%nat with
            | Some x => copy n' dist (x :: out)
            | None => None
            end
  end.

(** The data of a block. *)
Fixpoint block (fuel : nat) (lit dist : list (list Z)) (out : list Z) : reader (list Z) :=
  match fuel with
  | O => stuck
  | S fuel' =>
      s ← symbol lit 0 0;
      if s <? 256 then block fuel' lit dist (s :: out)
      else if s =? 256 then mret out
      else
        n ← with_extra len_base len_extra (s - 257);
        d ← symbol dist 0 0;
        d ← with_extra dist_base dist_extra d;
        match copy (Z.to_nat n) (Z.to_nat d) out with
        | Some out => block fuel' lit dist out
        | None => stuck
        end
  end.

Definition length_order : list Z :=
  [16; 17; 18; 0; 8; 7; 9; 6; 10; 5; 11; 4; 12; 3; 13; 2; 14; 1; 15].

Fixpoint many (n : nat) (m : reader Z) : reader (list Z) :=
  match n with O => mret [] | S n' => x ← m; l ← many n' m; mret (x :: l) end.

(** The lengths of the codes, with their repetitions, up to [n] of them. *)
Fixpoint lengths (fuel : nat) (h : list (list Z)) (n : nat) (acc : list Z) : reader (list Z) :=
  match fuel with
  | O => stuck
  | S fuel' =>
      if (length acc =? n)%nat then mret acc
      else
        s ← symbol h 0 0;
        if s <? 16 then lengths fuel' h n (acc ++ [s])
        else if s =? 16 then
          k ← bits 2;
          match last acc with
          | Some x => lengths fuel' h n (acc ++ replicate (Z.to_nat (3 + k)) x)
          | None => stuck
          end
        else if s =? 17 then
          k ← bits 3; lengths fuel' h n (acc ++ replicate (Z.to_nat (3 + k)) 0)
        else k ← bits 7; lengths fuel' h n (acc ++ replicate (Z.to_nat (11 + k)) 0)
  end.

Definition dynamic : reader (list (list Z) * list (list Z)) :=
  hlit ← bits 5; hdist ← bits 5; hclen ← bits 4;
  cl ← many (Z.to_nat (hclen + 4)) (bits 3);
  let lens := map (fun i =>
    default 0 (snd <$> find (fun p => p.1 =? i) (zip length_order cl))) (seqZ 0 19) in
  let nlit := Z.to_nat (hlit + 257) in
  all ← lengths 400 (code lens) (nlit + Z.to_nat (hdist + 1)) [];
  mret (code (take nlit all), code (drop nlit all)).

Definition fixed : list (list Z) * list (list Z) :=
  (code (replicate 144 8 ++ replicate 112 9 ++ replicate 24 7 ++ replicate 8 8),
   code (replicate 30 5)).

Fixpoint blocks (fuel : nat) (out : list Z) : reader (list Z) :=
  match fuel with
  | O => stuck
  | S fuel' =>
      final ← bit; type ← bits 2;
      codes ← (if type =? 1 then mret fixed else if type =? 2 then dynamic else stuck);
      out ← block (Z.to_nat 70000) codes.1 codes.2 out;
      if (final : bool) then mret out else blocks fuel' out
  end.

Definition bits_of (bytes : list Z) : list bool :=
  flat_map (fun x => map (Z.testbit x) (seqZ 0 8)) bytes.

Definition adler32 (l : list Z) : Z :=
  let '(a, b) := foldl (fun '(a, b) x =>
    let a := (a + x) mod 65521 in (a, (b + a) mod 65521)) (1, 0) l in
  65536 * b + a.

Definition big_endian (l : list Z) : Z := foldl (fun n x => 256 * n + x) 0 l.

(** The data of a zlib stream, and the bytes behind it. *)
Definition inflate (bytes : list Z) : option (list Z * list Z) :=
  match bytes with
  | cmf :: flg :: rest =>
      if (Z.land cmf 0xF =? 8) && ((256 * cmf + flg) mod 31 =? 0) &&
         negb (Z.testbit flg 5) then
        match blocks 16 [] (bits_of rest) with
        | Some (out, more) =>
            let used := (length rest - Nat.div (length more) 8)%nat in
            let out := rev out in
            if big_endian (take 4 (drop used rest)) =? adler32 out
            then Some (out, drop (used + 4) rest) else None
        | None => None
        end
      else None
  | _ => None
  end.
End Rfc.

(** The compressed constant is a stream of exactly the zeroes. *)
Lemma compressed_zeroes_inflate : Rfc.inflate compressed_zeroes = Some (uncompressed_zeroes, []).
Proof. vm_compute. reflexivity. Qed.

Section ZlibFacts.
Context {cap W : Type} {CH : Cheri cap} {LC : Libc cap W} {ZL : ZlibOS cap W}.

Abbreviation OK := (Z_OK (cap := cap) (W := W)).
Abbreviation STREAM_END := (Z_STREAM_END (cap := cap) (W := W)).
Abbreviation FINISH := (Z_FINISH (cap := cap) (W := W)).
Abbreviation judged := (judged (cap := cap) (fun w : W => w)).
Abbreviation steps := (steps (cap := cap) (fun w : W => w)).

(** The output is [l]. *)
Definition outputs (zs : zresult) (l : list Z) : Prop :=
  z_total_out zs = Z.of_nat (length l) /\
  forall i, 0 <= i < Z.of_nat (length l) -> z_out zs i = at_index l i.

(** What the library does from the state [w], call after call. *)
Definition deflate_run (w : W) : Prop :=
  exists c w1, z_malloc (uncompressed_zeroes_len * 2) w = (Some c, w1) /\
  let r2 := deflateInit (cap := cap) (Z_DEFAULT_COMPRESSION (cap := cap) (W := W)) w1 in
  let r3 := deflate (cap := cap) uncompressed_zeroes (uncompressed_zeroes_len * 2) FINISH r2.2 in
  let r4 := deflateEnd (cap := cap) r3.2 in
  r2.1 = OK /\ z_ret r3.1 = STREAM_END /\ r4.1 = OK /\ outputs r3.1 compressed_zeroes.

Definition inflate_run (w : W) : Prop :=
  exists c w1, z_malloc uncompressed_zeroes_len w = (Some c, w1) /\
  let r2 := inflateInit (cap := cap) w1 in
  let r3 := inflate (cap := cap) compressed_zeroes uncompressed_zeroes_len FINISH r2.2 in
  let r4 := inflateEnd (cap := cap) r3.2 in
  r2.1 = OK /\ z_ret r3.1 = STREAM_END /\ r4.1 = OK /\
  z_total_in r3.1 = compressed_zeroes_len /\ outputs r3.1 uncompressed_zeroes.

Lemma steps_call {A} (f : W -> A * W) w :
  steps (libcall f) w (fun a w' => a = (f w).1 /\ w' = (f w).2).
Proof. apply steps_libcall. by intros ? ->. Qed.

Lemma judged_fail_if {B} (b : bool) msg ap (k : test cap W B) w (P Q : Prop) :
  (b = false <-> P) -> (P -> judged k w Q) -> judged (fail_if b msg ap ;; k) w (P /\ Q).
Proof.
  intros Hb Hk s Hs. unfold fail_if. destruct b.
  - split; [intros H; by apply failure_prefix in H|]. intros [HP _]. by apply Hb in HP.
  - assert (P) as HP by (by apply Hb). rewrite <- (Hk HP s Hs). unfold succeeds. simpl.
    tauto.
Qed.

Lemma eq_fail x y : negb (x =? y) = false <-> x = y.
Proof. by rewrite negb_false_iff, Z.eqb_eq. Qed.

Lemma judged_must_return {B} (f : W -> Z * W) ok msg (k : test cap W B) w (Q : Prop) :
  ((f w).1 = ok -> judged k (f w).2 Q) ->
  judged (must_return f ok msg ;; k) w ((f w).1 = ok /\ Q).
Proof.
  intros Hk. unfold must_return. apply judged_assoc.
  eapply judged_bind; [apply steps_call|]. intros r ? [-> ->].
  apply judged_fail_if; [apply eq_fail|done].
Qed.

(** The comparison of the output with a constant of [n] bytes. *)
Lemma judged_output {B} (l : list Z) (zs : zresult) m1 a1 m2 (k : test cap W B) w (Q : Prop) :
  judged k w Q ->
  judged ((fail_if (negb (z_total_out zs =? Z.of_nat (length l))) m1 a1 ;;
           foreach (seqZ 0 (Z.of_nat (length l))) (fun i =>
             fail_if (negb (z_out zs i =? at_index l i)) m2 [AInt i])) ;; k) w
    (outputs zs l /\ Q).
Proof.
  intros Hk. apply judged_assoc. eapply judged_iff.
  { apply judged_fail_if; [apply eq_fail|]. intros _. eapply judged_checks; [apply _|exact Hk]. }
  unfold outputs. rewrite forallb_concat_map, Forall_forall.
  split; [intros (? & H & ?)|intros ((? & H) & ?)]; split_and!; try done.
  - intros i Hi. specialize (H i). simpl in H.
    rewrite andb_true_r, negb_involutive, Z.eqb_eq in H. apply H, elem_of_seqZ. lia.
  - intros i Hi. apply elem_of_seqZ in Hi. simpl. rewrite H by lia. by rewrite Z.eqb_refl.
Qed.

Lemma judged_malloc {B} n msg (k : cap -> test cap W B) w (Q : cap -> W -> Prop) :
  (forall c w1, z_malloc n w = (Some c, w1) -> judged (k c) w1 (Q c w1)) ->
  judged (malloc_or_fail n msg ≫= k) w (exists c w1, z_malloc n w = (Some c, w1) /\ Q c w1).
Proof.
  intros Hk. unfold malloc_or_fail. apply judged_assoc.
  eapply judged_bind; [apply steps_call|]. intros r ? [-> ->].
  destruct (z_malloc n w) as [[c|] w1] eqn:Hm; cbn [fst snd].
  - eapply judged_iff; [by apply judged_ret, Hk|].
    split; [intros HQ; by exists c, w1|by intros (? & ? & [= <- <-] & ?)].
  - apply fails_judged; [apply fails_bind, fails_err|]. by intros (? & ? & ? & _).
Qed.

Lemma judged_free_end (c : cap) w :
  judged (libcall (fun w => (tt, z_free c w)) ;; cheriostest_success (A := unit)) w True.
Proof. eapply judged_bind; [apply steps_call|]. intros _ ? _. by apply judged_success. Qed.

Lemma deflate_judged w : judged (ct_func deflate_zeroes) w (deflate_run w).
Proof.
  apply judged_malloc. intros c w1 _. cbv zeta.
  apply judged_must_return. intros _.
  eapply judged_bind; [apply steps_call|]. intros zs ? [-> ->].
  apply judged_fail_if; [apply eq_fail|]. intros _.
  apply judged_must_return. intros _.
  eapply judged_iff; [apply (judged_output compressed_zeroes), judged_free_end|]. tauto.
Qed.

Lemma inflate_judged w : judged (ct_func inflate_zeroes) w (inflate_run w).
Proof.
  apply judged_malloc. intros c w1 _. cbv zeta.
  apply judged_must_return. intros _.
  eapply judged_bind; [apply steps_call|]. intros zs ? [-> ->].
  apply judged_fail_if; [apply eq_fail|]. intros _.
  apply judged_must_return. intros _.
  apply judged_fail_if; [apply eq_fail|]. intros _.
  assert (uncompressed_zeroes_len = Z.of_nat (length uncompressed_zeroes)) as Hn.
  { unfold uncompressed_zeroes. by rewrite length_replicate. }
  unfold check_uncompressed_data. rewrite Hn at 3 5.
  eapply judged_iff; [apply (judged_output uncompressed_zeroes), judged_free_end|]. tauto.
Qed.

(** A library that inflates as the RFC says, with memory to work with. *)
Record conforming : Prop := {
  zc_malloc n w : exists c w', z_malloc n w = (Some c, w');
  zc_init w : (inflateInit (cap := cap) w).1 = OK;
  zc_end w : (inflateEnd (cap := cap) w).1 = OK;
  zc_inflate bytes out rest avail w :
    Rfc.inflate bytes = Some (out, rest) -> Z.of_nat (length out) <= avail ->
    let zs := (inflate (cap := cap) bytes avail FINISH w).1 in
    z_ret zs = STREAM_END /\ outputs zs out /\
    z_total_in zs = Z.of_nat (length bytes) - Z.of_nat (length rest);
}.

(** C25: the test of compression passes exactly when every call of the library
    succeeds and the output is the constant of the file, byte for byte; the test
    of decompression exactly when they succeed, all the bytes of the constant are
    consumed and the output is the zeroes; and the two constants fit: the decoder
    of the format reads the compressed one as the other, so that any library that
    conforms to the format passes the second test. *)
Theorem zlib_verdict (w : W) :
  judged (ct_func deflate_zeroes) w (deflate_run w) /\
  judged (ct_func inflate_zeroes) w (inflate_run w) /\
  Rfc.inflate compressed_zeroes = Some (uncompressed_zeroes, []) /\
  (conforming -> inflate_run w).
Proof.
  split; [apply deflate_judged|]. split; [apply inflate_judged|].
  split; [apply compressed_zeroes_inflate|].
  intros [Hm Hi He Hz]. destruct (Hm uncompressed_zeroes_len w) as (c & w1 & Hm1).
  exists c, w1. split; [done|]. cbv zeta.
  destruct (Hz compressed_zeroes uncompressed_zeroes [] uncompressed_zeroes_len
    (inflateInit (cap := cap) w1).2) as (Hr & Ho & Ht); [apply compressed_zeroes_inflate| |].
  { unfold uncompressed_zeroes. rewrite length_replicate. unfold uncompressed_zeroes_len,
      INFLATE_BUFSIZE. lia. }
  split_and!; try done.
Qed.
End ZlibFacts.

(** *** A library that inflates with the decoder *)

Definition inflate_result (bytes : list Z) (avail : Z) : zresult :=
  match Rfc.inflate bytes with
  | Some (out, rest) =>
      if Z.of_nat (length out) <=? avail
      then ZResult 1 (Z.of_nat (length bytes) - Z.of_nat (length rest))
             (Z.of_nat (length out)) (at_index out)
      else ZResult (-5) 0 0 (fun _ => 0)
  | None => ZResult (-3) 0 0 (fun _ => 0)
  end.

#[export] Instance rfc_zlib : ZlibOS scap unit := {|
  z_malloc n w := (Some (toy_object 0x10000 n), w);
  z_free _ w := w;
  deflateInit _ w := (0, w);
  deflate _ _ _ w := (ZResult 1 uncompressed_zeroes_len compressed_zeroes_len
                        (at_index compressed_zeroes), w);
  deflateEnd w := (0, w);
  inflateInit w := (0, w);
  inflate bytes avail _ w := (inflate_result bytes avail, w);
  inflateEnd w := (0, w);
  Z_OK := 0;
  Z_STREAM_END := 1;
  Z_FINISH := 4;
  Z_DEFAULT_COMPRESSION := -1;
|}.

Lemma rfc_zlib_conforming : conforming (cap := scap) (W := unit).
Proof.
  split; try done.
  - intros n w. by eexists _, _.
  - intros bytes out rest avail w Hi Ha. simpl. unfold inflate_result. rewrite Hi.
    rewrite (proj2 (Z.leb_le _ _) Ha). by split_and!.
Defined.

Lemma zlib_verdict_witness :
  conforming (cap := scap) (W := unit) /\ inflate_run (cap := scap) tt /\
  succeeds (ct_func (inflate_zeroes (cap := scap) (W := unit))) toy_proc.
Proof.
  destruct (zlib_verdict (cap := scap) tt) as (_ & Hi & _ & Hc).
  split; [exact rfc_zlib_conforming|]. pose proof (Hc rfc_zlib_conforming) as Hrun.
  split; [exact Hrun|]. apply (Hi toy_proc); [|exact Hrun].
  split; [exact toy_shared|]. reflexivity.
Defined.
