(* ===== verification/Subobject.v ===== *)
(** * Subobject: bounds of members of structures (cheriostest_bounds_subobject.c)

    Structures are lists of members, laid out by the rules of C; the compiler
    chooses the bounds of a pointer to a member ([SubCompiler]).  [SubRules]
    describes it by a function from the member and its object to a range;
    [subobject_verdict] says which ranges the tests accept, which of them look
    at the attribute that they are named after, and what becomes of the store
    past an array in a run of the controller.  The tests of the queue macros run
    over lists of two entries. *)

From S2P Require Import Prelude Printf Cheri Perms Harness Runner Toy Registers RunnerFacts Faults Kernel VmTags Mappings Reservations Judge Traps.

(** ** Structures *)

Inductive bounds_attr :=
  NoAttr
| NoSubobjectBounds                       (* cheri_no_subobject_bounds *)
| UseRemainingSize (max : option Z).      (* cheri_subobject_bounds_use_remaining_size *)

(** A member: the size and the alignment of its elements, their number (none:
    a flexible or zero-length array), its attribute. *)
Record member := Member {
  mb_name : string;
  mb_elem : Z;
  mb_align : Z;
  mb_count : option Z;
  mb_attr : bounds_attr;
}.

Definition m_char (name : string) : member := Member name 1 1 (Some 1) NoAttr.
Definition m_int (name : string) : member := Member name 4 4 (Some 1) NoAttr.
Definition m_chars (name : string) (n : Z) : member := Member name 1 1 (Some n) NoAttr.
Definition m_flex (name : string) : member := Member name 1 1 None NoAttr.
Definition with_attr (a : bounds_attr) (m : member) : member :=
  Member (mb_name m) (mb_elem m) (mb_align m) (mb_count m) a.

Definition mb_size (m : member) : Z := mb_elem m * default 0 (mb_count m).

Definition round_up (x a : Z) : Z := (x + a - 1) / a * a.

(** The offset of a member, from [off] on, and the member. *)
Fixpoint find_member (ms : list member) (off : Z) (name : string) : option (Z * member) :=
  match ms with
  | [] => None
  | m :: ms' =>
      let at_ := round_up off (mb_align m) in
      if String.eqb (mb_name m) name then Some (at_, m)
      else find_member ms' (at_ + mb_size m) name
  end.

Fixpoint end_of (ms : list member) (off : Z) : Z :=
  match ms with
  | [] => off
  | m :: ms' => end_of ms' (round_up off (mb_align m) + mb_size m)
  end.

Definition struct_sizeof (ms : list member) : Z :=
  round_up (end_of ms 0) (foldr Z.max 1 (map mb_align ms)).

Definition offsetof (ms : list member) (name : string) : Z :=
  default 0 (fst <$> find_member ms 0 name).

(** struct struct_char and the others. *)
Definition struct_char : list member := [m_char "underflow"; m_char "c"; m_char "overflow"].
Definition struct_int : list member := [m_char "underflow"; m_int "i"; m_char "overflow"].
Definition struct_chararray1 : list member :=
  [m_char "underflow"; m_chars "chararray1" 1; m_char "overflow"].
Definition struct_chararray2 : list member :=
  [m_char "underflow"; m_chars "chararray2" 2; m_char "overflow"].
Definition struct_chararray128 : list member :=
  [m_char "underflow"; m_chars "chararray128" 128; m_char "overflow"].
Definition struct_chararray129 : list member :=
  [m_char "underflow"; m_chars "chararray129" 129; m_char "overflow"].
Definition struct_chararray2048 : list member :=
  [m_char "underflow"; m_chars "chararray2048" 2048; m_char "overflow"].
Definition struct_trailing_chararray1 : list member :=
  [m_char "underflow"; m_chars "chararray1" 1].
Definition struct_trailing_chararray_fla : list member :=
  [m_char "underflow"; m_flex "chararray"].
Definition struct_trailing_chararray_zla : list member :=
  [m_char "underflow"; m_flex "chararray"].
Definition struct_exempt_char : list member :=
  [m_char "underflow"; with_attr NoSubobjectBounds (m_char "c"); m_char "overflow"].
Definition struct_remaininglength_chararray16 : list member :=
  [m_char "underflow"; with_attr (UseRemainingSize None) (m_chars "chararray16" 16)].

Definition RLAS_STATIC_LENGTH : Z := 16.
Definition RLAS_STATIC_BOUND : Z := 24.
Definition RLAS_DYNAMIC_LENGTH : Z := 32.
Definition struct_remaininglength_size_chararray : list member :=
  [m_char "underflow";
   with_attr (UseRemainingSize (Some RLAS_STATIC_BOUND)) (m_chars "chararray" RLAS_STATIC_LENGTH)].

Definition FLA_LENGTH : Z := 16.
Definition ZLA_LENGTH : Z := 16.
Definition RLA_LENGTH : Z := 64.

(** union union_two_chararrays: both members at offset 0. *)
Definition union_chararray16 : member := m_chars "chararray16" 16.
Definition union_chararray32 : member := m_chars "chararray32" 32.
Definition union_sizeof : Z := Z.max (mb_size union_chararray16) (mb_size union_chararray32).

(** The four kinds of lists of queue(3) that are tested. *)
Inductive queue_kind := SList | STailQ | List_ | TailQ.

(** Pointers to objects and members, and the operations of queue(3).  The two
    entries of a list are named by their numbers. *)
Class SubCompiler (cap W : Type) := {
  sub_local : Z -> cap;                     (* the address of a local, of that size *)
  sub_alloca : Z -> cap;
  sub_global : cap;                         (* &sc2048_sideeffect *)
  sub_member : cap -> Z -> member -> cap;   (* object, offset, member *)
  sub_union_member : cap -> member -> cap;
  sub_element : cap -> Z -> cap;            (* of an array member *)
  q_bzero : queue_kind -> W -> W;           (* the head and both entries *)
  q_set_i : queue_kind -> Z -> Z -> W -> (unit + siginfo cap) * W;
  q_insert_head : queue_kind -> Z -> W -> (unit + siginfo cap) * W;
  q_first : queue_kind -> W -> (option Z + siginfo cap) * W;
  q_next : queue_kind -> Z -> W -> (option Z + siginfo cap) * W;
  q_get_i : queue_kind -> Z -> W -> (Z + siginfo cap) * W;
  side_effect : W -> Z;
  set_side_effect : Z -> W -> W;
}.

(** ** The tests *)

Section Tests.
Context {cap W : Type} {CH : Cheri cap} {LC : Libc cap W} {VA : Varargs cap W}
  {KE : Kernel cap W} {TR : TrapOS cap W} {SU : SubCompiler cap W}.
Context (g : config).

(** [&s.member] *)
Definition member_ptr (obj : cap) (st : list member) (name : string) : option (cap * Z) :=
  match find_member st 0 name with
  | Some (off, m) => Some (sub_member (W := W) obj off m, mb_size m)
  | None => None
  end.

(** The tests of one member: its bounds are its size. *)
Definition precise_member (st : list member) (name : string) : test cap W unit :=
  match member_ptr (sub_local (W := W) (struct_sizeof st)) st name with
  | Some (cp, size) => cheriostest_check_cap_bounds_precise cp size ;; cheriostest_success
  | None => undef
  end.

(** A member of a structure on an alloca(3)ted block of [len] bytes. *)
Definition precise_remaining (st : list member) (name : string) (len expected : Z)
    : test cap W unit :=
  match member_ptr (sub_alloca (W := W) len) st name with
  | Some (cp, _) => cheriostest_check_cap_bounds_precise cp expected ;; cheriostest_success
  | None => undef
  end.

Definition bounds_subobject_struct_char : cheri_test cap W :=
  CHERIOSTEST "bounds_subobject_struct_char"
    "Check subobject bounds on a 1-character field in a structure"
    (precise_member struct_char "c").
Definition bounds_subobject_struct_int : cheri_test cap W :=
  CHERIOSTEST "bounds_subobject_struct_int"
    "Check subobject bounds on an integer field in a structure"
    (precise_member struct_int "i").
Definition bounds_subobject_struct_chararray1 : cheri_test cap W :=
  CHERIOSTEST "bounds_subobject_struct_chararray1"
    "Check subobject bounds on a char array of size 1 within a struct"
    (precise_member struct_chararray1 "chararray1").
Definition bounds_subobject_struct_chararray2 : cheri_test cap W :=
  CHERIOSTEST "bounds_subobject_struct_chararray2"
    "Check subobject bounds on a char array of size 2 within a struct"
    (precise_member struct_chararray2 "chararray2").
Definition bounds_subobject_struct_chararray128 : cheri_test cap W :=
  CHERIOSTEST "bounds_subobject_struct_chararray128"
    "Check subobject bounds on a char array of size 128 within a struct"
    (precise_member struct_chararray128 "chararray128").
Definition bounds_subobject_struct_chararray129 : cheri_test cap W :=
  CHERIOSTEST "bounds_subobject_struct_chararray129"
    "Check subobject bounds on a char array of size 129 within a struct"
    (precise_member struct_chararray129 "chararray129").
Definition bounds_subobject_struct_chararray2048 : cheri_test cap W :=
  CHERIOSTEST "bounds_subobject_struct_chararray2048"
    "Check subobject bounds on a char array of size 2048 within a struct"
    (precise_member struct_chararray2048 "chararray2048").
Definition bounds_subobject_struct_trailing_chararray1 : cheri_test cap W :=
  CHERIOSTEST "bounds_subobject_struct_trailing_chararray1"
    "Check subobject bounds on a trailing non-exempt 1-byte character array"
    (precise_member struct_trailing_chararray1 "chararray1").

(** [sc2048_sideeffect.chararray2048] *)
Definition global_array : cap :=
  match member_ptr (sub_global (W := W)) struct_chararray2048 "chararray2048" with
  | Some (cp, _) => cp
  | None => cap_null
  end.

Definition bounds_subjobject_struct_chararray2048_inbounds : cheri_test cap W :=
  CHERIOSTEST "bounds_subjobject_struct_chararray2048_inbounds"
    "Check in-bounds store in subjobject character array of size 2048"
    (access (mem_store_byte global_array 2047 1) ;; cheriostest_success).

Definition store_past_array : test cap W unit :=
  let subobject_ptr_outofbounds := sub_element (W := W) global_array 2047 in
  let subobject_ptr_outofbounds := ptr_add subobject_ptr_outofbounds 1 in
  access (mem_store_byte subobject_ptr_outofbounds 0 1).

Definition bounds_subobject_struct_chararray2048_overflow : cheri_test cap W :=
  trap_test g "bounds_subobject_struct_chararray2048_overflow"
    "Check that an overflow of a 2048-byte subobject array faults"
    (PROT_CHERI_BOUNDS (cap := cap) (W := W)) (SEGV_CAPBOUNDSERR (cap := cap) (W := W))
    (store_past_array ;;
     cheriostest_failure_errx "Unexpected store success out-of-bounds on subobject array" []).

Definition bounds_subobject_union_two_chararrays : cheri_test cap W :=
  CHERIOSTEST "bounds_subobject_union_two_chararrays"
    "Check that unions do enforce subobject bounds on individual structures"
    (let twoarrays := sub_local (W := W) union_sizeof in
     let chararray16p := sub_union_member (W := W) twoarrays union_chararray16 in
     let chararray32p := sub_union_member (W := W) twoarrays union_chararray32 in
     CHERIOSTEST_VERIFY (cheri_length_get chararray16p =? union_sizeof)
       "cheri_length_get(chararray16p) == sizeof(twoarrays)" ;;
     CHERIOSTEST_VERIFY (cheri_length_get chararray32p =? union_sizeof)
       "cheri_length_get(chararray32p) == sizeof(twoarrays)" ;;
     cheriostest_success).

Definition bounds_subobject_struct_trailing_chararray_fla : cheri_test cap W :=
  CHERIOSTEST "bounds_subobject_struct_trailing_chararray_fla"
    "Check subobject bounds on a flexible array member"
    (precise_remaining struct_trailing_chararray_fla "chararray" FLA_LENGTH
       (FLA_LENGTH - offsetof struct_trailing_chararray_fla "chararray")).
Definition bounds_subobject_struct_trailing_chararray_zla : cheri_test cap W :=
  CHERIOSTEST "bounds_subobject_struct_trailing_chararray_zla"
    "Check subobject bounds on a zero length array"
    (precise_remaining struct_trailing_chararray_zla "chararray" ZLA_LENGTH
       (ZLA_LENGTH - offsetof struct_trailing_chararray_zla "chararray")).

Definition bounds_subobject_struct_exempt_char : cheri_test cap W :=
  CHERIOSTEST "bounds_subobject_struct_exempt_char"
    "Check that a char within a struct can be exempted from subobject bounds"
    (let refcp := sub_local (W := W) (struct_sizeof struct_exempt_char) in
     match member_ptr refcp struct_exempt_char "c" with
     | Some (cp, _) =>
         let off := offsetof struct_exempt_char "c" in
         CHERIOSTEST_VERIFY (cheri_offset_get cp =? off)
           "cheri_offset_get(cp) == offsetof(struct struct_exempt_char, c)" ;;
         cheriostest_check_cap_eq (ptr_add cp (- off)) refcp "cp" "refcp" ;;
         cheriostest_success
     | None => undef
     end).

(** The test of the annotation takes the member of the other structure. *)
Definition bounds_subobject_chararray_remaininglength : cheri_test cap W :=
  CHERIOSTEST "bounds_subobject_chararray_remaininglength"
    "Check the remaining length struct annotation"
    (precise_remaining struct_trailing_chararray_fla "chararray" RLA_LENGTH
       (RLA_LENGTH - offsetof struct_remaininglength_chararray16 "chararray16")).
Definition bounds_subobject_chararray_remaininglength_size : cheri_test cap W :=
  CHERIOSTEST "bounds_subobject_chararray_remaininglength_size"
    "Check the remaining length structure annotation with a fixed size"
    (precise_remaining struct_remaininglength_size_chararray "chararray" RLAS_DYNAMIC_LENGTH
       RLAS_STATIC_BOUND).

(** *** queue(3) *)

Definition in_int (x : Z) : bool := (- 2 ^ 31 <=? x) && (x <? 2 ^ 31).

(** [side_effect += i]; a sum that is no int is undefined. *)
Definition add_side_effect (i : Z) : test cap W unit :=
  x ← gets (fun s => side_effect (cap := cap) (p_world s));
  if in_int (x + i)
  then libcall (fun w => (tt, set_side_effect (cap := cap) (x + i) w))
  else undef.

(** [SLIST_FOREACH(entryp, &slist, entry) side_effect += entryp->i;] and its
    siblings: [entryp] is null at the end. *)
Fixpoint queue_foreach (fuel : nat) (q : queue_kind) (entryp : option Z) : test cap W unit :=
  match entryp with
  | None => mret tt
  | Some e =>
      match fuel with
      | O => undef
      | S fuel' =>
          i ← access (q_get_i (cap := cap) q e);
          add_side_effect i ;;
          next ← access (q_next (cap := cap) q e);
          queue_foreach fuel' q next
      end
  end.

(** The tests of the four kinds have the same body. *)
Definition queue_body (fuel : nat) (q : queue_kind) : test cap W unit :=
  libcall (fun w => (tt, q_bzero (cap := cap) q w)) ;;
  access (q_set_i q 1 1) ;;
  access (q_set_i q 2 2) ;;
  access (q_insert_head q 1) ;;
  access (q_insert_head q 2) ;;
  first ← access (q_first (cap := cap) q);
  queue_foreach fuel q first ;;
  cheriostest_success.

(** A list of two entries: two rounds. *)
Definition bounds_subobject_struct_exempt_queue_slist : cheri_test cap W :=
  CHERIOSTEST "bounds_subobject_struct_exempt_queue_slist"
    "Check queue(3) SLIST macros subobject bounds exemptions" (queue_body 2 SList).
Definition bounds_subobject_struct_exempt_queue_stailq : cheri_test cap W :=
  CHERIOSTEST "bounds_subobject_struct_exempt_queue_stailq"
    "Check queue(3) STAILQ macros subobject bounds exemptions" (queue_body 2 STailQ).
Definition bounds_subobject_struct_exempt_queue_list : cheri_test cap W :=
  CHERIOSTEST "bounds_subobject_struct_exempt_queue_list"
    "Check queue(3) LIST macros subobject bounds exemptions" (queue_body 2 List_).
Definition bounds_subobject_struct_exempt_queue_tailq : cheri_test cap W :=
  CHERIOSTEST "bounds_subobject_struct_exempt_queue_tailq"
    "Check queue(3) TAILQ macros subobject bounds exemptions" (queue_body 2 TailQ).
End Tests.

(** The layouts. *)
Example struct_int_layout :
  offsetof struct_int "i" = 4 /\ struct_sizeof struct_int = 12 /\
  struct_sizeof struct_chararray2048 = 2050 /\ struct_sizeof struct_trailing_chararray_fla = 1.
Proof. repeat split. Qed.

(** ** A compiler by its choices *)

(** The range of a pointer to a member, in bytes from the start of the object:
    of a structure (the offset, the member, the size of the object), and of a
    union; and the fault, if any, of linking an entry into a list that is not
    empty. *)
Record sub_policy (cap : Type) := SubPolicy {
  sp_range : Z -> member -> Z -> Z * Z;
  sp_union : member -> Z -> Z * Z;
  sp_link : queue_kind -> option (siginfo cap);
}.
Arguments sp_range {cap} _ _ _ _.
Arguments sp_union {cap} _ _ _.
Arguments sp_link {cap} _ _.

#[export] Instance queue_kind_eq_dec : EqDecision queue_kind.
Proof. solve_decision. Defined.

(** The lists, the members [i] of the entries, and [side_effect]. *)
Record qview := QView {
  qv_list : queue_kind -> list Z;
  qv_i : queue_kind -> Z -> Z;
  qv_sum : Z;
}.

Definition set_list (q : queue_kind) (l : list Z) (v : qview) : qview :=
  QView (fun q' => if decide (q' = q) then l else qv_list v q') (qv_i v) (qv_sum v).
Definition set_i (q : queue_kind) (e x : Z) (v : qview) : qview :=
  QView (qv_list v)
    (fun q' e' => if decide (q' = q /\ e' = e) then x else qv_i v q' e') (qv_sum v).
Definition set_sum (x : Z) (v : qview) : qview := QView (qv_list v) (qv_i v) x.

(** The entry behind [e]. *)
Fixpoint entry_after (l : list Z) (e : Z) : option Z :=
  match l with
  | x :: l' => if x =? e then head l' else entry_after l' e
  | [] => None
  end.

Section Rules.
Context {cap W : Type} {CH : Cheri cap} {HP : Perms} {SU : SubCompiler cap W}.

(** A pointer to an object of [n] bytes, with its bounds. *)
Record whole (c : cap) (n : Z) : Prop := {
  wh_tag : cheri_tag_get c = true;
  wh_unsealed : cheri_is_sealed c = false;
  wh_base : cheri_base_get c = cheri_address_get c;
  wh_length : cheri_length_get c = n;
  wh_end : cheri_address_get c + n < 2 ^ 64;
  wh_store : flag_set (cheri_perms_get c) (mask PStore) = true;
}.

(** A member inside an object of [n] bytes. *)
Definition fits (off : Z) (m : member) (n : Z) : Prop :=
  0 <= off /\ 0 <= mb_size m /\ off + mb_size m <= n.

Class SubRules := {
  s_view : W -> qview;
  s_policy : sub_policy cap;
  s_local n : 0 < n <= 4096 -> whole (sub_local (W := W) n) n;
  s_alloca n : 0 < n <= 4096 -> whole (sub_alloca (W := W) n) n;
  s_global : whole (sub_global (W := W)) (struct_sizeof struct_chararray2048);
  s_range off m n : fits off m n ->
    let r := sp_range s_policy off m n in
    0 <= r.1 <= off /\ off + mb_size m <= r.2 <= n;
  s_member (c : cap) n off m : whole c n -> fits off m n ->
    let r := sp_range s_policy off m n in let d := sub_member (W := W) c off m in
    cheri_tag_get d = true /\ cheri_is_sealed d = false /\
    cheri_address_get d = cheri_address_get c + off /\
    cheri_base_get d = cheri_base_get c + r.1 /\ cheri_length_get d = r.2 - r.1 /\
    flag_set (cheri_perms_get d) (mask PStore) = true;
  s_whole (c : cap) n off m : whole c n -> sp_range s_policy off m n = (0, n) ->
    sub_member (W := W) c off m = cheri_address_set c (u64 (cheri_address_get c + off));
  s_union_range m n : mb_size m <= n -> let r := sp_union s_policy m n in
    0 = r.1 /\ mb_size m <= r.2 <= n;
  s_union (c : cap) n m : whole c n -> mb_size m <= n ->
    let r := sp_union s_policy m n in
    cheri_length_get (sub_union_member (W := W) c m) = r.2 - r.1;
  s_element (c : cap) i : sub_element (W := W) c i = ptr_add c i;
  (* moving inside the bounds, or to the byte behind them *)
  s_move (c : cap) a : cheri_tag_get c = true -> cheri_is_sealed c = false ->
    cheri_base_get c <= a <= cheri_base_get c + cheri_length_get c -> a < 2 ^ 64 ->
    cheri_tag_get (cheri_address_set c a) = true /\
    cheri_is_sealed (cheri_address_set c a) = false;
  s_back n a : 0 < n <= 4096 -> let c := sub_local (cap := cap) (W := W) n in
    cheri_base_get c <= a <= cheri_base_get c + cheri_length_get c -> a < 2 ^ 64 ->
    cheri_address_set (cheri_address_set c a) (cheri_address_get c) = c;
  s_bzero q w : s_view (q_bzero (cap := cap) q w) =
    set_list q [] (set_i q 2 0 (set_i q 1 0 (s_view w)));
  s_set_i q e x w : exists w', q_set_i (cap := cap) q e x w = (inl tt, w') /\
    s_view w' = set_i q e x (s_view w);
  s_insert q e w : match qv_list (s_view w) q, sp_link s_policy q with
    | _ :: _, Some si => exists w', q_insert_head q e w = (inr si, w')
    | l, _ => exists w', q_insert_head (cap := cap) q e w = (inl tt, w') /\
                s_view w' = set_list q (e :: l) (s_view w)
    end;
  s_first q w : exists w', q_first (cap := cap) q w = (inl (head (qv_list (s_view w) q)), w') /\
    s_view w' = s_view w;
  s_next q e w : exists w',
    q_next (cap := cap) q e w = (inl (entry_after (qv_list (s_view w) q) e), w') /\
    s_view w' = s_view w;
  s_get_i q e w : exists w', q_get_i (cap := cap) q e w = (inl (qv_i (s_view w) q e), w') /\
    s_view w' = s_view w;
  s_sum w : side_effect (cap := cap) w = qv_sum (s_view w);
  s_set_sum x w : s_view (set_side_effect (cap := cap) x w) = set_sum x (s_view w);
}.
End Rules.
Arguments SubRules cap W {_ _ _}.

(** ** What the tests accept *)

Section Facts.
Context {cap W : Type} {CH : Cheri cap} {CL : CheriLaws cap} {CO : CapOps cap}
  {LC : Libc cap W} {RO : RunnerOS W} {RL : RunnerOSLaws LC RO} {KE : Kernel cap W}
  {VC : VmConsts} {HP : Perms} {PL : PermLaws} {VA : Varargs cap W} {TR : TrapOS cap W}
  {RR : TrapRules cap W} {SU : SubCompiler cap W} {SR : SubRules cap W}.
Context (g : config) (o : options).
Context (indet_flaky : option string) (indet_fd : Z).

Abbreviation P := (s_policy (cap := cap) (W := W)).
Abbreviation judged := (judged (cap := cap) s_view).
Abbreviation steps := (steps (cap := cap) s_view).

(** A pointer to a member, seen from the member. *)
Lemma member_bounds c n off m : whole c n -> fits off m n ->
  let r := sp_range P off m n in let d := sub_member (W := W) c off m in
  cheri_offset_get d = off - r.1 /\ cheri_length_get d = r.2 - r.1.
Proof.
  intros Hc Hf. cbv zeta. pose proof (s_range off m n Hf) as Hr.
  destruct Hf as (H0 & Hm & Hn).
  pose proof (s_member c n off m Hc (conj H0 (conj Hm Hn))) as (_ & _ & Ha & Hb & Hl & _).
  cbv zeta in Hr. destruct (sp_range P off m n) as [lo hi]. simpl in *.
  split; [|exact Hl]. rewrite offset_spec, Ha, Hb, (wh_base _ _ Hc).
  pose proof (wh_end _ _ Hc). pose proof (address_range c). pose proof (length_range c).
  rewrite (wh_length _ _ Hc) in *. rewrite wrapu_small; lia.
Qed.

Lemma judged_precise (c : cap) len v :
  judged (cheriostest_check_cap_bounds_precise c len ;; cheriostest_success (A := unit)) v
    (cheri_offset_get c = 0 /\ cheri_length_get c = len).
Proof.
  eapply judged_iff; [eapply judged_checks; [apply _|by apply (judged_success _ True)]|].
  simpl. rewrite !andb_true_iff, !Z.eqb_eq. tauto.
Qed.

Lemma member_range_iff off n m b :
  let r := sp_range P off m n in
  (off - r.1 = 0 /\ r.2 - r.1 = b) <-> r = (off, off + b).
Proof.
  intros r. destruct r as [lo hi]. simpl. split.
  - intros [? ?]. f_equal; lia.
  - intros [= -> ->]. lia.
Qed.

Lemma precise_member_judged st name off m v :
  find_member st 0 name = Some (off, m) -> 0 < struct_sizeof st <= 4096 ->
  fits off m (struct_sizeof st) ->
  judged (precise_member st name) v
    (sp_range P off m (struct_sizeof st) = (off, off + mb_size m)).
Proof.
  intros Hf Hn Hs. unfold precise_member, member_ptr. rewrite Hf.
  pose proof (s_local (cap := cap) _ Hn) as Hc.
  destruct (member_bounds _ _ off m Hc Hs) as [H1 H2].
  eapply judged_iff; [apply judged_precise|]. rewrite H1, H2.
  by apply member_range_iff.
Qed.

Lemma precise_remaining_judged st name off m len expected v :
  find_member st 0 name = Some (off, m) -> 0 < len <= 4096 -> fits off m len ->
  judged (precise_remaining st name len expected) v
    (sp_range P off m len = (off, off + expected)).
Proof.
  intros Hf Hn Hs. unfold precise_remaining, member_ptr. rewrite Hf.
  pose proof (s_alloca (cap := cap) _ Hn) as Hc.
  destruct (member_bounds _ _ off m Hc Hs) as [H1 H2].
  eapply judged_iff; [apply judged_precise|]. rewrite H1, H2.
  by apply member_range_iff.
Qed.

(** The tests of whole members, with their structures. *)
Definition precise_tests : list (cheri_test cap W * (list member * string)) :=
  [(bounds_subobject_struct_char, (struct_char, "c"%string));
   (bounds_subobject_struct_int, (struct_int, "i"%string));
   (bounds_subobject_struct_chararray1, (struct_chararray1, "chararray1"%string));
   (bounds_subobject_struct_chararray2, (struct_chararray2, "chararray2"%string));
   (bounds_subobject_struct_chararray128, (struct_chararray128, "chararray128"%string));
   (bounds_subobject_struct_chararray129, (struct_chararray129, "chararray129"%string));
   (bounds_subobject_struct_chararray2048, (struct_chararray2048, "chararray2048"%string));
   (bounds_subobject_struct_trailing_chararray1, (struct_trailing_chararray1, "chararray1"%string))].

(** The tests of members that may reach to the end of the object: the member,
    the size of the object, the expected length. *)
Definition remaining_tests : list (cheri_test cap W * (list member * string * Z * Z)) :=
  [(bounds_subobject_struct_trailing_chararray_fla,
    (struct_trailing_chararray_fla, "chararray"%string, 16, 15));
   (bounds_subobject_struct_trailing_chararray_zla,
    (struct_trailing_chararray_zla, "chararray"%string, 16, 15));
   (bounds_subobject_chararray_remaininglength,
    (struct_trailing_chararray_fla, "chararray"%string, 64, 63));
   (bounds_subobject_chararray_remaininglength_size,
    (struct_remaininglength_size_chararray, "chararray"%string, 32, 24))].

Lemma precise_tests_judged t st name v : (t, (st, name)) ∈ precise_tests ->
  exists off m, find_member st 0 name = Some (off, m) /\
    judged (ct_func t) v (sp_range P off m (struct_sizeof st) = (off, off + mb_size m)).
Proof.
  intros Hin. unfold precise_tests in Hin.
  repeat (apply elem_of_cons in Hin as [Hin|Hin]; [injection Hin as -> -> ->;
    eexists _, _; split; [reflexivity|]; apply precise_member_judged; vm_compute; split_and?;
    congruence|]).
  by apply not_elem_of_nil in Hin.
Qed.

Lemma remaining_tests_judged t st name len expected v :
  (t, (st, name, len, expected)) ∈ remaining_tests ->
  exists off m, find_member st 0 name = Some (off, m) /\
    judged (ct_func t) v (sp_range P off m len = (off, off + expected)).
Proof.
  intros Hin. unfold remaining_tests in Hin.
  repeat (apply elem_of_cons in Hin as [Hin|Hin]; [injection Hin as -> -> -> -> ->;
    eexists _, _; split; [reflexivity|]; apply precise_remaining_judged; vm_compute; split_and?;
    congruence|]).
  by apply not_elem_of_nil in Hin.
Qed.

(** *** The union and the exempt member *)

Lemma union_judged v :
  judged (ct_func bounds_subobject_union_two_chararrays) v
    (sp_union P union_chararray16 32 = (0, 32) /\ sp_union P union_chararray32 32 = (0, 32)).
Proof.
  assert (whole (sub_local (cap := cap) (W := W) 32) 32) as Hc by (apply s_local; lia).
  pose proof (s_union_range union_chararray16 32 ltac:(unfold mb_size; simpl; lia)) as H16.
  pose proof (s_union_range union_chararray32 32 ltac:(unfold mb_size; simpl; lia)) as H32.
  pose proof (s_union _ 32 union_chararray16 Hc ltac:(unfold mb_size; simpl; lia)) as L16.
  pose proof (s_union _ 32 union_chararray32 Hc ltac:(unfold mb_size; simpl; lia)) as L32.
  cbv zeta in *. destruct (sp_union P union_chararray16 32) as [a b],
    (sp_union P union_chararray32 32) as [c d]. simpl in H16, H32, L16, L32.
  destruct H16 as [<- ?], H32 as [<- ?].
  apply judged_verify; [intros E1|intros E1 [[= ->] _]].
  2: { apply Z.eqb_neq in E1. apply E1. exact L16. }
  apply judged_verify; [intros E2|intros E2 [_ [= ->]]].
  2: { apply Z.eqb_neq in E2. apply E2. exact L32. }
  apply Z.eqb_eq in E1, E2. change union_sizeof with 32 in E1, E2.
  apply judged_success. split; f_equal; lia.
Qed.

Definition exempt_member : member := with_attr NoSubobjectBounds (m_char "c").

Lemma exempt_judged v :
  judged (ct_func bounds_subobject_struct_exempt_char) v (sp_range P 1 exempt_member 3 = (0, 3)).
Proof.
  assert (whole (sub_local (cap := cap) (W := W) 3) 3) as Hc by (apply s_local; lia).
  set (c := sub_local 3) in *.
  assert (fits 1 exempt_member 3) as Hf by (unfold fits, mb_size; simpl; lia).
  destruct (member_bounds c 3 1 exempt_member Hc Hf) as [Ho Hl].
  pose proof (s_range 1 exempt_member 3 Hf) as Hr. cbv zeta in Hr.
  pose proof (s_member c 3 1 exempt_member Hc Hf) as (Ht & Hs & Ha & Hb & Hl' & _).
  pose proof (s_whole c 3 1 exempt_member Hc) as Hw.
  pose proof (wh_end _ _ Hc) as He. pose proof (address_range c) as Har.
  set (d := sub_member c 1 exempt_member) in *.
  change (judged (CHERIOSTEST_VERIFY (cheri_offset_get d =? 1)
    "cheri_offset_get(cp) == offsetof(struct struct_exempt_char, c)" ;;
    cheriostest_check_cap_eq (ptr_add d (-1)) c "cp" "refcp" ;; cheriostest_success (A := unit)) v
    (sp_range P 1 exempt_member 3 = (0, 3))).
  destruct (sp_range P 1 exempt_member 3) as [lo hi]. unfold mb_size in Hr. simpl in Hr, Ho, Hl.
  simpl in Hb. apply judged_verify.
  - intros Hoff. apply Z.eqb_eq in Hoff. assert (lo = 0) as -> by lia.
    intros s Hs0. rewrite (succeeds_checks _ _ _ s (_ : Checks _ _) (proj1 Hs0)).
    assert (u64 (cheri_address_get d + -1) = cheri_address_get c) as Hback.
    { rewrite Ha, wrapu_small; lia. }
    assert (ptr_add d (-1) = cheri_address_set d (cheri_address_get c)) as Hd
      by (unfold ptr_add; by rewrite Hback).
    destruct (decide (hi = 3)) as [->|Hne].
    + rewrite Hd. replace (cheri_address_set d (cheri_address_get c)) with c.
      2: { symmetry. rewrite (Hw eq_refl). rewrite wrapu_small by lia.
           subst c. apply s_back; rewrite ?(wh_base _ _ Hc), ?(wh_length _ _ Hc); lia. }
      simpl. rewrite !Z.eqb_refl. simpl. split; [done|]. intros _.
      split; [done|]. by apply succeeds_success; destruct Hs0.
    + destruct (s_move d (cheri_address_get c) Ht Hs) as [Ht2 _]; [rewrite Hb, (wh_base _ _ Hc), Hl; lia|lia|].
      destruct (address_set_bounds _ _ Ht2) as [_ Hl2].
      split; [|by intros [=]]. intros [Hall _]. exfalso. revert Hall. simpl.
      rewrite !andb_true_iff, !Z.eqb_eq. intros (_ & _ & _ & Hlen & _).
      rewrite Hd, Hl2, Hl, (wh_length _ _ Hc) in Hlen. lia.
  - intros Hoff [= -> ->]. apply Z.eqb_neq in Hoff. lia.
Qed.

(** *** Stores into an array of a global structure *)

Definition array_member : member := m_chars "chararray2048" 2048.

Lemma array_fits : fits 1 array_member 2050.
Proof. unfold fits, mb_size. simpl. lia. Qed.

Abbreviation array_end := ((sp_range P 1 array_member 2050).2).

Lemma global_array_spec :
  let A := cheri_address_get (sub_global (cap := cap) (W := W)) in
  let d := global_array (cap := cap) (W := W) in
  cheri_tag_get d = true /\ cheri_is_sealed d = false /\ cheri_address_get d = A + 1 /\
  A <= cheri_base_get d <= A + 1 /\ cheri_base_get d + cheri_length_get d = A + array_end /\
  flag_set (cheri_perms_get d) (mask PStore) = true /\ 0 <= A /\ A + 2050 < 2 ^ 64.
Proof.
  pose proof s_global as Hg. change (struct_sizeof struct_chararray2048) with 2050 in Hg.
  pose proof (s_member _ 2050 1 array_member Hg array_fits) as (T & S & Ea & Eb & El & Ep).
  pose proof (s_range 1 array_member 2050 array_fits) as Hr. cbv zeta in *.
  change (global_array (cap := cap) (W := W)) with
    (sub_member (cap := cap) (W := W) (sub_global (W := W)) 1 array_member).
  pose proof (wh_base _ _ Hg). pose proof (wh_end _ _ Hg).
  pose proof (address_range (sub_global (cap := cap) (W := W))).
  unfold mb_size in Hr. destruct (sp_range P 1 array_member 2050) as [lo hi]. simpl in *.
  split_and!; try done; lia.
Qed.

Lemma array_end_cases : array_end = 2049 \/ array_end = 2050.
Proof.
  pose proof (s_range 1 array_member 2050 array_fits) as Hr. cbv zeta in Hr.
  unfold mb_size in Hr. simpl in Hr. lia.
Qed.

Lemma inbounds_judged v :
  judged (ct_func bounds_subjobject_struct_chararray2048_inbounds) v True.
Proof.
  destruct global_array_spec as (T & S & Ea & Eb & Et & Ep & _).
  pose proof array_end_cases.
  eapply judged_bind; [apply (steps_access _ _ (fun _ _ => True))|intros; by apply judged_success].
  intros w _. pose proof (t_store (global_array (W := W)) 2047 1 w S) as Hs.
  unfold byte_check in Hs. rewrite T, Ep, Ea in Hs. simpl negb in Hs. cbv iota in Hs.
  rewrite (proj2 (Z.leb_le _ _)), (proj2 (Z.ltb_lt _ _)) in Hs by lia.
  destruct Hs as (w' & Hs). by exists tt, w'.
Qed.

(** The pointer behind the last element. *)
Lemma past_check :
  let c := ptr_add (sub_element (W := W) (global_array (cap := cap) (W := W)) 2047) 1 in
  cheri_is_sealed c = false /\
  byte_check c 0 PStore = if array_end =? 2049 then Some TBounds else None.
Proof.
  destruct global_array_spec as (T & S & Ea & Eb & Et & Ep & H0 & Hend).
  pose proof array_end_cases as Hcase. rewrite s_element. unfold ptr_add.
  set (d := global_array) in *. set (A := cheri_address_get sub_global) in *.
  rewrite (wrapu_small 64 (cheri_address_get d + 2047)) by lia.
  rewrite address_set_address, Ea, !wrapu_small by (rewrite ?wrapu_small; lia).
  destruct (s_move d (A + 1 + 2047) T S) as [T1 S1]; [lia|lia|].
  set (e := cheri_address_set d (A + 1 + 2047)) in *.
  destruct (address_set_bounds _ _ T1) as [B1 L1]. fold e in B1, L1.
  destruct (s_move e (A + 1 + 2047 + 1) T1 S1) as [T2 S2]; [rewrite B1, L1; lia|lia|].
  destruct (address_set_bounds _ _ T2) as [B2 L2].
  split; [exact S2|]. unfold byte_check. rewrite T2, B2, L2, B1, L1. unfold e.
  rewrite !address_set_perms, Ep, address_set_address, wrapu_small by lia. simpl negb. cbv iota.
  rewrite (proj2 (Z.leb_le _ _)) by lia. rewrite Et. simpl.
  destruct (Z.eqb_spec array_end 2049).
  - by rewrite (proj2 (Z.ltb_ge _ _)) by lia.
  - by rewrite (proj2 (Z.ltb_lt _ _)) by lia.
Qed.

Abbreviation overflow_test :=
  (bounds_subobject_struct_chararray2048_overflow (cap := cap) (W := W) g).

Lemma overflow_test_shape : fault_test overflow_test /\ runs o overflow_test.
Proof.
  unfold bounds_subobject_struct_chararray2048_overflow, trap_test.
  destruct (is_freebsd g); (split; [done|]); repeat split; simpl; by rewrite ?andb_false_r.
Qed.

Lemma overflow_faults : array_end = 2049 ->
  faults_with g (ct_func overflow_test) no_addr (trap_info TBounds).
Proof.
  intros He. destruct past_check as [S Hc]. rewrite He in Hc. simpl in Hc.
  assert (faults_with g (store_past_array (cap := cap) (W := W) ;;
     cheriostest_failure_errx "Unexpected store success out-of-bounds on subobject array" [])
     no_addr (trap_info TBounds)) as H.
  { apply faults_access. intros w. pose proof (t_store _ 0 1 w S) as Hs. by rewrite Hc in Hs. }
  unfold bounds_subobject_struct_chararray2048_overflow, trap_test. by destruct (is_freebsd g).
Qed.

Lemma overflow_quiet : array_end = 2050 -> returns_quietly g (store_past_array (cap := cap) (W := W)).
Proof.
  intros He s (Hp & _). destruct past_check as [S Hc]. rewrite He in Hc. simpl in Hc.
  pose proof (t_store _ 0 1 (p_world s) S) as Hs. rewrite Hc in Hs. destruct Hs as (w' & Hs).
  exists (set_world w' s), no_addr. split; [|exact Hp]. unfold store_past_array, access.
  by rewrite Hs.
Qed.

(** *** Lists *)

Lemma steps_q_access {A} (f : W -> (A + siginfo cap) * W) v a v' :
  (forall w, s_view w = v -> exists w', f w = (inl a, w') /\ s_view w' = v') ->
  steps (access f) v (fun x v'' => x = a /\ v'' = v').
Proof. intros Hf. apply steps_access. intros w Hw. destruct (Hf w Hw) as (w' & ? & ?). by exists a, w'. Qed.

(** The lists and their entries after the insertions. *)
Definition zeroed q v : qview := set_list q [] (set_i q 2 0 (set_i q 1 0 v)).
Definition filled q v : qview := set_i q 2 2 (set_i q 1 1 (zeroed q v)).
Definition linked1 q v : qview := set_list q [1] (filled q v).
Definition linked2 q v : qview := set_list q [2; 1] (linked1 q v).

Lemma filled_list q v : qv_list (filled q v) q = [].
Proof. simpl. by rewrite decide_True. Qed.

Lemma set_i_same q e x v : qv_i (set_i q e x v) q e = x.
Proof. simpl. by rewrite decide_True. Qed.

Lemma linked2_i q v : qv_i (linked2 q v) q 1 = 1 /\ qv_i (linked2 q v) q 2 = 2.
Proof.
  simpl. split; repeat case_decide; by naive_solver.
Qed.

Lemma steps_insert_first q v : steps (access (q_insert_head q 1)) (filled q v)
  (fun _ v' => v' = linked1 q v).
Proof.
  eapply steps_mono; [apply steps_q_access with (a := tt) (v' := linked1 q v)|by intros ? ? [_ ->]].
  intros w Hw. pose proof (s_insert q 1 w) as Hi. by rewrite Hw, filled_list in Hi.
Qed.

Lemma steps_insert_second q v : sp_link P q = None ->
  steps (access (q_insert_head q 2)) (linked1 q v) (fun _ v' => v' = linked2 q v).
Proof.
  intros Hq. eapply steps_mono;
    [apply steps_q_access with (a := tt) (v' := linked2 q v)|by intros ? ? [_ ->]].
  intros w Hw. pose proof (s_insert q 2 w) as Hi. rewrite Hw, Hq in Hi. simpl in Hi.
  by rewrite decide_True in Hi.
Qed.

(** The sum of the members [i] of a list, as long as it is an int. *)
Fixpoint sum_from (i : Z -> Z) (x : Z) (l : list Z) : option Z :=
  match l with
  | [] => Some x
  | e :: l' => if in_int (x + i e) then sum_from i (x + i e) l' else None
  end.

(** From this view, the code runs into something undefined. *)
Definition undefs {A} (m : test cap W A) (v : qview) : Prop :=
  forall s, on (cap := cap) s_view v s -> exists s', m s = (Undef, s').

Lemma undefs_bind {A B} (m : test cap W A) (k : A -> test cap W B) v :
  undefs m v -> undefs (m ≫= k) v.
Proof.
  intros Hm s Hs. destruct (Hm s Hs) as [s' Hr]. exists s'.
  unfold mbind, eff_bind. by rewrite Hr.
Qed.

Lemma undefs_steps {A B} (m : test cap W A) (k : A -> test cap W B) v Q :
  steps m v Q -> (forall a v', Q a v' -> undefs (k a) v') -> undefs (m ≫= k) v.
Proof.
  intros Hm Hk s Hs. destruct (Hm s Hs) as (a & s' & v' & Hr & HQ & Hs').
  destruct (Hk a v' HQ s' Hs') as [s2 Hr2]. exists s2. by rewrite (test_bind _ _ _ _ _ Hr).
Qed.

Lemma steps_add i v : in_int (qv_sum v + i) = true ->
  steps (add_side_effect (cap := cap) i) v (fun _ v' => v' = set_sum (qv_sum v + i) v).
Proof.
  intros Hi. apply (steps_bind _ _ _ (fun x v' => x = qv_sum v /\ v' = v)).
  { apply steps_gets. intros s [_ Hs]. by rewrite s_sum, Hs. }
  intros x ? [-> ->]. rewrite Hi. apply steps_libcall. intros w Hw. simpl. by rewrite s_set_sum, Hw.
Qed.

Lemma undefs_add i v : in_int (qv_sum v + i) = false -> undefs (add_side_effect (cap := cap) i) v.
Proof.
  intros Hi. apply (undefs_steps _ _ _ (fun x v' => x = qv_sum v /\ v' = v)).
  { apply steps_gets. intros s [_ Hs]. by rewrite s_sum, Hs. }
  intros x ? [-> ->]. rewrite Hi. intros s _. by exists s.
Qed.

Lemma steps_get_i q e v :
  steps (access (q_get_i (cap := cap) q e)) v (fun x v' => x = qv_i v q e /\ v' = v).
Proof. apply steps_q_access. intros w <-. apply s_get_i. Qed.

Lemma steps_next q e v :
  steps (access (q_next (cap := cap) q e)) v
    (fun x v' => x = entry_after (qv_list v q) e /\ v' = v).
Proof. apply steps_q_access. intros w <-. apply s_next. Qed.

(** A traversal from [e] on adds up the members behind it, if the sums are ints. *)
Lemma foreach_sums q v fuel l e :
  (forall l1 l2 x, qv_list v q = l1 ++ x :: l2 -> entry_after (qv_list v q) x = head l2) ->
  (exists l1, qv_list v q = l1 ++ l) -> e = head l -> (length l <= fuel)%nat ->
  match sum_from (qv_i v q) (qv_sum v) l with
  | Some x => steps (queue_foreach (cap := cap) fuel q e) v (fun _ v' => v' = set_sum x v)
  | None => undefs (queue_foreach (cap := cap) fuel q e) v
  end.
Proof.
  intros Hafter [l1 Hl] -> Hfuel. revert v l1 fuel Hafter Hl Hfuel.
  induction l as [|x l IH]; intros v l1 fuel Hafter Hl Hfuel.
  { destruct fuel; apply steps_ret; by destruct v. }
  destruct fuel as [|fuel]; [simpl in Hfuel; lia|]. cbn [sum_from queue_foreach head].
  destruct (in_int (qv_sum v + qv_i v q x)) eqn:Hi.
  - specialize (IH (set_sum (qv_sum v + qv_i v q x) v) (l1 ++ [x]) fuel Hafter).
    cbn [set_sum qv_i qv_sum qv_list] in IH. rewrite <- app_assoc in IH.
    specialize (IH Hl ltac:(simpl in Hfuel; lia)).
    destruct (sum_from _ _ l).
    + eapply steps_bind; [apply steps_get_i|intros ? ? [-> ->]].
      eapply steps_bind; [by apply steps_add|intros ? ? ->].
      eapply steps_bind; [apply steps_next|intros ? ? [-> ->]].
      cbn [qv_list set_sum]. rewrite (Hafter _ _ _ Hl).
      eapply steps_mono; [exact IH|by intros ? ? ->].
    + eapply undefs_steps; [apply steps_get_i|intros ? ? [-> ->]].
      eapply undefs_steps; [by apply steps_add|intros ? ? ->].
      eapply undefs_steps; [apply steps_next|intros ? ? [-> ->]].
      cbn [qv_list set_sum]. by rewrite (Hafter _ _ _ Hl).
  - eapply undefs_steps; [apply steps_get_i|intros ? ? [-> ->]].
    by apply undefs_bind, undefs_add.
Qed.

(** The sums of the two entries are ints. *)
Definition sums_fit (v : qview) : bool := in_int (qv_sum v + 2) && in_int (qv_sum v + 3).

Definition summed q v : qview := set_sum (qv_sum v + 3) (linked2 q v).

Lemma linked2_sum q v :
  sum_from (qv_i (linked2 q v) q) (qv_sum (linked2 q v)) [2; 1]
  = if sums_fit v then Some (qv_sum v + 3) else None.
Proof.
  destruct (linked2_i q v) as [E1 E2]. unfold sums_fit. cbn [sum_from]. rewrite E1, E2.
  change (qv_sum (linked2 q v)) with (qv_sum v). rewrite <- (Z.add_assoc _ 2 1).
  by destruct (in_int (qv_sum v + 2)).
Qed.

Lemma steps_head q v :
  steps (access (q_first (cap := cap) q)) (linked2 q v)
    (fun a v' => a = Some 2 /\ v' = linked2 q v).
Proof.
  apply steps_q_access. intros w Hw. destruct (s_first q w) as (w' & Hr & Hw'). exists w'.
  rewrite Hr, Hw', Hw. simpl. by rewrite decide_True.
Qed.

Lemma foreach_two q v :
  if sums_fit v
  then steps (queue_foreach (cap := cap) 2 q (Some 2)) (linked2 q v) (fun _ v' => v' = summed q v)
  else undefs (queue_foreach (cap := cap) 2 q (Some 2)) (linked2 q v).
Proof.
  assert (qv_list (linked2 q v) q = [2; 1]) as Hl by (simpl; by rewrite decide_True).
  pose proof (foreach_sums q (linked2 q v) 2 [2; 1] (Some 2)) as H.
  rewrite linked2_sum, Hl in H. destruct (sums_fit v); apply H; try done; try by exists [].
  all: intros l1 l2 x Hx; destruct l1 as [|? [|? l1]]; simplify_eq/=; try done; by destruct l1.
Qed.

(** The end of a body, from the second insertion on. *)
Definition queue_end (q : queue_kind) : test cap W unit :=
  access (q_insert_head q 2) ;;
  first ← access (q_first (cap := cap) q);
  queue_foreach (cap := cap) 2 q first ;;
  cheriostest_success.

Lemma queue_start q v s : on (cap := cap) s_view v s ->
  exists s', on (cap := cap) s_view (linked1 q v) s' /\
    queue_body (cap := cap) 2 q s = queue_end q s'.
Proof.
  intros Hs. unfold queue_body.
  destruct (steps_libcall (cap := cap) (absf := s_view) (fun w => (tt, q_bzero (cap := cap) q w)) v
    (fun _ v' => v' = zeroed q v)) with s as ([] & s1 & v1 & Hr1 & -> & Hs1); [|done|].
  { intros w <-. apply s_bzero. }
  rewrite (test_bind _ _ _ _ _ Hr1).
  destruct (steps_q_access (q_set_i (cap := cap) q 1 1) (zeroed q v) tt
    (set_i q 1 1 (zeroed q v))) with s1 as ([] & s2 & v2 & Hr2 & [_ ->] & Hs2); [|done|].
  { intros w <-. by apply s_set_i. }
  rewrite (test_bind _ _ _ _ _ Hr2).
  destruct (steps_q_access (q_set_i (cap := cap) q 2 2) (set_i q 1 1 (zeroed q v)) tt
    (filled q v)) with s2 as ([] & s3 & v3 & Hr3 & [_ ->] & Hs3); [|done|].
  { intros w Hw. unfold filled. rewrite <- Hw. by apply s_set_i. }
  rewrite (test_bind _ _ _ _ _ Hr3).
  destruct (steps_insert_first q v s3 Hs3) as ([] & s4 & v4 & Hr4 & -> & Hs4).
  rewrite (test_bind _ _ _ _ _ Hr4). by exists s4.
Qed.

(** The body of a queue test: with links it runs to the end and adds up both
    entries, if that is an int; else the second insertion faults. *)
Lemma queue_runs q v s : on (cap := cap) s_view v s ->
  match sp_link P q with
  | None =>
      if sums_fit v
      then exists s', on (cap := cap) s_view (summed q v) s' /\
             queue_body (cap := cap) 2 q s = cheriostest_success s'
      else exists s', queue_body (cap := cap) 2 q s = (Undef, s')
  | Some si => exists s', queue_body (cap := cap) 2 q s = (Raised si, s')
  end.
Proof.
  intros Hs. destruct (queue_start q v s Hs) as (s1 & Hs1 & ->). unfold queue_end.
  destruct (sp_link P q) as [si|] eqn:Hq.
  - destruct Hs1 as [_ Hw]. pose proof (s_insert q 2 (p_world s1)) as Hi.
    rewrite Hw, Hq in Hi. simpl in Hi. rewrite decide_True in Hi by done.
    destruct Hi as (w' & Hi). eexists. by apply run_fault.
  - destruct (steps_insert_second q v Hq s1 Hs1) as ([] & s2 & v2 & Hr2 & -> & Hs2).
    rewrite (test_bind _ _ _ _ _ Hr2).
    destruct (steps_head q v s2 Hs2) as (a & s3 & v3 & Hr3 & [-> ->] & Hs3).
    rewrite (test_bind _ _ _ _ _ Hr3). pose proof (foreach_two q v) as H2.
    destruct (sums_fit v).
    + destruct (H2 s3 Hs3) as ([] & s4 & v4 & Hr4 & -> & Hs4).
      rewrite (test_bind _ _ _ _ _ Hr4). by exists s4.
    + by apply (undefs_bind _ _ _ H2).
Qed.

Lemma queue_judged q v :
  judged (queue_body (cap := cap) 2 q) v (sp_link P q = None /\ sums_fit v = true).
Proof.
  intros s Hs. pose proof (queue_runs q v s Hs) as Hr. unfold succeeds.
  destruct (sp_link P q) as [si|]; [|destruct (sums_fit v)].
  - destruct Hr as (s' & ->). split; [by intros [? ?]|by intros [? _]].
  - destruct Hr as (s' & [Hs' _] & ->). split; [done|]. intros _. exact (succeeds_success s' Hs').
  - destruct Hr as (s' & ->). split; [by intros [? ?]|by intros [_ ?]].
Qed.

Definition queue_tests : list (cheri_test cap W * queue_kind) :=
  [(bounds_subobject_struct_exempt_queue_slist, SList);
   (bounds_subobject_struct_exempt_queue_stailq, STailQ);
   (bounds_subobject_struct_exempt_queue_list, List_);
   (bounds_subobject_struct_exempt_queue_tailq, TailQ)].

Lemma queue_tests_body t q : (t, q) ∈ queue_tests -> ct_func t = queue_body 2 q.
Proof.
  intros Hin. unfold queue_tests in Hin.
  repeat (apply elem_of_cons in Hin as [Hin|Hin]; [by injection Hin as -> ->|]).
  by apply not_elem_of_nil in Hin.
Qed.

(** The array of the global structure is open up to its last element, and to
    the byte behind it in the structure at most. *)
Definition overflow_caught : Prop := array_end = 2049.

Lemma overflow_not_caught : ~ overflow_caught -> array_end = 2050.
Proof. unfold overflow_caught. destruct array_end_cases; tauto. Qed.

(** C30: the verdicts of the tests of bounds of members, for a compiler by the
    ranges that it gives to pointers to members.  The tests of whole members
    pass exactly for the range of the member; those of trailing arrays for the
    range from the member to the expected end, which the test of the annotation
    with no size asks of a flexible array without that annotation; the test of
    the union for the whole union, twice; the test of the exempt member for the
    whole structure; the store into the array always passes.  The tests of the
    queues pass exactly if an entry can be linked in front of another and the
    sums of the entries are ints, and then add them up.  A run of the overflow test files a pass, if
    the range of the array ends with the array and the fault has the announced
    signal, and else a failure. *)
Theorem subobject_verdict v :
  (forall t st name, (t, (st, name)) ∈ precise_tests ->
   exists off m, find_member st 0 name = Some (off, m) /\
     judged (ct_func t) v (sp_range P off m (struct_sizeof st) = (off, off + mb_size m))) /\
  (forall t st name len expected, (t, (st, name, len, expected)) ∈ remaining_tests ->
   exists off m, find_member st 0 name = Some (off, m) /\
     judged (ct_func t) v (sp_range P off m len = (off, off + expected))) /\
  judged (ct_func bounds_subobject_union_two_chararrays) v
    (sp_union P union_chararray16 32 = (0, 32) /\ sp_union P union_chararray32 32 = (0, 32)) /\
  judged (ct_func bounds_subobject_struct_exempt_char) v
    (sp_range P 1 exempt_member 3 = (0, 3)) /\
  judged (ct_func bounds_subjobject_struct_chararray2048_inbounds) v True /\
  (forall t q, (t, q) ∈ queue_tests ->
   judged (ct_func t) v (sp_link P q = None /\ sums_fit v = true) /\
   (sp_link P q = None -> sums_fit v = true -> forall s, on (cap := cap) s_view v s ->
    exists s', s_view (p_world s') = summed q v /\ ct_func t s = cheriostest_success s')) /\
  (forall d, o_qtrace o = false -> o_debugger_enabled o = false ->
   let si := trap_info (cap := cap) (W := W) TBounds in
   handled (cap := cap) (W := W) g (si_signo si) -> 0 <= si_signo si ->
   let t := count_run (expect None (d_tally d)) in
   let name := "bounds_subobject_struct_chararray2048_overflow"%string in
   wp (cheriostest_run_test g o indet_flaky indet_fd overflow_test) (fun _ d' =>
     (overflow_caught /\ expected_signal g overflow_test no_addr si ->
      d_tally d' = file_pass name None None t) /\
     (~ (overflow_caught /\ expected_signal g overflow_test no_addr si) -> exists reason,
      d_tally d' = file_fail name reason None None t)) d).
Proof.
  split_and!.
  - intros. by apply precise_tests_judged.
  - intros. by apply remaining_tests_judged.
  - apply union_judged.
  - apply exempt_judged.
  - apply inbounds_judged.
  - intros t q Hin. rewrite (queue_tests_body t q Hin). split; [apply queue_judged|].
    intros Hq Hf s Hs. pose proof (queue_runs q v s Hs) as Hr. rewrite Hq, Hf in Hr.
    destruct Hr as (s' & [_ Hv] & Hr). by exists s'.
  - intros d Hq Hd si Hh H0. cbv zeta.
    destruct overflow_test_shape as [Hf Hr].
    assert (ct_name overflow_test = "bounds_subobject_struct_chararray2048_overflow"%string /\
      xfail_reason_of overflow_test = None /\ ct_flaky_reason overflow_test = None /\
      ct_func overflow_test = (store_past_array (cap := cap) (W := W) ;;
        cheriostest_failure_errx "Unexpected store success out-of-bounds on subobject array" []))
      as (En & Ex & Ef & Eb).
    { unfold bounds_subobject_struct_chararray2048_overflow, trap_test. by destruct (is_freebsd g). }
    destruct (decide (array_end = 2049)) as [He|He].
    + eapply wpx_mono; [|exact (fault_files_result g o indet_flaky indet_fd overflow_test no_addr si d
        Hq Hd Hr Hf Hh H0 (overflow_faults He))].
      intros [] d' [Hp Hn]. rewrite En, Ex, Ef in *. split; [by intros [_ ?]; apply Hp|].
      intros Hno. apply Hn. intros Hexp. by apply Hno.
    + eapply wpx_mono; [|exact (quiet_body_fails g o indet_flaky indet_fd overflow_test _ _ _ d
        Hq Hd Hr Eb (overflow_quiet (overflow_not_caught He)))].
      intros [] d' Hn. rewrite En, Ex, Ef in *. split; [by intros [? _]|]. by intros _.
Qed.
End Facts.

(** ** A concrete compiler *)

(** It follows the annotations but the one without a size. *)
Definition toy_policy : sub_policy scap := {|
  sp_range off m n :=
    match mb_attr m, mb_count m with
    | NoSubobjectBounds, _ => (0, n)
    | UseRemainingSize (Some k), _ => (off, Z.max (off + mb_size m) (Z.min n (off + k)))
    | _, None => (off, n)
    | _, Some _ => (off, off + mb_size m)
    end;
  sp_union _ n := (0, n);
  sp_link _ := None;
|}.

Definition toy_member (c : scap) (off : Z) (m : member) : scap :=
  let n := cheri_length_get c in
  let r := sp_range toy_policy off m n in
  if decide (r = (0, n)) then cheri_address_set c (u64 (cheri_address_get c + off))
  else SCap (sc_tag c) (cheri_address_get c + off) (cheri_base_get c + r.1) (r.2 - r.1)
         (sc_perms c) (sc_type c).

Definition qchecked {A} (c : scap) (off : Z) (p : perm) (a : A) (w : qview) :
    (A + siginfo scap) * qview :=
  (match byte_check c off p with None => inl a | Some t => inr (toy_trap_info t) end, w).

#[export] Instance queue_kernel : Kernel scap qview := {|
  getpagesize := 4096;
  sys_mmap _ _ _ _ _ _ w := (inr 12, w);
  sys_munmap _ _ w := (inl 0, w);
  sys_mprotect _ _ _ w := (inl 0, w);
  sys_minherit _ _ _ w := (inl 0, w);
  sys_shmget _ _ _ w := (inr 78, w);
  sys_shmat _ _ _ w := (inr 78, w);
  sys_shmdt _ w := (inr 78, w);
  sys_shm_open _ _ _ w := (inr 78, w);
  sys_shm_unlink _ w := (inl 0, w);
  sys_memfd_create _ _ w := (inr 78, w);
  sys_open _ _ w := (inr 78, w);
  sys_mkstemp t w := (inr 78, w);
  sys_unlink _ w := (inl 0, w);
  sys_ftruncate _ _ w := (inl 0, w);
  sys_close _ w := (inl 0, w);
  os_random w := (7, w);
  mem_load_cap c off := qchecked c off PLoad c;
  mem_store_cap c off _ := qchecked c off PStore tt;
  mem_store_byte c off _ := qchecked c off PStore tt;
  stack_local n := toy_object 0x7000 n;
|}.

#[export] Instance queue_varargs : Varargs scap qview := {|
  va_arg _ _ := mret tt;
  printf _ _ := mret tt;
  PROT_CHERI_BOUNDS := 1;
  PROT_CHERI_TAG := 2;
  TRAPNO_LOAD_STORE := 3;
  header_SEGV_CAPTAGERR := Some 10;
  header_SEGV_CAPBOUNDSERR := Some 12;
|}.

#[export] Instance queue_traps : TrapOS scap qview := {|
  mem_load_byte c off := qchecked c off PLoad 0;
  ddc_load_byte _ w := (inr (toy_trap_info (TPage PageLoad)), w);
  ddc_store_byte _ _ w := (inr (toy_trap_info (TPage PageStore)), w);
  branch_to _ w := (inr (toy_trap_info (TPage PageExec)), w);
  static_array := toy_object 0x30000 2;
  cheri_cap_from_pointer := cheri_address_set;
  PROT_CHERI_PERM := 4;
  header_SEGV_CAPPERMERR := Some 13;
  SEGV_MAPERR := 1;
  TRAPNO_LOAD_PF := 14;
  TRAPNO_EXEC_PF := 14;
  VM_MIN_KERNEL_ADDRESS := 2 ^ 63;
|}.

#[export] Instance queue_trap_rules : TrapRules scap qview.
Proof.
  refine {| trap_info := toy_trap_info |}; try done.
  - intros c off w _. simpl. unfold qchecked.
    destruct (byte_check c off PLoad); [by eexists|by eexists _, _].
  - intros c off b w _. simpl. unfold qchecked. destruct (byte_check c off PStore); by eexists.
  - apply (t_bounds (TrapRules := trap_rules)).
  - intros n Hn. by apply toy_object_ok.
  - intros [] a w _; by eexists.
Defined.

#[export] Instance toy_compiler : SubCompiler scap qview := {|
  sub_local n := toy_object 0x7000 n;
  sub_alloca n := toy_object 0x6000 n;
  sub_global := toy_object 0x30000 2050;
  sub_member := toy_member;
  sub_union_member c m := toy_member c 0 (Member "" (cheri_length_get c) 1 (Some 1) NoAttr);
  sub_element := ptr_add;
  q_bzero q w := set_list q [] (set_i q 2 0 (set_i q 1 0 w));
  q_set_i q e x w := (inl tt, set_i q e x w);
  q_insert_head q e w := (inl tt, set_list q (e :: qv_list w q) w);
  q_first q w := (inl (head (qv_list w q)), w);
  q_next q e w := (inl (entry_after (qv_list w q) e), w);
  q_get_i q e w := (inl (qv_i w q e), w);
  side_effect := qv_sum;
  set_side_effect := set_sum;
|}.

Lemma toy_whole a n : 0 <= a < 2 ^ 32 -> 0 < n <= 4096 -> whole (toy_object a n) n.
Proof.
  intros Ha Hn. unfold toy_object, toy_cap.
  split; simpl; rewrite ?Z.add_0_r, ?wrapu_small by lia; try done; lia.
Qed.

Lemma toy_range off m n : fits off m n ->
  let r := sp_range toy_policy off m n in 0 <= r.1 <= off /\ off + mb_size m <= r.2 <= n.
Proof.
  intros (? & ? & ?). simpl. destruct (mb_attr m) as [| |[k|]], (mb_count m); simpl; lia.
Qed.

#[export] Instance toy_sub_rules : SubRules scap qview.
Proof.
  refine {| s_view := fun w => w; s_policy := toy_policy |}; try done.
  - intros n Hn. by apply toy_whole.
  - intros n Hn. by apply toy_whole.
  - intros off m n Hf. by apply toy_range.
  - intros c n off m [Ht Hs Hb Hl He Hp] Hf r d. pose proof (toy_range off m n Hf) as Hr.
    fold r in Hr. cbv zeta in Hr. pose proof (address_range c). pose proof Hf as (? & ? & ?).
    unfold d. simpl sub_member. unfold toy_member. rewrite Hl. fold r.
    case_decide as Hd.
    + rewrite Hd. simpl. simpl in *. rewrite !wrapu_idemp by lia. split_and!; try done; try lia.
      rewrite wrapu_small; lia.
    + simpl in *. clearbody r. rewrite Hb.
      rewrite (wrapu_small 64 (_ + off)), (wrapu_small 64 (_ + r.1)), (wrapu_small 64 (_ - _)) by lia.
      done.
  - intros c n off m Hc Hr. simpl sub_member. unfold toy_member. rewrite (wh_length _ _ Hc).
    by rewrite decide_True.
  - intros c n m Hc Hm. pose proof (wh_length _ _ Hc) as Hl. simpl sub_union_member.
    unfold toy_member, mb_size. simpl in *. rewrite Hl, decide_True; [simpl; lia|].
    unfold mb_size. simpl. f_equal. lia.
  - intros q e x w. by eexists.
  - intros q e w. simpl. destruct (qv_list w q); by eexists.
  - intros q w. by eexists.
  - intros q e w. by eexists.
  - intros q e w. by eexists.
Defined.

Definition queue_start_view : qview := QView (fun _ => []) (fun _ _ => 0) 0.

Definition sub_driver : driver scap qview :=
  Driver tally0 child_state_zero [] 0 queue_start_view.

(** The toy compiler passes the test of the annotation, which it ignores; and
    the sum of the queue tests is 3. *)
Lemma subobject_verdict_witness :
  judged (cap := scap) (fun w => w)
    (ct_func (bounds_subobject_chararray_remaininglength (cap := scap) (W := qview)))
    queue_start_view (sp_range toy_policy 1 (m_flex "chararray") 64 = (1, 64)) /\
  sp_range toy_policy 1 (with_attr (UseRemainingSize None) (m_chars "chararray16" 16)) 64
    = (1, 17) /\
  judged (cap := scap) (fun w => w)
    (ct_func (bounds_subobject_struct_exempt_queue_list (cap := scap) (W := qview)))
    queue_start_view True /\
  qv_sum (summed List_ queue_start_view) = 3 /\
  wp (cheriostest_run_test toy_config options0 None 0
        (bounds_subobject_struct_chararray2048_overflow toy_config))
    (fun _ d' => d_tally d' = file_pass "bounds_subobject_struct_chararray2048_overflow"
                   None None (count_run tally0)) sub_driver.
Proof.
  destruct (subobject_verdict (SR := toy_sub_rules) toy_config options0 None 0 queue_start_view)
    as (_ & Hr & _ & _ & _ & Hq & Ho).
  split; [|split; [reflexivity|split; [|split; [reflexivity|]]]].
  - destruct (Hr bounds_subobject_chararray_remaininglength struct_trailing_chararray_fla
      "chararray"%string 64 63) as (off & m & [= <- <-] & Hj); [do 2 right; left|exact Hj].
  - destruct (Hq bounds_subobject_struct_exempt_queue_list List_) as [Hj _]; [do 2 right; left|].
    refine (judged_iff _ _ _ _ Hj _). by split.
  - eapply wpx_mono; [|apply (Ho sub_driver eq_refl eq_refl)].
    + intros [] d' [Hp _]. apply Hp. split; [reflexivity|]. by vm_compute.
    + unfold handled. apply (bool_decide_unpack _). by vm_compute.
    + simpl. lia.
Defined.
