(* ===== verification/Paths.v ===== *)
(** * Paths: pathnames and strings behind capabilities (cheriostest_cheriabi_open.c, cheriostest_cheriabi_libc.c)

    The tests of open(2) give it paths whose capabilities are good or lack
    bounds, tag, permission or are sealed; the tests of the C library search
    strings up to the end of their bounds.  Memory is a map of bytes.  A kernel
    is described by the checks that it makes before and while it reads a path
    ([copyin]), a library by the place that its searches return;
    [path_tests_verdict] says what the tests accept of both, and that the
    searches that read byte by byte are accepted. *)

From S2P Require Import Prelude Printf Cheri Perms Harness Runner Toy Registers RunnerFacts Kernel VmTags Mappings Reservations Judge Revocation Sealing Traps.

(** What the tests use: local arrays of characters with an alignment and their
    terminator, literals, the allocator, open(2) on a pointer and string.h. *)
Class PathOS (cap W : Type) := {
  char_array : Z -> string -> W -> cap * W;
  string_literal : string -> cap;
  path_calloc : Z -> Z -> W -> option cap * W;
  path_strcpy : cap -> string -> W -> (unit + siginfo cap) * W;
  path_free : cap -> W -> W;
  sys_open_path : cap -> Z -> W -> (Z + Z) * W;
  cheri_sentry_create : cap -> cap;
  libc_memchr : cap -> Z -> Z -> W -> (cap + siginfo cap) * W;
  libc_strchr : cap -> Z -> W -> (cap + siginfo cap) * W;
  libc_strchrnul : cap -> Z -> W -> (cap + siginfo cap) * W;
  O_RDONLY : Z;
  EFAULT : Z;
}.

Definition chr (a : ascii) : Z := Z.of_nat (nat_of_ascii a).
Arguments chr a%_char_scope.

Section Tests.
Context {cap W : Type} {CH : Cheri cap} {LC : Libc cap W} {KE : Kernel cap W} {HP : Perms}
  {SE : SealOS cap W} {TR : TrapOS cap W} {PO : PathOS cap W}.
Context (g : config).

(** ** cheriostest_cheriabi_open.c *)

(** The result of a system call, -1 after an error. *)
Definition int_result (call : W -> (Z + Z) * W) : test cap W Z :=
  r ← try_sys call; mret (default (-1) r).

Definition open_rdonly (path : cap) : test cap W Z :=
  int_result (sys_open_path path (O_RDONLY (cap := cap) (W := W))).

Definition open_and_close (path : cap) : test cap W unit :=
  fd ← open_rdonly path;
  when (fd <? 0) (cheriostest_failure_err "open" []) ;;
  error ← int_result (sys_close fd);
  when (negb (error =? 0)) (cheriostest_failure_err "close" []) ;;
  cheriostest_success.

Definition must_be_refused (fd : Z) : test cap W unit :=
  when (0 <? fd) (cheriostest_failure_errx "open succeeded" []) ;;
  errno ← gets p_errno;
  when (negb (errno =? EFAULT (cap := cap) (W := W)))
    (cheriostest_failure_err "EFAULT expected" []) ;;
  cheriostest_success.

Definition open_refused (path : cap) : test cap W unit :=
  fd ← open_rdonly path; must_be_refused fd.

Definition cheriabi_open_ordinary : cheri_test cap W :=
  CHERIOSTEST "cheriabi_open_ordinary" "Smoke test for open(2)"
    (path ← libcall (char_array 1 "/dev/null"); open_and_close path).

Definition cheriabi_open_offset : cheri_test cap W :=
  CHERIOSTEST "cheriabi_open_offset" "Path with non-zero offset"
    (pathbuf ← libcall (char_array 1 "xxxx/dev/null");
     let path := ptr_add pathbuf 4 in
     open_and_close path).

Definition cheriabi_open_shortened : cheri_test cap W :=
  CHERIOSTEST "cheriabi_open_shortened" "Path shorter than its capability bounds"
    (path ← libcall (char_array 1 "/dev/null/xxxx");
     access (mem_store_byte path 9 0) ;;
     open_and_close path).

Definition cheriabi_open_bad_addr : cheri_test cap W :=
  CHERIOSTEST "cheriabi_open_bad_addr" "Path with nonsensical address"
    (open_refused (cap_of_int 90210)).

Definition cheriabi_open_bad_addr_2 : cheri_test cap W :=
  CHERIOSTEST "cheriabi_open_bad_addr_2" "Path with nonsensical address in kernel range"
    (open_refused (cap_of_int (-90210))).

Definition cheriabi_open_bad_len : cheri_test cap W :=
  CHERIOSTEST "cheriabi_open_bad_len" "Path too long for the capability bounds"
    (pathbuf ← libcall (char_array 1 "/dev/null");
     let path := cheri_bounds_set pathbuf (Z.of_nat (String.length "/dev/null")) in
     open_refused path).

Definition cheriabi_open_bad_len_2 : cheri_test cap W :=
  CHERIOSTEST "cheriabi_open_bad_len_2" "Path with offset past its bounds"
    (pathbuf ← libcall (char_array 1 "xxxx/dev/null");
     let path := cheri_bounds_set pathbuf 3 in
     let path := ptr_add path 4 in
     open_refused path).

Definition cheriabi_open_bad_tag : cheri_test cap W :=
  CHERIOSTEST "cheriabi_open_bad_tag" "Path with tag bit missing"
    (pathbuf ← libcall (char_array 1 "/dev/null");
     let path := cheri_tag_clear pathbuf in
     open_refused path).

Definition cheriabi_open_bad_perm : cheri_test cap W :=
  CHERIOSTEST "cheriabi_open_bad_perm" "Path with CHERI_PERM_LOAD permission missing"
    (pathbuf ← libcall (char_array 1 "/dev/null");
     let path := cheri_perms_and pathbuf (Z.lnot (mask PLoad)) in
     open_refused path).

Definition cheriabi_open_sentry : cheri_test cap W :=
  CHERIOSTEST "cheriabi_open_sentry" "Sealed path"
    (let sealed_path := cheri_sentry_create (W := W) (string_literal (W := W) "/dev/null") in
     open_refused sealed_path).

(** The capability to seal with, on CheriBSD and on Linux. *)
Definition get_sealer : test cap W cap :=
  if is_freebsd g then
    r ← try_sys (sysctl_sealcap (cap := cap));
    match r with
    | Some sealer => mret sealer
    | None => cheriostest_failure_err "sysctlbyname(security.cheri.sealcap)" []
    end
  else
    let sealer := ptr_add (getauxptr_sealcap (W := W)) 1 in
    when (negb (cheri_tag_get sealer) ||
          (Z.land (cheri_perms_get sealer) (mask PSeal) =? 0))
      (cheriostest_failure_err "getauxptr failed" []) ;;
    mret sealer.

(** The test exists where HAS_CHERI_PERM_SEAL is defined. *)
Definition cheriabi_open_sealed : cheri_test cap W :=
  CHERIOSTEST "cheriabi_open_sealed" "Sealed path"
    (sealer ← get_sealer;
     r ← libcall (path_calloc 1 (Z.shiftl 1 12));
     match r with
     | None => cheriostest_failure_err "calloc" []
     | Some path =>
         access (path_strcpy path "/dev/null") ;;
         let sealed_path := cheri_seal path sealer in
         fd ← open_rdonly sealed_path;
         libcall (fun w => (tt, path_free path w)) ;;
         must_be_refused fd
     end).

(** ** cheriostest_cheriabi_libc.c *)

Definition CHERIOSTEST_CHECK_EQ_INT (a b : Z) (a_str b_str : string) : test cap W unit :=
  CHERIOSTEST_CHECK_EQ "0x%x" a b a_str b_str.

(** [CHERIOSTEST_CHECK_EQ_INT( *(char * )search, c)] *)
Definition check_letter (search : W -> (cap + siginfo cap) * W) (c : Z) (a_str b_str : string)
    : test cap W unit :=
  p ← access search;
  v ← access (mem_load_byte p 0);
  CHERIOSTEST_CHECK_EQ_INT v c a_str b_str.

(** [CHERIOSTEST_VERIFY(search == NULL)] *)
Definition verify_null (search : W -> (cap + siginfo cap) * W) (text : string)
    : test cap W unit :=
  p ← access search;
  CHERIOSTEST_VERIFY (cheri_address_get p =? 0) text.

Definition cheriabi_libc_memchr : cheri_test cap W :=
  CHERIOSTEST "cheriabi_libc_memchr" "Check that memchr() works as required"
    (string ← libcall (char_array 16 "0123456789abcde");
     check_letter (libc_memchr string (chr "e") 16) (chr "e")
       "*(char *)memchr(string, 'e', sizeof(string))" "'e'" ;;
     verify_null (libc_memchr string (chr "e") (16 - 2))
       "memchr(string, 'e', sizeof(string) - 2) == NULL" ;;
     check_letter (libc_memchr (cheri_bounds_set string (16 - 1)) (chr "e") 16) (chr "e")
       "*(char *)memchr(cheri_bounds_set(string, sizeof(string) - 1), 'e', sizeof(string))" "'e'" ;;
     cheriostest_success).

Definition cheriabi_libc_strchr : cheri_test cap W :=
  CHERIOSTEST "cheriabi_libc_strchr" "Check that strchr() works as required"
    (string ← libcall (char_array 16 "0123456789abcdefghij");
     check_letter (libc_strchr string (chr "e")) (chr "e")
       "*(char *)strchr(string, 'e')" "'e'" ;;
     verify_null (libc_strchr string (chr "z")) "strchr(string, 'z') == NULL" ;;
     check_letter (libc_strchr string (chr "g")) (chr "g")
       "*(char *)strchr(string, 'g')" "'g'" ;;
     cheriostest_success).

Definition cheriabi_libc_strchrnul : cheri_test cap W :=
  CHERIOSTEST "cheriabi_libc_strchrnul" "Check that strchrnul() works as required"
    (string ← libcall (char_array 16 "0123456789abcdefghij");
     check_letter (libc_strchrnul string (chr "e")) (chr "e")
       "*(char *)strchrnul(string, 'e')" "'e'" ;;
     check_letter (libc_strchrnul string (chr "z")) (chr "000")
       "*(char *)strchrnul(string, 'z')" "'\0'" ;;
     check_letter (libc_strchrnul string (chr "g")) (chr "g")
       "*(char *)strchrnul(string, 'g')" "'g'" ;;
     cheriostest_success).
End Tests.

(** ** Memory *)

Definition str_bytes (s : string) : list Z := map chr (list_ascii_of_string s) ++ [0].

Fixpoint write_bytes (a : Z) (l : list Z) (m : gmap Z Z) : gmap Z Z :=
  match l with
  | [] => m
  | b :: l' => <[a := b]> (write_bytes (a + 1) l' m)
  end.

(** The bytes [l] are at [a]. *)
Definition holds (m : gmap Z Z) (a : Z) (l : list Z) : Prop :=
  forall i b, l !! i = Some b -> m !! (a + Z.of_nat i) = Some b.

Lemma write_bytes_before l : forall a x m, x < a -> write_bytes a l m !! x = m !! x.
Proof.
  induction l as [|b l IH]; intros a x m Hx; [done|]. simpl.
  rewrite lookup_insert_ne by lia. apply IH. lia.
Qed.

Lemma holds_write a l m : holds (write_bytes a l m) a l.
Proof.
  revert a. induction l as [|b l IH]; intros a i x Hi; [done|]. destruct i as [|i]; simpl in Hi.
  - injection Hi as ->. simpl. rewrite Z.add_0_r. by rewrite lookup_insert_eq.
  - simpl. rewrite lookup_insert_ne by lia.
    replace (a + Z.of_nat (S i)) with (a + 1 + Z.of_nat i) by lia. by apply IH.
Qed.

Lemma holds_tail m a l1 l2 : holds m a (l1 ++ l2) -> holds m (a + Z.of_nat (length l1)) l2.
Proof.
  intros H i b Hi. replace (a + Z.of_nat (length l1) + Z.of_nat i)
    with (a + Z.of_nat (length l1 + i)) by lia.
  apply H. by rewrite lookup_app_r, Nat.add_comm, Nat.add_sub by lia.
Qed.

(** ** Kernels and libraries *)

(** What a kernel checks of the capability of a path. *)
Record path_checks := PathChecks {
  chk_tag : bool;
  chk_seal : bool;
  chk_perm : bool;
  chk_bounds : bool;
}.

Inductive search_result := Found (i : Z) | Absent | Faults.

(** The checks, the file system, and the library: what a search in a memory
    finds behind a capability. *)
Record path_policy (cap : Type) := PathPolicy {
  pp_checks : path_checks;
  pp_open : list Z -> Z + Z;
  pp_memchr : gmap Z Z -> cap -> Z -> Z -> search_result;
  pp_strchr : gmap Z Z -> cap -> Z -> search_result;
  pp_strchrnul : gmap Z Z -> cap -> Z -> search_result;
  pp_fault : siginfo cap;
}.
Arguments pp_checks {cap} _.
Arguments pp_open {cap} _ _.
Arguments pp_memchr {cap} _ _ _ _ _.
Arguments pp_strchr {cap} _ _ _ _.
Arguments pp_strchrnul {cap} _ _ _ _.
Arguments pp_fault {cap} _.

Section Rules.
Context {cap W : Type} {CH : Cheri cap} {HP : Perms} {KE : Kernel cap W} {TR : TrapOS cap W}
  {SE : SealOS cap W} {PO : PathOS cap W}.

Definition in_reach (c : cap) (off : Z) : bool :=
  (cheri_base_get c <=? cheri_address_get c + off) &&
  (cheri_address_get c + off <? cheri_base_get c + cheri_length_get c).

(** copyinstr(9): the bytes up to the terminator, or EFAULT. *)
Fixpoint copyin (ck : path_checks) (m : gmap Z Z) (c : cap) (off : Z) (fuel : nat)
    : option (list Z) :=
  match fuel with
  | O => None
  | S fuel' =>
      if chk_bounds ck && negb (in_reach c off) then None
      else match m !! (cheri_address_get c + off) with
           | None => None
           | Some b => if b =? 0 then Some [] else cons b <$> copyin ck m c (off + 1) fuel'
           end
  end.

(** The checks that come first. *)
Definition blocked (ck : path_checks) (c : cap) : bool :=
  chk_tag ck && negb (cheri_tag_get c) || chk_seal ck && cheri_is_sealed c ||
  chk_perm ck && negb (flag_set (cheri_perms_get c) (mask PLoad)).

(** PATH_MAX, on CheriBSD. *)
Definition PATHS_MAX : nat := 1024.

Definition open_result (P : path_policy cap) (m : gmap Z Z) (c : cap) : Z + Z :=
  if blocked (pp_checks P) c then inr (EFAULT (cap := cap) (W := W))
  else match copyin (pp_checks P) m c 0 PATHS_MAX with
       | Some path => pp_open P path
       | None => inr (EFAULT (cap := cap) (W := W))
       end.

(** A capability that can read [n] bytes from its base on. *)
Record region (c : cap) (n : Z) : Prop := {
  rg_tag : cheri_tag_get c = true;
  rg_unsealed : cheri_is_sealed c = false;
  rg_base : cheri_base_get c = cheri_address_get c;
  rg_length : cheri_length_get c = n;
  rg_end : cheri_address_get c + n < 2 ^ 64;
  rg_load : flag_set (cheri_perms_get c) (mask PLoad) = true;
}.

(** Same bounds and address, and the permission to load. *)
Definition alike (d c : cap) : Prop :=
  cheri_address_get d = cheri_address_get c /\ cheri_base_get d = cheri_base_get c /\
  cheri_length_get d = cheri_length_get c /\ cheri_perms_get d = cheri_perms_get c.

Definition search_value (P : path_policy cap) (c : cap) (r : search_result)
    : cap + siginfo cap :=
  match r with
  | Found i => inl (ptr_add c i)
  | Absent => inl cap_null
  | Faults => inr (pp_fault P)
  end.

Definition short (s : string) : Prop := (String.length s < 256)%nat.

(** A call that leaves the memory alone. *)
Definition keeps {A} (view : W -> gmap Z Z) (f : W -> A * W) (w : W) (a : A) : Prop :=
  exists w', f w = (a, w') /\ view w' = view w.

Class PathRules := {
  p_view : W -> gmap Z Z;
  p_policy : path_policy cap;
  (* arrays and literals *)
  r_place : Z -> string -> cap;           (* where a test has its array *)
  r_array k s w : short s -> exists w', char_array k s w = (r_place k s, w') /\
    p_view w' = write_bytes (cheri_address_get (r_place k s)) (str_bytes s) (p_view w);
  r_array_region k s : short s -> let c := r_place k s in
    region c (Z.of_nat (String.length s) + 1) /\ 0 < cheri_address_get c /\
    flag_set (cheri_perms_get c) (mask PStore) = true;
  r_literal s : short s ->
    region (string_literal (W := W) s) (Z.of_nat (String.length s) + 1);
  (* loads and stores *)
  r_load c w : cheri_is_sealed c = false -> byte_check c 0 PLoad = None ->
    keeps p_view (mem_load_byte c 0) w (inl (default 0 (p_view w !! cheri_address_get c)));
  r_load_untagged (c : cap) w : cheri_tag_get c = false ->
    exists w', mem_load_byte c 0 w = (inr (pp_fault p_policy), w');
  r_store (c : cap) off b w : cheri_is_sealed c = false -> byte_check c off PStore = None ->
    exists w', mem_store_byte c off b w = (inl tt, w') /\
      p_view w' = <[cheri_address_get c + off := b]> (p_view w);
  (* capabilities *)
  r_bounds (c : cap) n k : region c n -> 0 < k <= n -> k <= 64 ->
    region (cheri_bounds_set c k) k /\
    cheri_address_get (cheri_bounds_set c k) = cheri_address_get c;
  r_near (c : cap) n k : region c n -> 0 <= k <= n + 8 -> cheri_address_get c + k < 2 ^ 64 ->
    cheri_tag_get (ptr_add c k) = true /\ cheri_is_sealed (ptr_add c k) = false;
  r_tag_clear (c : cap) : alike (cheri_tag_clear c) c /\
    cheri_is_sealed (cheri_tag_clear c) = cheri_is_sealed c;
  r_sentry (c : cap) n : region c n -> let d := cheri_sentry_create (W := W) c in
    alike d c /\ (cheri_tag_get d = true -> cheri_is_sealed d = true);
  r_seal (c s : cap) : alike (cheri_seal c s) c;
  (* the allocator *)
  r_calloc w : exists c w', path_calloc 1 (Z.shiftl 1 12) w = (Some c, w') /\
    region c 4096 /\ p_view w' = p_view w;
  r_strcpy (c : cap) s w : region c 4096 -> short s ->
    exists w', path_strcpy c s w = (inl tt, w') /\
      p_view w' = write_bytes (cheri_address_get c) (str_bytes s) (p_view w);
  r_free (c : cap) w : p_view (path_free c w) = p_view w;
  r_sealcap : cap + Z;
  r_sysctl w : keeps p_view (sysctl_sealcap (cap := cap)) w r_sealcap;
  (* the kernel *)
  r_open (c : cap) w :
    keeps p_view (sys_open_path c (O_RDONLY (cap := cap) (W := W))) w
      (open_result p_policy (p_view w) c);
  r_close fd w : keeps p_view (sys_close (cap := cap) fd) w (inl 0);
  (* the library *)
  r_memchr (c : cap) ch n w : keeps p_view (libc_memchr c ch n) w
    (search_value p_policy c (pp_memchr p_policy (p_view w) c ch n));
  r_strchr (c : cap) ch w : keeps p_view (libc_strchr c ch) w
    (search_value p_policy c (pp_strchr p_policy (p_view w) c ch));
  r_strchrnul (c : cap) ch w : keeps p_view (libc_strchrnul c ch) w
    (search_value p_policy c (pp_strchrnul p_policy (p_view w) c ch));
  r_found_memchr (m : gmap Z Z) c ch n i : pp_memchr p_policy m c ch n = Found i ->
    0 <= i < cheri_length_get c;
  r_found_strchr (m : gmap Z Z) c ch i : pp_strchr p_policy m c ch = Found i ->
    0 <= i < cheri_length_get c;
  r_found_strchrnul (m : gmap Z Z) c ch i : pp_strchrnul p_policy m c ch = Found i ->
    0 <= i < cheri_length_get c;
}.
End Rules.
Arguments PathRules cap W {_ _ _ _ _ _}.

(** *** Searches that read byte by byte *)

Section Searches.
Context {cap : Type} {CH : Cheri cap}.

(** Read on until [hit] has a result for a byte and its place. *)
Fixpoint search_seq (m : gmap Z Z) (c : cap) (hit : Z -> Z -> option search_result) (i : Z)
    (fuel : nat) : search_result :=
  match fuel with
  | O => Absent
  | S fuel' =>
      match (if in_reach c i then m !! (cheri_address_get c + i) else None) with
      | None => Faults
      | Some b => match hit b i with
                  | Some r => r
                  | None => search_seq m c hit (i + 1) fuel'
                  end
      end
  end.

Definition memchr_seq (m : gmap Z Z) (c : cap) (ch n : Z) : search_result :=
  search_seq m c (fun b i => if b =? ch then Some (Found i) else None) 0 (Z.to_nat n).
Definition strchr_seq (m : gmap Z Z) (c : cap) (ch : Z) : search_result :=
  search_seq m c (fun b i => if b =? ch then Some (Found i)
                             else if b =? 0 then Some Absent else None)
    0 (S (Z.to_nat (cheri_length_get c))).
Definition strchrnul_seq (m : gmap Z Z) (c : cap) (ch : Z) : search_result :=
  search_seq m c (fun b i => if (b =? ch) || (b =? 0) then Some (Found i) else None)
    0 (S (Z.to_nat (cheri_length_get c))).

Lemma search_seq_misses m c hit l : forall off fuel,
  holds m (cheri_address_get c + off) l ->
  (forall k x, l !! k = Some x ->
   in_reach c (off + Z.of_nat k) = true /\ hit x (off + Z.of_nat k) = None) ->
  search_seq m c hit off (length l + fuel) =
    search_seq m c hit (off + Z.of_nat (length l)) fuel.
Proof.
  induction l as [|b l IH]; intros off fuel Hm Hl; simpl; [by rewrite Z.add_0_r|].
  pose proof (Hl 0%nat b eq_refl) as [Hr Hh]. pose proof (Hm 0%nat b eq_refl) as Hb.
  rewrite !Z.add_0_r in *. rewrite Hr, Hb, Hh, (IH (off + 1)).
  - f_equal. lia.
  - intros k x Hk. replace (cheri_address_get c + (off + 1) + Z.of_nat k)
      with (cheri_address_get c + off + Z.of_nat (S k)) by lia. by apply Hm.
  - intros k x Hk. replace (off + 1 + Z.of_nat k) with (off + Z.of_nat (S k)) by lia.
    by apply Hl.
Qed.

Lemma search_seq_hits m c hit l b r fuel :
  holds m (cheri_address_get c) (l ++ [b]) ->
  (forall k, (k <= length l)%nat -> in_reach c (Z.of_nat k) = true) ->
  (forall k x, l !! k = Some x -> hit x (Z.of_nat k) = None) ->
  hit b (Z.of_nat (length l)) = Some r ->
  search_seq m c hit 0 (length l + S fuel) = r.
Proof.
  intros Hm Hreach Hl Hb. rewrite search_seq_misses.
  - rewrite Z.add_0_l. cbn [search_seq]. rewrite Hreach by lia. pose proof (holds_tail _ _ _ _ Hm 0%nat b eq_refl) as Hx.
    rewrite Z.add_0_r in Hx. by rewrite Hx, Hb.
  - rewrite Z.add_0_r. intros i x Hi. apply Hm. by apply lookup_app_l_Some.
  - intros k x Hk. split; [|by apply Hl]. apply Hreach. apply lookup_lt_Some in Hk. lia.
Qed.
End Searches.

(** ** What the tests accept *)

Section Facts.
Context {cap W : Type} {CH : Cheri cap} {CL : CheriLaws cap} {CO : CapOps cap}
  {LC : Libc cap W} {KE : Kernel cap W} {HP : Perms} {PL : PermLaws} {SE : SealOS cap W}
  {TR : TrapOS cap W} {PO : PathOS cap W} {PR : PathRules cap W} {SL : SealLaws cap}.
Context (g : config).

Abbreviation P := (p_policy (cap := cap) (W := W)).
Abbreviation ck := (pp_checks P).
Abbreviation judged := (judged (cap := cap) p_view).
Abbreviation on := (on (cap := cap) p_view).

Definition dev_null : list Z := map chr (list_ascii_of_string "/dev/null").

(** What the file system says to the path. *)
Abbreviation opened := (pp_open P dev_null).

(** *** Reading a path *)

Lemma copyin_spec k m (c : cap) l : forall off fuel,
  holds m (cheri_address_get c + off) (l ++ [0]) -> Forall (fun b => b <> 0) l ->
  (length l < fuel)%nat ->
  copyin k m c off fuel =
    if chk_bounds k && negb (forallb (in_reach c) (seqZ off (Z.of_nat (length l) + 1))) then None
    else Some l.
Proof.
  induction l as [|b l IH]; intros off fuel Hm Hl Hf; (destruct fuel as [|fuel]; [simpl in Hf; lia|]).
  - pose proof (Hm 0%nat 0 eq_refl) as H0. rewrite Z.add_0_r in H0.
    cbn [length copyin]. rewrite H0. rewrite seqZ_cons by lia.
    change (Z.pred (Z.of_nat 0 + 1)) with 0. rewrite seqZ_nil by lia. cbn [forallb].
    by destruct (chk_bounds k), (in_reach c off).
  - inversion Hl as [|? ? Hb Hl']; subst. simpl copyin.
    pose proof (Hm 0%nat b eq_refl) as H0. rewrite Z.add_0_r in H0. rewrite H0.
    rewrite (proj2 (Z.eqb_neq b 0) Hb). rewrite (IH (off + 1)); [| |done|simpl in Hf; lia].
    + simpl length. rewrite (seqZ_cons off) by lia. simpl forallb.
      replace (Z.pred (Z.of_nat (S (length l)) + 1)) with (Z.of_nat (length l) + 1) by lia.
      unfold Z.succ. by destruct (chk_bounds k), (in_reach c off), (forallb _ _).
    + intros i x Hi. replace (cheri_address_get c + (off + 1) + Z.of_nat i)
        with (cheri_address_get c + off + Z.of_nat (S i)) by lia. by apply Hm.
Qed.

(** The bytes of the path and of its terminator. *)
Definition reaches (c : cap) : bool := forallb (in_reach c) (seqZ 0 10).

(** What a kernel refuses. *)
Definition path_refused (c : cap) : bool := blocked ck c || chk_bounds ck && negb (reaches c).

Lemma open_dev_null m (c : cap) : holds m (cheri_address_get c) (str_bytes "/dev/null") ->
  open_result (W := W) P m c =
    if path_refused c then inr (EFAULT (cap := cap) (W := W)) else opened.
Proof.
  intros Hm. unfold open_result, path_refused. destruct (blocked ck c); [done|].
  rewrite (copyin_spec _ _ _ dev_null).
  - simpl length. unfold reaches. simpl orb. by destruct (chk_bounds ck && _).
  - by rewrite Z.add_0_r.
  - by repeat constructor.
  - unfold PATHS_MAX. simpl length. lia.
Qed.

Lemma reaches_iff (c : cap) : reaches c = true <->
  cheri_base_get c <= cheri_address_get c /\
  cheri_address_get c + 10 <= cheri_base_get c + cheri_length_get c.
Proof.
  unfold reaches. rewrite forallb_forall. setoid_rewrite <- list_elem_of_In.
  setoid_rewrite elem_of_seqZ. unfold in_reach. split.
  - intros H. pose proof (H 0 ltac:(lia)) as H0. pose proof (H 9 ltac:(lia)) as H9.
    rewrite andb_true_iff, Z.leb_le, Z.ltb_lt in H0, H9. lia.
  - intros H x Hx. rewrite andb_true_iff, Z.leb_le, Z.ltb_lt. lia.
Qed.

(** *** The two kinds of tests *)

Definition opens : Prop := exists fd, opened = inl fd /\ 0 <= fd.

(** What a test that expects a refusal accepts, with the errno from before:
    descriptor 0 is taken for an error. *)
Definition refusal_seen (r : Z + Z) (errno : Z) : Prop :=
  match r with
  | inl fd => fd <= 0 /\ errno = EFAULT (cap := cap) (W := W)
  | inr err => err = EFAULT (cap := cap) (W := W)
  end.

Definition seen_unless (b : bool) (errno : Z) : Prop :=
  b = true \/ refusal_seen opened errno.

Lemma int_result_run call s (r : Z + Z) :
  keeps p_view call (p_world s) r ->
  exists w', p_view w' = p_view (p_world s) /\
    int_result (cap := cap) call s =
      match r with
      | inl a => (Val a, set_world w' s)
      | inr e => (Val (-1), set_errno e (set_world w' s))
      end.
Proof.
  intros (w' & Hr & Hv). exists w'. split; [done|]. unfold int_result.
  pose proof (try_sys_run call s r w' Hr) as Ht. unfold mbind, eff_bind.
  rewrite Ht. by destruct r.
Qed.

Lemma must_be_refused_iff fd s : shared s ->
  (succeeds (must_be_refused (cap := cap) (W := W) fd) s <->
   fd <= 0 /\ p_errno s = EFAULT (cap := cap) (W := W)).
Proof.
  intros Hs. unfold must_be_refused. destruct (Z.ltb_spec 0 fd) as [Hf|Hf]; simpl when.
  - split; [intros H; by apply failure_prefix in H|lia].
  - rewrite succeeds_ret, (succeeds_bind (gets p_errno) _ s (p_errno s) s eq_refl).
    destruct (Z.eqb_spec (p_errno s) (EFAULT (cap := cap) (W := W))) as [E|E]; simpl.
    + rewrite succeeds_ret. split; [done|]. intros _. by apply succeeds_success.
    + split; [|by intros [_ ?]]. intros H. by apply failure_err_prefix in H.
Qed.

Lemma open_seen v s (c : cap) : on v s ->
  exists s', on v s' /\ (exists fd, open_rdonly c s = (Val fd, s') /\
    (fd <= 0 /\ p_errno s' = EFAULT (cap := cap) (W := W) <->
     refusal_seen (open_result (W := W) P v c) (p_errno s))).
Proof.
  intros [Hs Hv]. destruct (int_result_run _ s _ (r_open c (p_world s))) as (w' & Hw & Hr).
  rewrite Hv in Hw, Hr. unfold open_rdonly.
  destruct (open_result P v c) as [fd|err].
  - exists (set_world w' s). split; [by split|]. by exists fd.
  - exists (set_errno err (set_world w' s)). split; [by split|]. exists (-1). split; [done|].
    simpl. split; [by intros [_ ?]|by split].
Qed.

Lemma open_refused_iff v s (c : cap) : on v s ->
  (succeeds (open_refused c) s <-> refusal_seen (open_result (W := W) P v c) (p_errno s)).
Proof.
  intros Hs. destruct (open_seen v s c Hs) as (s' & [Hs' _] & fd & Hr & Hiff).
  unfold open_refused. rewrite (succeeds_bind _ _ _ _ _ Hr), must_be_refused_iff by done. exact Hiff.
Qed.

Lemma open_and_close_iff v s (c : cap) : on v s ->
  (succeeds (open_and_close c) s <->
   exists fd, open_result (W := W) P v c = inl fd /\ 0 <= fd).
Proof.
  intros [Hs Hv]. destruct (int_result_run _ s _ (r_open c (p_world s))) as (w' & Hw & Hr).
  rewrite Hv in Hr. unfold open_and_close, open_rdonly.
  destruct (open_result P v c) as [fd|err]; rewrite (succeeds_bind _ _ _ _ _ Hr).
  - destruct (Z.ltb_spec fd 0) as [Hf|Hf]; simpl when.
    + split; [intros H; by apply failure_err_prefix in H|]. intros (fd' & [= ->] & ?). lia.
    + rewrite succeeds_ret.
      destruct (int_result_run _ (set_world w' s) _ (r_close fd w')) as (w2 & Hw2 & Hr2).
      rewrite (succeeds_bind _ _ _ _ _ Hr2). simpl. rewrite succeeds_ret.
      split; [by exists fd|]. intros _. by apply succeeds_success.
  - split; [intros H; by apply failure_err_prefix in H|]. by intros (fd' & [=] & ?).
Qed.

(** *** The capabilities of the tests *)

Lemma array_start {A} k str (m : cap -> test cap W A) v s : on v s -> short str ->
  let c := r_place (cap := cap) (W := W) k str in
  exists s', on (write_bytes (cheri_address_get c) (str_bytes str) v) s' /\
    p_errno s' = p_errno s /\
    (succeeds (path ← libcall (char_array k str); m path) s <-> succeeds (m c) s').
Proof.
  intros [Hs Hv] Hk c. destruct (r_array k str (p_world s) Hk) as (w' & Hr & Hw).
  rewrite Hv in Hw. exists (set_world w' s). split; [by split|]. split; [done|].
  apply succeeds_bind. unfold libcall. by rewrite Hr.
Qed.

(** A good capability is not refused for anything but its reach. *)
Lemma refused_good (c : cap) : cheri_tag_get c = true -> cheri_is_sealed c = false ->
  flag_set (cheri_perms_get c) (mask PLoad) = true ->
  path_refused c = chk_bounds ck && negb (reaches c).
Proof.
  intros Ht Hs Hp. unfold path_refused, blocked. rewrite Ht, Hs, Hp. simpl. by rewrite !andb_false_r.
Qed.

Lemma region_reaches (c : cap) n : region c n -> 10 <= n -> reaches c = true.
Proof. intros [] Hn. apply reaches_iff. lia. Qed.

Lemma near_same (c : cap) n k : region c n -> 0 <= k <= n + 8 ->
  cheri_address_get c + k < 2 ^ 64 ->
  let d := ptr_add c k in
  cheri_tag_get d = true /\ cheri_is_sealed d = false /\
  cheri_address_get d = cheri_address_get c + k /\ cheri_base_get d = cheri_address_get c /\
  cheri_length_get d = n /\ flag_set (cheri_perms_get d) (mask PLoad) = true.
Proof.
  intros Hc Hk He d. pose proof (address_range c).
  destruct (r_near c n k Hc Hk) as [Ht Hs]; [lia|]. unfold ptr_add in *.
  rewrite wrapu_small in Ht, Hs by lia. unfold d. rewrite wrapu_small by lia. destruct (address_set_bounds _ _ Ht) as [Hb Hl].
  rewrite Hb, Hl, address_set_perms, address_set_address, (rg_base _ _ Hc), (rg_length _ _ Hc),
    (rg_load _ _ Hc), wrapu_small by lia. done.
Qed.

Lemma dropped_load (c : cap) :
  flag_set (cheri_perms_get (cheri_perms_and c (Z.lnot (mask PLoad)))) (mask PLoad) = false.
Proof. exact (perms_dropped c PLoad). Qed.

Lemma good_verdict m s (c : cap) : on m s -> holds m (cheri_address_get c) (str_bytes "/dev/null") ->
  path_refused c = false -> (succeeds (open_and_close c) s <-> opens).
Proof. intros Hs Hm Hr. rewrite (open_and_close_iff m), (open_dev_null m c Hm), Hr by done. done. Qed.

Lemma bad_verdict m s (c : cap) e : on m s -> p_errno s = e ->
  holds m (cheri_address_get c) (str_bytes "/dev/null") ->
  (succeeds (open_refused c) s <-> seen_unless (path_refused c) e).
Proof.
  intros Hs <- Hm. rewrite (open_refused_iff m), (open_dev_null m c Hm) by done.
  unfold seen_unless. destruct (path_refused c).
  - split; [by left|done].
  - split; [by right|by intros [?|?]].
Qed.

Definition good_tests : list (cheri_test cap W) :=
  [cheriabi_open_ordinary; cheriabi_open_offset; cheriabi_open_shortened].

Lemma array_holds k str v : let a := cheri_address_get (r_place (cap := cap) (W := W) k str) in
  holds (write_bytes a (str_bytes str) v) a (str_bytes str).
Proof. apply holds_write. Qed.

Lemma good_tests_verdict t v s : t ∈ good_tests -> on v s ->
  (succeeds (ct_func t) s <-> opens).
Proof.
  intros Hin Hs. unfold good_tests in Hin.
  repeat (apply elem_of_cons in Hin as [->|Hin]); [..|by apply not_elem_of_nil in Hin].
  - destruct (array_start 1 "/dev/null" open_and_close v s Hs) as (s' & Hs' & _ & Hiff);
      [unfold short; simpl; lia|].
    destruct (r_array_region (cap := cap) (W := W) 1 "/dev/null") as (Hc & _); [unfold short; simpl; lia|].
    etrans; [exact Hiff|]. apply (good_verdict _ _ _ Hs'); [apply array_holds|].
    rewrite refused_good by apply Hc. rewrite (region_reaches _ _ Hc) by done. by rewrite andb_false_r.
  - destruct (array_start 1 "xxxx/dev/null" (fun c => open_and_close (ptr_add c 4)) v s Hs)
      as (s' & Hs' & _ & Hiff); [unfold short; simpl; lia|].
    destruct (r_array_region (cap := cap) (W := W) 1 "xxxx/dev/null") as (Hc & _);
      [unfold short; simpl; lia|].
    pose proof (rg_end _ _ Hc) as He. simpl in He.
    destruct (near_same _ _ 4 Hc) as (T & S & A & B & L & G); [simpl; lia|lia|].
    etrans; [exact Hiff|]. apply (good_verdict _ _ _ Hs').
    + rewrite A. apply (holds_tail _ _ (map chr (list_ascii_of_string "xxxx"))). apply array_holds.
    + rewrite refused_good by done. replace (reaches _) with true; [by rewrite andb_false_r|].
      symmetry. apply reaches_iff. rewrite A, B, L. simpl. lia.
  - destruct (array_start 1 "/dev/null/xxxx"
      (fun c => access (mem_store_byte c 9 0) ;; open_and_close c) v s Hs)
      as (s' & Hs' & _ & Hiff); [unfold short; simpl; lia|].
    destruct (r_array_region (cap := cap) (W := W) 1 "/dev/null/xxxx") as (Hc & _ & Hst);
      [unfold short; simpl; lia|].
    set (c := r_place 1 "/dev/null/xxxx") in *.
    etrans; [exact Hiff|].
    assert (byte_check c 9 PStore = None) as Hb.
    { unfold byte_check. rewrite (rg_tag _ _ Hc), Hst, (rg_base _ _ Hc), (rg_length _ _ Hc). simpl.
      rewrite (proj2 (Z.leb_le _ _)), (proj2 (Z.ltb_lt _ _)) by lia. done. }
    destruct (r_store c 9 0 (p_world s') (rg_unsealed _ _ Hc) Hb) as (w' & Hr & Hw).
    destruct Hs' as [Hs' Hv'].
    assert (access (mem_store_byte c 9 0) s' = (Val tt, set_world w' s')) as Hrun
      by (unfold access; by rewrite Hr).
    rewrite (succeeds_bind _ _ _ _ _ Hrun). rewrite Hv' in Hw.
    apply (good_verdict _ (set_world w' s') _ (conj Hs' Hw)).
    + pose proof (array_holds 1 "/dev/null/xxxx" v) as Hh. fold c in Hh. cbv zeta in Hh.
      intros i b Hi. destruct (decide (i = 9)%nat) as [->|Hne].
      * injection Hi as <-. by rewrite lookup_insert_eq.
      * rewrite lookup_insert_ne by lia. apply Hh.
        do 10 (destruct i as [|i]; [try done; exact Hi|]). done.
    + rewrite refused_good by apply Hc. rewrite (region_reaches _ _ Hc) by done.
      by rewrite andb_false_r.
Qed.

(** The check that each of the bad capabilities is there for. *)
Definition bad_tests : list (cheri_test cap W * bool) :=
  [(cheriabi_open_bad_len, chk_bounds ck); (cheriabi_open_bad_len_2, chk_bounds ck);
   (cheriabi_open_bad_tag, chk_tag ck); (cheriabi_open_bad_perm, chk_perm ck)].

Lemma bad_start k str (f : cap -> cap) v s : on v s -> short str ->
  let c := r_place (cap := cap) (W := W) k str in
  region c (Z.of_nat (String.length str) + 1) /\
  (holds (write_bytes (cheri_address_get c) (str_bytes str) v) (cheri_address_get (f c))
     (str_bytes "/dev/null") ->
   (succeeds (path ← libcall (char_array k str); open_refused (f path)) s <->
    seen_unless (path_refused (f c)) (p_errno s))).
Proof.
  intros Hs Hk c. split; [by apply r_array_region|]. intros Hh.
  destruct (array_start k str (fun c => open_refused (f c)) v s Hs Hk)
    as (s' & Hs' & He & Hiff).
  etrans; [exact Hiff|]. by apply (bad_verdict _ _ _ _ Hs' He).
Qed.

Lemma bad_tests_verdict t b v s : (t, b) ∈ bad_tests -> on v s ->
  (succeeds (ct_func t) s <-> seen_unless b (p_errno s)).
Proof.
  intros Hin Hs. unfold bad_tests in Hin.
  repeat (apply elem_of_cons in Hin as [[= -> ->]|Hin]); [..|by apply not_elem_of_nil in Hin].
  - destruct (bad_start 1 "/dev/null" (fun c => cheri_bounds_set c 9) v s Hs) as [Hc Hiff];
      [unfold short; simpl; lia|].
    destruct (r_bounds _ _ 9 Hc) as [Hd Ha]; [done|done|].
    etrans; [apply Hiff; rewrite Ha; apply array_holds|].
    rewrite refused_good by apply Hd. replace (reaches _) with false; [by rewrite andb_true_r|].
    symmetry. apply not_true_is_false. rewrite reaches_iff, (rg_base _ _ Hd), (rg_length _ _ Hd). lia.
  - destruct (bad_start 1 "xxxx/dev/null" (fun c => ptr_add (cheri_bounds_set c 3) 4) v s Hs)
      as [Hc Hiff]; [unfold short; simpl; lia|].
    destruct (r_bounds _ _ 3 Hc) as [Hd Ha]; [done|done|].
    pose proof (rg_end _ _ Hc) as He. simpl in He. rewrite <- Ha in He.
    destruct (near_same _ _ 4 Hd) as (T & S & A & B & L & G); [lia|lia|].
    etrans; [apply Hiff|].
    + rewrite A, Ha. apply (holds_tail _ _ (map chr (list_ascii_of_string "xxxx"))).
      apply array_holds.
    + rewrite refused_good by done. replace (reaches _) with false; [by rewrite andb_true_r|].
      symmetry. apply not_true_is_false. rewrite reaches_iff, A, B, L. lia.
  - destruct (bad_start 1 "/dev/null" cheri_tag_clear v s Hs) as [Hc Hiff];
      [unfold short; simpl; lia|].
    destruct (r_tag_clear (W := W) (r_place (W := W) 1 "/dev/null")) as [(A & B & L & G) S].
    etrans; [apply Hiff; rewrite A; apply array_holds|].
    unfold path_refused, blocked. rewrite tag_clear_tag, S, G, (rg_unsealed _ _ Hc), (rg_load _ _ Hc).
    replace (reaches _) with true; [by rewrite !andb_false_r, andb_true_r, !orb_false_r|].
    symmetry. apply reaches_iff. rewrite A, B, L, (rg_base _ _ Hc), (rg_length _ _ Hc). simpl. lia.
  - destruct (bad_start 1 "/dev/null" (fun c => cheri_perms_and c (Z.lnot (mask PLoad))) v s Hs)
      as [Hc Hiff]; [unfold short; simpl; lia|].
    destruct (perms_and_keeps _ (Z.lnot (mask PLoad)) (rg_unsealed _ _ Hc)) as (T & S & A & B & L).
    etrans; [apply Hiff; rewrite A; apply array_holds|].
    unfold path_refused, blocked. rewrite dropped_load, T, S, (rg_tag _ _ Hc).
    replace (reaches _) with true; [by rewrite !andb_false_r, andb_true_r, !orb_false_r|].
    symmetry. apply reaches_iff. rewrite A, B, L, (rg_base _ _ Hc), (rg_length _ _ Hc). simpl. lia.
Qed.

(** Addresses where nothing is mapped. *)
Lemma bad_addr_verdict a v s : v !! u64 a = None -> on v s ->
  succeeds (open_refused (cap_of_int (cap := cap) a)) s.
Proof.
  intros Hm Hs. rewrite (open_refused_iff v) by done. unfold open_result.
  destruct (blocked ck _); [done|]. change PATHS_MAX with (S 1023). simpl copyin.
  rewrite Z.add_0_r, of_int_address, Hm. by destruct (chk_bounds ck && _).
Qed.

(** *** Sealed paths *)

Lemma alike_reaches (c d : cap) : alike d c -> reaches d = reaches c.
Proof. intros (A & B & L & _). unfold reaches, in_reach. by rewrite A, B, L. Qed.

Lemma refused_alike (c d : cap) n : region c n -> 10 <= n -> alike d c ->
  path_refused d = chk_tag ck && negb (cheri_tag_get d) || chk_seal ck && cheri_is_sealed d.
Proof.
  intros Hc Hn Hd. unfold path_refused. rewrite (alike_reaches _ _ Hd), (region_reaches _ _ Hc Hn).
  unfold blocked. destruct Hd as (_ & _ & _ & ->). rewrite (rg_load _ _ Hc).
  by rewrite !andb_false_r, !orb_false_r.
Qed.

Abbreviation lit := (string_literal (cap := cap) (W := W) "/dev/null").
Abbreviation sentry := (cheri_sentry_create (W := W) lit).

Lemma sentry_verdict v s : on v s -> holds v (cheri_address_get lit) (str_bytes "/dev/null") ->
  (succeeds (ct_func cheriabi_open_sentry) s <->
   seen_unless (if cheri_tag_get sentry then chk_seal ck
                else chk_tag ck || chk_seal ck && cheri_is_sealed sentry) (p_errno s)).
Proof.
  intros Hs Hm. assert (region lit 10) as Hc by (apply (r_literal "/dev/null"); unfold short; simpl; lia).
  destruct (r_sentry _ _ Hc) as [Hd Hseal]. pose proof Hd as (A & _).
  etrans; [apply (bad_verdict v s _ _ Hs eq_refl); by rewrite A|].
  rewrite (refused_alike _ _ _ Hc) by done. destruct (cheri_tag_get sentry).
  - rewrite Hseal by done. by rewrite !andb_true_r, andb_false_r.
  - by rewrite andb_true_r.
Qed.

(** The capability that the test seals with. *)
Definition sealer : option cap :=
  if is_freebsd g then
    match r_sealcap (W := W) with inl c => Some c | inr _ => None end
  else
    let c := ptr_add (getauxptr_sealcap (W := W)) 1 in
    if cheri_tag_get c && flag_set (cheri_perms_get c) (mask PSeal) then Some c else None.

Lemma get_sealer_run v s : on v s ->
  match sealer with
  | Some c => exists s', on v s' /\ p_errno s' = p_errno s /\ get_sealer g s = (Val c, s')
  | None => forall B (k : cap -> test cap W B), ~ succeeds (get_sealer g ≫= k) s
  end.
Proof.
  intros [Hs Hv]. unfold sealer, get_sealer, flag_set. destruct (is_freebsd g).
  - destruct (r_sysctl (p_world s)) as (w' & Hr & Hw). destruct r_sealcap as [c|e].
    + exists (set_world w' s). split; [split; [done|by rewrite <- Hv]|]. split; [done|].
      unfold mbind, eff_bind. by rewrite (try_sys_run _ s _ _ Hr).
    + intros B k H. rewrite succeeds_assoc in H.
      rewrite (succeeds_bind _ _ _ _ _ (try_sys_run _ s _ _ Hr)) in H.
      by apply failure_err_prefix in H.
  - destruct (cheri_tag_get _), (Z.land _ _ =? 0) eqn:E; simpl; rewrite ?E; simpl;
      first [by exists s | intros B k H; rewrite succeeds_assoc in H; by apply failure_err_prefix in H].
Qed.

Lemma sealed_rest_iff k v s : on v s ->
  exists c s', region c 4096 /\ on (write_bytes (cheri_address_get c) (str_bytes "/dev/null") v) s' /\
    p_errno s' = p_errno s /\
    (succeeds (r ← libcall (path_calloc 1 (Z.shiftl 1 12));
      match r with
      | None => cheriostest_failure_err "calloc" []
      | Some path =>
          access (path_strcpy path "/dev/null") ;;
          fd ← open_rdonly (cheri_seal path k);
          libcall (fun w => (tt, path_free path w)) ;;
          must_be_refused fd
      end) s <-> seen_unless (path_refused (cheri_seal c k)) (p_errno s)).
Proof.
  intros [Hs Hv]. destruct (r_calloc (p_world s)) as (c & w1 & Hr & Hc & Hw1).
  destruct (r_strcpy c "/dev/null" w1 Hc) as (w2 & Hr2 & Hw2); [unfold short; simpl; lia|].
  rewrite Hw1, Hv in Hw2. set (m := write_bytes _ _ v) in *.
  set (s1 := set_world w1 s). set (s2 := set_world w2 s1).
  exists c, s2. split; [done|]. split; [by split|]. split; [done|].
  assert (libcall (path_calloc 1 (Z.shiftl 1 12)) s = (Val (Some c), s1)) as E1
    by (unfold libcall; by rewrite Hr).
  rewrite (succeeds_bind _ _ _ _ _ E1).
  assert (access (path_strcpy c "/dev/null") s1 = (Val tt, s2)) as E2
    by (unfold access, s1; simpl; by rewrite Hr2).
  rewrite (succeeds_bind _ _ _ _ _ E2).
  destruct (open_seen m s2 (cheri_seal c k)) as (s3 & [Hs3 _] & fd & E3 & Hiff); [by split|].
  rewrite (succeeds_bind _ _ _ _ _ E3).
  assert (libcall (fun w => (tt, path_free c w)) s3 =
    (Val tt, set_world (path_free c (p_world s3)) s3)) as E4 by done.
  rewrite (succeeds_bind _ _ _ _ _ E4), must_be_refused_iff by done.
  etrans; [exact Hiff|]. change (p_errno s2) with (p_errno s).
  destruct (r_seal (W := W) c k) as (A & _). rewrite (open_dev_null m).
  - unfold seen_unless. destruct (path_refused _); [split; [by left|done]|].
    split; [by right|by intros [?|?]].
  - rewrite A. apply holds_write.
Qed.

Lemma sealed_verdict v s : on v s ->
  match sealer with
  | None => ~ succeeds (ct_func (cheriabi_open_sealed g)) s
  | Some k =>
      if authority PSeal k
      then succeeds (ct_func (cheriabi_open_sealed g)) s <-> seen_unless (chk_seal ck) (p_errno s)
      else chk_tag ck = true -> succeeds (ct_func (cheriabi_open_sealed g)) s
  end.
Proof.
  intros Hs. pose proof (get_sealer_run v s Hs) as Hk. destruct sealer as [k|]; [|apply Hk].
  destruct Hk as (s1 & Hs1 & He & Hr).
  destruct (sealed_rest_iff k v s1 Hs1) as (c & s' & Hc & _ & _ & Hiff). rewrite He in Hiff.
  assert (succeeds (ct_func (cheriabi_open_sealed g)) s <->
    seen_unless (path_refused (cheri_seal c k)) (p_errno s)) as Ht.
  { unfold cheriabi_open_sealed, CHERIOSTEST. cbn [ct_func].
    rewrite (succeeds_bind _ _ _ _ _ Hr). exact Hiff. }
  rewrite (refused_alike c _ 4096 Hc) in Ht by (done || apply (r_seal (W := W))).
  destruct (authority PSeal k) eqn:Ha.
  - destruct (seal_ok c k Ha) as (T & S & _).
    { unfold usable. by rewrite (rg_tag _ _ Hc), (rg_unsealed _ _ Hc). }
    rewrite Ht, T, S. by rewrite andb_false_r, andb_true_r.
  - rewrite (seal_refused c k Ha) in Ht. intros Hck. apply Ht. left. by rewrite Hck.
Qed.

(** *** Searches *)

(** A region of [n] bytes that holds the string, whose byte [ch] is at [j]. *)
Definition only_at (l : list Z) (n ch j : Z) : Prop :=
  forall i, 0 <= i < n -> (nth (Z.to_nat i) l 0 =? ch) = (i =? j).

Lemma judged_found {A} f (r : search_result) (c : cap) n l ch j a b
    (k : test cap W A) v (Q : Prop) :
  region c n -> holds v (cheri_address_get c) l -> n <= Z.of_nat (length l) ->
  only_at l n ch j -> (forall i, r = Found i -> 0 <= i < n) -> 0 <= j < n ->
  (forall w, p_view w = v -> keeps p_view f w (search_value P c r)) ->
  judged k v Q -> judged (check_letter f ch a b ;; k) v (r = Found j /\ Q).
Proof.
  intros Hc Hm Hn Hl Hr Hj Hf Hk. unfold check_letter. apply judged_assoc.
  destruct r as [i| |].
  - specialize (Hr i eq_refl). pose proof (rg_end _ _ Hc).
    destruct (near_same c n i Hc) as (T & S & A0 & B & L & G); [lia|lia|].
    eapply judged_bind; [apply steps_access with (P := fun p v' => p = ptr_add c i /\ v' = v)|].
    { intros w Hw. destruct (Hf w Hw) as (w' & Hrun & Hw'). exists (ptr_add c i), w'.
      rewrite Hw'. by split. }
    intros ? ? [-> ->]. apply judged_assoc.
    eapply judged_bind; [apply steps_access with
      (P := fun x v' => x = nth (Z.to_nat i) l 0 /\ v' = v)|].
    { intros w Hw. assert (byte_check (ptr_add c i) 0 PLoad = None) as Hb.
      { unfold byte_check. rewrite T, G, A0, B, L. simpl.
        by rewrite (proj2 (Z.leb_le _ _)), (proj2 (Z.ltb_lt _ _)) by lia. }
      destruct (r_load (ptr_add c i) w S Hb) as (w' & Hrun & Hw'). eexists _, w'.
      split; [exact Hrun|]. rewrite Hw', Hw, A0. split; [|done].
      destruct (lookup_lt_is_Some_2 l (Z.to_nat i)) as (x & Hx); [lia|].
      pose proof (Hm _ _ Hx) as Hx'. rewrite Z2Nat.id in Hx' by lia. rewrite Hx'.
      apply nth_lookup_Some with (d := 0) in Hx. by rewrite Hx. }
    intros ? ? [-> ->]. apply judged_verify.
    + rewrite Hl by lia. intros ->%Z.eqb_eq. eapply judged_iff; [exact Hk|]. tauto.
    + rewrite Hl by lia. intros Hne [[= ->] _]. apply Z.eqb_neq in Hne. by apply Hne.
  - eapply judged_bind; [apply steps_access with (P := fun p v' => p = cap_null /\ v' = v)|].
    { intros w Hw. destruct (Hf w Hw) as (w' & Hrun & Hw'). exists cap_null, w'.
      rewrite Hw'. by split. }
    intros ? ? [-> ->]. apply judged_assoc, judged_fault; [|by intros [[=] _]].
    intros w Hw. destruct (r_load_untagged (cap_null (cap := cap)) w) as (w' & Hrun);
      [apply of_int_tag|]. by eexists _, w'.
  - apply judged_fault; [|by intros [[=] _]]. intros w Hw.
    destruct (Hf w Hw) as (w' & Hrun & _). by eexists _, w'.
Qed.

Lemma judged_null {A} f (r : search_result) (c : cap) n text (k : test cap W A) v (Q : Prop) :
  region c n -> 0 < cheri_address_get c -> (forall i, r = Found i -> 0 <= i < n) ->
  (forall w, p_view w = v -> keeps p_view f w (search_value P c r)) ->
  judged k v Q -> judged (verify_null f text ;; k) v (r = Absent /\ Q).
Proof.
  intros Hc H0 Hr Hf Hk. unfold verify_null. apply judged_assoc.
  destruct r as [i| |].
  - specialize (Hr i eq_refl). pose proof (rg_end _ _ Hc).
    destruct (near_same c n i Hc) as (_ & _ & A0 & _); [lia|lia|].
    eapply judged_bind; [apply steps_access with (P := fun p v' => p = ptr_add c i /\ v' = v)|].
    { intros w Hw. destruct (Hf w Hw) as (w' & Hrun & Hw'). exists (ptr_add c i), w'.
      rewrite Hw'. by split. }
    intros ? ? [-> ->]. apply judged_verify; [|by intros _ [[=] _]].
    rewrite A0, Z.eqb_eq. lia.
  - eapply judged_bind; [apply steps_access with (P := fun p v' => p = cap_null /\ v' = v)|].
    { intros w Hw. destruct (Hf w Hw) as (w' & Hrun & Hw'). exists cap_null, w'.
      rewrite Hw'. by split. }
    intros ? ? [-> ->]. apply judged_verify; [|unfold cap_null; by rewrite of_int_address].
    intros _. eapply judged_iff; [exact Hk|]. tauto.
  - apply judged_fault; [|by intros [[=] _]]. intros w Hw.
    destruct (Hf w Hw) as (w' & Hrun & _). by eexists _, w'.
Qed.

Abbreviation string_m := "0123456789abcde"%string.
Abbreviation string_s := "0123456789abcdefghij"%string.
Abbreviation array_m := (r_place (cap := cap) (W := W) 16 string_m).
Abbreviation array_s := (r_place (cap := cap) (W := W) 16 string_s).

(** The memory after the array is initialised. *)
Definition memory (k : Z) (str : string) (v : gmap Z Z) : gmap Z Z :=
  write_bytes (cheri_address_get (r_place (cap := cap) (W := W) k str)) (str_bytes str) v.

Lemma judged_array {A} k str (m : cap -> test cap W A) v Q : short str ->
  judged (m (r_place (W := W) k str)) (memory k str v) Q ->
  judged (c ← libcall (char_array k str); m c) v Q.
Proof.
  intros Hk Hm s Hs. destruct (array_start k str m v s Hs Hk) as (s' & Hs' & _ & ->).
  by apply Hm.
Qed.

Lemma only_at_check (l : list Z) n ch j :
  forallb (fun i => Bool.eqb (nth (Z.to_nat i) l 0 =? ch) (i =? j)) (seqZ 0 n) = true ->
  only_at l n ch j.
Proof.
  rewrite forallb_forall. intros H i Hi. apply eqb_prop, H, list_elem_of_In, elem_of_seqZ. lia.
Qed.

Definition memchr_finds v : Prop :=
  let m := memory 16 string_m v in let c := array_m in
  pp_memchr P m c (chr "e") 16 = Found 14 /\
  pp_memchr P m c (chr "e") 14 = Absent /\
  pp_memchr P m (cheri_bounds_set c 15) (chr "e") 16 = Found 14 /\ True.

Lemma memchr_judged v : judged (ct_func cheriabi_libc_memchr) v (memchr_finds v).
Proof.
  apply judged_array; [unfold short; simpl; lia|].
  destruct (r_array_region (cap := cap) (W := W) 16 string_m) as (Hc & H0 & _);
    [unfold short; simpl; lia|]. simpl in Hc.
  destruct (r_bounds _ _ 15 Hc) as [Hd Ha]; [lia|lia|].
  pose proof (array_holds 16 string_m v) as Hm. cbv zeta in Hm. unfold memchr_finds, memory.
  set (c := array_m) in *. set (m := write_bytes _ _ v) in *.
  apply (judged_found _ _ c 16 (str_bytes string_m)); try done.
  { by apply only_at_check. }
  { intros i Hi%r_found_memchr. by rewrite (rg_length _ _ Hc) in Hi. }
  { intros w <-. apply r_memchr. }
  apply (judged_null _ _ c 16); try done.
  { intros i Hi%r_found_memchr. by rewrite (rg_length _ _ Hc) in Hi. }
  { intros w <-. apply r_memchr. }
  apply (judged_found _ _ (cheri_bounds_set c 15) 15 (str_bytes string_m)); try done.
  { by rewrite Ha. }
  { by apply only_at_check. }
  { intros i Hi%r_found_memchr. by rewrite (rg_length _ _ Hd) in Hi. }
  { intros w <-. apply r_memchr. }
  by apply judged_success.
Qed.

Definition strchr_finds v : Prop :=
  let m := memory 16 string_s v in let c := array_s in
  pp_strchr P m c (chr "e") = Found 14 /\ pp_strchr P m c (chr "z") = Absent /\
  pp_strchr P m c (chr "g") = Found 16 /\ True.

Definition strchrnul_finds v : Prop :=
  let m := memory 16 string_s v in let c := array_s in
  pp_strchrnul P m c (chr "e") = Found 14 /\ pp_strchrnul P m c (chr "z") = Found 20 /\
  pp_strchrnul P m c (chr "g") = Found 16 /\ True.

Lemma array_s_region : region array_s 21 /\ 0 < cheri_address_get array_s.
Proof.
  destruct (r_array_region (cap := cap) (W := W) 16 string_s) as (Hc & H0 & _);
    [unfold short; simpl; lia|]. by split.
Qed.

Lemma strchr_judged v : judged (ct_func cheriabi_libc_strchr) v (strchr_finds v).
Proof.
  apply judged_array; [unfold short; simpl; lia|]. destruct array_s_region as [Hc H0].
  pose proof (array_holds 16 string_s v) as Hm. cbv zeta in Hm. unfold strchr_finds, memory.
  set (c := array_s) in *. set (m := write_bytes _ _ v) in *.
  assert (forall ch i, pp_strchr P m c ch = Found i -> 0 <= i < 21) as Hin
    by (intros ch i Hi%r_found_strchr; by rewrite (rg_length _ _ Hc) in Hi).
  assert (forall ch w, p_view w = m ->
    keeps p_view (libc_strchr c ch) w (search_value P c (pp_strchr P m c ch))) as Hf
    by (intros ch w <-; apply r_strchr).
  apply (judged_found _ _ c 21 (str_bytes string_s)); try done;
    [by apply only_at_check|apply Hin|apply Hf|].
  apply (judged_null _ _ c 21); try done; [apply Hin|apply Hf|].
  apply (judged_found _ _ c 21 (str_bytes string_s)); try done;
    [by apply only_at_check|apply Hin|apply Hf|].
  by apply judged_success.
Qed.

Lemma strchrnul_judged v : judged (ct_func cheriabi_libc_strchrnul) v (strchrnul_finds v).
Proof.
  apply judged_array; [unfold short; simpl; lia|]. destruct array_s_region as [Hc H0].
  pose proof (array_holds 16 string_s v) as Hm. cbv zeta in Hm. unfold strchrnul_finds, memory.
  set (c := array_s) in *. set (m := write_bytes _ _ v) in *.
  assert (forall ch i, pp_strchrnul P m c ch = Found i -> 0 <= i < 21) as Hin
    by (intros ch i Hi%r_found_strchrnul; by rewrite (rg_length _ _ Hc) in Hi).
  assert (forall ch w, p_view w = m ->
    keeps p_view (libc_strchrnul c ch) w (search_value P c (pp_strchrnul P m c ch))) as Hf
    by (intros ch w <-; apply r_strchrnul).
  do 3 (apply (judged_found _ _ c 21 (str_bytes string_s)); try done;
    [by apply only_at_check|apply Hin|apply Hf|]).
  by apply judged_success.
Qed.

(** A library that reads byte by byte. *)
Definition sequential : Prop :=
  (forall m c ch n, pp_memchr P m c ch n = memchr_seq m c ch n) /\
  (forall m c ch, pp_strchr P m c ch = strchr_seq m c ch) /\
  (forall m c ch, pp_strchrnul P m c ch = strchrnul_seq m c ch).

Lemma region_in_reach (c : cap) n i : region c n -> 0 <= i < n -> in_reach c i = true.
Proof.
  intros [] Hi. unfold in_reach. apply andb_true_iff. rewrite Z.leb_le, Z.ltb_lt. lia.
Qed.

(** A run of such a search over the start [l ++ [b]] of a string. *)
Lemma seq_hit m (c : cap) n hit l1 b l2 r fuel : region c n ->
  holds m (cheri_address_get c) ((l1 ++ [b]) ++ l2) -> Z.of_nat (length l1) < n ->
  forallb (fun i => match hit (nth (Z.to_nat i) l1 0) i with None => true | _ => false end)
    (seqZ 0 (Z.of_nat (length l1))) = true ->
  hit b (Z.of_nat (length l1)) = Some r -> (length l1 < fuel)%nat ->
  search_seq m c hit 0 fuel = r.
Proof.
  intros Hc Hm Hn Hmiss Hb Hf.
  replace fuel with (length l1 + S (fuel - length l1 - 1))%nat by lia.
  apply search_seq_hits with (b := b); [| | |done].
  - intros i x Hi. apply Hm. by apply lookup_app_l_Some.
  - intros k Hk. apply (region_in_reach c n); [done|lia].
  - intros k x Hk. rewrite forallb_forall in Hmiss.
    pose proof (lookup_lt_Some _ _ _ Hk) as Hlt.
    specialize (Hmiss (Z.of_nat k)). rewrite Nat2Z.id in Hmiss.
    apply nth_lookup_Some with (d := 0) in Hk. rewrite Hk in Hmiss.
    destruct (hit x (Z.of_nat k)); [|done].
    discriminate Hmiss. apply list_elem_of_In, elem_of_seqZ. lia.
Qed.

Definition first_bytes (str : string) (n : nat) : list Z := take n (str_bytes str).

Ltac seq_at n l b rest :=
  apply (seq_hit _ _ n _ l b rest); [done|done|simpl; lia|reflexivity|reflexivity|simpl; lia].

Lemma sequential_accepted v : sequential ->
  memchr_finds v /\ strchr_finds v /\ strchrnul_finds v.
Proof.
  intros (H1 & H2 & H3).
  destruct (r_array_region (cap := cap) (W := W) 16 string_m) as (Hc & _);
    [unfold short; simpl; lia|]. simpl in Hc.
  destruct (r_bounds _ _ 15 Hc) as [Hd Ha]; [lia|lia|].
  destruct array_s_region as [Hs _].
  pose proof (array_holds 16 string_m v) as Hm. pose proof (array_holds 16 string_s v) as Hms.
  cbv zeta in Hm, Hms. unfold memchr_finds, strchr_finds, strchrnul_finds, memory.
  rewrite !H1, !H2, !H3. unfold memchr_seq, strchr_seq, strchrnul_seq.
  rewrite (rg_length _ _ Hs). split; [|split].
  - split; [seq_at 16 (first_bytes string_m 14) (chr "e") [0]|].
    split; [|split; [|done]].
    + change (Z.to_nat 14) with (length (first_bytes string_m 14) + 0)%nat.
      rewrite search_seq_misses; [done| |].
      * rewrite Z.add_0_r. intros i x Hi. apply Hm.
        apply (lookup_app_l_Some _ [chr "e"; 0]) in Hi. exact Hi.
      * intros k x Hk. pose proof (lookup_lt_Some _ _ _ Hk) as Hlt. simpl in Hlt.
        split; [apply (region_in_reach _ 16); [done|lia]|].
        do 14 (destruct k as [|k]; [by injection Hk as <-|]). done.
    + rewrite <- Ha in Hm at 2. seq_at 15 (first_bytes string_m 14) (chr "e") [0].
  - split; [seq_at 21 (first_bytes string_s 14) (chr "e") (drop 15 (str_bytes string_s))|].
    split; [seq_at 21 (first_bytes string_s 20) 0 ([] : list Z)|].
    split; [|done].
    seq_at 21 (first_bytes string_s 16) (chr "g") (drop 17 (str_bytes string_s)).
  - split; [seq_at 21 (first_bytes string_s 14) (chr "e") (drop 15 (str_bytes string_s))|].
    split; [seq_at 21 (first_bytes string_s 20) 0 ([] : list Z)|].
    split; [|done].
    seq_at 21 (first_bytes string_s 16) (chr "g") (drop 17 (str_bytes string_s)).
Qed.

(** C17: the verdicts of the tests of open(2) and of the searches in strings, on
    a kernel by its checks and a library by its results.  Good paths pass exactly
    when the file system opens them.  A bad path passes when the kernel makes the
    check that it is there for; otherwise exactly when the open fails with EFAULT
    for another reason, or gives descriptor 0 while errno is EFAULT from before,
    because the test takes that for an error.  Addresses without memory behind
    them pass whatever is checked.  The test of a sealed path needs the check of
    seals only if its capability can seal; otherwise the check of tags is enough.
    The tests of the library pass exactly when the searches find the places of
    the letters, and any library that reads byte by byte is accepted. *)
Theorem path_tests_verdict (v : gmap Z Z) (s : proc cap W) : on v s ->
  holds v (cheri_address_get lit) (str_bytes "/dev/null") ->
  v !! 90210 = None -> v !! u64 (-90210) = None ->
  (forall t, t ∈ good_tests -> (succeeds (ct_func t) s <-> opens)) /\
  (forall t b, (t, b) ∈ bad_tests ->
   (succeeds (ct_func t) s <-> seen_unless b (p_errno s))) /\
  succeeds (ct_func cheriabi_open_bad_addr) s /\
  succeeds (ct_func cheriabi_open_bad_addr_2) s /\
  (succeeds (ct_func cheriabi_open_sentry) s <->
   seen_unless (if cheri_tag_get sentry then chk_seal ck
                else chk_tag ck || chk_seal ck && cheri_is_sealed sentry) (p_errno s)) /\
  match sealer with
  | None => ~ succeeds (ct_func (cheriabi_open_sealed g)) s
  | Some k =>
      if authority PSeal k
      then succeeds (ct_func (cheriabi_open_sealed g)) s <-> seen_unless (chk_seal ck) (p_errno s)
      else chk_tag ck = true -> succeeds (ct_func (cheriabi_open_sealed g)) s
  end /\
  (succeeds (ct_func cheriabi_libc_memchr) s <-> memchr_finds v) /\
  (succeeds (ct_func cheriabi_libc_strchr) s <-> strchr_finds v) /\
  (succeeds (ct_func cheriabi_libc_strchrnul) s <-> strchrnul_finds v) /\
  (sequential -> memchr_finds v /\ strchr_finds v /\ strchrnul_finds v).
Proof.
  intros Hs Hl H1 H2. split; [intros; by apply (good_tests_verdict _ v)|].
  split; [intros; by apply (bad_tests_verdict _ _ v)|].
  split; [by apply (bad_addr_verdict _ v)|]. split; [by apply (bad_addr_verdict _ v)|].
  split; [by apply (sentry_verdict v)|]. split; [by apply (sealed_verdict v)|].
  split; [exact (memchr_judged v s Hs)|]. split; [exact (strchr_judged v s Hs)|].
  split; [exact (strchrnul_judged v s Hs)|]. apply sequential_accepted.
Qed.
End Facts.

(** ** A concrete kernel and library *)

(** The kernel does not look at seals; the library reads byte by byte. *)
Definition toy_paths : path_policy scap := {|
  pp_checks := PathChecks true false true true;
  pp_open path := if decide (path = dev_null) then inl 3 else inr 2;
  pp_memchr := memchr_seq (CH := sealing_cheri);
  pp_strchr := strchr_seq (CH := sealing_cheri);
  pp_strchrnul := strchrnul_seq (CH := sealing_cheri);
  pp_fault := Siginfo 11 0 0 cap_null;
|}.

(** A library that reads words of eight bytes. *)
Fixpoint search_words (m : gmap Z Z) (c : scap) (hit : Z -> Z -> option search_result) (i : Z)
    (fuel : nat) : search_result :=
  match fuel with
  | O => Absent
  | S fuel' =>
      if forallb (in_reach (CH := sealing_cheri) c) (seqZ i 8)
      then match search_seq (CH := sealing_cheri) m c hit i 8 with
           | Absent => search_words m c hit (i + 8) fuel'
           | r => r
           end
      else Faults
  end.

Definition toy_array (n : Z) : scap := toy_object 0x7000 n.

(** Its search in a string of 15 bytes faults in front of the letter. *)
Example words_fault :
  let m := write_bytes 0x7000 (str_bytes "0123456789abcde") ∅ in
  let hit b i := if b =? chr "e" then Some (Found i) else None in
  search_words m (toy_array 16) hit 0 2 = Found 14 /\
  search_words m (cheri_bounds_set (Cheri := sealing_cheri) (toy_array 16) 15) hit 0 2 = Faults /\
  search_seq (CH := sealing_cheri) m (cheri_bounds_set (Cheri := sealing_cheri) (toy_array 16) 15)
    hit 0 16 = Found 14.
Proof. vm_compute. repeat split. Qed.

#[local] Existing Instance sealing_cheri.

Definition byte_world : Type := gmap Z Z.

#[export] Instance byte_kernel : Kernel scap byte_world := {|
  getpagesize := 4096;
  sys_mmap _ _ _ _ _ _ w := (inr 12, w);
  sys_munmap _ _ w := (inl 0, w);
  sys_mprotect _ _ _ w := (inl 0, w);
  sys_minherit _ _ _ w := (inl 0, w);
  sys_shmget _ _ _ w := (inr 78, w);
  sys_shmat _ _ _ w := (inr 78, w);
  sys_shmdt _ w := (inr 78, w);
  sys_shm_open _ _ _ w := (inr 78, w);
  sys_shm_unlink _ w := (inl 0, w);
  sys_memfd_create _ _ w := (inr 78, w);
  sys_open _ _ w := (inr 78, w);
  sys_mkstemp t w := (inr 78, w);
  sys_unlink _ w := (inl 0, w);
  sys_ftruncate _ _ w := (inl 0, w);
  sys_close _ w := (inl 0, w);
  os_random w := (7, w);
  mem_load_cap c off w := (inr (pp_fault toy_paths), w);
  mem_store_cap c off _ w := (inr (pp_fault toy_paths), w);
  mem_store_byte c off b w :=
    match byte_check c off PStore with
    | None => (inl tt, <[cheri_address_get c + off := b]> w)
    | Some _ => (inr (pp_fault toy_paths), w)
    end;
  stack_local n := toy_array n;
|}.

#[export] Instance byte_traps : TrapOS scap byte_world := {|
  mem_load_byte c off w :=
    (match byte_check c off PLoad with
     | None => inl (default 0 (w !! (cheri_address_get c + off)))
     | Some _ => inr (pp_fault toy_paths)
     end, w);
  ddc_load_byte _ w := (inr (pp_fault toy_paths), w);
  ddc_store_byte _ _ w := (inr (pp_fault toy_paths), w);
  branch_to _ w := (inr (pp_fault toy_paths), w);
  static_array := toy_object 0x30000 2;
  cheri_cap_from_pointer := cheri_address_set;
  PROT_CHERI_PERM := 4;
  header_SEGV_CAPPERMERR := Some 13;
  SEGV_MAPERR := 1;
  TRAPNO_LOAD_PF := 14;
  TRAPNO_EXEC_PF := 14;
  VM_MIN_KERNEL_ADDRESS := 2 ^ 63;
|}.

#[export] Instance byte_seals : SealOS scap byte_world := {|
  sysctl_sealcap w := (inl toy_sealcap, w);
  getauxptr_sealcap := toy_sealcap;
  sysctl_cidcap w := (inr 2, w);
  cheri_cidcap_alloc w := (inr 2, w);
  sealdata := toy_cap 0x10000 4096 0 (mask PLoad);
  uccsr_tag_clearing := false;
  SI_LWP := 0x10007;
  sleep_pointer := toy_cap 0x20000 64 0 (mask PExecute);
  static_sleep_pointer := toy_cap 0x20000 64 0 (mask PExecute);
  os_dlopen _ w := (None, w);
  os_dlerror _ := "none";
  os_dlsym _ _ w := (None, w);
  LIBM_PATH := "/lib/libm.so";
  CHERI_COMPARTMENT_ID_USERSPACE_BASE := 0;
  CHERI_COMPARTMENT_ID_USERSPACE_LENGTH := 1;
  CHERI_COMPARTMENT_ID_USERSPACE_OFFSET := 0;
  CHERI_COMPARTMENT_ID_USERSPACE_PERMS := 0;
|}.

Definition toy_value (c : scap) (r : search_result) (w : byte_world) :
    (scap + siginfo scap) * byte_world := (search_value toy_paths c r, w).

#[export] Instance byte_paths : PathOS scap byte_world := {|
  char_array _ s w :=
    (toy_array (Z.of_nat (String.length s) + 1), write_bytes 0x7000 (str_bytes s) w);
  string_literal s := toy_object 0x5000 (Z.of_nat (String.length s) + 1);
  path_calloc _ n w := (Some (toy_object 0x8000 n), w);
  path_strcpy c s w := (inl tt, write_bytes (cheri_address_get c) (str_bytes s) w);
  path_free _ w := w;
  sys_open_path c _ w :=
    (if blocked (pp_checks toy_paths) c then inr 14
     else match copyin (pp_checks toy_paths) w c 0 PATHS_MAX with
          | Some path => pp_open toy_paths path
          | None => inr 14
          end, w);
  cheri_sentry_create c := SCap (sc_tag c) (sc_addr c) (sc_base c) (sc_len c) (sc_perms c) (-2);
  libc_memchr c ch n w := toy_value c (pp_memchr toy_paths w c ch n) w;
  libc_strchr c ch w := toy_value c (pp_strchr toy_paths w c ch) w;
  libc_strchrnul c ch w := toy_value c (pp_strchrnul toy_paths w c ch) w;
  O_RDONLY := 0;
  EFAULT := 14;
|}.

#[local] Instance sealing_cheri_laws : CheriLaws scap.
Proof.
  split; intros; simpl in *; try (by apply wrapu_range); try done.
  - by apply bool_decide_eq_true_2.
  - by eapply bool_decide_eq_true_1.
  - by rewrite wrapu_idemp.
  - destruct c. simpl in *. by subst.
  - by rewrite wrapu_idemp.
Defined.

#[local] Instance sealing_cheri_ops : CapOps scap.
Proof.
  split; intros; simpl in *; try done; try (by rewrite wrapu_idemp).
  unfold wrapu. rewrite <- !(Z.land_ones _ 64) by lia.
  apply Z.bits_inj'. intros n Hn. rewrite !Z.land_spec.
  destruct (Z.testbit (sc_perms c) n), (Z.testbit p n), (Z.testbit (Z.ones 64) n); done.
Defined.

Lemma toy_region a n : 0 < a < 2 ^ 32 -> 0 < n <= 4096 -> region (toy_object a n) n /\
  0 < cheri_address_get (toy_object a n) /\
  flag_set (cheri_perms_get (toy_object a n)) (mask PStore) = true.
Proof.
  intros Ha Hn. unfold toy_object, toy_cap.
  split_and!; [split| |]; simpl; rewrite ?Z.add_0_r, ?wrapu_small by lia; try done; lia.
Qed.

Lemma search_seq_found (m : gmap Z Z) (c : scap) (hit : Z -> Z -> option search_result) fuel :
  (forall b i j, hit b i = Some (Found j) -> j = i) -> forall j,
  search_seq m c hit 0 fuel = Found j -> 0 <= j < cheri_length_get c.
Proof.
  intros Hhit j Hj.
  assert (cheri_base_get c <= cheri_address_get c) as Hb.
  { destruct fuel as [|fuel]; [done|]. cbn [search_seq] in Hj.
    destruct (in_reach c 0) eqn:Hr; [|done]. unfold in_reach in Hr.
    apply andb_true_iff in Hr as [H1%Z.leb_le _]. lia. }
  assert (forall fuel i, 0 <= i -> search_seq m c hit i fuel = Found j ->
    0 <= j < cheri_length_get c) as H; [|by apply (H fuel 0)].
  clear fuel Hj. induction fuel as [|fuel IH]; intros i Hi; [done|]. cbn [search_seq].
  destruct (in_reach c i) eqn:Hr; [|done]. unfold in_reach in Hr.
  apply andb_true_iff in Hr as [_ H2%Z.ltb_lt].
  destruct (m !! _) as [z|]; [|done]. destruct (hit z i) as [r|] eqn:Hh.
  - intros ->. apply Hhit in Hh as ->. lia.
  - apply IH. lia.
Qed.

#[export] Instance byte_rules : PathRules scap byte_world.
Proof.
  refine {| p_view := fun w => w; p_policy := toy_paths;
            r_place k s := toy_array (Z.of_nat (String.length s) + 1);
            r_sealcap := inl toy_sealcap |}.
  - intros k s w _. by eexists.
  - intros k s Hs. unfold short in Hs. apply (toy_region 0x7000); [done|]. lia.
  - intros s Hs. unfold short in Hs. apply (toy_region 0x5000); [done|]. lia.
  - intros c w Hs Hb. eexists. split; [|reflexivity]. simpl. by rewrite Hb, Z.add_0_r.
  - intros c w Ht. eexists. cbn [mem_load_byte byte_traps]. unfold byte_check. by rewrite Ht.
  - intros c off b w Hs Hb. eexists. simpl. by rewrite Hb.
  - intros c n k [Ht Hs Hb Hl He Hp] Hk Hk'. simpl in *. split; [|done].
    assert (u64 k = k) as Hu by (apply wrapu_small; lia).
    split; simpl; rewrite ?Hu; try done; [|lia].
    rewrite Ht, Hb, Hl, Z.leb_refl. apply Z.leb_le. lia.
  - intros c n k [Ht Hs Hb Hl He Hp] Hk He'. by split.
  - intros c. by repeat split.
  - intros c n Hc d. by repeat split.
  - intros c s. by repeat split.
  - intros w. eexists _, _. split; [reflexivity|]. split; [|done]. by apply (toy_region 0x8000).
  - intros c s w Hc Hs. by eexists.
  - done.
  - intros w. by eexists.
  - intros c w. by eexists.
  - intros fd w. by eexists.
  - intros c ch n w. by eexists.
  - intros c ch w. by eexists.
  - intros c ch w. by eexists.
  - intros m c ch n i. apply search_seq_found. intros b j k. destruct (b =? ch); congruence.
  - intros m c ch i. apply search_seq_found. intros b j k.
    destruct (b =? ch), (b =? 0); congruence.
  - intros m c ch i. apply search_seq_found. intros b j k.
    destruct (b =? ch), (b =? 0); simpl; congruence.
Defined.

Definition byte_start : byte_world := write_bytes 0x5000 (str_bytes "/dev/null") ∅.

Definition byte_proc : proc scap byte_world :=
  Proc (Some child_state_zero) 14 ∅ "" "" 0 byte_start.

(** A kernel that does not look at seals passes the test of bounds and fails
    those of sealed paths; errno is EFAULT from before, but the descriptor is 3. *)
Lemma path_tests_verdict_witness :
  on (cap := scap) (fun w => w) byte_start byte_proc /\
  holds byte_start 0x5000 (str_bytes "/dev/null") /\
  succeeds (ct_func (cheriabi_open_offset (cap := scap) (W := byte_world))) byte_proc /\
  succeeds (ct_func (cheriabi_open_bad_len_2 (cap := scap) (W := byte_world))) byte_proc /\
  ~ succeeds (ct_func (cheriabi_open_sentry (cap := scap) (W := byte_world))) byte_proc /\
  ~ succeeds (ct_func (cheriabi_open_sealed (cap := scap) (W := byte_world) toy_freebsd))
      byte_proc /\
  succeeds (ct_func (cheriabi_libc_memchr (cap := scap) (W := byte_world))) byte_proc.
Proof.
  assert (on (cap := scap) (fun w => w) byte_start byte_proc) as Hs
    by (split; [by eexists|reflexivity]).
  assert (holds byte_start 0x5000 (str_bytes "/dev/null")) as Hl by apply holds_write.
  destruct (path_tests_verdict (PR := byte_rules) (SL := sealing_laws) toy_freebsd byte_start
    byte_proc Hs Hl) as (Hg & Hb & _ & _ & Hse & Hsl & Hm & _ & _ & Hq); [reflexivity..|].
  split; [exact Hs|]. split; [exact Hl|].
  split; [apply Hg; [right; left|by exists 3]|].
  split; [apply (Hb _ true); [right; left|by left]|].
  split; [intros [[=]|[H _]]%Hse; by apply H|].
  split; [intros [[=]|[H _]]%Hsl; by apply H|].
  apply Hm, Hq. by split_and!.
Defined.
