(* ===== verification/VmPages.v ===== *)
(** * VmPages: large pages and stack mappings (cheriostest_vm.c, middle part)

    [vm_large_pages_basic] maps a page of each large size and stores
    capabilities at its start, its middle and its last page; on Linux the sizes
    are read from the names of a directory of sysfs, and the pools are looked at
    first.  [large_pages_verdict] says what it accepts of a kernel; the fixed
    array of the sizes is written behind its end when there is one size too many
    ([hugepages_overflow]).  [mmap_insert_stack] replaces a part of a mapping by
    a stack. *)

From S2P Require Import Prelude Printf Cheri Perms Harness Runner Toy Registers RunnerFacts AddrGap MmapPerms Kernel VmTags Mappings Reservations Judge.

(** What the tests use of the system: page sizes, directories and files of
    sysfs, and large shared-memory objects. *)
Class PagesOS (W : Type) := {
  MAXPAGESIZES : Z;
  os_getpagesizes : W -> option (list Z) * W;       (* -1, or the array it filled *)
  os_readdir : string -> W -> option (list string); (* opendir, and the names in order *)
  os_fopen : string -> W -> option string * W;      (* the contents *)
  sys_shm_create_largepage : Z -> W -> (Z + Z) * W; (* psind *)
  MAP_HUGETLB : Z;
  MAP_HUGE_SHIFT : Z;
  MAP_STACK : Z;
}.

(** ** Numbers in texts *)

(** The conversions %lu and %zu: spaces, a sign and decimal digits. *)
Definition scan_lu (s : string) : option Z :=
  let '(neg, s1) := scan_sign (skip_space s) in
  match s1 with
  | String c s2 =>
      match digit_val c with
      | Some d =>
          if d <? 10 then
            let v := (strtou 10 d s2).1 in
            Some (if 2 ^ 64 <=? v then 2 ^ 64 - 1 else if neg then u64 (- v) else v)
          else None
      | None => None
      end
  | EmptyString => None
  end.

Fixpoint strip_prefix (pre s : string) : option string :=
  match pre, s with
  | EmptyString, _ => Some s
  | String a pre', String b s' => if Ascii.eqb a b then strip_prefix pre' s' else None
  | _, EmptyString => None
  end.

(** [sscanf(name, "hugepages-%lukB", &kb) == 1]: what follows the number does
    not count. *)
Definition sscanf_hugepages (name : string) : option Z :=
  match strip_prefix "hugepages-" name with Some rest => scan_lu rest | None => None end.

Definition dquote : string := String (ascii_of_nat 34) EmptyString.

Section Tests.
Context {cap W : Type} {CH : Cheri cap} {LC : Libc cap W} {KE : Kernel cap W}
  {VC : VmConsts} {HP : Perms} {PO : PagesOS W}.
Context (g : config).

Abbreviation psize := (page (cap := cap) (W := W)).

(** ** get_pagesizes and check_hugepages_pool *)

Definition get_pagesizes_freebsd : test cap W (list Z) :=
  ps ← libcall os_getpagesizes;
  match ps with
  | None => cheriostest_failure_errx "failed to get pagesizes" []
  | Some ps =>
      match ps with
      | [] => undef                                (* ps\[0\] is not set *)
      | p0 :: _ => CHERIOSTEST_VERIFY2 (p0 =? psize) "psind 0 is not CHERITEST_PAGE_SIZE" [] ;;
                   mret ps
      end
  end.

Definition max_size : Z := 512.

(** The loop over the directory, with the array filled so far; a store behind
    its end has no meaning. *)
Fixpoint read_sizes (names : list string) (p_sizes : list Z) : test cap W (list Z) :=
  match names with
  | [] => mret p_sizes
  | d_name :: names' =>
      match sscanf_hugepages d_name with
      | Some kb =>
          let count := Z.of_nat (length p_sizes) in
          CHERIOSTEST_VERIFY2 (count <=? max_size)
            "Maximum number of hugepage sizes exceeded." [] ;;
          if count <? max_size then read_sizes names' (p_sizes ++ [u64 (kb * 1024)]) else undef
      | None => read_sizes names' p_sizes
      end
  end.

Definition sys_huge_page_dir : string := "/sys/kernel/mm/hugepages".

Definition get_pagesizes_linux : test cap W (list Z) :=
  w ← gets p_world;
  match os_readdir sys_huge_page_dir w with
  | Some names => read_sizes names []
  | None => undef                                  (* readdir(NULL) *)
  end.

Definition pool_path (kb : Z) : string :=
  format (cap := cap) (W := W) "/sys/kernel/mm/hugepages/hugepages-%zukB/nr_hugepages" [AInt kb].

Definition check_hugepages_pool (p_sizes : list Z) : test cap W unit :=
  foreach p_sizes (fun size =>
    let kb := size / 1024 in
    f ← libcall (os_fopen (pool_path kb));
    match f with
    | None => cheriostest_failure_errx "Couldn't open nr_hugepages" []
    | Some text =>
        match scan_lu text with
        | None => cheriostest_failure_errx "Couldn't read page count in hugepages pool" []
        | Some pool_pages =>
            CHERIOSTEST_VERIFY2 (negb (pool_pages =? 0))
              ("No pages in the hugepages pool for size %zukB (" +:+ dquote +:+
               "echo <pages> > /sys/kernel/mm/hugepages/hugepages-<size>kB/nr_hugepages" +:+ dquote +:+
               " set the number of pages in the pool)") [AInt kb]
        end
    end).

(** ** vm_large_pages_basic *)

(** __builtin_ctzll of a number other than 0. *)
Fixpoint ctz_pos (p : positive) : Z :=
  match p with xO p' => 1 + ctz_pos p' | _ => 0 end.
Definition builtin_ctzll (x : Z) : Z := match x with Zpos p => ctz_pos p | _ => 0 end.

(** The mapping, and the descriptor of its object. *)
Definition map_large (psind size : Z) : test cap W (cap * option Z) :=
  if is_freebsd g then
    fd ← try_sys (sys_shm_create_largepage psind);
    errno ← gets p_errno;
    CHERIOSTEST_VERIFY2 (0 <=? default (-1) fd)
      "Failed to create largepage SHM fd psind=%d errno=%d" [AInt psind; AInt errno] ;;
    let fd := default (-1) fd in
    _ ← CHERIOSTEST_CHECK_SYSCALL (sys (sys_ftruncate fd size)) "ftruncate(fd, ps[psind])";
    addr ← CHERIOSTEST_CHECK_SYSCALL (sys (sys_mmap cap_null size PROT_RWC MAP_SHARED fd 0))
      "mmap(NULL, ps[psind], PROT_READ | PROT_WRITE | PROT_CAP, MAP_SHARED, fd, 0)";
    mret (addr, Some fd)
  else if cfg_prot_cap g then
    addr ← CHERIOSTEST_CHECK_SYSCALL
      (sys (sys_mmap cap_null size PROT_RWC
              (Z.lor (Z.lor (Z.lor MAP_ANON MAP_SHARED) MAP_HUGETLB)
                 (Z.shiftl (builtin_ctzll size) MAP_HUGE_SHIFT)) (-1) 0))
      "mmap(NULL, ps[psind], PROT_READ | PROT_WRITE | PROT_CAP, MAP_ANON | MAP_SHARED | MAP_HUGETLB | (__builtin_ctzll(ps[psind]) << MAP_HUGE_SHIFT), -1, 0)";
    mret (addr, None)
  else cheriostest_failure_errx "PROT_CAP is not defined" [].

(** [*map_buffer = &v], and the check of the tag. *)
Definition store_and_look (map_buffer : cap) : test cap W unit :=
  access (mem_store_cap map_buffer 0 (stack_local 4)) ;;
  c ← access (mem_load_cap map_buffer 0);
  CHERIOSTEST_VERIFY2 (cheri_tag_get c) "tag lost" [].

Definition large_perms : Z := Z.lor (mask PLoad) (mask PStore).

(** The part behind the mapping. *)
Definition use_large (psind size : Z) (addr : cap) (fd : option Z) : test cap W unit :=
  CHERIOSTEST_VERIFY2 (cheri_tag_get addr) "mmap invalid capability for psind=%d" [AInt psind] ;;
  CHERIOSTEST_VERIFY2 (cheri_length_get addr =? size)
    "mmap wrong capability length for psind=%d expected %jx found %jx"
    [AInt psind; AInt size; AInt (cheri_length_get addr)] ;;
  CHERIOSTEST_VERIFY2 (Z.land (cheri_perms_get addr) large_perms =? large_perms)
    "mmap missing permission expected %jx found %jx"
    [AInt large_perms; AInt (cheri_perms_get addr)] ;;
  store_and_look addr ;;
  store_and_look (ptr_add addr (size / 2)) ;;
  store_and_look (ptr_add addr (size - psize)) ;;
  _ ← CHERIOSTEST_CHECK_SYSCALL (sys (sys_munmap addr size)) "munmap(addr, ps[psind])";
  match fd with
  | Some fd =>
      _ ← CHERIOSTEST_CHECK_SYSCALL (sys (sys_close fd)) "close(fd)"; mret tt
  | None => mret tt
  end.

Definition large_page (psind size : Z) : test cap W unit :=
  r ← map_large psind size;
  use_large psind size r.1 r.2.

(** The sizes with their numbers, from [psind] on. *)
Definition numbered (psind : Z) (ps : list Z) : list (Z * Z) :=
  zip (seqZ psind (Z.of_nat (length ps))) ps.

Definition each_size (l : list (Z * Z)) : test cap W unit :=
  foreach l (fun '(psind, size) =>
    if 2 ^ 30 <=? size then mret tt else large_page psind size).

Definition vm_large_pages_basic : cheri_test cap W :=
  CHERIOSTEST "vm_large_pages_basic" "Test basic largepage SHM mapping setup and teardown"
    (if is_freebsd g then
       ps ← get_pagesizes_freebsd;
       each_size (numbered 1 (tail ps)) ;;
       cheriostest_success
     else
       ps ← get_pagesizes_linux;
       check_hugepages_pool ps ;;
       each_size (numbered 0 ps) ;;
       cheriostest_success).

(** ** mmap_insert_stack *)

Definition show_mapping (c : cap) : string * arg cap := ("%#p"%string, APtr c).

Definition mmap_insert_stack : cheri_test cap W :=
  CHERIOSTEST "mmap_insert_stack" "try to insert a stack mapping in a reservation"
    (p ← CHERIOSTEST_CHECK_SYSCALL
           (sys (sys_mmap (cap_of_int 0x20000000) 0x1000000 (Z.lor PROT_WRITE PROT_READ)
                   (Z.lor (Z.lor MAP_FIXED MAP_ANON) MAP_PRIVATE) (-1) 0))
           "mmap((void *)(intptr_t)0x20000000, 0x1000000, PROT_WRITE | PROT_READ, MAP_FIXED | MAP_ANONYMOUS | MAP_PRIVATE, -1, 0)";
     CHERIOSTEST_CHECK_CALL_ERROR
       (sys (sys_mmap (cheri_address_set p 0x20ffc000) 0x2000 (Z.lor PROT_WRITE PROT_READ)
               (Z.lor MAP_STACK MAP_FIXED) (-1) 0))
       "mmap(cheri_address_set(p, 0x20ffc000), 0x2000, PROT_WRITE | PROT_READ, MAP_STACK | MAP_FIXED, -1, 0)"
       show_mapping ENOMEM ;;
     _ ← CHERIOSTEST_CHECK_SYSCALL (sys (sys_munmap (cheri_address_set p 0x20ffc000) 0x3000))
           "munmap(cheri_address_set(p, 0x20ffc000), 0x3000)";
     cheriostest_success).
End Tests.

(** ** What the tests accept *)

(** What becomes of a capability that is stored. *)
Inductive slot_fate := Kept | Dropped | Faulting.

#[export] Instance slot_fate_eq_dec : EqDecision slot_fate.
Proof. solve_decision. Defined.

Record large_map := LargeMap {
  lm_tag : bool;
  lm_length : Z;
  lm_perms : Z;
  lm_fate : Z -> slot_fate;
}.

(** A system by its page sizes, its files, and what it maps for each size. *)
Record pages_policy := PagesPolicy {
  pl_sizes : option (list Z);
  pl_names : option (list string);
  pl_file : string -> option string;
  pl_create : Z -> bool;
  pl_map : Z -> option large_map;
  pl_stack : option Z;                              (* the error of the stack, if any *)
  pl_unmap : bool;
}.

(** The object, the mapping and what was stored in it. *)
Record lview := LView {
  lv_fd : option Z;
  lv_map : option (Z * large_map);
  lv_tags : gmap Z bool;
}.

Section Rules.
Context {cap W : Type} {CH : Cheri cap} {KE : Kernel cap W} {VC : VmConsts} {HP : Perms}
  {PO : PagesOS W}.

Abbreviation psize := (page (cap := cap) (W := W)).

Record maps_to (c : cap) (m : large_map) : Prop := {
  mt_tag : cheri_tag_get c = lm_tag m;
  mt_length : cheri_length_get c = lm_length m;
  mt_perms : cheri_perms_get c = lm_perms m;
  mt_unsealed : cheri_is_sealed c = false;
  mt_base : cheri_base_get c = cheri_address_get c;
  mt_end : cheri_address_get c + lm_length m < 2 ^ 64;
}.

(** A capability is stored and loaded through [d]. *)
Record opens_slot (d : cap) : Prop := {
  os_tag : cheri_tag_get d = true;
  os_unsealed : cheri_is_sealed d = false;
  os_base : cheri_base_get d <= cheri_address_get d;
  os_top : cheri_address_get d + 16 <= cheri_base_get d + cheri_length_get d;
  os_load : flag_set (cheri_perms_get d) (mask PLoad) = true;
  os_store : flag_set (cheri_perms_get d) (mask PStore) = true;
}.

Class PagesRules := {
  l_view : W -> lview;
  l_policy : pages_policy;
  l_page : 32 <= psize;
  l_getpagesizes w : exists w', os_getpagesizes w = (pl_sizes l_policy, w') /\ l_view w' = l_view w;
  l_readdir w : os_readdir sys_huge_page_dir w = pl_names l_policy;
  l_fopen path w : exists w', os_fopen path w = (pl_file l_policy path, w') /\ l_view w' = l_view w;
  l_create psind w : exists w', if pl_create l_policy psind
    then exists fd, 0 <= fd /\ sys_shm_create_largepage psind w = (inl fd, w') /\
           l_view w' = LView (Some fd) None ∅
    else exists e, sys_shm_create_largepage psind w = (inr e, w');
  l_ftruncate fd n w : lv_fd (l_view w) = Some fd ->
    exists w', sys_ftruncate (cap := cap) fd n w = (inl 0, w') /\ l_view w' = l_view w;
  l_mmap n flags fd w :
    flags = MAP_SHARED /\ lv_fd (l_view w) = Some fd \/
    flags = Z.lor (Z.lor (Z.lor MAP_ANON MAP_SHARED) MAP_HUGETLB)
              (Z.shiftl (builtin_ctzll n) MAP_HUGE_SHIFT) /\ fd = -1 ->
    exists w', match pl_map l_policy n with
    | Some m => exists c, sys_mmap cap_null n PROT_RWC flags fd 0 w = (inl c, w') /\
        maps_to c m /\ l_view w' = LView (lv_fd (l_view w)) (Some (cheri_address_get c, m)) ∅
    | None => exists e, sys_mmap cap_null n PROT_RWC flags fd 0 w = (inr e, w')
    end;
  l_fault : siginfo cap;
  l_store (d : cap) x a m w : opens_slot d -> lv_map (l_view w) = Some (a, m) ->
    let off := cheri_address_get d - a in
    exists w', match lm_fate m off with
    | Faulting => mem_store_cap d 0 x w = (inr l_fault, w')
    | fate => mem_store_cap d 0 x w = (inl tt, w') /\
        l_view w' = LView (lv_fd (l_view w)) (Some (a, m))
          (<[off := match fate with Kept => true | _ => false end]> (lv_tags (l_view w)))
    end;
  l_load (d : cap) a m b w : opens_slot d -> lv_map (l_view w) = Some (a, m) ->
    lv_tags (l_view w) !! (cheri_address_get d - a) = Some b ->
    exists x w', mem_load_cap d 0 w = (inl x, w') /\ cheri_tag_get x = b /\ l_view w' = l_view w;
  l_munmap (c : cap) m w : maps_to c m -> lv_map (l_view w) = Some (cheri_address_get c, m) ->
    exists w', sys_munmap c (lm_length m) w = (inl 0, w') /\
      l_view w' = LView (lv_fd (l_view w)) None ∅;
  l_close fd w : lv_fd (l_view w) = Some fd ->
    exists w', sys_close (cap := cap) fd w = (inl 0, w') /\ l_view w' = LView None None ∅;
  l_seal (c : cap) a : cheri_is_sealed (cheri_address_set c a) = cheri_is_sealed c;
  (* the fixed mapping, the stack in it, and the end *)
  l_fixed w : exists c w', sys_mmap (cap_of_int (cap := cap) 0x20000000) 0x1000000
      (Z.lor PROT_WRITE PROT_READ) (Z.lor (Z.lor MAP_FIXED MAP_ANON) MAP_PRIVATE) (-1) 0 w
    = (inl c, w') /\ l_view w' = l_view w;
  l_stack (c : cap) w : exists w', l_view w' = l_view w /\ match pl_stack l_policy with
    | Some e => sys_mmap c 0x2000 (Z.lor PROT_WRITE PROT_READ) (Z.lor MAP_STACK MAP_FIXED) (-1) 0 w
                = (inr e, w')
    | None => exists d, sys_mmap c 0x2000 (Z.lor PROT_WRITE PROT_READ)
                          (Z.lor MAP_STACK MAP_FIXED) (-1) 0 w = (inl d, w')
    end;
  l_unmap_stack (c : cap) w : exists w',
    sys_munmap c 0x3000 w = (if pl_unmap l_policy then inl 0 else inr EINVAL, w');
}.
End Rules.
Arguments PagesRules cap W {_ _ _ _ _}.

Section Facts.
Context {cap W : Type} {CH : Cheri cap} {CL : CheriLaws cap} {CO : CapOps cap}
  {LC : Libc cap W} {KE : Kernel cap W} {VC : VmConsts} {HP : Perms} {PL : PermLaws}
  {PO : PagesOS W} {PR : PagesRules cap W}.
Context (g : config).

Abbreviation P := (l_policy (cap := cap) (W := W)).
Abbreviation psize := (page (cap := cap) (W := W)).
Abbreviation judged := (judged (cap := cap) (l_view (cap := cap))).

(** A demand that a part of a body makes, whatever the state of the machine. *)
Definition asks (m : test cap W unit) (R : Prop) : Prop :=
  forall (k : test cap W unit) v Q, (forall v', judged k v' Q) -> judged (m ;; k) v (R /\ Q).

Lemma asks_foreach {A} (f : A -> test cap W unit) (R : A -> Prop) l :
  (forall x, x ∈ l -> asks (f x) (R x)) -> asks (foreach l f) (Forall R l).
Proof.
  intros Hf. induction l as [|x l IH]; intros k v Q Hk; simpl.
  { apply judged_ret. eapply judged_iff; [apply Hk|]. split; [by split; [constructor|]|tauto]. }
  apply judged_assoc. eapply judged_iff.
  - apply (Hf x ltac:(left)). intros v'. apply IH; [intros y Hy; apply Hf; by right|exact Hk].
  - rewrite Forall_cons. tauto.
Qed.

(** *** One page *)

(** What a mapping must be like. *)
Definition map_ok (m : large_map) (size : Z) : Prop :=
  lm_tag m = true /\ lm_length m = size /\ Z.land (lm_perms m) large_perms = large_perms /\
  lm_fate m 0 = Kept /\ lm_fate m (size / 2) = Kept /\ lm_fate m (size - psize) = Kept.

Lemma look_judged (d : cap) a m (k : test cap W unit) v Q : opens_slot d ->
  lv_map v = Some (a, m) ->
  (forall v', lm_fate m (cheri_address_get d - a) = Kept -> lv_map v' = Some (a, m) ->
   lv_fd v' = lv_fd v -> judged k v' Q) ->
  judged (store_and_look d ;; k) v (lm_fate m (cheri_address_get d - a) = Kept /\ Q).
Proof.
  intros Hd Hv Hk. unfold store_and_look. apply judged_assoc.
  set (off := cheri_address_get d - a).
  destruct (decide (lm_fate m off = Faulting)) as [Hf|Hf].
  { apply judged_fault; [|rewrite Hf; by intros [? _]]. intros w <-.
    destruct (l_store d (stack_local 4) a m w Hd Hv) as (w' & Hr). fold off in Hr.
    rewrite Hf in Hr. by eexists _, w'. }
  set (b := match lm_fate m off with Kept => true | _ => false end).
  set (v1 := LView (lv_fd v) (Some (a, m)) (<[off := b]> (lv_tags v))).
  eapply judged_bind; [apply (steps_access _ _ (fun _ v' => v' = v1))|].
  { intros w <-. destruct (l_store d (stack_local 4) a m w Hd Hv) as (w' & Hr). fold off in Hr.
    exists tt, w'. unfold v1, b. destruct (lm_fate m off); by destruct Hr. }
  intros _ ? ->. apply judged_assoc.
  eapply judged_bind; [apply (steps_access _ _ (fun x v' => cheri_tag_get x = b /\ v' = v1))|].
  { intros w Hw. destruct (l_load d a m b w Hd) as (x & w' & Hr & Hx & Hw').
    - by rewrite Hw.
    - rewrite Hw. apply lookup_insert_eq.
    - exists x, w'. rewrite Hw', Hw. by split. }
  intros x ? [Hx ->]. rewrite Hx. unfold b. destruct (lm_fate m off) eqn:E.
  - apply judged_verify; [|done]. intros _. eapply judged_iff; [by apply Hk|]. tauto.
  - apply judged_verify; [done|]. by intros _ [? _].
  - by destruct Hf.
Qed.

Lemma both_perms p : Z.land p large_perms = large_perms ->
  flag_set p (mask PLoad) = true /\ flag_set p (mask PStore) = true.
Proof.
  intros H. rewrite !flag_set_mask.
  assert (forall q, q = PLoad \/ q = PStore -> Z.testbit p (bit q) = true) as Hq.
  { intros q Hq. pose proof (f_equal (fun x => Z.testbit x (bit q)) H) as Hb. cbv beta in Hb.
    rewrite Z.land_spec in Hb. unfold large_perms in Hb. rewrite Z.lor_spec, !testbit_mask in Hb.
    destruct Hq as [-> | ->]; simpl in Hb; by rewrite andb_true_r in Hb. }
  split; apply Hq; auto.
Qed.

Lemma slot_open c m off size : maps_to c m -> map_ok m size -> 0 <= off -> off + 16 <= size ->
  opens_slot (ptr_add c off) /\ cheri_address_get (ptr_add c off) - cheri_address_get c = off.
Proof.
  intros [T L Pe S B E] (Ht & Hl & Hp & _) H0 H1. pose proof (address_range c).
  destruct (both_perms _ Hp) as [Hlo Hst]. unfold ptr_add. rewrite wrapu_small by lia.
  assert (cheri_tag_get (cheri_address_set c (cheri_address_get c + off)) = true) as Ht'
    by (apply address_set_tag; [congruence|done|lia|lia]).
  destruct (address_set_bounds _ _ Ht') as [Hb' Hl'].
  split; [split|].
  - done.
  - by rewrite l_seal.
  - rewrite Hb', B, address_set_address, wrapu_small; lia.
  - rewrite Hb', Hl', B, L, Hl, address_set_address, wrapu_small; lia.
  - by rewrite address_set_perms, Pe.
  - by rewrite address_set_perms, Pe.
  - rewrite address_set_address, wrapu_small; lia.
Qed.

(** The part behind the mapping. *)
Lemma use_large_judged addr m psind size fd (k : test cap W unit) v Q :
  maps_to addr m -> psize <= size -> lv_map v = Some (cheri_address_get addr, m) ->
  fd = None \/ lv_fd v = fd -> (forall v', judged k v' Q) ->
  judged (use_large psind size addr fd ;; k) v (map_ok m size /\ Q).
Proof.
  intros Hm Hsz Hv Hfd Hk. pose proof (l_page (cap := cap) (W := W)) as Hpg.
  assert (32 <= size) as H32 by lia.
  assert (0 <= size / 2 /\ size / 2 + 16 <= size) as Hhalf.
  { pose proof (Z.div_mod size 2 ltac:(lia)). pose proof (Z.mod_pos_bound size 2 ltac:(lia)). lia. }
  unfold use_large. apply judged_assoc, judged_verify; [intros Ht|intros Hf [(H & _) _]; rewrite (mt_tag _ _ Hm) in Hf; congruence].
  apply judged_assoc, judged_verify; [intros Hl%Z.eqb_eq|intros Hf%Z.eqb_neq [(_ & H & _) _];
    rewrite (mt_length _ _ Hm) in Hf; done].
  apply judged_assoc, judged_verify; [intros Hp%Z.eqb_eq|intros Hf%Z.eqb_neq [(_ & _ & H & _) _];
    rewrite (mt_perms _ _ Hm) in Hf; done].
  rewrite (mt_tag _ _ Hm) in Ht. rewrite (mt_length _ _ Hm) in Hl. rewrite (mt_perms _ _ Hm) in Hp.
  assert (forall off, 0 <= off -> off + 16 <= size ->
    opens_slot (ptr_add addr off) /\
    cheri_address_get (ptr_add addr off) - cheri_address_get addr = off) as Hslot.
  { intros off H0 H1. set (m' := LargeMap (lm_tag m) (lm_length m) (lm_perms m) (fun _ => Kept)).
    apply (slot_open addr m' off size); [|by split_and!|done|done].
    destruct Hm as [? ? ? ? ? ?]. by split. }
  assert (opens_slot addr) as H0.
  { destruct (both_perms _ Hp). destruct Hm as [? ? Hpe ? ? ?]. split; rewrite ?Hpe; congruence || lia. }
  destruct (Hslot (size / 2)) as [H1 E1]; [lia|lia|].
  destruct (Hslot (size - psize)) as [H2 E2]; [lia|lia|].
  assert (map_ok m size /\ Q <-> lm_fate m (cheri_address_get addr - cheri_address_get addr) = Kept /\
    lm_fate m (cheri_address_get (ptr_add addr (size / 2)) - cheri_address_get addr) = Kept /\
    lm_fate m (cheri_address_get (ptr_add addr (size - psize)) - cheri_address_get addr) = Kept /\
    Q) as Hiff.
  { rewrite Z.sub_diag, E1, E2. unfold map_ok. tauto. }
  eapply judged_iff; [|symmetry; exact Hiff].
  apply judged_assoc, (look_judged _ _ _ _ _ _ H0 Hv). intros v1 F0 Hv1 Hf1.
  apply judged_assoc, (look_judged _ _ _ _ _ _ H1 Hv1). intros v2 F1 Hv2 Hf2.
  apply judged_assoc, (look_judged _ _ _ _ _ _ H2 Hv2). intros v3 F2 Hv3 Hf3.
  rewrite Z.sub_diag in F0. rewrite E1 in F1. rewrite E2 in F2.
  apply judged_assoc, (judged_call2 _ _ _ _ _ (inl 0) (LView (lv_fd v3) None ∅)); [| |done].
  { intros w <-. rewrite <- Hl. by apply l_munmap. }
  intros _ _. destruct fd as [fd|]; [|by apply judged_ret].
  apply judged_assoc, (judged_call2 _ _ _ _ _ (inl 0) (LView None None ∅)); [| |done].
  { intros w Hw. apply l_close. rewrite Hw. simpl. rewrite Hf3, Hf2, Hf1. by destruct Hfd. }
  intros _ _. by apply judged_ret.
Qed.

(** What the test demands of a size. *)
Definition size_ok (psind size : Z) : Prop :=
  (if is_freebsd g then pl_create P psind = true else cfg_prot_cap g = true) /\
  exists m, pl_map P size = Some m /\ map_ok m size.

(** mmap(2) and what follows, with the descriptor of the object. *)
Lemma mmap_judged n flags fd text (k : cap -> test cap W unit) v Q :
  (flags = MAP_SHARED /\ lv_fd v = Some fd \/
   flags = Z.lor (Z.lor (Z.lor MAP_ANON MAP_SHARED) MAP_HUGETLB)
             (Z.shiftl (builtin_ctzll n) MAP_HUGE_SHIFT) /\ fd = -1) ->
  (forall m c, pl_map P n = Some m -> maps_to c m ->
   judged (k c) (LView (lv_fd v) (Some (cheri_address_get c, m)) ∅) (map_ok m n /\ Q)) ->
  judged (addr ← CHERIOSTEST_CHECK_SYSCALL (sys (sys_mmap cap_null n PROT_RWC flags fd 0)) text;
          k addr) v ((exists m, pl_map P n = Some m /\ map_ok m n) /\ Q).
Proof.
  intros Hfl Hk. destruct (pl_map P n) as [m|] eqn:Hm.
  - eapply judged_bind; [apply (steps_call2 _ _ _ _ (fun c v' => maps_to c m /\
      v' = LView (lv_fd v) (Some (cheri_address_get c, m)) ∅))|].
    + intros w <-. destruct (l_mmap n flags fd w Hfl) as (w' & Hr). rewrite Hm in Hr.
      destruct Hr as (c & Hr & Hc & Hw). by exists c, w'.
    + intros c ? [Hc ->]. eapply judged_iff; [by apply Hk|].
      split; [intros [H1 H2]; split; [by exists m|done]|].
      by intros [(m' & [= <-] & H1) H2].
  - intros s [Hs Hv]. split; [|by intros [(? & [=] & _) _]].
    destruct (l_mmap n flags fd (p_world s)) as (w' & Hr); [by rewrite Hv|]. rewrite Hm in Hr.
    destruct Hr as (e & Hr). intros H. by apply (fail_check _ _ _ _ _ _ Hr) in H.
Qed.

Lemma large_page_asks psind size : psize <= size -> asks (large_page g psind size) (size_ok psind size).
Proof.
  intros Hsz k v Q Hk. unfold large_page, map_large, size_ok. apply judged_assoc.
  destruct (is_freebsd g).
  - apply judged_assoc. destruct (pl_create P psind) eqn:Hc.
    + eapply judged_bind; [apply (steps_try _ _ (fun fd v' => 0 <= fd /\ v' = LView (Some fd) None ∅))|].
      { intros w <-. destruct (l_create (cap := cap) psind w) as (w' & Hr). rewrite Hc in Hr.
        destruct Hr as (fd & Hfd & Hr & Hw). by exists fd, w'. }
      intros r ? (fd & -> & Hfd & ->). apply judged_assoc.
      eapply judged_bind; [apply (steps_gets _ _ (fun _ v' => v' = LView (Some fd) None ∅)); done|].
      intros e ? ->. simpl default. apply judged_assoc.
      apply judged_verify; [intros _|intros Hf%Z.leb_gt; lia].
      apply judged_assoc.
      apply (judged_call2 _ _ _ _ _ (inl 0) (LView (Some fd) None ∅)); [| |done].
      { intros w Hw. destruct (l_ftruncate (cap := cap) fd size w) as (w' & Hr & Hw').
        - by rewrite Hw.
        - exists w'. by rewrite Hw'. }
      intros _ _. apply judged_assoc.
      eapply judged_iff; [apply mmap_judged; [by left|]|].
      * intros m c Hm Hmc. apply judged_ret. simpl. apply use_large_judged; [done..|by right|done].
      * tauto.
    + intros s [Hs Hv]. split; [|by intros [[[=] _] _]].
      destruct (l_create (cap := cap) psind (p_world s)) as (w' & Hr). rewrite Hc in Hr.
      destruct Hr as (e & Hr). intros H.
      rewrite (succeeds_bind _ _ _ _ _ (try_sys_run _ s _ _ Hr)), succeeds_assoc in H.
      rewrite (succeeds_bind (gets p_errno) _ (set_errno e (set_world w' s)) e _ eq_refl),
        succeeds_assoc in H.
      simpl in H. by apply failure_prefix in H.
  - destruct (cfg_prot_cap g).
    + apply judged_assoc. eapply judged_iff; [apply mmap_judged; [by right|]|].
      * intros m c Hm Hmc. apply judged_ret. simpl. apply use_large_judged; [done..|by left|done].
      * tauto.
    + apply judged_failure. by intros [[[=] _] _].
Qed.

(** *** The sizes *)

Definition sizes_ok (first : Z) (ps : list Z) : Prop :=
  Forall (fun x => 2 ^ 30 <= x.2 \/ size_ok x.1 x.2) (numbered first ps).

Lemma numbered_sizes i first ps x : (i, x) ∈ numbered first ps -> x ∈ ps.
Proof. unfold numbered. intros H. by apply elem_of_zip_r in H. Qed.

Lemma each_size_asks first ps : Forall (fun size => psize <= size) ps ->
  asks (each_size g (numbered first ps)) (sizes_ok first ps).
Proof.
  intros Hps. apply asks_foreach. intros [psind size] Hin.
  apply numbered_sizes in Hin. rewrite Forall_forall in Hps. specialize (Hps _ Hin). simpl.
  destruct (Z.leb_spec (2 ^ 30) size).
  - intros k v Q Hk. apply judged_ret. eapply judged_iff; [apply Hk|]. tauto.
  - intros k v Q Hk. eapply judged_iff; [by apply large_page_asks|]. split; [tauto|].
    intros [[H'|H'] HQ]; [lia|done].
Qed.

Lemma end_judged first ps v : Forall (fun size => psize <= size) ps ->
  judged (each_size g (numbered first ps) ;; cheriostest_success (A := unit)) v (sizes_ok first ps).
Proof.
  intros Hps. eapply judged_iff; [apply (each_size_asks first ps Hps _ _ True)|tauto].
  intros v'. by apply judged_success.
Qed.

(** The sizes in the names of a directory, and a pool that is not empty. *)
Fixpoint sizes_of (names : list string) : list Z :=
  match names with
  | [] => []
  | name :: names' =>
      match sscanf_hugepages name with
      | Some kb => u64 (kb * 1024) :: sizes_of names'
      | None => sizes_of names'
      end
  end.

Lemma snoc_app {A} (l : list A) x l' : l ++ x :: l' = (l ++ [x]) ++ l'.
Proof. by rewrite <- app_assoc. Qed.

Definition pool_ok (size : Z) : Prop :=
  exists text n, pl_file P (pool_path (cap := cap) (W := W) (size / 1024)) = Some text /\
    scan_lu text = Some n /\ n <> 0.

Lemma judged_undef_bind {A B} (k : A -> test cap W B) v (Q : Prop) : ~ Q -> judged (undef ≫= k) v Q.
Proof. intros HQ s Hs. split; [|done]. by intros [x Hx]. Qed.

Lemma read_sizes_judged names : forall got (k : list Z -> test cap W unit) v Q,
  Z.of_nat (length got) <= max_size ->
  (Z.of_nat (length (got ++ sizes_of names)) <= max_size ->
   judged (k (got ++ sizes_of names)) v Q) ->
  judged (read_sizes names got ≫= k) v
    (Z.of_nat (length (got ++ sizes_of names)) <= max_size /\ Q).
Proof.
  induction names as [|name names IH]; intros got k v Q Hgot Hk; simpl.
  { simpl in *. rewrite app_nil_r in *. apply judged_ret.
    eapply judged_iff; [by apply Hk|]. tauto. }
  simpl in Hk. destruct (sscanf_hugepages name) as [kb|]; [|by apply IH].
  apply judged_assoc, judged_verify; [intros _|intros Hf%Z.leb_gt; lia].
  rewrite (snoc_app got _ (sizes_of names)) in *.
  destruct (Z.ltb_spec (Z.of_nat (length got)) max_size) as [Hlt|Hge].
  - apply IH; [rewrite length_app; simpl; lia|exact Hk].
  - apply judged_undef_bind. rewrite !length_app. simpl. lia.
Qed.

(** One name too many: the check lets it pass, and the store has no meaning. *)
Lemma hugepages_overflow names s :
  Z.of_nat (length (sizes_of names)) = max_size + 1 ->
  read_sizes (cap := cap) (W := W) names [] s = (Undef, s).
Proof.
  intros Hn. assert (forall got names, Z.of_nat (length got) <= max_size ->
    Z.of_nat (length (got ++ sizes_of names)) = max_size + 1 ->
    read_sizes (cap := cap) (W := W) names got s = (Undef, s)) as H; [|by apply H].
  clear names Hn. intros got names. revert got. induction names as [|name names IH]; intros got Hg Hl.
  { simpl in Hl. rewrite app_nil_r in Hl. lia. }
  simpl in *. destruct (sscanf_hugepages name) as [kb|]; [|by apply IH].
  rewrite (snoc_app got _ (sizes_of names)) in Hl.
  erewrite test_bind by (unfold CHERIOSTEST_VERIFY2; rewrite (proj2 (Z.leb_le _ _)) by lia; reflexivity).
  destruct (Z.ltb_spec (Z.of_nat (length got)) max_size) as [Hlt|Hge]; [|done].
  apply IH; [rewrite length_app; simpl; lia|exact Hl].
Qed.

Lemma pool_asks ps : asks (check_hugepages_pool ps) (Forall pool_ok ps).
Proof.
  apply asks_foreach. intros size _ k v Q Hk. unfold pool_ok. cbv zeta. apply judged_assoc.
  set (path := pool_path (size / 1024)).
  apply (judged_libcall _ _ _ (pl_file P path) v).
  { intros w <-. destruct (l_fopen (cap := cap) path w) as (w' & Hr & Hw). by rewrite Hr. }
  destruct (pl_file P path) as [text|]; [|apply judged_failure; by intros [(? & ? & [=] & _) _]].
  destruct (scan_lu text) as [n|] eqn:Hn;
    [|apply judged_failure; by intros [(? & ? & [= <-] & ? & _) _]; congruence].
  apply judged_and; [|apply Hk]. rewrite negb_true_iff, Z.eqb_neq. split.
  - intros H0. by exists text, n.
  - intros (? & ? & [= <-] & Hn' & H0). congruence.
Qed.

(** *** The tests *)

Definition large_pages_pass : Prop :=
  if is_freebsd g then
    exists p0 ps, pl_sizes P = Some (p0 :: ps) /\ p0 = psize /\ sizes_ok 1 ps
  else
    exists names, pl_names P = Some names /\
      Z.of_nat (length (sizes_of names)) <= max_size /\ Forall pool_ok (sizes_of names) /\
      sizes_ok 0 (sizes_of names).

(** No size is smaller than a page. *)
Definition sane_sizes : Prop :=
  if is_freebsd g then forall ps, pl_sizes P = Some ps -> Forall (fun x => psize <= x) ps
  else forall names, pl_names P = Some names -> Forall (fun x => psize <= x) (sizes_of names).

Lemma large_pages_judged v : sane_sizes ->
  judged (ct_func (vm_large_pages_basic g)) v large_pages_pass.
Proof.
  unfold sane_sizes, large_pages_pass, vm_large_pages_basic, CHERIOSTEST. cbn [ct_func].
  destruct (is_freebsd g); intros Hsane.
  - unfold get_pagesizes_freebsd. apply judged_assoc.
    apply (judged_libcall _ _ _ (pl_sizes P) v).
    { intros w <-. destruct (l_getpagesizes (cap := cap) w) as (w' & Hr & Hw). by rewrite Hr. }
    destruct (pl_sizes P) as [[|p0 ps]|]; [| |apply judged_failure; by intros (? & ? & [=] & _)].
    + apply judged_undef_bind. by intros (? & ? & [=] & _).
    + specialize (Hsane _ eq_refl). apply Forall_cons_1 in Hsane as [_ Hps]. apply judged_assoc.
      apply judged_verify; [intros H0%Z.eqb_eq|intros H0%Z.eqb_neq (? & ? & [= <- <-] & ? & _); done].
      apply judged_ret. simpl tail. eapply judged_iff; [by apply end_judged|]. split.
      * intros H. by exists p0, ps.
      * by intros (? & ? & [= <- <-] & _ & H).
  - unfold get_pagesizes_linux. apply judged_assoc.
    eapply judged_bind; [apply (steps_gets _ _ (fun w v' => l_view w = v /\ v' = v));
      intros s [_ Hv]; by split|].
    intros w ? [Hw ->]. rewrite l_readdir.
    destruct (pl_names P) as [names|]; [|apply judged_undef_bind; by intros (? & [=] & _)].
    specialize (Hsane _ eq_refl).
    eapply judged_iff; [apply (read_sizes_judged names [] _ v
      (Forall pool_ok (sizes_of names) /\ sizes_ok 0 (sizes_of names))); [done|]|].
    + intros _. apply pool_asks. intros v'. by apply end_judged.
    + simpl app. split; [intros H; by exists names|]. by intros (? & [= <-] & H).
Qed.

Lemma stack_judged v : judged (ct_func mmap_insert_stack) v
  (pl_stack P = Some ENOMEM /\ pl_unmap P = true).
Proof.
  eapply judged_bind; [apply (steps_call2 _ _ _ _ (fun _ v' => v' = v))|].
  { intros w <-. destruct (l_fixed (cap := cap) w) as (c & w' & Hr & Hw). by exists c, w'. }
  intros p ? -> s [Hs Hv].
  destruct (l_stack (cheri_address_set p 0x20ffc000) (set_world (p_world s) s).(p_world))
    as (w' & Hw & Hr). simpl in Hr, Hw.
  assert (exists r, sys_mmap (cheri_address_set p 0x20ffc000) 0x2000 (Z.lor PROT_WRITE PROT_READ)
     (Z.lor MAP_STACK MAP_FIXED) (-1) 0 (p_world s) = (r, w') /\
     (r = inr ENOMEM <-> pl_stack P = Some ENOMEM)) as (r & Hr' & Hiff).
  { destruct (pl_stack P) as [e|].
    - exists (inr e). split; [exact Hr|]. split; by intros [= ->].
    - destruct Hr as (d & Hr). by exists (inl d). }
  rewrite (call_error_iff _ _ _ _ _ _ _ _ Hr'), Hiff.
  destruct (l_unmap_stack (cheri_address_set p 0x20ffc000) w') as (w2 & Hr2).
  rewrite (check_iff _ _ _ (set_errno ENOMEM (set_world w' s)) _ _ Hr2).
  destruct (pl_unmap P).
  - split; [tauto|]. intros [? _]. split; [done|]. exists 0. split; [done|]. by apply succeeds_success.
  - split; [by intros [_ (? & [=] & _)]|by intros [_ [=]]].
Qed.

(** C8: on a system whose sizes are at least a page, the test of large pages
    passes exactly when the system lists the sizes (on CheriBSD from the base page
    on; on Linux at most 512 names of sysfs with a number, each with a pool that is
    not empty), and each size below 2^30 is created and mapped with a tag, its
    length, the permissions to load and store, and keeps a capability at its
    start, its middle and its last page; but with 513 names its check of the
    number lets the store behind the array pass.  The test of a stack passes
    exactly when it is refused with ENOMEM and the range can be unmapped
    afterwards. *)
Theorem large_pages_verdict (v : lview) :
  (sane_sizes -> judged (ct_func (vm_large_pages_basic g)) v large_pages_pass) /\
  (forall names s, Z.of_nat (length (sizes_of names)) = max_size + 1 ->
   read_sizes (cap := cap) (W := W) names [] s = (Undef, s)) /\
  judged (ct_func mmap_insert_stack) v (pl_stack P = Some ENOMEM /\ pl_unmap P = true).
Proof.
  split; [apply large_pages_judged|]. split; [apply hugepages_overflow|]. apply stack_judged.
Qed.
End Facts.

(** A name made from a number is read back as that number. *)
Lemma strip_prefix_app pre s : strip_prefix pre (pre +:+ s) = Some s.
Proof. induction pre as [|a pre IH]; [done|]. simpl. by rewrite Ascii.eqb_refl. Qed.

Lemma digits_head fuel n acc : exists d t, 0 <= d < 10 /\
  digits false 10 (S fuel) n acc = String (digit false d) t.
Proof.
  revert n acc. induction fuel as [|fuel IH]; intros n acc;
    pose proof (Z.mod_pos_bound n 10 ltac:(lia)) as Hm.
  - exists (n mod 10), acc. split; [done|]. cbn [digits]. by case_match.
  - cbn [digits] in *. case_match; [by exists (n mod 10), acc|]. apply IH.
Qed.

Lemma hugepages_roundtrip n : 0 <= n < 2 ^ 64 ->
  sscanf_hugepages ("hugepages-" +:+ (utoa false 10 n +:+ "kB")) = Some n.
Proof.
  intros Hn. unfold sscanf_hugepages. rewrite strip_prefix_app. unfold scan_lu.
  pose proof (strtou_utoa false 10 n "kB" ltac:(lia) Hn) as Hv. unfold utoa in *.
  destruct (digits_head 63 n EmptyString) as (d & t & Hd & Hh). change (S 63) with 64%nat in Hh.
  rewrite Hh in *. rewrite string_app_cons in *. cbn [strtou] in Hv.
  rewrite digit_val_digit, (proj2 (Z.ltb_lt _ _)) in Hv by lia.
  assert (isspace (digit false d) = false /\
    scan_sign (String (digit false d) (t +:+ "kB")) = (false, String (digit false d) (t +:+ "kB")))
    as [Hsp Hsg].
  { assert (d ∈ seqZ 0 10) as Hin by (apply elem_of_seqZ; lia). clear Hv Hh Hd.
    revert d Hin. cbn -[isspace scan_sign digit].
    intros d Hin; repeat (apply elem_of_cons in Hin as [->|Hin]; [by split|]).
    by apply not_elem_of_nil in Hin. }
  cbn [skip_space]. rewrite Hsp, Hsg, digit_val_digit, (proj2 (Z.ltb_lt _ _)) by lia.
  rewrite Z.mul_0_l, Z.add_0_l in Hv. rewrite Hv.
  change (digit_val "k") with (@None Z). cbv beta iota zeta. cbn [fst].
  destruct (Z.leb_spec (2 ^ 64) n); [lia|done].
Qed.

(** ** A concrete system *)

(** Pages of 64 kB and 2 MB, and one of 1 GB that cannot be mapped. *)
Definition toy_large (n : Z) : option large_map :=
  if bool_decide (n = 2 ^ 16 \/ n = 2 ^ 21)
  then Some (LargeMap true n (Z.lor (mask PLoad) (mask PStore)) (fun _ => Kept)) else None.

Definition toy_pages : pages_policy := {|
  pl_sizes := Some [4096; 2 ^ 16; 2 ^ 21; 2 ^ 30];
  pl_names := Some ["."; ".."; "hugepages-2048kB"; "hugepages-64kB"; "hugepages-1048576kB"];
  pl_file path := Some "12";
  pl_create _ := true;
  pl_map := toy_large;
  pl_stack := Some 12;
  pl_unmap := true;
|}.

Definition lworld_mmap (hint : scap) (n fd : Z) (w : lview) : (scap + Z) * lview :=
  if cheri_address_get hint =? 0 then
    match toy_large n with
    | Some m => let c := toy_cap 0x40000000 n 0 (lm_perms m) in
                (inl c, LView (lv_fd w) (Some (0x40000000, m)) ∅)
    | None => (inr 12, w)
    end
  else if n =? 0x1000000 then (inl hint, w) else (inr 12, w).

(** The mapping is the only memory. *)
Definition lworld_offset (c : scap) (w : lview) : Z :=
  cheri_address_get c - default 0 (fst <$> lv_map w).

Definition lworld_store (off : Z) (w : lview) : (unit + siginfo scap) * lview :=
  match lv_map w with
  | Some (a, m) =>
      match lm_fate m off with
      | Faulting => (inr (Siginfo 11 2 0 cap_null), w)
      | fate => (inl tt, LView (lv_fd w) (Some (a, m))
                   (<[off := match fate with Kept => true | _ => false end]> (lv_tags w)))
      end
  | None => (inl tt, w)
  end.

#[export] Instance lworld_kernel : Kernel scap lview := {|
  getpagesize := 4096;
  sys_mmap hint n _ _ fd _ w := lworld_mmap hint n fd w;
  sys_munmap _ n w := (inl 0, LView (lv_fd w) None ∅);
  sys_mprotect _ _ _ w := (inl 0, w);
  sys_minherit _ _ _ w := (inl 0, w);
  sys_shmget _ _ _ w := (inr 78, w);
  sys_shmat _ _ _ w := (inr 78, w);
  sys_shmdt _ w := (inr 78, w);
  sys_shm_open _ _ _ w := (inr 78, w);
  sys_shm_unlink _ w := (inl 0, w);
  sys_memfd_create _ _ w := (inr 78, w);
  sys_open _ _ w := (inr 78, w);
  sys_mkstemp t w := (inr 78, w);
  sys_unlink _ w := (inl 0, w);
  sys_ftruncate _ _ w := (inl 0, w);
  sys_close _ w := (inl 0, LView None None ∅);
  os_random w := (7, w);
  mem_load_cap c off w :=
    (inl (SCap (default false (lv_tags w !! lworld_offset c w)) 0 0 0 0 (-1)), w);
  mem_store_cap c off x w := lworld_store (lworld_offset c w) w;
  mem_store_byte _ _ _ w := (inl tt, w);
  stack_local n := toy_cap 0x7000 n 0 0;
|}.

#[export] Instance lworld_pages : PagesOS lview := {|
  MAXPAGESIZES := 4;
  os_getpagesizes w := (pl_sizes toy_pages, w);
  os_readdir _ _ := pl_names toy_pages;
  os_fopen path w := (pl_file toy_pages path, w);
  sys_shm_create_largepage _ w := (inl 5, LView (Some 5) None ∅);
  MAP_HUGETLB := 0x40000;
  MAP_HUGE_SHIFT := 26;
  MAP_STACK := 0x400;
|}.

#[export] Instance lworld_rules : PagesRules scap lview.
Proof.
  assert (forall n m, toy_large n = Some m -> m = LargeMap true n
    (Z.lor (mask PLoad) (mask PStore)) (fun _ => Kept) /\ 0 <= n <= 2 ^ 21) as Hlarge.
  { intros n m. unfold toy_large. case_bool_decide; [|done]. intros [= <-]. split; [done|lia]. }
  refine {| l_view := fun w => w; l_policy := toy_pages; l_fault := Siginfo 11 2 0 cap_null |}.
  - done.
  - by eexists.
  - done.
  - by eexists.
  - intros psind w. eexists. exists 5. done.
  - by eexists.
  - intros n flags fd w _. simpl. unfold lworld_mmap. simpl. destruct (toy_large n) as [m|] eqn:Hm.
    + destruct (Hlarge n m Hm) as [-> Hn]. eexists. eexists. split; [done|]. split; [|done].
      split; simpl; rewrite ?wrapu_small by lia; done || lia.
    + by eexists _, _.
  - intros d x a m w _ Hm off. simpl in *. unfold lworld_offset, lworld_store. rewrite Hm.
    simpl. fold off. destruct (lm_fate m off) eqn:Hf; by eexists.
  - intros d a m b w _ Hm Hb. eexists _, _. split; [done|]. simpl. unfold lworld_offset.
    simpl in *. rewrite Hm. simpl. by rewrite Hb.
  - by eexists.
  - by eexists.
  - done.
  - by eexists _, _.
  - intros c w. exists w. split; [done|]. simpl. unfold lworld_mmap.
    by destruct (_ =? 0).
  - by eexists.
Defined.

Definition pages_config (k : os) : config :=
  Config k Aarch64 true false false true "cheriostest" "-purecap" "../libexec".

Definition toy_lview : lview := LView None None ∅.

(** Both systems pass, on Linux without the page of 1 GB, and the stack is
    refused. *)
Lemma large_pages_verdict_witness :
  judged (cap := scap) (fun w => w) (ct_func (vm_large_pages_basic (pages_config FreeBSD)))
    toy_lview True /\
  judged (cap := scap) (fun w => w) (ct_func (vm_large_pages_basic (pages_config Linux)))
    toy_lview True /\
  judged (cap := scap) (fun w => w) (ct_func (mmap_insert_stack (W := lview))) toy_lview True.
Proof.
  assert (forall k psind n, n = 2 ^ 16 \/ n = 2 ^ 21 ->
    size_ok (PR := lworld_rules) (pages_config k) psind n) as Hok.
  { intros k psind n Hn. split; [by destruct k|]. exists (LargeMap true n
      (Z.lor (mask PLoad) (mask PStore)) (fun _ => Kept)).
    split; [simpl; unfold toy_large; by rewrite bool_decide_true|].
    split; [done|]. split; [done|]. split; [|done]. by vm_compute. }
  assert (Forall (fun x => 4096 <= x) [4096; 2 ^ 16; 2 ^ 21; 2 ^ 30]) as Hs1.
  { repeat apply Forall_cons_2; lia || constructor. }
  assert (sizes_of ["."; ".."; "hugepages-2048kB"; "hugepages-64kB"; "hugepages-1048576kB"]
    = [2 ^ 21; 2 ^ 16; 2 ^ 30]) as Hn by (vm_compute; reflexivity).
  destruct (large_pages_verdict (PR := lworld_rules) (pages_config FreeBSD) toy_lview) as [H1 _].
  destruct (large_pages_verdict (PR := lworld_rules) (pages_config Linux) toy_lview)
    as (H2 & _ & H3).
  split; [|split].
  - refine (judged_iff _ _ _ _ (H1 _) _).
    + intros ps [= <-]. exact Hs1.
    + split; [done|]. intros _. exists 4096, [2 ^ 16; 2 ^ 21; 2 ^ 30].
      split; [reflexivity|]. split; [done|].
      repeat apply Forall_cons_2; simpl;
        [right; apply Hok; tauto|right; apply Hok; tauto|left; lia|constructor].
  - refine (judged_iff _ _ _ _ (H2 _) _).
    + intros names [= <-]. rewrite Hn. repeat apply Forall_cons_2; simpl; lia || constructor.
    + split; [done|]. intros _. eexists. split; [reflexivity|]. rewrite Hn. split; [done|]. split.
      * repeat apply Forall_cons_2; try constructor; by exists "12"%string, 12.
      * repeat apply Forall_cons_2; simpl;
          [right; apply Hok; tauto|right; apply Hok; tauto|left; lia|constructor].
  - refine (judged_iff _ _ _ _ H3 _). done.
Defined.
