(* ===== verification/PageType.v ===== *)
(** * PageType: the type of the shared page

    The controller reads the page that the test process leaves with string
    functions and a switch, so it relies on an invariant that C does not state:
    the text ends within its array, the result is one of the three constants, a
    warning comes with a success only, and in a pure-capability build the two
    addresses are kept without their tags.  [page_typed] is that invariant and
    [page_keeps] the typing judgement of a body; the rules below type the calls
    of the harness and the ways in which a test composes them, and
    [page_type_preserved] carries the judgement through the whole child. *)

From S2P Require Import Prelude Printf Cheri Perms Harness Runner Toy Registers RunnerFacts Kernel VmTags VmPages.

(** ** Texts in a buffer *)

Lemma length_cstr_nul (b : bytes) : NUL ∈ b -> (String.length (cstr b) < length b)%nat.
Proof.
  induction b as [|c b IH]; [by intros ?%not_elem_of_nil|]. intros H. cbn [cstr length].
  destruct (Ascii.eqb c NUL) eqn:Hc; cbn [String.length]; [lia|].
  apply Ascii.eqb_neq in Hc. apply elem_of_cons in H as [H|H]; [congruence|].
  specialize (IH H). lia.
Qed.

Lemma snprintf_at_nul (buf : bytes) (off size : nat) (text : string) :
  (off + size <= length buf)%nat -> NUL ∈ buf -> NUL ∈ snprintf_at buf off size text.
Proof.
  intros Hl Hn. unfold snprintf_at. case_decide; [done|]. unfold splice.
  rewrite !elem_of_app, list_elem_of_singleton. tauto.
Qed.

Section PageType.
Context {cap W : Type} {CH : Cheri cap} {CL : CheriLaws cap} {LC : Libc cap W}.
Context (g : config).

Record page_typed (c : child_state cap) : Prop := {
  pt_length : length (ccs_testresult_str c) = TESTRESULT_STR_LEN;
  pt_terminated : NUL ∈ ccs_testresult_str c;
  pt_result : ccs_testresult c = TESTRESULT_UNKNOWN \/ ccs_testresult c = TESTRESULT_SUCCESS \/
    ccs_testresult c = TESTRESULT_FAILURE;
  pt_warn : ccs_warn c = true -> ccs_testresult c = TESTRESULT_SUCCESS;
  pt_untagged : cfg_purecap g = true ->
    cheri_tag_get (ccs_si_addr c) = false /\ cheri_tag_get (ccs_si_addr_expected c) = false;
}.

(** A child without the page has nothing to keep. *)
Definition proc_typed (s : proc cap W) : Prop :=
  match p_ccsp s with Some c => page_typed c | None => True end.

Definition page_keeps {A} (m : test cap W A) : Prop :=
  forall s, proc_typed s -> proc_typed (m s).2.

(** *** Pages *)

Lemma zero_typed : page_typed child_state_zero.
Proof.
  split; cbn [child_state_zero ccs_testresult_str ccs_testresult ccs_warn ccs_si_addr
    ccs_si_addr_expected]; [by rewrite length_replicate| |by left|done|].
  - apply elem_of_replicate. split; [done|lia || done].
  - intros _. split; apply of_int_tag.
Qed.

(** The text can be read, and ends within its array. *)
Lemma typed_text c : page_typed c ->
  (String.length (cstr (ccs_testresult_str c)) < TESTRESULT_STR_LEN)%nat.
Proof. intros [<- H _ _ _]. by apply length_cstr_nul. Qed.

Lemma set_result_typed r str warn c : page_typed c ->
  length str = TESTRESULT_STR_LEN -> NUL ∈ str ->
  r = TESTRESULT_SUCCESS \/ r = TESTRESULT_FAILURE /\ warn = false ->
  page_typed (set_result r str warn c).
Proof.
  intros [_ _ _ _ Ht] Hl Hn Hr. split; cbn; [done|done| | |exact Ht].
  - tauto.
  - by destruct Hr as [?|[_ ->]].
Qed.

Lemma set_signal_typed sig code trapno addr tag c : page_typed c ->
  (cfg_purecap g = true -> cheri_tag_get addr = false) ->
  page_typed (set_signal sig code trapno addr tag c).
Proof. intros [? ? ? ? Ht] Ha. split; cbn; try done. intros H. split; [auto|]. by apply Ht. Qed.

Lemma set_expected_typed addr tag c : page_typed c ->
  (cfg_purecap g = true -> cheri_tag_get addr = false) -> page_typed (set_expected addr tag c).
Proof. intros [? ? ? ? Ht] Ha. split; cbn; try done. intros H. split; [by apply Ht|auto]. Qed.

(** *** Rules *)

Lemma keeps_bind {A B} (m : test cap W A) (k : A -> test cap W B) :
  page_keeps m -> (forall a, page_keeps (k a)) -> page_keeps (m ≫= k).
Proof.
  intros Hm Hk s Hs. specialize (Hm s Hs). unfold mbind, eff_bind.
  destruct (m s) as [[a|c|si|] s']; [by apply Hk|done..].
Qed.

Lemma keeps_ret {A} (a : A) : page_keeps (mret a).
Proof. by intros s. Qed.

Lemma keeps_gets {A} (f : proc cap W -> A) : page_keeps (gets f).
Proof. by intros s. Qed.

Lemma keeps_exit {A} code : page_keeps (exit code : test cap W A).
Proof. by intros s. Qed.

Lemma keeps_raise {A} si : page_keeps (raise_fault si : test cap W A).
Proof. by intros s. Qed.

Lemma keeps_undef {A} : page_keeps (undef : test cap W A).
Proof. by intros s. Qed.

Lemma keeps_modify f : (forall s, p_ccsp (f s) = p_ccsp s) -> page_keeps (modify f).
Proof. intros Hf s. unfold proc_typed. cbn. by rewrite Hf. Qed.

Lemma keeps_when b m : page_keeps m -> page_keeps (when b m).
Proof. destruct b; [done|]. intros _. apply keeps_ret. Qed.

Lemma keeps_foreach {A} (l : list A) f : (forall x, page_keeps (f x)) -> page_keeps (foreach l f).
Proof. intros Hf. induction l; [apply keeps_ret|]. by apply keeps_bind. Qed.

Lemma keeps_with_ccsp f : (forall c, page_typed c -> page_typed (f c)) -> page_keeps (with_ccsp f).
Proof.
  intros Hf s Hs. unfold with_ccsp. destruct (p_ccsp s) as [c|] eqn:Hc; [|done].
  apply Hf. unfold proc_typed in Hs. by rewrite Hc in Hs.
Qed.

Lemma keeps_sys {A} (f : W -> (A + Z) * W) : page_keeps (sys f).
Proof. intros s Hs. unfold sys. by destruct (f _). Qed.

Lemma keeps_access {A} (f : W -> (A + siginfo cap) * W) : page_keeps (access f).
Proof. intros s Hs. unfold access. by destruct (f _). Qed.

Lemma keeps_libcall {A} (f : W -> A * W) : page_keeps (libcall f).
Proof. intros s Hs. unfold libcall. by destruct (f _). Qed.

(** *** The calls of the harness *)

Lemma keeps_failure_x msg ap : page_keeps (vcheriostest_failure_errx msg ap).
Proof.
  intros s Hs. unfold vcheriostest_failure_errx. destruct (p_ccsp s) as [c|] eqn:Hc;
    [|unfold proc_typed; cbn; by rewrite Hc].
  unfold proc_typed in Hs. rewrite Hc in Hs. pose proof Hs as [Hl Hn _ _ _].
  apply set_result_typed; [done| | |by right].
  - by rewrite length_snprintf_at by lia.
  - apply snprintf_at_nul; [lia|done].
Qed.

Lemma keeps_failure_c code msg ap : page_keeps (vcheriostest_failure_errc code msg ap).
Proof.
  intros s Hs. unfold vcheriostest_failure_errc. destruct (p_ccsp s) as [c|] eqn:Hc;
    [|unfold proc_typed; cbn; by rewrite Hc].
  unfold proc_typed in Hs. rewrite Hc in Hs. pose proof Hs as [Hl Hn _ _ _].
  set (buf := snprintf_at _ 0 _ _).
  assert (length buf = TESTRESULT_STR_LEN) as Hb by (unfold buf; by rewrite length_snprintf_at by lia).
  assert (NUL ∈ buf) as Hbn by (apply snprintf_at_nul; [lia|done]).
  apply set_result_typed; [done| | |by right].
  - case_match eqn:Hlt; [done|]. apply Nat.leb_gt in Hlt. by rewrite length_snprintf_at by lia.
  - case_match eqn:Hlt; [done|]. apply Nat.leb_gt in Hlt. apply snprintf_at_nul; [lia|done].
Qed.

Lemma length_strncpy src n : length (strncpy src n) = n.
Proof. unfold strncpy. rewrite length_app, length_replicate, length_take. lia. Qed.

Lemma keeps_warn {A} msg : page_keeps (cheriostest_success_with_warn (A := A) msg).
Proof.
  apply keeps_bind; [|intros; apply keeps_exit]. apply keeps_with_ccsp. intros c Hc.
  assert (TESTRESULT_STR_LEN - 1 < length (strncpy msg TESTRESULT_STR_LEN))%nat as Hl
    by (rewrite length_strncpy; unfold TESTRESULT_STR_LEN; lia).
  apply set_result_typed; [done| | |by left].
  - by rewrite length_insert, length_strncpy.
  - apply list_elem_of_lookup. exists (TESTRESULT_STR_LEN - 1)%nat. by apply list_lookup_insert_eq.
Qed.

Lemma keeps_success {A} : page_keeps (cheriostest_success (A := A)).
Proof.
  apply keeps_bind; [|intros; apply keeps_exit]. apply keeps_with_ccsp. intros c Hc.
  pose proof Hc as [Hl Hn _ _ _]. apply set_result_typed; [done..|by left].
Qed.

Lemma keeps_set_expected c : page_keeps (cheriostest_set_expected_si_addr g c).
Proof.
  apply keeps_with_ccsp. intros p Hp.
  destruct (cfg_purecap g) eqn:Hg; apply set_expected_typed; try done; [|by rewrite Hg].
  intros _. apply tag_clear_tag.
Qed.

Lemma keeps_handler {A} sig info : page_keeps (signal_handler g sig info (A := A)).
Proof.
  apply keeps_bind; [|intros; apply keeps_exit]. apply keeps_with_ccsp. intros p Hp.
  apply set_signal_typed; [done|]. intros Hg. rewrite Hg. apply tag_clear_tag.
Qed.
End PageType.

Create HintDb page discriminated.
#[export] Hint Resolve keeps_bind keeps_ret keeps_gets keeps_exit keeps_raise keeps_undef
  keeps_when keeps_foreach keeps_sys keeps_access keeps_libcall keeps_failure_x keeps_failure_c
  keeps_warn keeps_success keeps_set_expected keeps_handler : page.
#[export] Hint Extern 1 (page_keeps _ (modify _)) => apply keeps_modify; reflexivity : page.
#[export] Hint Extern 5 (page_keeps _ (match ?x with _ => _ end)) => destruct x : page.

(** One rule at a time, along the text of the body. *)
Ltac page_step :=
  intros; cbv beta iota zeta;
  first
    [ assumption
    | solve [eauto 2 with page nocore]
    | apply keeps_bind
    | apply keeps_foreach
    | match goal with |- page_keeps _ (match ?x with _ => _ end) => destruct x end
    | apply keeps_modify; reflexivity ].
Ltac page := repeat page_step.

(** What a test asks of a call or of a condition. *)
Section Macros.
Context {cap W : Type} {CH : Cheri cap} {CL : CheriLaws cap} {LC : Libc cap W}.
Context (g : config).

Lemma keeps_errx {A} msg ap : page_keeps (W := W) g (cheriostest_failure_errx (A := A) msg ap).
Proof. page. Qed.

Lemma keeps_err {A} msg ap : page_keeps (W := W) g (cheriostest_failure_err (A := A) msg ap).
Proof. page. Qed.

Lemma keeps_errc {A} code msg ap :
  page_keeps (W := W) g (cheriostest_failure_errc (A := A) code msg ap).
Proof. page. Qed.

Lemma keeps_verify2 b msg ap : page_keeps (W := W) g (CHERIOSTEST_VERIFY2 b msg ap).
Proof. unfold CHERIOSTEST_VERIFY2. destruct b; [apply keeps_ret|apply keeps_errx]. Qed.

Lemma keeps_syscall2 {A} (call : test cap W (A + Z)) msg ap :
  page_keeps g call -> page_keeps g (CHERIOSTEST_CHECK_SYSCALL2 call msg ap).
Proof.
  intros Hc. apply keeps_bind; [done|]. intros [a|e]; [apply keeps_ret|].
  apply keeps_bind; [by apply keeps_modify|intros; apply keeps_err].
Qed.

Lemma keeps_call_error {A} (call : test cap W (A + Z)) text show e :
  page_keeps g call -> page_keeps g (CHERIOSTEST_CHECK_CALL_ERROR call text show e).
Proof.
  intros Hc. apply keeps_bind; [by apply keeps_modify|intros _].
  apply keeps_bind; [done|]. intros [a|e']; [apply keeps_errx|].
  apply keeps_bind; [by apply keeps_modify|intros _]. unfold cheriostest_check_errno.
  case_match; [apply keeps_ret|apply keeps_errx].
Qed.

Lemma keeps_handler_clear sig : page_keeps (W := W) g (signal_handler_clear sig).
Proof.
  apply keeps_bind; [apply keeps_gets|]. intros w. case_match; [|by apply keeps_modify].
  apply keeps_bind; [by apply keeps_modify|]. intros; apply keeps_err.
Qed.
End Macros.

#[export] Hint Resolve keeps_errx keeps_err keeps_errc keeps_verify2 keeps_syscall2
  keeps_call_error keeps_handler_clear : page.

(** ** The life of the child *)

Section Child.
Context {cap W : Type} {CH : Cheri cap} {CL : CheriLaws cap} {LC : Libc cap W} {RO : RunnerOS W}.
Context (g : config) (o : options).

Lemma keeps_world_op {A} (f : W -> A * W) : page_keeps g (world_op (cap := cap) f).
Proof. intros s Hs. unfold world_op. by destruct (f _). Qed.

Lemma keeps_child_err {A} code msg : page_keeps (cap := cap) (W := W) g (child_err (A := A) code msg).
Proof. apply keeps_bind; [by apply keeps_modify|intros; apply keeps_exit]. Qed.

Lemma keeps_child_try call msg : page_keeps (cap := cap) (W := W) g (child_try call msg).
Proof.
  apply keeps_bind; [apply keeps_world_op|]. intros [e|]; [|apply keeps_ret].
  apply keeps_bind; [by apply keeps_modify|intros; apply keeps_child_err].
Qed.

Lemma keeps_install sig : page_keeps (cap := cap) (W := W) g (install_handler sig).
Proof.
  apply keeps_bind; [apply keeps_gets|]. intros w. case_match; [|by apply keeps_modify].
  apply keeps_bind; [by apply keeps_modify|intros; apply keeps_child_err].
Qed.

Lemma keeps_tracing : page_keeps (cap := cap) (W := W) g (set_thread_tracing o).
Proof. unfold set_thread_tracing. case_match; [apply keeps_child_try|apply keeps_child_err]. Qed.

Lemma keeps_child_main ctp fd_in fd_out : page_keeps g (ct_func ctp) ->
  page_keeps (cap := cap) (W := W) g (child_main g o ctp fd_in fd_out).
Proof.
  intros Hf. unfold child_main.
  apply keeps_bind; [apply keeps_foreach; intros; apply keeps_install|intros _].
  do 2 (apply keeps_bind; [apply keeps_child_try|intros _]).
  apply keeps_bind; [apply keeps_world_op|intros _].
  apply keeps_bind; [apply keeps_when, keeps_tracing|intros _].
  apply keeps_bind; [|intros _; apply keeps_bind; [done|intros; apply keeps_exit]].
  apply keeps_when, keeps_bind; [|intros _; apply keeps_world_op].
  apply keeps_when. by apply keeps_modify.
Qed.

Lemma end_typed r st s : proc_typed (W := W) g r.2 -> end_of_process g r = Some (st, s) ->
  proc_typed (cap := cap) g s.
Proof.
  destruct r as [[[]|c|si|] s0]; cbn; intros Hs H; simplify_eq/=; try done.
  case_decide; [|by simplify_eq].
  pose proof (keeps_handler (A := unit) g (si_signo si) si s0 Hs) as Hh.
  destruct (signal_handler g (si_signo si) si s0) as [[] s']; by simplify_eq.
Qed.
End Child.

(** The tests of large pages and of stacks are typed: they only call the
    harness, the kernel and the memory. *)
Section Bodies.
Context {cap W : Type} {CH : Cheri cap} {CL : CheriLaws cap} {LC : Libc cap W}
  {KE : Kernel cap W} {VC : VmConsts} {HP : Perms} {PO : PagesOS W}.
Context (g : config).

Lemma read_sizes_keeps names got : page_keeps (W := W) g (read_sizes (cap := cap) names got).
Proof. revert got. induction names; intros got; simpl; page. Qed.

Lemma check_pool_keeps ps : page_keeps (W := W) g (check_hugepages_pool (cap := cap) ps).
Proof. apply keeps_foreach. page. Qed.

Lemma large_pages_keeps : page_keeps g (ct_func (vm_large_pages_basic (cap := cap) (W := W) g)).
Proof.
  cbn [vm_large_pages_basic CHERIOSTEST ct_func].
  assert (forall l, page_keeps g (each_size (cap := cap) (W := W) g l)) as He.
  { intros l. apply keeps_foreach. intros [psind size]. case_match; [page|].
    unfold large_page, map_large, use_large, store_and_look, CHERIOSTEST_CHECK_SYSCALL, try_sys.
    page. }
  unfold get_pagesizes_freebsd, get_pagesizes_linux.
  pose proof read_sizes_keeps. pose proof check_pool_keeps. page.
Qed.

Lemma insert_stack_keeps : page_keeps g (ct_func (mmap_insert_stack (cap := cap) (W := W))).
Proof. cbn [mmap_insert_stack CHERIOSTEST ct_func]. unfold CHERIOSTEST_CHECK_SYSCALL. page. Qed.
End Bodies.

(** C26: the page is well typed at the start, and every call of the harness
    keeps it so: the three failures, both successes, the expected address and the
    signal handler, and the checks of a condition, of a system call and of an
    error number; sequences keep it too.  So whatever a child does that runs a
    typed body, to its end by return, exit or signal, the controller finds a typed
    page, and a text of less than TESTRESULT_STR_LEN characters. *)
Theorem page_type_preserved {cap W : Type} {CH : Cheri cap} {CL : CheriLaws cap}
    {LC : Libc cap W} {RO : RunnerOS W} (g : config) (o : options) :
  page_typed (cap := cap) g child_state_zero /\
  (forall A msg ap code sig info c,
    page_keeps g (cheriostest_failure_errx (cap := cap) (W := W) (A := A) msg ap) /\
    page_keeps g (cheriostest_failure_errc (cap := cap) (W := W) (A := A) code msg ap) /\
    page_keeps g (cheriostest_failure_err (cap := cap) (W := W) (A := A) msg ap) /\
    page_keeps g (cheriostest_success (cap := cap) (W := W) (A := A)) /\
    page_keeps g (cheriostest_success_with_warn (cap := cap) (W := W) (A := A) msg) /\
    page_keeps g (cheriostest_set_expected_si_addr (cap := cap) (W := W) g c) /\
    page_keeps g (signal_handler (cap := cap) (W := W) (A := A) g sig info)) /\
  (forall A B (m : test cap W A) (k : A -> test cap W B),
    page_keeps g m -> (forall a, page_keeps g (k a)) -> page_keeps g (m ≫= k)) /\
  (forall A b msg ap (call : test cap W (A + Z)) text show e, page_keeps g call ->
    page_keeps g (CHERIOSTEST_VERIFY2 (cap := cap) (W := W) b msg ap) /\
    page_keeps g (CHERIOSTEST_CHECK_SYSCALL2 call msg ap) /\
    page_keeps g (CHERIOSTEST_CHECK_CALL_ERROR call text show e)) /\
  (forall (ctp : cheri_test cap W) fd_in fd_out d,
    page_keeps g (ct_func ctp) -> page_typed g (d_ccs d) ->
    wlp (run_child g o ctp fd_in fd_out)
      (fun _ d' => page_typed g (d_ccs d') /\
         (String.length (cstr (ccs_testresult_str (d_ccs d'))) < TESTRESULT_STR_LEN)%nat) d).
Proof.
  split; [apply zero_typed|]. split; [intros; split_and!; page|].
  split; [intros; by apply keeps_bind|]. split; [intros; split_and!; page|].
  intros ctp fd_in fd_out d Hf Hd. unfold wpx, run_child.
  pose proof (keeps_child_main g o ctp fd_in fd_out Hf (fork_state o d) Hd) as Hm.
  destruct (end_of_process _ _) as [[st s]|] eqn:He; [|done].
  apply (end_typed _ _ _ _ Hm) in He. unfold proc_typed in He.
  destruct (p_ccsp s) as [c|]; [|done]. split; [exact He|]. by eapply typed_text.
Qed.

(** A run of the test of large pages on the concrete system. *)
Lemma page_type_preserved_witness :
  page_typed (cap := scap) (pages_config Linux) child_state_zero /\
  wp (run_child (pages_config Linux) options0
        (vm_large_pages_basic (pages_config Linux)) (3, 4) (5, 6))
    (fun _ d' => page_typed (pages_config Linux) (d_ccs d') /\
       (String.length (cstr (ccs_testresult_str (d_ccs d'))) < TESTRESULT_STR_LEN)%nat)
    (Driver tally0 child_state_zero [] 0 toy_lview).
Proof.
  destruct (page_type_preserved (cap := scap) (W := lview) (pages_config Linux) options0)
    as (H0 & _ & _ & _ & H).
  split; [exact H0|].
  specialize (H (vm_large_pages_basic (pages_config Linux)) (3, 4) (5, 6)
    (Driver tally0 child_state_zero [] 0 toy_lview) (large_pages_keeps _) H0).
  assert (match (run_child (pages_config Linux) options0
        (vm_large_pages_basic (pages_config Linux)) (3, 4) (5, 6)
        (Driver tally0 child_state_zero [] 0 toy_lview)).1 with Val _ => true | _ => false end
    = true) as Hv by (vm_compute; reflexivity).
  unfold wpx in *. by destruct (run_child _ _ _ _ _ _) as [[] ?].
Defined.
