(* ===== verification/Knotes.v ===== *)
(** * Knotes: capabilities that the kernel holds (cheriostest_vm.c,
    cheri_revoke_lightly)

    A revoker must also look at the capabilities that a process has given to the
    kernel.  The test stores the same capability in memory and in two knotes of a
    kernel queue, one for a user event and one for a pipe, revokes, and takes all
    three back; then it does so again without painting.  The queue follows
    kevent(2) as a machine ([change_note], [note_active], [deliver]); what a pass
    does to each holder is the policy of the kernel. *)

From S2P Require Import Prelude Printf Cheri Perms Harness Runner Toy Registers RunnerFacts AddrGap Spawn Kernel VmTags Mappings Reservations Judge Revocation.

(** sys/event.h *)
Inductive ev_filter := EVFILT_USER | EVFILT_READ.
Inductive ev_flag := EV_ADD | EV_ONESHOT | EV_DISABLE | EV_ENABLE | EV_KEEPUDATA.
Inductive note_flag := NOTE_FFNOP | NOTE_TRIGGER.

#[export] Instance ev_filter_eq_dec : EqDecision ev_filter.
Proof. solve_decision. Defined.
#[export] Instance ev_flag_eq_dec : EqDecision ev_flag.
Proof. solve_decision. Defined.
#[export] Instance note_flag_eq_dec : EqDecision note_flag.
Proof. solve_decision. Defined.

(** struct kevent; its member data is 0 in all calls. *)
Record kevent (cap : Type) := KEvent {
  ke_ident : cap;
  ke_filter : ev_filter;
  ke_flags : list ev_flag;
  ke_fflags : list note_flag;
  ke_udata : cap;
}.
Arguments KEvent {cap}.
Arguments ke_ident {cap}. Arguments ke_filter {cap}. Arguments ke_flags {cap}.
Arguments ke_fflags {cap}. Arguments ke_udata {cap}.

(** The calls of kqueue(2), kevent(2), pipe(2), and one byte of read(2) and
    write(2). *)
Class QueueOS (cap W : Type) := {
  sys_kqueue : W -> (Z + Z) * W;
  sys_kevent_change : Z -> kevent cap -> W -> (Z + Z) * W;    (* one change *)
  sys_kevent_wait : Z -> W -> (kevent cap + Z) * W;           (* one event *)
  sys_pipe : W -> ((Z * Z) + Z) * W;
  sys_write_byte : Z -> Z -> W -> (Z + Z) * W;
  sys_read_byte : Z -> W -> ((Z * Z) + Z) * W;                (* the count, and b *)
  fn_install : cap;                                           (* &install_kqueue_cap *)
}.

Section Lightly.
Context {cap W : Type} {CH : Cheri cap} {LC : Libc cap W} {KE : Kernel cap W}
  {VC : VmConsts} {HP : Perms} {RV : ResvOS cap W} {RK : RevokeOS cap W} {QO : QueueOS cap W}.
Context (g : config) (have_cheribsd : bool).

Abbreviation LAST_PASS := (CHERI_REVOKE_LAST_PASS (cap := cap) (W := W)).
Abbreviation IGNORE_START := (CHERI_REVOKE_IGNORE_START (cap := cap) (W := W)).
Abbreviation TAKE_STATS := (CHERI_REVOKE_TAKE_STATS (cap := cap) (W := W)).
Abbreviation psize := (page (cap := cap) (W := W)).
Abbreviation ptr_size := (sizeof_ptr (cap := cap) (W := W)).
Abbreviation fn := (fn_install (cap := cap) (W := W)).

(** [CHERIOSTEST_CHECK_SYSCALL(kevent(kq, &ike, 1, NULL, 0, NULL))] *)
Definition kevent_change (kq : Z) (ike : kevent cap) : test cap W unit :=
  _ ← CHERIOSTEST_CHECK_SYSCALL (sys (sys_kevent_change kq ike))
        "kevent(kq, &ike, 1, NULL, 0, NULL)";
  mret tt.

Definition install_kqueue_cap (kq : Z) (pfd : Z * Z) (revme : cap) : test cap W unit :=
  kevent_change kq (KEvent fn EVFILT_USER [EV_ADD; EV_ONESHOT; EV_DISABLE] [NOTE_FFNOP] revme) ;;
  kevent_change kq (KEvent fn EVFILT_USER [EV_KEEPUDATA] [NOTE_FFNOP; NOTE_TRIGGER] cap_null) ;;
  kevent_change kq (KEvent (cap_of_int pfd.1) EVFILT_READ [EV_ADD; EV_DISABLE] [] revme) ;;
  rv ← CHERIOSTEST_CHECK_SYSCALL (sys (sys_write_byte (cap := cap) pfd.2 42))
         "write(pfd[1], &b, sizeof(b))";
  CHERIOSTEST_VERIFY (rv =? 1) "rv == 1".

Definition take_event (kq : Z) : test cap W (kevent cap) :=
  CHERIOSTEST_CHECK_SYSCALL (sys (sys_kevent_wait kq)) "kevent(kq, NULL, 0, &oke, 1, NULL)".

Definition check_kqueue_cap (kq : Z) (pfd : Z * Z) (valid : bool) : test cap W unit :=
  kevent_change kq (KEvent fn EVFILT_USER [EV_ENABLE; EV_KEEPUDATA] [NOTE_FFNOP] cap_null) ;;
  oke ← take_event kq;
  CHERIOSTEST_VERIFY2 (cheri_is_equal_exact (ke_ident oke) fn) "Bad identifier from kqueue" [] ;;
  CHERIOSTEST_VERIFY2 (bool_decide (ke_filter oke = EVFILT_USER)) "Bad filter from kqueue" [] ;;
  CHERIOSTEST_VERIFY2 (Bool.eqb (check_revoked (ke_udata oke)) (negb valid))
    "kqueue-held cap not as expected" [] ;;
  kevent_change kq (KEvent (cap_of_int pfd.1) EVFILT_READ [EV_ENABLE; EV_KEEPUDATA] [] cap_null) ;;
  oke ← take_event kq;
  CHERIOSTEST_VERIFY2 (cheri_address_get (ke_ident oke) =? u64 pfd.1)
    "Bad identifier from kqueue" [] ;;
  CHERIOSTEST_VERIFY2 (bool_decide (ke_filter oke = EVFILT_READ)) "Bad filter from kqueue" [] ;;
  CHERIOSTEST_VERIFY2 (Bool.eqb (check_revoked (ke_udata oke)) (negb valid))
    "kqueue-held cap not as expected" [] ;;
  r ← CHERIOSTEST_CHECK_SYSCALL (sys (sys_read_byte (cap := cap) pfd.1))
        "read(pfd[0], &b, sizeof(b))";
  CHERIOSTEST_VERIFY (r.1 =? 1) "rv == 1" ;;
  CHERIOSTEST_VERIFY (r.2 =? 42) "b == 42".

(** A call of cheri_revoke(2), and the shared clock after it. *)
Definition revoke_and_clock (flags start : Z) (text : string) (between : epochs -> test cap W unit)
    : test cap W epochs :=
  crsi ← CHERIOSTEST_CHECK_SYSCALL (sys (sys_cheri_revoke (cap := cap) flags start)) text;
  between crsi ;;
  w ← gets p_world;
  CHERIOSTEST_VERIFY2 (cri_dequeue (cap := cap) w =? dequeue crsi) "Bad shared clock" [] ;;
  mret crsi.

Definition last_ignore_stats : Z := Z.lor (Z.lor LAST_PASS IGNORE_START) TAKE_STATS.

(** The part up to the check that everything is revoked. *)
Definition first_round (kq : Z) (pfd : Z * Z) (mb sh : cap) : test cap W unit :=
  let revme := cheri_perms_and mb EXCEPT_VMEM in
  access (mem_store_cap mb ptr_size revme) ;;
  install_kqueue_cap kq pfd revme ;;
  access (mem_store_byte sh 0 1) ;;
  _ ← revoke_and_clock last_ignore_stats 0
        "cheri_revoke(CHERI_REVOKE_LAST_PASS | CHERI_REVOKE_IGNORE_START | CHERI_REVOKE_TAKE_STATS , 0, &crsi)"
        (fun _ => mret tt);
  c ← access (mem_load_cap mb ptr_size);
  CHERIOSTEST_VERIFY2 (check_revoked c) "Memory tag persists" [] ;;
  check_kqueue_cap kq pfd false.

(** The same without painting, in two calls; nothing may be revoked. *)
Definition second_round (kq : Z) (pfd : Z * Z) (mb sh : cap) : test cap W unit :=
  access (mem_store_byte sh 0 0) ;;
  let revme := cheri_perms_and (slot_ptr (W := W) mb 1) EXCEPT_VMEM in
  CHERIOSTEST_VERIFY2 (negb (check_revoked revme)) "Tag clear on 2nd revme?" [] ;;
  access (mem_store_cap mb ptr_size revme) ;;
  install_kqueue_cap kq pfd revme ;;
  crsi ← revoke_and_clock (Z.lor IGNORE_START TAKE_STATS) 0
           "cheri_revoke(CHERI_REVOKE_IGNORE_START | CHERI_REVOKE_TAKE_STATS, 0, &crsi)"
           (fun crsi => CHERIOSTEST_VERIFY2 (u64 (dequeue crsi + 1) <=? enqueue crsi)
                          "Bad epoch clock state" []);
  _ ← revoke_and_clock (Z.lor LAST_PASS TAKE_STATS) (enqueue crsi)
        "cheri_revoke(CHERI_REVOKE_LAST_PASS | CHERI_REVOKE_TAKE_STATS, crsi.epochs.enqueue, &crsi)"
        (fun _ => mret tt);
  c ← access (mem_load_cap mb ptr_size);
  CHERIOSTEST_VERIFY2 (negb (check_revoked c)) "Memory tag cleared" [] ;;
  check_kqueue_cap kq pfd true.

(** The results of these calls are not looked at. *)
Definition close_all (mb : cap) (kq ekq : Z) (pfd : Z * Z) : test cap W unit :=
  _ ← try_sys (sys_munmap mb psize);
  foreach [kq; ekq; pfd.1; pfd.2] (fun fd =>
    _ ← try_sys (sys_close (cap := cap) fd); mret tt).

Definition cheri_revoke_lightly : cheri_test cap W :=
  revoke_test have_cheribsd (skip_need_cheri_revoke g) "cheri_revoke_lightly"
    "A gentle test of capability revocation"
    (ekq ← CHERIOSTEST_CHECK_SYSCALL (sys (sys_kqueue (cap := cap))) "kqueue()";
     kq ← CHERIOSTEST_CHECK_SYSCALL (sys (sys_kqueue (cap := cap))) "kqueue()";
     pfd ← CHERIOSTEST_CHECK_SYSCALL (sys (sys_pipe (cap := cap))) "pipe(pfd)";
     mb ← CHERIOSTEST_CHECK_SYSCALL (sys (sys_mmap cap_null psize PROT_RW MAP_ANON (-1) 0))
            "mmap(0, CHERITEST_PAGE_SIZE, PROT_READ | PROT_WRITE, MAP_ANON, -1, 0)";
     sh ← CHERIOSTEST_CHECK_SYSCALL (sys (sys_get_shadow_novmem mb))
            "cheri_revoke_get_shadow(CHERI_REVOKE_SHADOW_NOVMEM, mb, &sh)";
     _ ← CHERIOSTEST_CHECK_SYSCALL (sys (cheri_revoke_get_shadow_info (cap := cap)))
           "cheri_revoke_get_shadow(CHERI_REVOKE_SHADOW_INFO_STRUCT, NULL, __DEQUALIFY(void **, &cri))";
     first_round kq pfd mb sh ;;
     second_round kq pfd mb sh ;;
     close_all mb kq ekq pfd ;;
     cheriostest_success).
End Lightly.

(** ** The queue of kevent(2) *)

Record knote (cap : Type) := KNote {
  kn_udata : cap;
  kn_enabled : bool;
  kn_oneshot : bool;
  kn_triggered : bool;
}.
Arguments KNote {cap}.
Arguments kn_udata {cap}. Arguments kn_enabled {cap}. Arguments kn_oneshot {cap}.
Arguments kn_triggered {cap}.

(** A change of a knote; without EV_ADD there is nothing to change in a knote
    that does not exist. *)
Definition change_note {cap} (e : kevent cap) (old : option (knote cap)) : option (knote cap) :=
  let has f := bool_decide (f ∈ ke_flags e) in
  let trigger := bool_decide (NOTE_TRIGGER ∈ ke_fflags e) in
  match old with
  | None => if has EV_ADD
            then Some (KNote (ke_udata e) (negb (has EV_DISABLE)) (has EV_ONESHOT) trigger)
            else None
  | Some k =>
      Some (KNote (if has EV_KEEPUDATA then kn_udata k else ke_udata e)
              (if has EV_DISABLE then false else has EV_ENABLE || kn_enabled k)
              (has EV_ONESHOT || kn_oneshot k) (trigger || kn_triggered k))
  end.

(** Where the kernel and the memory hold the capability. *)
Inductive holder := InMemory | InUserNote | InReadNote.

Record kq_view (cap : Type) := KqView {
  kv_slot : cap;                                    (* mb\[1\] *)
  kv_user : option (knote cap);
  kv_read : option (knote cap);
  kv_pipe : list Z;
  kv_paint : Z;                                     (* the first byte of the shadow *)
  kv_calls : nat;
  kv_queues : nat;                                  (* queues opened *)
}.
Arguments KqView {cap}.
Arguments kv_slot {cap}. Arguments kv_user {cap}. Arguments kv_read {cap}.
Arguments kv_pipe {cap}. Arguments kv_paint {cap}. Arguments kv_calls {cap}.
Arguments kv_queues {cap}.

Definition start_view {cap} (c : cap) : kq_view cap := KqView c None None [] 0 0 0.

(** A kernel, by what it hands out, what its clocks say at each call (the shared
    one: after that many calls) and what a call makes of each holder. *)
Record pass_policy (cap : Type) := PassPolicy {
  pp_kqs : Z * Z;                                   (* of the two calls of kqueue(2) *)
  pp_fds : Z * Z;
  pp_mb : cap;
  pp_sh : cap;
  pp_clock : nat -> epochs;
  pp_shared : nat -> Z;
  pp_hold : nat -> Z -> holder -> cap -> cap;
}.
Arguments PassPolicy {cap}.
Arguments pp_kqs {cap}. Arguments pp_fds {cap}. Arguments pp_mb {cap}. Arguments pp_sh {cap}.
Arguments pp_clock {cap}. Arguments pp_shared {cap}. Arguments pp_hold {cap}.

Section Machine.
Context {cap : Type}.

Definition set_user (n : option (knote cap)) (v : kq_view cap) :=
  KqView (kv_slot v) n (kv_read v) (kv_pipe v) (kv_paint v) (kv_calls v) (kv_queues v).
Definition set_read (n : option (knote cap)) (v : kq_view cap) :=
  KqView (kv_slot v) (kv_user v) n (kv_pipe v) (kv_paint v) (kv_calls v) (kv_queues v).
Definition set_slot (c : cap) (v : kq_view cap) :=
  KqView c (kv_user v) (kv_read v) (kv_pipe v) (kv_paint v) (kv_calls v) (kv_queues v).
Definition set_pipe (l : list Z) (v : kq_view cap) :=
  KqView (kv_slot v) (kv_user v) (kv_read v) l (kv_paint v) (kv_calls v) (kv_queues v).
Definition set_paint (b : Z) (v : kq_view cap) :=
  KqView (kv_slot v) (kv_user v) (kv_read v) (kv_pipe v) b (kv_calls v) (kv_queues v).

Definition set_queues (n : nat) (v : kq_view cap) :=
  KqView (kv_slot v) (kv_user v) (kv_read v) (kv_pipe v) (kv_paint v) (kv_calls v) n.

Definition note_of (f : ev_filter) (v : kq_view cap) : option (knote cap) :=
  match f with EVFILT_USER => kv_user v | EVFILT_READ => kv_read v end.
Definition set_note (f : ev_filter) (n : option (knote cap)) (v : kq_view cap) : kq_view cap :=
  match f with EVFILT_USER => set_user n v | EVFILT_READ => set_read n v end.

(** A knote reports when it is enabled and its event has happened. *)
Definition note_active (f : ev_filter) (v : kq_view cap) : bool :=
  match note_of f v with
  | Some k => kn_enabled k && match f with
      | EVFILT_USER => kn_triggered k
      | EVFILT_READ => negb (bool_decide (kv_pipe v = []))
      end
  | None => false
  end.

(** A report of EV_ONESHOT deletes its knote. *)
Definition deliver (f : ev_filter) (v : kq_view cap) : kq_view cap :=
  match note_of f v with
  | Some k => if kn_oneshot k then set_note f None v else v
  | None => v
  end.

Definition map_udata (h : cap -> cap) (k : knote cap) : knote cap :=
  KNote (h (kn_udata k)) (kn_enabled k) (kn_oneshot k) (kn_triggered k).

Definition pass (P : pass_policy cap) (v : kq_view cap) : kq_view cap :=
  let h := pp_hold P (kv_calls v) (kv_paint v) in
  KqView (h InMemory (kv_slot v)) (map_udata (h InUserNote) <$> kv_user v)
    (map_udata (h InReadNote) <$> kv_read v) (kv_pipe v) (kv_paint v) (S (kv_calls v))
    (kv_queues v).
End Machine.

Section Rules.
Context {cap W : Type} {CH : Cheri cap} {LC : Libc cap W} {KE : Kernel cap W}
  {VC : VmConsts} {HP : Perms} {RV : ResvOS cap W} {RK : RevokeOS cap W} {QO : QueueOS cap W}.

(** The knote that an event names. *)
Definition names_note (P : pass_policy cap) (f : ev_filter) (c : cap) : Prop :=
  c = match f with
      | EVFILT_USER => fn_install (cap := cap) (W := W)
      | EVFILT_READ => cap_of_int (pp_fds P).1
      end.

Class QueueRules := {
  q_view : W -> kq_view cap;
  q_policy : pass_policy cap;
  q_fd : 0 <= (pp_fds q_policy).1 < 2 ^ 31;
  q_kqs : (pp_kqs q_policy).1 <> (pp_kqs q_policy).2;
  q_first w : kv_queues (q_view w) = 0%nat -> exists w',
    sys_kqueue (cap := cap) w = (inl (pp_kqs q_policy).1, w') /\ q_view w' = set_queues 1 (q_view w);
  q_second w : kv_queues (q_view w) = 1%nat -> exists w',
    sys_kqueue (cap := cap) w = (inl (pp_kqs q_policy).2, w') /\ q_view w' = set_queues 2 (q_view w);
  q_pipe w : exists w', sys_pipe (cap := cap) w = (inl (pp_fds q_policy), w') /\
    q_view w' = set_pipe [] (q_view w);
  (* the notes are those of the second queue; of the first, nothing is said *)
  q_change e w : kv_queues (q_view w) = 2%nat -> names_note q_policy (ke_filter e) (ke_ident e) ->
    is_Some (change_note e (note_of (ke_filter e) (q_view w))) ->
    exists n w', sys_kevent_change (pp_kqs q_policy).2 e w = (inl n, w') /\
      q_view w' = set_note (ke_filter e) (change_note e (note_of (ke_filter e) (q_view w))) (q_view w);
  (* one knote alone has something to report *)
  q_wait f k w : kv_queues (q_view w) = 2%nat -> note_of f (q_view w) = Some k -> note_active f (q_view w) = true ->
    (forall f', f' <> f -> note_active f' (q_view w) = false) ->
    exists e w', sys_kevent_wait (pp_kqs q_policy).2 w = (inl e, w') /\ names_note q_policy f (ke_ident e) /\
      ke_filter e = f /\ ke_udata e = kn_udata k /\ q_view w' = deliver f (q_view w);
  q_write b w : exists w', sys_write_byte (cap := cap) (pp_fds q_policy).2 b w = (inl 1, w') /\
    q_view w' = set_pipe (kv_pipe (q_view w) ++ [b]) (q_view w);
  q_read b l w : kv_pipe (q_view w) = b :: l -> exists w',
    sys_read_byte (cap := cap) (pp_fds q_policy).1 w = (inl (1, b), w') /\
    q_view w' = set_pipe l (q_view w);
  q_map w : exists w', sys_mmap cap_null (page (cap := cap) (W := W)) PROT_RW MAP_ANON (-1) 0 w
    = (inl (pp_mb q_policy), w') /\ q_view w' = q_view w;
  q_shadow w : exists w', sys_get_shadow_novmem (pp_mb q_policy) w = (inl (pp_sh q_policy), w') /\
    q_view w' = q_view w;
  q_info w : exists n w', cheri_revoke_get_shadow_info (cap := cap) w = (inl n, w') /\
    q_view w' = q_view w;
  q_store x w : exists w', mem_store_cap (pp_mb q_policy) (sizeof_ptr (cap := cap) (W := W)) x w
    = (inl tt, w') /\ q_view w' = set_slot x (q_view w);
  q_load w : exists w', mem_load_cap (pp_mb q_policy) (sizeof_ptr (cap := cap) (W := W)) w
    = (inl (kv_slot (q_view w)), w') /\ q_view w' = q_view w;
  q_paint b w : exists w', mem_store_byte (pp_sh q_policy) 0 b w = (inl tt, w') /\
    q_view w' = set_paint b (q_view w);
  q_revoke flags start w : exists w', let n := kv_calls (q_view w) in
    sys_cheri_revoke (cap := cap) flags start w = (inl (pp_clock q_policy n), w') /\
    q_view w' = pass q_policy (q_view w);
  q_dequeue w : cri_dequeue (cap := cap) w = pp_shared q_policy (kv_calls (q_view w));
}.
End Rules.
Arguments QueueRules cap W {_ _ _ _ _ _}.

Section Facts.
Context {cap W : Type} {CH : Cheri cap} {CL : CheriLaws cap} {LC : Libc cap W} {KE : Kernel cap W}
  {VC : VmConsts} {HP : Perms} {RV : ResvOS cap W} {RK : RevokeOS cap W} {QO : QueueOS cap W}
  {QR : QueueRules cap W}.
Context (g : config).

Abbreviation P := (q_policy (cap := cap) (W := W)).
Abbreviation steps := (Judge.steps (cap := cap) q_view).
Abbreviation decides := (Judge.decides (cap := cap) q_view).
Abbreviation judged := (Judge.judged (cap := cap) q_view).
Abbreviation kq := (pp_kqs P).2.
Abbreviation read_id := (cap_of_int (pp_fds P).1).

(** A view between two rounds: no user event, an empty pipe. *)
Definition quiet (v : kq_view cap) : Prop :=
  kv_queues v = 2%nat /\ kv_user v = None /\ kv_pipe v = [] /\
  match kv_read v with Some k => kn_oneshot k = false /\ kn_triggered k = false | None => True end.

(** Both knotes hold a capability and wait to be enabled. *)
Definition held (slot a b : cap) (paint : Z) (n : nat) : kq_view cap :=
  KqView slot (Some (KNote a false true true)) (Some (KNote b false false false)) [42] paint n 2.

(** The capabilities were taken back. *)
Definition taken (slot b : cap) (paint : Z) (n : nat) : kq_view cap :=
  KqView slot None (Some (KNote b true false false)) [] paint n 2.

Lemma steps_change e v n : kv_queues v = 2%nat -> names_note P (ke_filter e) (ke_ident e) ->
  change_note e (note_of (ke_filter e) v) = Some n ->
  steps (kevent_change kq e) v (fun _ v' => v' = set_note (ke_filter e) (Some n) v).
Proof.
  intros H2 Hn Hc. apply (steps_bind _ _ _ (fun _ v' => v' = set_note (ke_filter e) (Some n) v)).
  - apply steps_call2. intros w Hw. destruct (q_change e w) as (r & w' & Hr & Hv).
    + by rewrite Hw.
    + done.
    + rewrite Hw, Hc. by eexists.
    + exists r, w'. by rewrite Hv, Hw, Hc.
  - intros r ? ->. by apply steps_ret.
Qed.

Lemma steps_take_event f k v : kv_queues v = 2%nat -> note_of f v = Some k -> note_active f v = true ->
  (forall f', f' <> f -> note_active f' v = false) ->
  steps (take_event kq) v (fun e v' => names_note P f (ke_ident e) /\ ke_filter e = f /\
    ke_udata e = kn_udata k /\ v' = deliver f v).
Proof.
  intros H2 Hk Ha Ho. apply steps_call2. intros w <-.
  destruct (q_wait f k w H2 Hk Ha Ho) as (e & w' & Hr & ? & ? & ? & ?). by exists e, w'.
Qed.

Lemma steps_write b v : steps (CHERIOSTEST_CHECK_SYSCALL (sys (sys_write_byte (cap := cap) (pp_fds P).2 b))
    "write(pfd[1], &b, sizeof(b))") v (fun r v' => r = 1 /\ v' = set_pipe (kv_pipe v ++ [b]) v).
Proof.
  apply steps_call2. intros w <-. destruct (q_write (cap := cap) b w) as (w' & Hr & Hv). by exists 1, w'.
Qed.

Lemma steps_read b l v : kv_pipe v = b :: l ->
  steps (CHERIOSTEST_CHECK_SYSCALL (sys (sys_read_byte (cap := cap) (pp_fds P).1))
    "read(pfd[0], &b, sizeof(b))") v (fun r v' => r = (1, b) /\ v' = set_pipe l v).
Proof.
  intros Hl. apply steps_call2. intros w <-. destruct (q_read (cap := cap) b l w Hl) as (w' & Hr & Hv).
  by exists (1, b), w'.
Qed.

Lemma decides_last {A B} (m : test cap W A) (k : A -> test cap W B) v b Q R :
  decides m v b Q -> (forall a v', Q a v' -> steps (k a) v' R) -> decides (m ≫= k) v b R.
Proof.
  intros Hm Hk. rewrite <- (andb_true_r b). eapply decides_bind; [exact Hm|]. intros _. exact Hk.
Qed.

(** Installing puts the capability in both knotes, whatever the pipe's knote was
    before. *)
Lemma steps_install_notes c v : quiet v ->
  steps (install_kqueue_cap kq (pp_fds P) c) v
    (fun _ v' => v' = held (kv_slot v) c c (kv_paint v) (kv_calls v)).
Proof.
  destruct v as [slot u r l pt n q]. intros (H2 & Hu & Hl & Hr). simpl in *. subst q u l.
  unfold install_kqueue_cap.
  eapply steps_bind; [by apply steps_change|intros _ ? ->].
  eapply steps_bind; [by apply steps_change|intros _ ? ->].
  eapply (steps_bind _ _ _ (fun _ v' => v' = KqView slot (Some (KNote c false true true))
    (Some (KNote c false false false)) [] pt n 2)).
  { destruct r as [[c' en one tr]|].
    - simpl in Hr. destruct Hr as [-> ->]. eapply steps_mono; [by apply steps_change|]. by intros _ ? ->.
    - eapply steps_mono; [by apply steps_change|]. by intros _ ? ->. }
  intros _ ? ->. eapply steps_bind; [apply steps_write|]. intros ? ? [-> ->].
  by apply steps_verify.
Qed.

(** Taking the capabilities back checks both. *)
Lemma decides_check slot a b pt n valid :
  decides (check_kqueue_cap kq (pp_fds P) valid) (held slot a b pt n)
    (Bool.eqb (check_revoked a) (negb valid) && Bool.eqb (check_revoked b) (negb valid))
    (fun _ v' => v' = taken slot b pt n).
Proof.
  unfold check_kqueue_cap.
  eapply decides_steps; [by apply steps_change|intros _ ? ->].
  eapply decides_steps; [apply (steps_take_event EVFILT_USER (KNote a true true true)); [done..|]|].
  { by intros []. }
  intros e ? (Hi & Hf & Hu & ->). rewrite Hf, Hu. simpl in Hi. rewrite Hi, equal_exact_refl.
  eapply decides_steps; [by apply steps_verify|intros _ ? ->].
  rewrite bool_decide_true by done.
  eapply decides_steps; [by apply steps_verify|intros _ ? ->].
  eapply decides_bind; [apply decides_verify|]. intros _ _ ? ->.
  eapply decides_steps; [by apply steps_change|intros _ ? ->].
  eapply decides_steps; [apply (steps_take_event EVFILT_READ (KNote b true false false)); [done..|]|].
  { by intros []. }
  clear e Hi Hf Hu. intros e ? (Hi & Hf & Hu & ->). rewrite Hf, Hu. simpl in Hi.
  rewrite Hi, of_int_address, Z.eqb_refl.
  eapply decides_steps; [by apply steps_verify|intros _ ? ->].
  rewrite bool_decide_true by done.
  eapply decides_steps; [by apply steps_verify|intros _ ? ->].
  eapply decides_last; [apply decides_verify|]. intros _ ? ->.
  eapply steps_bind; [by apply (steps_read 42 [])|intros ? ? [-> ->]].
  eapply steps_bind; [by apply steps_verify|intros _ ? ->]. by apply steps_verify.
Qed.

(** A call of cheri_revoke(2) and the checks of its clocks. *)
Lemma decides_revoke flags start text between bb v :
  let c := pp_clock P (kv_calls v) in
  decides (between c) (pass P v) bb (fun _ v' => v' = pass P v) ->
  decides (revoke_and_clock flags start text between) v
    (bb && (pp_shared P (S (kv_calls v)) =? dequeue c)) (fun r v' => r = c /\ v' = pass P v).
Proof.
  intros c Hb. unfold revoke_and_clock.
  apply (decides_steps _ _ _ _ (fun r v' => r = c /\ v' = pass P v)).
  { apply steps_call2. intros w <-. destruct (q_revoke (cap := cap) flags start w) as (w' & Hr & Hv).
    by exists c, w'. }
  intros ? ? [-> ->]. eapply decides_bind; [exact Hb|]. intros _ _ ? ->.
  apply (decides_steps _ _ _ _ (fun w v' => cri_dequeue (cap := cap) w = pp_shared P (S (kv_calls v)) /\
    v' = pass P v)).
  { apply steps_gets. intros s [_ Hs]. by rewrite q_dequeue, Hs. }
  intros w ? [-> ->]. eapply decides_last; [apply decides_verify|]. intros _ ? ->.
  by apply steps_ret.
Qed.

Abbreviation mb := (pp_mb P).
Abbreviation sh := (pp_sh P).

Lemma steps_slot x v :
  steps (access (mem_store_cap mb (sizeof_ptr (cap := cap) (W := W)) x)) v
    (fun _ v' => v' = set_slot x v).
Proof. apply steps_access. intros w <-. destruct (q_store x w) as (w' & ? & ?). by exists tt, w'. Qed.

Lemma steps_look v :
  steps (access (mem_load_cap mb (sizeof_ptr (cap := cap) (W := W)))) v
    (fun c v' => c = kv_slot v /\ v' = v).
Proof. apply steps_access. intros w <-. destruct (q_load w) as (w' & ? & ?). by eexists _, w'. Qed.

Lemma steps_paint b v :
  steps (access (mem_store_byte sh 0 b)) v (fun _ v' => v' = set_paint b v).
Proof. apply steps_access. intros w <-. destruct (q_paint b w) as (w' & ? & ?). by exists tt, w'. Qed.

(** What the two rounds demand. *)
Definition holders_fate (gone : bool) (f : holder -> cap) : bool :=
  Bool.eqb (check_revoked (f InMemory)) gone &&
  (Bool.eqb (check_revoked (f InUserNote)) gone && Bool.eqb (check_revoked (f InReadNote)) gone).

Definition cap0 : cap := cheri_perms_and mb EXCEPT_VMEM.
Definition cap1 : cap := cheri_perms_and (slot_ptr (W := W) mb 1) EXCEPT_VMEM.

Definition clock_ok (n : nat) : bool := pp_shared P (S n) =? dequeue (pp_clock P n).

Definition first_ok : bool := clock_ok 0 && holders_fate true (fun h => pp_hold P 0 1 h cap0).

Definition second_ok : bool :=
  negb (check_revoked cap1) &&
  (u64 (dequeue (pp_clock P 1) + 1) <=? enqueue (pp_clock P 1)) && clock_ok 1 && clock_ok 2 &&
  holders_fate false (fun h => pp_hold P 2 0 h (pp_hold P 1 0 h cap1)).

Lemma eqb_true b : Bool.eqb b true = b.
Proof. by destruct b. Qed.
Lemma eqb_false b : Bool.eqb b false = negb b.
Proof. by destruct b. Qed.

Lemma decides_first c :
  decides (first_round kq (pp_fds P) mb sh) (set_queues 2 (start_view c)) first_ok
    (fun _ v' => quiet v' /\ kv_calls v' = 1%nat).
Proof.
  unfold first_round, first_ok. cbv zeta. fold cap0.
  eapply decides_steps; [apply steps_slot|intros _ ? ->].
  eapply decides_steps; [by apply steps_install_notes|intros _ ? ->].
  eapply decides_steps; [apply steps_paint|intros _ ? ->].
  eapply decides_bind; [apply (decides_revoke _ _ _ _ true); by apply steps_ret|].
  intros _ ? ? [-> ->].
  eapply decides_steps; [apply steps_look|intros ? ? [-> ->]].
  eapply decides_bind; [rewrite eqb_true; apply decides_verify|]. intros _ _ ? ->.
  eapply decides_mono; [apply decides_check|]. intros _ ? ->. done.
Qed.

Lemma decides_second v : quiet v -> kv_calls v = 1%nat ->
  decides (second_round kq (pp_fds P) mb sh) v second_ok (fun _ _ => True).
Proof.
  intros Hq Hn. unfold second_round, second_ok. cbv zeta. fold cap1.
  rewrite <- !andb_assoc.
  eapply decides_steps; [apply steps_paint|intros _ ? ->].
  eapply decides_bind; [apply decides_verify|intros _ _ ? ->].
  eapply decides_steps; [apply steps_slot|intros _ ? ->].
  eapply decides_steps; [by apply steps_install_notes|intros _ ? ->].
  cbn [kv_slot kv_paint kv_calls set_slot set_paint]. rewrite Hn.
  rewrite (andb_assoc (_ <=? _)).
  eapply decides_bind; [apply decides_revoke; apply decides_verify|intros _ ? ? [-> ->]].
  eapply decides_bind; [apply (decides_revoke _ _ _ _ true); by apply steps_ret|].
  intros _ ? ? [-> ->].
  eapply decides_steps; [apply steps_look|intros ? ? [-> ->]].
  eapply decides_bind; [rewrite eqb_false; apply decides_verify|]. intros _ _ ? ->.
  eapply decides_mono; [apply decides_check|done].
Qed.

(** A call whose result does not matter. *)
Lemma judged_any {A B} (f : W -> (A + Z) * W) (k : test cap W B) v (Q : Prop) :
  (forall v', judged k v' Q) -> judged (_ ← try_sys f; k) v Q.
Proof.
  intros Hk s [Hs Hv]. destruct (f (p_world s)) as [r w'] eqn:Hr.
  pose proof (try_sys_run f s r w' Hr) as Ht.
  destruct r; rewrite (succeeds_bind _ _ _ _ _ Ht); apply (Hk (q_view w')); by split.
Qed.

(** C27: on a kernel whose queues follow kevent(2), the test passes exactly when
    the first pass, with the granule painted, revokes the capability in memory and
    in both knotes, and the two passes that follow without painting leave a valid
    one in all three; the clocks that each call reports agree with the shared
    clock, and the open epoch is at least one ahead.  Without CheriBSD it always
    fails, as its xfail reason says. *)
Theorem revoke_lightly_verdict (c : cap) :
  judged (ct_func (cheri_revoke_lightly g true)) (start_view c)
    (first_ok = true /\ second_ok = true) /\
  judged (ct_func (cheri_revoke_lightly g false)) (start_view c) False.
Proof.
  split; [|apply judged_failure_end; tauto].
  set (vq := set_queues 2 (start_view c)).
  unfold cheri_revoke_lightly, revoke_test, with_skip, CHERIOSTEST. cbn [ct_func].
  eapply judged_bind; [apply (steps_call2 _ _ _ _ (fun _ v' => v' = set_queues 1 (start_view c)));
    intros w Hw; destruct (q_first (cap := cap) w) as (w' & Hr & Hv);
    [by rewrite Hw|eexists _, w'; split; [exact Hr|by rewrite Hv, Hw]]|]. intros ekq ? ->.
  eapply judged_bind; [apply (steps_call2 _ _ _ _ (fun r v' => r = kq /\ v' = vq));
    intros w Hw; destruct (q_second (cap := cap) w) as (w' & Hr & Hv);
    [by rewrite Hw|eexists _, w'; split; [exact Hr|by rewrite Hv, Hw]]|]. intros ? ? [-> ->].
  eapply judged_bind; [apply (steps_call2 _ _ _ _ (fun r v' => r = pp_fds P /\ v' = vq))|].
  { intros w Hw. destruct (q_pipe (cap := cap) w) as (w' & Hr & Hv).
    exists (pp_fds P), w'. by rewrite Hv, Hw. }
  intros ? ? [-> ->].
  eapply judged_bind; [apply (steps_call2 _ _ _ _ (fun r v' => r = mb /\ v' = vq))|].
  { intros w Hw. destruct (q_map (cap := cap) w) as (w' & Hr & Hv). exists mb, w'. by rewrite Hv. }
  intros ? ? [-> ->].
  eapply judged_bind; [apply (steps_call2 _ _ _ _ (fun r v' => r = sh /\ v' = vq))|].
  { intros w Hw. destruct (q_shadow (cap := cap) w) as (w' & Hr & Hv). exists sh, w'. by rewrite Hv. }
  intros ? ? [-> ->].
  eapply judged_bind; [apply (steps_call2 _ _ _ _ (fun _ v' => v' = vq))|].
  { intros w Hw. destruct (q_info (cap := cap) w) as (n & w' & Hr & Hv). exists n, w'. by rewrite Hv. }
  intros ? ? ->.
  eapply judged_decides; [apply decides_first| |tauto]. intros Hf _ v1 [Hq Hn].
  eapply judged_decides; [by apply decides_second| |tauto]. intros Hs _ v2 _.
  apply judged_assoc, judged_any. intros v3. cbn [foreach].
  do 4 (do 2 apply judged_assoc; apply judged_any; intros ?; apply judged_ret).
  apply judged_ret. by apply judged_success.
Qed.
End Facts.

(** ** A concrete kernel *)

(** Its world is the view.  A pass takes what is painted (the test's own
    capability has the painted granule 0); the epochs go up by one for each half
    of a pass. *)
Definition kq_policy : pass_policy scap := {|
  pp_kqs := (5, 6);
  pp_fds := (7, 8);
  pp_mb := toy_cap 0x40000000 4096 0 (Z.lor (mask PLoad) (mask PStore));
  pp_sh := toy_cap 0x50000000 64 0 (mask PStore);
  pp_clock n := match n with O => Epochs 2 2 | 1%nat => Epochs 3 2 | _ => Epochs 4 4 end;
  pp_shared n := match n with 0%nat => 0 | 1%nat | 2%nat => 2 | _ => 4 end;
  pp_hold _ paint _ c := if Z.testbit paint 0 then cheri_tag_clear c else c;
|}.

Definition kworld := kq_view scap.

#[export] Instance kq_kernel : Kernel scap kworld := {|
  getpagesize := 4096;
  sys_mmap _ _ _ _ _ _ w := (inl (pp_mb kq_policy), w);
  sys_munmap _ _ w := (inl 0, w);
  sys_mprotect _ _ _ w := (inl 0, w);
  sys_minherit _ _ _ w := (inl 0, w);
  sys_shmget _ _ _ w := (inr 78, w);
  sys_shmat _ _ _ w := (inr 78, w);
  sys_shmdt _ w := (inr 78, w);
  sys_shm_open _ _ _ w := (inr 78, w);
  sys_shm_unlink _ w := (inl 0, w);
  sys_memfd_create _ _ w := (inr 78, w);
  sys_open _ _ w := (inr 78, w);
  sys_mkstemp t w := (inr 78, w);
  sys_unlink _ w := (inl 0, w);
  sys_ftruncate _ _ w := (inl 0, w);
  sys_close _ w := (inl 0, w);
  os_random w := (7, w);
  mem_load_cap _ _ w := (inl (kv_slot w), w);
  mem_store_cap _ _ x w := (inl tt, set_slot x w);
  mem_store_byte _ _ b w := (inl tt, set_paint b w);
  stack_local n := toy_cap 0x7000 n 0 0;
|}.

#[export] Instance kq_resv : ResvOS scap kworld := {|
  mem_load_int _ w := (inl 0, w);
  cheri_pcc_get := toy_cap 0x8000 0x1000 0 2;
  test_bufferp := toy_cap 0x9000 64 0 2;
  CHERI_ALIGN_SHIFT _ := 0;
  feature_present _ _ := true;
  sysctl_runtime_revocation_default _ := inl 1;
  sysctl_quarantine_unmapped _ := inl 1;
  cheri_revoke_get_shadow_info w := (inl 0, w);
  ENOENT := 2;
|}.

#[export] Instance kq_revoke : RevokeOS scap kworld := {|
  sizeof_ptr := 16;
  CHERI_REVOKE_LAST_PASS := 1; CHERI_REVOKE_IGNORE_START := 4; CHERI_REVOKE_TAKE_STATS := 8;
  CHERI_REVOKE_ASYNC := 2;
  sys_cheri_revoke _ _ w := (inl (pp_clock kq_policy (kv_calls w)), pass kq_policy w);
  sys_get_shadow_novmem _ w := (inl (pp_sh kq_policy), w);
  cri_enqueue _ := 0;
  cri_dequeue w := pp_shared kq_policy (kv_calls w);
  cri_base_mem_nomap _ := 0;
  cheri_revoke_epoch_clears now epoch := epoch + 2 <=? now;
  caprev_shadow_nomap_set _ _ _ _ w := (0, w);
  caprev_shadow_nomap_clear _ _ _ w := w;
  dump_shadow what _ _ _ _ := what;
  os_srand _ w := w;
  os_rand w := (4, w);
  os_usleep _ w := w;
|}.

(** kevent(2) on the machine. *)
Definition kq_change (e : kevent scap) (w : kworld) : (Z + Z) * kworld :=
  match change_note e (note_of (ke_filter e) w) with
  | Some n => (inl 0, set_note (ke_filter e) (Some n) w)
  | None => (inr 2, w)
  end.

Definition kq_wait (w : kworld) : (kevent scap + Z) * kworld :=
  let fn := toy_cap 0x8000 16 0 2 in
  match kv_user w, kv_read w with
  | Some k, r =>
      if note_active EVFILT_USER w
      then (inl (KEvent fn EVFILT_USER [] [] (kn_udata k)), deliver EVFILT_USER w)
      else match r with
           | Some k => (inl (KEvent (cap_of_int 7) EVFILT_READ [] [] (kn_udata k)),
                        deliver EVFILT_READ w)
           | None => (inr 4, w)
           end
  | None, Some k => (inl (KEvent (cap_of_int 7) EVFILT_READ [] [] (kn_udata k)), deliver EVFILT_READ w)
  | None, None => (inr 4, w)
  end.

#[export] Instance kq_queues : QueueOS scap kworld := {|
  sys_kqueue w := (inl (match kv_queues w with 0%nat => 5 | _ => 6 end),
                   set_queues (S (kv_queues w)) w);
  sys_kevent_change kq e w := if kq =? 6 then kq_change e w else (inr 2, w);
  sys_kevent_wait kq w := if kq =? 6 then kq_wait w else (inr 4, w);
  sys_pipe w := (inl (pp_fds kq_policy), set_pipe [] w);
  sys_write_byte _ b w := (inl 1, set_pipe (kv_pipe w ++ [b]) w);
  sys_read_byte _ w := match kv_pipe w with
                       | b :: l => (inl (1, b), set_pipe l w)
                       | [] => (inl (0, 0), w)
                       end;
  fn_install := toy_cap 0x8000 16 0 2;
|}.

#[export] Instance kq_rules : QueueRules scap kworld.
Proof.
  refine {| q_view := fun w => w; q_policy := kq_policy |}; try done;
    try (intros; eexists; done); try (intros; eexists _, _; done).
  - intros w Hq. cbn [sys_kqueue kq_queues]. rewrite Hq. by eexists.
  - intros w Hq. cbn [sys_kqueue kq_queues]. rewrite Hq. by eexists.
  - intros e w _ _ [n Hn]. cbn [sys_kevent_change kq_queues pp_kqs kq_policy snd Z.eqb Pos.eqb].
    unfold kq_change. rewrite Hn.
    by eexists _, _.
  - intros f k w _ Hk Ha Ho. cbn [sys_kevent_wait kq_queues pp_kqs kq_policy snd Z.eqb Pos.eqb].
    unfold kq_wait.
    destruct f; simpl in Hk.
    + rewrite Hk, Ha. by eexists _, _.
    + assert (note_active EVFILT_USER w = false) as Hu by by apply Ho.
      rewrite Hk, Hu. destruct (kv_user w); by eexists _, _.
  - intros b l w Hl. cbn [sys_read_byte kq_queues]. rewrite Hl. by eexists.
Defined.

(** The kernel passes; one that forgets the knote of the pipe does not. *)
Lemma revoke_lightly_verdict_witness :
  judged (cap := scap) (fun w => w)
    (ct_func (cheri_revoke_lightly (W := kworld) toy_config true)) (start_view cap_null) True /\
  holders_fate true (fun h => match h with InReadNote => pp_mb kq_policy | _ => cap_null end) = false.
Proof.
  split; [|by vm_compute].
  destruct (revoke_lightly_verdict (QR := kq_rules) toy_config cap_null) as [H _].
  refine (judged_iff _ _ _ _ H _). split; [done|]. intros _. split; by vm_compute.
Defined.
