(* ===== verification/Quarantine.v ===== *)
(** * Quarantine: reservations that wait for a revocation (cheriostest_vm.c)

    Address space that is unmapped stays in the memory map as a quarantined
    reservation until a pass has revoked the capabilities to it.  Two tests map
    and unmap large regions, look at the memory map, revoke, and look again:
    [revoke_largest_quarantined_reservation] at one reservation and
    [revoke_merge_quarantined] at three that are not adjacent.  The kernel is a
    policy that says where a mapping goes and what the memory map is before and
    after a pass. *)

From S2P Require Import Prelude Printf Cheri Perms Harness Runner Toy Registers RunnerFacts AddrGap Spawn Kernel VmTags MmapPerms Mappings Reservations Judge Revocation Malloc.

(** The types of the entries of procstat_getvmmap. *)
Class VmTypes (W : Type) := {
  procstat_types : W -> list Z;
  KVME_TYPE_QUARANTINED : Z;
}.

(** An entry of the memory map and its member kve_type. *)
Abbreviation typed_entry := (vmentry * Z)%type.

Section Tests.
Context {cap W : Type} {CH : Cheri cap} {LC : Libc cap W} {KE : Kernel cap W} {VC : VmConsts}
  {VM : VmMap W} {VT : VmTypes W} {HP : Perms} {RV : ResvOS cap W} {RK : RevokeOS cap W}.
Context (g : config) (have_cheribsd : bool).

Abbreviation psize := (page (cap := cap) (W := W)).

Definition quarantine_reason : test cap W (option string) :=
  w ← gets p_world;
  if feature_present (cap := cap) "cheri_revoke" w then
    q ← reservations_are_quarantined (cap := cap) (W := W);
    mret (if (q : bool) then None else Some "unmapped reservations are not being quarantined"%string)
  else mret (Some "Kernel does not support revocation"%string).

Definition skip_need_quarantine_unmapped_reservations : string -> W -> option string * W :=
  skip_on_world (fun _ => quarantine_reason).

(** procstat_getvmmap and its array. *)
Definition get_vmmap : test cap W (list typed_entry) :=
  w ← gets p_world;
  match procstat_getvmmap w with
  | None => CHERIOSTEST_VERIFY false "kivp != NULL" ;; undef
  | Some kivp => mret (zip kivp (procstat_types w))
  end.

Definition open_procstat : test cap W unit :=
  w ← gets p_world;
  CHERIOSTEST_VERIFY (procstat_open_sysctl w) "psp != NULL" ;;
  CHERIOSTEST_VERIFY (bool_decide (is_Some (procstat_getprocs w))) "kipp != NULL" ;;
  CHERIOSTEST_VERIFY (bool_decide (procstat_getprocs w = Some 1)) "pcnt == 1".

(** Make sure that the process is revoking. *)
Definition map_revoke_info : test cap W unit :=
  _ ← CHERIOSTEST_CHECK_SYSCALL (sys (cheri_revoke_get_shadow_info (cap := cap)))
        "cheri_revoke_get_shadow(CHERI_REVOKE_SHADOW_INFO_STRUCT, NULL, __DEQUALIFY(void **, &cri))";
  mret tt.

(** Map and unmap: where it was. *)
Definition quarantine (hint : cap) (size : Z) (t1 t2 : string) : test cap W Z :=
  res ← CHERIOSTEST_CHECK_SYSCALL (sys (sys_mmap hint size PROT_READ MAP_ANON (-1) 0)) t1;
  _ ← CHERIOSTEST_CHECK_SYSCALL (sys (sys_munmap res size)) t2;
  mret (cheri_address_get res).

Definition full_pass : test cap W unit :=
  _ ← CHERIOSTEST_CHECK_SYSCALL
        (sys (sys_cheri_revoke (cap := cap)
           (Z.lor (CHERI_REVOKE_LAST_PASS (cap := cap) (W := W))
              (CHERI_REVOKE_IGNORE_START (cap := cap) (W := W))) 0))
        "cheri_revoke( CHERI_REVOKE_LAST_PASS | CHERI_REVOKE_IGNORE_START, 0, NULL)";
  mret tt.

Definition is_quarantined (e : typed_entry) : bool := e.2 =? KVME_TYPE_QUARANTINED.

Definition verify_type (e : typed_entry) : test cap W unit :=
  CHERIOSTEST_VERIFY (is_quarantined e) "kivp[i].kve_type == KVME_TYPE_QUARANTINED".

(** *** One reservation *)

Definition res_size : Z := 0x100000000.

Definition contains (res_addr size : Z) (e : typed_entry) : bool :=
  (kve_start e.1 <=? res_addr) && (u64 (res_addr + size) <=? kve_end e.1).

(** The loop over the entries, with found_res. *)
Fixpoint look_for (res_addr size : Z) (kivp : list typed_entry) (found : bool)
    : test cap W bool :=
  match kivp with
  | [] => mret found
  | e :: kivp' =>
      if contains res_addr size e
      then verify_type e ;; look_for res_addr size kivp' true
      else look_for res_addr size kivp' found
  end.

Definition revoke_largest_quarantined_reservation : cheri_test cap W :=
  revoke_test have_cheribsd skip_need_quarantine_unmapped_reservations
    "revoke_largest_quarantined_reservation"
    "Verify that the largest quarantined reservation is revoked"
    (map_revoke_info ;;
     res_addr ← quarantine cap_null res_size "mmap(NULL, res_size, PROT_READ, MAP_ANON, -1, 0)"
                  "munmap(res, res_size)";
     open_procstat ;;
     kivp ← get_vmmap;
     found_res ← look_for res_addr res_size kivp false;
     CHERIOSTEST_VERIFY2 found_res "reservation not found in vmmap" [] ;;
     full_pass ;;
     kivp ← get_vmmap;
     foreach kivp (fun e =>
       when (contains res_addr res_size e)
         (cheriostest_failure_errx "reservation still in memory map" [])) ;;
     cheriostest_success).

(** *** Three reservations *)

Definition big_res_size : Z := 0x100000000.

(** res_sizes and res_offsets. *)
Definition res_rows : list (Z * Z) :=
  [(psize, psize); (big_res_size, big_res_size); (psize, 3 * big_res_size)].

Fixpoint quarantine_rows (working_space : Z) (rows : list (Z * Z)) : test cap W (list Z) :=
  match rows with
  | [] => mret []
  | (size, off) :: rows' =>
      a ← quarantine (cap_of_int (u64 (working_space + off))) size
            "mmap( (void *)(uintptr_t)(working_space + res_offsets[r]), res_sizes[r], PROT_READ, MAP_ANON, -1, 0)"
            "munmap(res, res_sizes[r])";
      l ← quarantine_rows working_space rows';
      mret (a :: l)
  end.

(** The two loops over the entries and the reservations, with found_res. *)
Definition starts_at (e : typed_entry) (a : Z) : bool := kve_start e.1 =? a.

Fixpoint look_for_all (res_addrs : list Z) (kivp : list typed_entry) (found : list bool)
    : test cap W (list bool) :=
  match kivp with
  | [] => mret found
  | e :: kivp' =>
      foreach res_addrs (fun a => when (starts_at e a) (verify_type e)) ;;
      look_for_all res_addrs kivp' (zip_with orb found (starts_at e <$> res_addrs))
  end.

(** The check that no entry overlaps the working space. *)
Definition edge_inside (working_space x : Z) : bool :=
  (working_space <=? x) && (x <? u64 (working_space + 4 * big_res_size)).

Definition overlaps (working_space : Z) (e : typed_entry) : bool :=
  edge_inside working_space (kve_start e.1) || edge_inside working_space (u64 (kve_end e.1 - 1)).

Definition revoke_merge_quarantined : cheri_test cap W :=
  revoke_test have_cheribsd skip_need_quarantine_unmapped_reservations
    "revoke_merge_quarantined" "Verify that adjacent non-neighbor reservations are revoked"
    (map_revoke_info ;;
     working_space ← find_address_space_gap g (big_res_size * 4) 0;
     res_addrs ← quarantine_rows working_space res_rows;
     open_procstat ;;
     kivp ← get_vmmap;
     found_res ← look_for_all res_addrs kivp (replicate (length res_rows) false);
     foreach found_res (fun f => CHERIOSTEST_VERIFY2 f "reservation not found in vmmap" []) ;;
     full_pass ;;
     kivp ← get_vmmap;
     foreach kivp (fun e =>
       when (overlaps working_space e)
         (cheriostest_failure_errx "reservation(s) still in memory map" [])) ;;
     cheriostest_success).
End Tests.

(** ** A kernel by its memory maps *)

(** The regions that were unmapped, oldest first, and whether a pass was made. *)
Record quar_view := QuarView { zv_gone : list (Z * Z); zv_revoked : bool }.

(** Where a mapping goes (with the hint, the size and what is gone), and the
    memory map before and after a pass. *)
Record quar_policy := QuarPolicy {
  zp_place : Z -> Z -> list (Z * Z) -> option Z;
  zp_before : list (Z * Z) -> list typed_entry;
  zp_after : list (Z * Z) -> list typed_entry;
}.

Section Rules.
Context {cap W : Type} {CH : Cheri cap} {KE : Kernel cap W} {VC : VmConsts}
  {VM : VmMap W} {VT : VmTypes W} {RV : ResvOS cap W} {RK : RevokeOS cap W}.

Class QuarRules := {
  z_view : W -> quar_view;
  z_policy : quar_policy;
  z_open w : procstat_open_sysctl w = true;
  z_procs w : procstat_getprocs w = Some 1;
  z_maps w : exists l, procstat_getvmmap w = Some l /\ length l = length (procstat_types w) /\
    zip l (procstat_types w) = (if zv_revoked (z_view w) then zp_after z_policy (zv_gone (z_view w))
      else zp_before z_policy (zv_gone (z_view w)));
  z_info w : exists n w', cheri_revoke_get_shadow_info (cap := cap) w = (inl n, w') /\
    z_view w' = z_view w;
  z_map (hint : cap) n w :
    match zp_place z_policy (cheri_address_get hint) n (zv_gone (z_view w)) with
    | Some a => exists c w', sys_mmap hint n PROT_READ MAP_ANON (-1) 0 w = (inl c, w') /\
        cheri_address_get c = a /\ z_view w' = z_view w /\
        exists w'', sys_munmap c n w' = (inl 0, w'') /\
          z_view w'' = QuarView (zv_gone (z_view w) ++ [(a, n)]) (zv_revoked (z_view w))
    | None => exists e w', sys_mmap hint n PROT_READ MAP_ANON (-1) 0 w = (inr e, w')
    end;
  z_revoke flags w : exists e w', sys_cheri_revoke (cap := cap) flags 0 w = (inl e, w') /\
    z_view w' = QuarView (zv_gone (z_view w)) true;
}.
End Rules.
Arguments QuarRules cap W {_ _ _ _ _ _ _}.

Section Facts.
Context {cap W : Type} {CH : Cheri cap} {CL : CheriLaws cap} {LC : Libc cap W} {KE : Kernel cap W}
  {VC : VmConsts} {VM : VmMap W} {VT : VmTypes W} {HP : Perms} {RV : ResvOS cap W}
  {RK : RevokeOS cap W} {QR : QuarRules cap W}.
Context (g : config).

Abbreviation P := (z_policy (cap := cap) (W := W)).
Abbreviation steps := (Judge.steps (cap := cap) z_view).
Abbreviation decides := (Judge.decides (cap := cap) z_view).
Abbreviation judged := (Judge.judged (cap := cap) z_view).
Abbreviation psize := (page (cap := cap) (W := W)).

Definition maps_of (v : quar_view) : list typed_entry :=
  if zv_revoked v then zp_after P (zv_gone v) else zp_before P (zv_gone v).

Lemma steps_info v : steps map_revoke_info v (fun _ v' => v' = v).
Proof.
  eapply (steps_bind _ _ _ (fun _ v' => v' = v)); [|intros ? ? ->; by apply steps_ret].
  apply steps_call2. intros w <-. destruct (z_info (cap := cap) w) as (n & w' & Hr & Hv).
  by exists n, w'.
Qed.

Lemma steps_procstat v : steps open_procstat v (fun _ v' => v' = v).
Proof.
  eapply (steps_bind _ _ _ (fun w v' => z_view w = v /\ v' = v)).
  { apply steps_gets. intros s [_ Hv]. by split. }
  intros w ? [_ ->]. eapply steps_bind; [by apply steps_verify, z_open|intros _ ? ->].
  rewrite z_procs.
  eapply steps_bind; [apply steps_verify, bool_decide_eq_true; by eexists|intros _ ? ->].
  by apply steps_verify, bool_decide_eq_true.
Qed.

Lemma steps_vmmap v : steps get_vmmap v (fun l v' => l = maps_of v /\ v' = v).
Proof.
  eapply (steps_bind _ _ _ (fun w v' => z_view w = v /\ v' = v)).
  { apply steps_gets. intros s [_ Hv]. by split. }
  intros w ? [Hv ->]. destruct (z_maps (cap := cap) w) as (l & -> & _ & Hl).
  apply steps_ret. rewrite Hl, Hv. done.
Qed.

Lemma steps_full_pass v : steps full_pass v (fun _ v' => v' = QuarView (zv_gone v) true).
Proof.
  eapply (steps_bind _ _ _ (fun _ v' => v' = QuarView (zv_gone v) true));
    [|intros ? ? ->; by apply steps_ret].
  apply steps_call2. intros w <-. destruct (z_revoke (cap := cap) (Z.lor
    (CHERI_REVOKE_LAST_PASS (cap := cap) (W := W)) (CHERI_REVOKE_IGNORE_START (cap := cap) (W := W))) w)
    as (n & w' & Hr & Hv). by exists n, w'.
Qed.

(** The region is mapped somewhere and unmapped, or the test fails. *)
Lemma quarantine_judged {B} hint n t1 t2 (k : Z -> test cap W B) v (Q : Prop) :
  (forall a, zp_place P (cheri_address_get hint) n (zv_gone v) = Some a ->
   judged (k a) (QuarView (zv_gone v ++ [(a, n)]) (zv_revoked v)) Q) ->
  (zp_place P (cheri_address_get hint) n (zv_gone v) = None -> ~ Q) ->
  judged (quarantine hint n t1 t2 ≫= k) v Q.
Proof.
  intros Hk Hn s [Hs Hv]. pose proof (z_map hint n (p_world s)) as Hm. rewrite Hv in Hm.
  destruct (zp_place P _ n (zv_gone v)) as [a|].
  - destruct Hm as (c & w' & Hr & Ha & _ & w'' & Hr2 & Hv2).
    assert (quarantine hint n t1 t2 s = (Val a, set_world w'' s)) as Hq.
    { unfold quarantine, CHERIOSTEST_CHECK_SYSCALL, CHERIOSTEST_CHECK_SYSCALL2, sys, mbind,
        eff_bind. rewrite Hr. cbn. rewrite Hr2. cbn. by rewrite Ha. }
    rewrite (succeeds_bind _ _ _ _ _ Hq). apply (Hk a eq_refl). by split.
  - destruct Hm as (e & w' & Hr). split; [|by intros ?%Hn]. unfold quarantine.
    rewrite succeeds_assoc. intros H. by apply (fail_check2 _ _ _ _ _ _ _ Hr) in H.
Qed.

(** *** The loops over the entries *)

Definition quarantined_if (b : typed_entry -> bool) (l : list typed_entry) : bool :=
  forallb (fun e => implb (b e) (is_quarantined e)) l.

Lemma decides_type e v : decides (verify_type e) v (is_quarantined e) (fun _ v' => v' = v).
Proof. apply decides_verify. Qed.

Lemma decides_look a n l : forall found v,
  decides (look_for a n l found) v (quarantined_if (contains a n) l)
    (fun r v' => r = found || existsb (contains a n) l /\ v' = v).
Proof.
  induction l as [|e l IH]; intros found v; simpl.
  { apply steps_ret. by rewrite orb_false_r. }
  destruct (contains a n e); simpl; [|apply IH].
  eapply decides_bind; [apply decides_type|]. intros _ _ ? ->.
  eapply decides_mono; [apply IH|]. intros r ? [-> ->]. by rewrite orb_true_r.
Qed.

(** No entry for which a failure is declared. *)
Lemma decides_none (b : typed_entry -> bool) msg l v :
  decides (foreach l (fun e => when (b e) (cheriostest_failure_errx msg []))) v
    (forallb (fun e => negb (b e)) l) (fun _ v' => v' = v).
Proof.
  apply decides_foreach. intros e _. destruct (b e); [apply fails_errx|by apply steps_ret].
Qed.

Lemma decides_look_all addrs l : forall found v, length found = length addrs ->
  decides (look_for_all addrs l found) v
    (forallb (fun a => quarantined_if (fun e => starts_at e a) l) addrs)
    (fun r v' => r = zip_with orb found ((fun a => existsb (fun e => starts_at e a) l) <$> addrs) /\
       v' = v).
Proof.
  induction l as [|e l IH]; intros found v Hf; cbn [look_for_all].
  { replace (forallb _ addrs) with true by (clear; by induction addrs).
    apply steps_ret. split; [|done]. clear v. revert addrs Hf.
    induction found as [|f found IH]; intros [|a addrs] Hf; simplify_eq/=; [done|].
    f_equal; [by rewrite orb_false_r|by apply IH]. }
  assert (forallb (fun a => quarantined_if (fun e => starts_at e a) (e :: l)) addrs =
    forallb (fun a => implb (starts_at e a) (is_quarantined e)) addrs &&
    forallb (fun a => quarantined_if (fun e => starts_at e a) l) addrs) as ->.
  { clear. assert (forall b, quarantined_if b (e :: l) =
      implb (b e) (is_quarantined e) && quarantined_if b l) as Hq by done.
    induction addrs as [|a addrs IH]; [done|]. cbn [forallb]. rewrite IH, Hq.
    by destruct (implb _ _), (quarantined_if _ l), (forallb _ addrs), (forallb _ addrs). }
  eapply decides_bind; [apply (decides_foreach _ (fun a => implb (starts_at e a) (is_quarantined e)))|].
  { intros a _. destruct (starts_at e a); [apply decides_type|by apply steps_ret]. }
  intros _ _ ? ->. eapply decides_mono; [apply IH; by rewrite length_zip_with, length_fmap, Hf, Nat.min_id|].
  intros r ? [-> ->]. split; [|done]. clear IH. revert addrs Hf.
  induction found as [|f found IH]; intros [|a addrs] Hf; simplify_eq/=; [done|].
  f_equal; [by rewrite orb_assoc|by apply IH].
Qed.

(** *** What the tests demand *)

Definition largest_pass : Prop :=
  exists a, zp_place P 0 res_size [] = Some a /\
    let gone := [(a, res_size)] in
    (exists e, e ∈ zp_before P gone /\ contains a res_size e = true) /\
    (forall e, e ∈ zp_before P gone -> contains a res_size e = true -> e.2 = KVME_TYPE_QUARANTINED) /\
    (forall e, e ∈ zp_after P gone -> contains a res_size e = false).

Lemma quarantined_if_iff b l : quarantined_if b l = true <->
  forall e, e ∈ l -> b e = true -> e.2 = KVME_TYPE_QUARANTINED.
Proof.
  unfold quarantined_if. rewrite forallb_forall. split.
  - intros H e He Hb. apply list_elem_of_In in He. specialize (H e He). rewrite Hb in H.
    by apply Z.eqb_eq in H.
  - intros H e He. destruct (b e) eqn:Hb; [|done]. apply Z.eqb_eq, H; [|done].
    by apply list_elem_of_In.
Qed.

Lemma none_iff (b : typed_entry -> bool) l : forallb (fun e => negb (b e)) l = true <->
  forall e, e ∈ l -> b e = false.
Proof.
  rewrite forallb_forall. split; intros H e He.
  - apply negb_true_iff, H. by apply list_elem_of_In.
  - apply negb_true_iff, H. by apply list_elem_of_In.
Qed.

Lemma exists_iff (b : typed_entry -> bool) l : existsb b l = true <->
  exists e, e ∈ l /\ b e = true.
Proof. rewrite existsb_exists. split; intros (e & He & Hb); exists e; by rewrite list_elem_of_In in *. Qed.

Lemma largest_judged :
  judged (ct_func (revoke_largest_quarantined_reservation (cap := cap) (W := W) true))
    (QuarView [] false) largest_pass.
Proof.
  unfold revoke_largest_quarantined_reservation, revoke_test, with_skip, CHERIOSTEST.
  cbn [ct_func]. unfold largest_pass.
  eapply judged_bind; [apply steps_info|intros _ ? ->].
  apply quarantine_judged; cbn [zv_gone zv_revoked app]; unfold cap_null; rewrite of_int_address;
    change (u64 0) with 0; [|intros -> (? & [=] & _)].
  intros a Ha. rewrite Ha. cbv zeta.
  eapply judged_bind; [apply steps_procstat|intros _ ? ->].
  eapply judged_bind; [apply steps_vmmap|intros ? ? [-> ->]]. cbn [maps_of zv_revoked zv_gone].
  eapply judged_decides; [apply decides_look| |].
  - intros Hq found ? [-> ->]. pose proof (proj1 (quarantined_if_iff _ _) Hq) as Hq'.
    eapply judged_decides; [apply decides_verify| |].
    + intros Hex _ ? ->. apply exists_iff in Hex.
      eapply judged_bind; [apply steps_full_pass|intros _ ? ->].
      eapply judged_bind; [apply steps_vmmap|intros ? ? [-> ->]].
      eapply judged_decides; [apply decides_none| |].
      * intros Hn _ ? ->. apply judged_success. exists a. split; [done|].
        split; [done|]. split; [done|]. by apply none_iff.
      * intros (? & [= <-] & _ & _ & Hn). by apply none_iff.
    + intros (? & [= <-] & Hex & _). by apply exists_iff.
  - intros (? & [= <-] & _ & Hq & _). by apply quarantined_if_iff.
Qed.

(** The gap that the search finds. *)
Definition gap (n : Z) (v : quar_view) : Z :=
  let p := representable (cap := cap) n 0 in
  match maps_of v with
  | first :: rest => scan_up p.1 p.2 first.1 (fst <$> rest)
  | [] => 0
  end.

Lemma decides_gap n v : is_linux g = false ->
  decides (find_address_space_gap g n 0) v (negb (gap n v =? 0)) (fun a v' => a = gap n v /\ v' = v).
Proof.
  intros Hg. unfold find_address_space_gap. rewrite Hg. unfold find_address_space_gap_freebsd.
  apply (decides_steps _ _ _ _ (fun w v' => z_view w = v /\ v' = v)).
  { apply steps_gets. intros s [_ Hv]. by split. }
  intros w ? [Hv ->].
  eapply decides_steps; [by apply steps_verify, z_open|intros _ ? ->]. rewrite z_procs.
  eapply decides_steps; [apply steps_verify, bool_decide_eq_true; by eexists|intros _ ? ->].
  eapply decides_steps; [by apply steps_verify, bool_decide_eq_true|intros _ ? ->].
  destruct (z_maps (cap := cap) w) as (l & -> & Hlen & Hl).
  eapply decides_steps; [apply steps_verify, bool_decide_eq_true; by eexists|intros _ ? ->].
  assert (l = fst <$> maps_of v) as Hm.
  { unfold maps_of. rewrite <- Hv, <- Hl, fst_zip; [done|lia]. }
  assert (gap n v = let '(len, align) := representable (cap := cap) n 0 in
    match l with first :: kivp => scan_up len align first kivp | [] => 0 end) as ->.
  { unfold gap. rewrite Hm. destruct (representable n 0). by destruct (maps_of v). }
  destruct (representable n 0) as [len align]. cbv zeta. unfold check_found.
  set (x := match l with [] => 0 | _ => _ end).
  destruct (Z.eqb_spec x 0) as [Hx|Hx]; [apply fails_bind, fails_errx|].
  eapply (steps_bind _ _ _ (fun _ v' => v' = v)); [by apply steps_ret|].
  intros _ ? ->. by apply steps_ret.
Qed.

(** Where the reservations of [rows] go, and what is gone then. *)
Fixpoint placed (ws : Z) (rows gone : list (Z * Z)) : option (list Z * list (Z * Z)) :=
  match rows with
  | [] => Some ([], gone)
  | (size, off) :: rows' =>
      a ← zp_place P (u64 (ws + off)) size gone;
      r ← placed ws rows' (gone ++ [(a, size)]);
      Some (a :: r.1, r.2)
  end.

Lemma placed_length ws rows : forall gone l gone',
  placed ws rows gone = Some (l, gone') -> length l = length rows.
Proof.
  induction rows as [|[size off] rows IH]; intros gone l gone' H; simpl in H; [by simplify_eq|].
  destruct (zp_place P _ size gone) as [a|]; [|done]. simpl in H.
  destruct (placed ws rows _) as [[l2 g2]|] eqn:Hp; simplify_eq/=. by rewrite (IH _ _ _ Hp).
Qed.

Lemma rows_judged {B} ws r rows : forall gone (k : list Z -> test cap W B) (Q : Prop),
  (forall l gone', placed ws rows gone = Some (l, gone') -> judged (k l) (QuarView gone' r) Q) ->
  (placed ws rows gone = None -> ~ Q) ->
  judged (quarantine_rows ws rows ≫= k) (QuarView gone r) Q.
Proof.
  induction rows as [|[size off] rows IH]; intros gone k Q Hk Hn; cbn [quarantine_rows].
  { apply judged_ret. by apply Hk. }
  apply judged_assoc. simpl in Hk, Hn.
  apply quarantine_judged; cbn [zv_gone zv_revoked]; rewrite of_int_address, wrapu_idemp by lia.
  - intros a Ha. rewrite Ha in Hk, Hn. simpl in Hk, Hn. apply judged_assoc, IH.
    + intros l gone' Hl. rewrite Hl in Hk. apply judged_ret. by apply Hk.
    + intros Hl. apply Hn. by rewrite Hl.
  - intros Ha. apply Hn. by rewrite Ha.
Qed.

Definition merge_pass : Prop :=
  let ws := gap (big_res_size * 4) (QuarView [] false) in
  ws <> 0 /\ exists addrs gone, placed ws (res_rows (cap := cap) (W := W)) [] = Some (addrs, gone) /\
    (forall a, a ∈ addrs -> quarantined_if (fun e => starts_at e a) (zp_before P gone) = true /\
       exists e, e ∈ zp_before P gone /\ starts_at e a = true) /\
    (forall e, e ∈ zp_after P gone -> overlaps ws e = false).

Lemma zip_or_false l : zip_with orb (replicate (length l) false) l = l.
Proof. induction l as [|b l IH]; [done|]. simpl. by rewrite IH. Qed.

Lemma forallb_elem {A} (f : A -> bool) l : forallb f l = true <-> forall x, x ∈ l -> f x = true.
Proof. rewrite forallb_forall. by setoid_rewrite list_elem_of_In. Qed.

Lemma merge_judged : is_linux g = false ->
  judged (ct_func (revoke_merge_quarantined (cap := cap) (W := W) g true))
    (QuarView [] false) merge_pass.
Proof.
  intros Hg. unfold revoke_merge_quarantined, revoke_test, with_skip, CHERIOSTEST.
  cbn [ct_func]. unfold merge_pass. set (ws := gap (big_res_size * 4) (QuarView [] false)). cbv zeta.
  eapply judged_bind; [apply steps_info|intros _ ? ->].
  eapply judged_decides; [by apply decides_gap| |].
  2: { intros [Hw _]. by apply negb_true_iff, Z.eqb_neq. }
  intros Hw%negb_true_iff%Z.eqb_neq ? ? [-> ->]. fold ws in Hw. fold ws.
  apply rows_judged; [|intros -> (_ & ? & ? & [=] & _)].
  intros addrs gone Hp. pose proof (placed_length _ _ _ _ _ Hp) as Hlen.
  eapply judged_bind; [apply steps_procstat|intros _ ? ->].
  eapply judged_bind; [apply steps_vmmap|intros ? ? [-> ->]]. cbn [maps_of zv_revoked zv_gone].
  set (found := (fun a => existsb (fun e => starts_at e a) (zp_before P gone)) <$> addrs).
  eapply judged_decides; [apply decides_look_all; by rewrite length_replicate| |].
  2: { rewrite Hp. intros (_ & ? & ? & [= <- <-] & H & _). apply forallb_elem. intros a Ha. by apply H. }
  intros Hq r ? [-> ->]. fold found. rewrite <- Hlen.
  assert (length addrs = length found) as -> by (unfold found; by rewrite length_fmap).
  rewrite zip_or_false.
  eapply judged_decides; [apply (decides_foreach _ id); intros f _; apply decides_verify| |].
  2: { rewrite Hp. intros (_ & ? & ? & [= <- <-] & H & _). apply forallb_elem. intros f Hf.
       apply list_elem_of_fmap in Hf as (a & -> & Ha). apply exists_iff. by apply H. }
  intros Hf _ ? ->. eapply judged_bind; [apply steps_full_pass|intros _ ? ->].
  eapply judged_bind; [apply steps_vmmap|intros ? ? [-> ->]].
  eapply judged_decides; [apply decides_none| |].
  2: { rewrite Hp. intros (_ & ? & ? & [= <- <-] & _ & H). by apply none_iff. }
  intros Hn _ ? ->. apply judged_success. split; [done|]. exists addrs, gone. split; [done|].
  rewrite forallb_elem in Hq. rewrite forallb_elem in Hf. split; [|by apply none_iff].
  intros a Ha. split; [by apply Hq|]. apply exists_iff, (Hf (existsb _ _)), list_elem_of_fmap.
  by exists a.
Qed.

(** An entry that reaches over the working space on both sides is not seen. *)
Lemma covering_not_seen ws e :
  0 <= kve_start e.1 < ws -> ws + 4 * big_res_size < kve_end e.1 < 2 ^ 64 -> overlaps ws e = false.
Proof.
  intros Hs He. unfold overlaps, edge_inside, big_res_size in *.
  rewrite (wrapu_small 64 (ws + _)), (wrapu_small 64 (_ - 1)) by lia.
  rewrite (proj2 (Z.leb_gt ws (kve_start e.1))) by lia.
  rewrite (proj2 (Z.ltb_ge (kve_end e.1 - 1) _)) by lia. by rewrite andb_false_r.
Qed.

(** C19: [revoke_largest_quarantined_reservation] passes exactly when the region
    of 4 GB that it unmaps is in an entry of the memory map, every entry around it
    is quarantined, and no entry is around it after a pass;
    [revoke_merge_quarantined] exactly when there is a gap, the map has a
    quarantined entry at the start of each of the three reservations, wherever
    they were mapped, and after a pass no entry begins or ends in the gap.  An
    entry that covers the whole gap is not seen.  Without CheriBSD both fail. *)
Theorem quarantine_verdict : is_linux g = false ->
  judged (ct_func (revoke_largest_quarantined_reservation (cap := cap) (W := W) true))
    (QuarView [] false) largest_pass /\
  judged (ct_func (revoke_merge_quarantined (cap := cap) (W := W) g true))
    (QuarView [] false) merge_pass /\
  (forall ws e, 0 <= kve_start e.1 < ws -> ws + 4 * big_res_size < kve_end e.1 < 2 ^ 64 ->
   overlaps ws e = false) /\
  judged (ct_func (revoke_merge_quarantined (cap := cap) (W := W) g false))
    (QuarView [] false) False.
Proof.
  intros Hg. split; [apply largest_judged|]. split; [by apply merge_judged|].
  split; [apply covering_not_seen|]. apply judged_failure_end. tauto.
Qed.
End Facts.

(** ** A concrete kernel *)

(** A low and a high mapping, with what is quarantined between them.  After a
    pass one reservation is gone, but three have grown together into an entry
    that is a page longer on both sides. *)
Definition qlow : typed_entry := (VmEntry 0x10000 0x20000, 1).
Definition qhigh : typed_entry := (VmEntry 0x7f0000000000 0x7f0000010000, 1).

Definition quar_toy : quar_policy := {|
  zp_place hint _ _ := Some (if hint =? 0 then 0x4000000000 else hint);
  zp_before gone := qlow :: ((fun x => (VmEntry x.1 (x.1 + x.2), 9)) <$> gone) ++ [qhigh];
  zp_after gone :=
    if (1 <? length gone)%nat then [qlow; (VmEntry 0x1f000 0x500000000, 9); qhigh] else [qlow; qhigh];
|}.

Definition quar_entries (w : quar_view) : list typed_entry :=
  if zv_revoked w then zp_after quar_toy (zv_gone w) else zp_before quar_toy (zv_gone w).

#[export] Instance quar_kernel : Kernel scap quar_view := {|
  getpagesize := 4096;
  sys_mmap hint n _ _ _ _ w :=
    (inl (toy_cap (if cheri_address_get hint =? 0 then 0x4000000000 else cheri_address_get hint) n 0
            (mask PLoad)), w);
  sys_munmap c n w := (inl 0, QuarView (zv_gone w ++ [(cheri_address_get c, n)]) (zv_revoked w));
  sys_mprotect _ _ _ w := (inl 0, w);
  sys_minherit _ _ _ w := (inl 0, w);
  sys_shmget _ _ _ w := (inr 78, w);
  sys_shmat _ _ _ w := (inr 78, w);
  sys_shmdt _ w := (inr 78, w);
  sys_shm_open _ _ _ w := (inr 78, w);
  sys_shm_unlink _ w := (inl 0, w);
  sys_memfd_create _ _ w := (inr 78, w);
  sys_open _ _ w := (inr 78, w);
  sys_mkstemp t w := (inr 78, w);
  sys_unlink _ w := (inl 0, w);
  sys_ftruncate _ _ w := (inl 0, w);
  sys_close _ w := (inl 0, w);
  os_random w := (7, w);
  mem_load_cap c _ w := (inl c, w);
  mem_store_cap _ _ _ w := (inl tt, w);
  mem_store_byte _ _ _ w := (inl tt, w);
  stack_local n := toy_cap 0x7000 n 0 0;
|}.

#[export] Instance quar_maps : VmMap quar_view := {|
  procstat_open_sysctl _ := true;
  procstat_getprocs _ := Some 1;
  procstat_getvmmap w := Some (fst <$> quar_entries w);
  proc_self_maps _ := inr [];
  malloc_vma_attr _ _ := true;
|}.

#[export] Instance quar_types : VmTypes quar_view := {|
  procstat_types w := snd <$> quar_entries w;
  KVME_TYPE_QUARANTINED := 9;
|}.

#[export] Instance quar_resv : ResvOS scap quar_view := {|
  mem_load_int _ w := (inl 0, w);
  cheri_pcc_get := toy_cap 0x8000 0x1000 0 2;
  test_bufferp := toy_cap 0x9000 64 0 2;
  CHERI_ALIGN_SHIFT _ := 0;
  feature_present _ _ := true;
  sysctl_runtime_revocation_default _ := inl 1;
  sysctl_quarantine_unmapped _ := inl 1;
  cheri_revoke_get_shadow_info w := (inl 0, w);
  ENOENT := 2;
|}.

#[export] Instance quar_revoke : RevokeOS scap quar_view := {|
  sizeof_ptr := 16;
  CHERI_REVOKE_LAST_PASS := 1; CHERI_REVOKE_IGNORE_START := 4; CHERI_REVOKE_TAKE_STATS := 8;
  CHERI_REVOKE_ASYNC := 2;
  sys_cheri_revoke _ _ w := (inl (Epochs 2 2), QuarView (zv_gone w) true);
  sys_get_shadow_novmem c w := (inl c, w);
  cri_enqueue _ := 0;
  cri_dequeue _ := 0;
  cri_base_mem_nomap _ := 0;
  cheri_revoke_epoch_clears now epoch := epoch + 2 <=? now;
  caprev_shadow_nomap_set _ _ _ _ w := (0, w);
  caprev_shadow_nomap_clear _ _ _ w := w;
  dump_shadow what _ _ _ _ := what;
  os_srand _ w := w;
  os_rand w := (4, w);
  os_usleep _ w := w;
|}.

#[export] Instance quar_rules : QuarRules scap quar_view.
Proof.
  refine {| z_view := fun w => w; z_policy := quar_toy |}; try done; try (intros; eexists _, _; done).
  - intros w. eexists. split; [done|]. simpl. rewrite !length_fmap. split; [done|].
    unfold quar_entries. destruct (zv_revoked w).
    + apply zip_fst_snd.
    + apply zip_fst_snd.
  - intros hint n w. simpl. pose proof (address_range hint) as Hr. simpl in Hr.
    set (x := if u64 (sc_addr hint) =? 0 then 0x4000000000 else u64 (sc_addr hint)).
    assert (0 <= x < 2 ^ 64) as Hx by (unfold x; destruct (_ =? 0); lia).
    eexists _, _. split; [done|]. simpl. rewrite Z.add_0_r, wrapu_small by done.
    split; [done|]. split; [done|]. by eexists.
Defined.

(** The kernel passes both tests, although the second left the whole working
    space in the map. *)
Lemma quarantine_verdict_witness :
  judged (cap := scap) (fun w => w)
    (ct_func (revoke_largest_quarantined_reservation (W := quar_view) true)) (QuarView [] false) True /\
  judged (cap := scap) (fun w => w)
    (ct_func (revoke_merge_quarantined (W := quar_view) toy_freebsd true)) (QuarView [] false) True /\
  (VmEntry 0x1f000 0x500000000, 9) ∈ zp_after quar_toy
    [(0x21000, 4096); (0x100020000, 0x100000000); (0x300020000, 4096)].
Proof.
  destruct (quarantine_verdict (QR := quar_rules) toy_freebsd eq_refl) as (H1 & H2 & _).
  split; [|split].
  - refine (judged_iff _ _ _ _ H1 _). split; [done|]. intros _. eexists. split; [reflexivity|].
    cbv zeta. split; [|split].
    + apply exists_iff. by vm_compute.
    + apply quarantined_if_iff. by vm_compute.
    + apply none_iff. by vm_compute.
  - refine (judged_iff _ _ _ _ H2 _). split; [done|]. intros _. split; [by vm_compute|].
    eexists _, _. split; [by vm_compute|]. split.
    + intros a Ha. split.
      * revert a Ha. apply forallb_elem. by vm_compute.
      * apply exists_iff. revert a Ha. apply forallb_elem. by vm_compute.
    + apply none_iff. by vm_compute.
  - vm_compute. right. left.
Defined.
