(* ===== verification/Loadside.v ===== *)
(** * Loadside: the dirty bits of pages (cheriostest_vm.c)

    The kernel keeps for each page whether capabilities were stored to it, so
    that a pass of the revoker can leave pages out, and it may let a pass begin
    without visiting any page and look at capabilities as they are loaded.
    [vm_capdirty] checks the bits that mincore(2) shows when data and a
    capability are stored; [cheri_revoke_loadside] follows three pages through
    stores, the opening of a pass and three whole passes.

    A page is an automaton of the kernel's own ([page_machine]); the theorem says
    which automata the tests accept, and [tracker] is one of them. *)

From S2P Require Import Prelude Printf Cheri Perms Harness Runner Toy Registers RunnerFacts AddrGap Spawn Kernel VmTags Mappings Reservations Judge Revocation Knotes.

(** mincore(2) with its vector, and a sysctl. *)
Class PageOS (cap W : Type) := {
  sys_mincore_vec : cap -> Z -> W -> (list Z + Z) * W;
  MINCORE_MODIFIED : Z;
  MINCORE_CAPSTORE : Z;
  sysctl_capstore_on_alloc : W -> (Z + Z) * W;
}.

Section Tests.
Context {cap W : Type} {CH : Cheri cap} {LC : Libc cap W} {KE : Kernel cap W} {VC : VmConsts}
  {HP : Perms} {RV : ResvOS cap W} {RK : RevokeOS cap W} {PO : PageOS cap W}.
Context (g : config) (have_cheribsd : bool).

Abbreviation psize := (page (cap := cap) (W := W)).
Abbreviation ptr_size := (sizeof_ptr (cap := cap) (W := W)).
Abbreviation CAPSTORE := (MINCORE_CAPSTORE (cap := cap) (W := W)).
Abbreviation MODIFIED := (MINCORE_MODIFIED (cap := cap) (W := W)).

Definition byte_at (mcv : list Z) (i : nat) : Z := nth i mcv 0.

Definition mincore_of (p : cap) (n : Z) : test cap W (list Z) :=
  CHERIOSTEST_CHECK_SYSCALL (sys (sys_mincore_vec p n)) "mincore(mb, asz, &mcv[0])".

(** ** vm_capdirty *)

Definition CHERIOSTEST_VM_CAPDIRTY_NPG : Z := 2.

Definition vm_capdirty : cheri_test cap W :=
  CHERIOSTEST "vm_capdirty" "verify capdirty marking and mincore"
    (let sz := CHERIOSTEST_VM_CAPDIRTY_NPG * psize in
     capstore_on_alloc ← CHERIOSTEST_CHECK_SYSCALL (sys (sysctl_capstore_on_alloc (cap := cap)))
       "sysctlbyname(vm.capstore_on_alloc, &capstore_on_alloc, &capstore_on_alloc_sz, NULL, 0)";
     pg0 ← CHERIOSTEST_CHECK_SYSCALL (sys (sys_mmap cap_null sz PROT_RW MAP_ANON (-1) 0))
             "mmap(NULL, sz, PROT_READ | PROT_WRITE, MAP_ANON, -1, 0)";
     let pg1 := ptr_add pg0 psize in
     mcv ← mincore_of pg0 sz;
     CHERIOSTEST_VERIFY2 (byte_at mcv 0 =? 0) "page 0 status 0" [] ;;
     CHERIOSTEST_VERIFY2 (byte_at mcv 1 =? 0) "page 1 status 0" [] ;;
     access (mem_store_byte pg0 0 0x42) ;;
     mcv ← mincore_of pg0 sz;
     CHERIOSTEST_VERIFY2 (flag_set (byte_at mcv 0) MODIFIED) "page 0 modified 1" [] ;;
     CHERIOSTEST_VERIFY2
       (Bool.eqb (negb (flag_set (byte_at mcv 0) CAPSTORE)) (capstore_on_alloc =? 0))
       "page 0 capstore 1" [] ;;
     access (mem_store_cap pg1 0 pg0) ;;
     mcv ← mincore_of pg0 sz;
     CHERIOSTEST_VERIFY2 (flag_set (byte_at mcv 1) MODIFIED) "page 1 modified 2" [] ;;
     CHERIOSTEST_VERIFY2 (flag_set (byte_at mcv 1) CAPSTORE) "page 1 capstore 2" [] ;;
     _ ← CHERIOSTEST_CHECK_SYSCALL (sys (sys_munmap pg0 sz)) "munmap(pg0, sz)";
     cheriostest_success).

(** ** cheri_revoke_loadside *)

Definition CHERIOSTEST_VM_CHERI_REVOKE_LOADSIDE_NPG : Z := 3.
Definition asz : Z := CHERIOSTEST_VM_CHERI_REVOKE_LOADSIDE_NPG * psize.

(** mincore(2), and which of the first pages must have the bit. *)
Definition expect_capstore (mb : cap) (want : list (bool * string)) : test cap W unit :=
  mcv ← mincore_of mb asz;
  foreach (imap pair want) (fun '(i, (b, msg)) =>
    CHERIOSTEST_VERIFY2 (Bool.eqb (flag_set (byte_at mcv i) CAPSTORE) b) msg []).

Definition begin_flags : Z :=
  Z.lor (CHERI_REVOKE_IGNORE_START (cap := cap) (W := W)) (CHERI_REVOKE_TAKE_STATS (cap := cap) (W := W)).

Definition begin_pass : test cap W unit :=
  _ ← CHERIOSTEST_CHECK_SYSCALL (sys (sys_cheri_revoke (cap := cap) begin_flags 0))
        "cheri_revoke(CHERI_REVOKE_IGNORE_START | CHERI_REVOKE_TAKE_STATS, 0, &crsi)";
  mret tt.

Definition whole_pass : test cap W unit :=
  _ ← CHERIOSTEST_CHECK_SYSCALL
        (sys (sys_cheri_revoke (cap := cap) (last_ignore_stats (cap := cap) (W := W)) 0))
        "cheri_revoke(CHERI_REVOKE_LAST_PASS | CHERI_REVOKE_IGNORE_START | CHERI_REVOKE_TAKE_STATS, 0, &crsi)";
  mret tt.

(** The stores, the opening, and the load that must be stopped. *)
Definition open_and_load (mb sh : cap) : test cap W unit :=
  let revme := cheri_perms_and mb EXCEPT_VMEM in
  access (mem_store_cap mb ptr_size revme) ;;
  access (mem_store_byte sh 0 1) ;;
  let capsperpage := psize / ptr_size in
  access (mem_store_cap mb (capsperpage * ptr_size) revme) ;;
  access (mem_store_cap mb (capsperpage * ptr_size) cap_null) ;;
  expect_capstore mb [(true, "page 0 capstore 1"%string); (true, "page 1 capstore 1"%string);
                      (false, "page 2 capstore 1"%string)] ;;
  begin_pass ;;
  revme ← access (mem_load_cap mb ptr_size);
  CHERIOSTEST_VERIFY2 (check_revoked revme) "Fault didn't stop me!" [] ;;
  expect_capstore mb [(true, "page 0 capstore 2.0"%string); (true, "page 1 capstore 2.0"%string)] ;;
  access (mem_store_cap mb (2 * ptr_size) revme) ;;
  whole_pass ;;
  expect_capstore mb [(true, "page 0 capstore 2.1"%string); (true, "page 1 capstore 2.1"%string)].

(** The rest: two more passes. *)
Definition two_passes (mb : cap) : test cap W unit :=
  let revme := cheri_perms_and (slot_ptr (W := W) mb 1) EXCEPT_VMEM in
  CHERIOSTEST_VERIFY2 (negb (check_revoked revme)) "Tag clear on 2nd revme?" [] ;;
  access (mem_store_cap mb ptr_size revme) ;;
  expect_capstore mb [(true, "page 0 capstore 2.2"%string); (true, "page 1 capstore 2.2"%string)] ;;
  whole_pass ;;
  c ← access (mem_load_cap mb ptr_size);
  CHERIOSTEST_VERIFY2 (check_revoked c) "Revoker failure in full pass" [] ;;
  expect_capstore mb [(true, "page 0 capstore 3"%string); (false, "page 1 capstore 3"%string)] ;;
  whole_pass ;;
  expect_capstore mb [(false, "page 0 capstore 4"%string); (false, "page 1 capstore 4"%string)].

Definition cheri_revoke_loadside : cheri_test cap W :=
  revoke_test have_cheribsd (skip_need_cheri_revoke g) "cheri_revoke_loadside"
    "Test load-side revoker"
    (mb ← CHERIOSTEST_CHECK_SYSCALL (sys (sys_mmap cap_null asz PROT_RW MAP_ANON (-1) 0))
            "mmap(0, asz, PROT_READ | PROT_WRITE, MAP_ANON, -1, 0)";
     sh ← CHERIOSTEST_CHECK_SYSCALL (sys (sys_get_shadow_novmem mb))
            "cheri_revoke_get_shadow(CHERI_REVOKE_SHADOW_NOVMEM, mb, &sh)";
     _ ← CHERIOSTEST_CHECK_SYSCALL (sys (cheri_revoke_get_shadow_info (cap := cap)))
           "cheri_revoke_get_shadow(CHERI_REVOKE_SHADOW_INFO_STRUCT, NULL, __DEQUALIFY_CAP(void **, &cri))";
     open_and_load mb sh ;;
     two_passes mb ;;
     cheriostest_success).
End Tests.

(** ** Pages as automata *)

(** What happens to a page: a store of data or of a capability (with its tag),
    the opening of a pass, a load while one is open, and the visit of a pass
    (with whether a capability that is not revoked is left); and what mincore(2)
    shows. *)
Record page_machine := PageMachine {
  pm_state : Type;
  pm_fresh : pm_state;
  pm_data : pm_state -> pm_state;
  pm_cap : bool -> pm_state -> pm_state;
  pm_open : pm_state -> pm_state;
  pm_load : pm_state -> pm_state;
  pm_visit : bool -> pm_state -> pm_state;
  pm_bits : pm_state -> Z;
}.

Record page_view (cap : Type) (M : page_machine) := PageView {
  pv_pages : list (pm_state M);
  pv_slots : gmap Z cap;                            (* by offset *)
  pv_paint : Z;
  pv_open : bool;
}.
Arguments PageView {cap M}.
Arguments pv_pages {cap M}. Arguments pv_slots {cap M}. Arguments pv_paint {cap M}.
Arguments pv_open {cap M}.

(** The revoker, and where things are. *)
Record side_policy (cap : Type) := SidePolicy {
  sd_machine : page_machine;
  sd_mb : cap;
  sd_sh : cap;
  sd_on_alloc : Z;
  sd_revoke : Z -> cap -> cap;                      (* the painted byte, a capability *)
}.
Arguments SidePolicy {cap}.
Arguments sd_machine {cap}. Arguments sd_mb {cap}. Arguments sd_sh {cap}.
Arguments sd_on_alloc {cap}. Arguments sd_revoke {cap}.

Section Machine.
Context {cap : Type} {CH : Cheri cap} (P : side_policy cap) (psize : Z).
Abbreviation M := (sd_machine P).
Abbreviation view := (page_view cap M).

Definition page_of (off : Z) : nat := Z.to_nat (off / psize).

Definition fresh_view (n : nat) : view := PageView (replicate n (pm_fresh M)) ∅ 0 false.

Definition on_data (off : Z) (v : view) : view :=
  PageView (alter (pm_data M) (page_of off) (pv_pages v)) (pv_slots v) (pv_paint v) (pv_open v).

Definition on_store (off : Z) (x : cap) (v : view) : view :=
  PageView (alter (pm_cap M (cheri_tag_get x)) (page_of off) (pv_pages v)) (<[off := x]> (pv_slots v))
    (pv_paint v) (pv_open v).

(** A load while a pass is open revokes what it loads. *)
Definition seen (v : view) (x : cap) : cap :=
  if pv_open v then sd_revoke P (pv_paint v) x else x.

Definition on_load (off : Z) (x : cap) (v : view) : view :=
  PageView (if pv_open v then alter (pm_load M) (page_of off) (pv_pages v) else pv_pages v)
    (<[off := seen v x]> (pv_slots v)) (pv_paint v) (pv_open v).

Definition on_paint (b : Z) (v : view) : view :=
  PageView (pv_pages v) (pv_slots v) b (pv_open v).

Definition on_open (v : view) : view :=
  PageView (pm_open M <$> pv_pages v) (pv_slots v) (pv_paint v) true.

(** A capability that is not revoked is left on the page. *)
Definition live (slots : gmap Z cap) (i : nat) : bool :=
  existsb (fun x => bool_decide (page_of x.1 = i) && negb (check_revoked x.2)) (map_to_list slots).

Definition on_pass (v : view) : view :=
  let slots := sd_revoke P (pv_paint v) <$> pv_slots v in
  PageView (imap (fun i => pm_visit M (live slots i)) (pv_pages v)) slots (pv_paint v) false.
End Machine.

Section Rules.
Context {cap W : Type} {CH : Cheri cap} {KE : Kernel cap W} {VC : VmConsts} {RV : ResvOS cap W}
  {RK : RevokeOS cap W} {PO : PageOS cap W}.

Abbreviation psize := (page (cap := cap) (W := W)).
Abbreviation ptr_size := (sizeof_ptr (cap := cap) (W := W)).

(** A kernel whose pages are the automaton of its policy. *)
Class SideRules := {
  d_policy : side_policy cap;
  d_view : W -> page_view cap (sd_machine d_policy);
  d_sizes : ptr_size = 16 /\ psize `mod` 16 = 0 /\ 48 <= psize;
  d_map n w : exists w', sys_mmap cap_null (n * psize) PROT_RW MAP_ANON (-1) 0 w
      = (inl (sd_mb d_policy), w') /\ d_view w' = fresh_view d_policy (Z.to_nat n);
  d_shadow w : exists w', sys_get_shadow_novmem (sd_mb d_policy) w = (inl (sd_sh d_policy), w') /\
    d_view w' = d_view w;
  d_info w : exists n w', cheri_revoke_get_shadow_info (cap := cap) w = (inl n, w') /\
    d_view w' = d_view w;
  d_sysctl w : exists w', sysctl_capstore_on_alloc (cap := cap) w
      = (inl (sd_on_alloc d_policy), w') /\ d_view w' = d_view w;
  d_mincore n w : exists w', sys_mincore_vec (sd_mb d_policy) n w
      = (inl (pm_bits (sd_machine d_policy) <$> pv_pages (d_view w)), w') /\ d_view w' = d_view w;
  d_data b w : exists w', mem_store_byte (sd_mb d_policy) 0 b w = (inl tt, w') /\
    d_view w' = on_data d_policy psize 0 (d_view w);
  d_store off x w : 0 <= off -> exists w', mem_store_cap (sd_mb d_policy) off x w = (inl tt, w') /\
    d_view w' = on_store d_policy psize off x (d_view w);
  d_store_next x w : exists w', mem_store_cap (ptr_add (sd_mb d_policy) psize) 0 x w = (inl tt, w') /\
    d_view w' = on_store d_policy psize psize x (d_view w);
  d_load off x w : 0 <= off -> pv_slots (d_view w) !! off = Some x ->
    exists w', mem_load_cap (sd_mb d_policy) off w = (inl (seen d_policy (d_view w) x), w') /\
    d_view w' = on_load d_policy psize off x (d_view w);
  d_paint b w : exists w', mem_store_byte (sd_sh d_policy) 0 b w = (inl tt, w') /\
    d_view w' = on_paint d_policy b (d_view w);
  d_begin w : exists e w', sys_cheri_revoke (cap := cap) (begin_flags (cap := cap) (W := W)) 0 w
      = (inl e, w') /\ d_view w' = on_open d_policy (d_view w);
  d_pass w : exists e w', sys_cheri_revoke (cap := cap) (last_ignore_stats (cap := cap) (W := W)) 0 w
      = (inl e, w') /\ d_view w' = on_pass d_policy psize (d_view w);
  d_unmap n w : exists w', sys_munmap (sd_mb d_policy) n w = (inl 0, w');
}.
End Rules.
Arguments SideRules cap W {_ _ _ _ _ _}.

Section Facts.
Context {cap W : Type} {CH : Cheri cap} {CL : CheriLaws cap} {LC : Libc cap W} {KE : Kernel cap W}
  {VC : VmConsts} {HP : Perms} {RV : ResvOS cap W} {RK : RevokeOS cap W} {PO : PageOS cap W}
  {SR : SideRules cap W}.
Context (g : config).

Abbreviation P := (d_policy (cap := cap) (W := W)).
Abbreviation psize := (page (cap := cap) (W := W)).
Abbreviation ptr_size := (sizeof_ptr (cap := cap) (W := W)).
Abbreviation CAPSTORE := (MINCORE_CAPSTORE (cap := cap) (W := W)).
Abbreviation MODIFIED := (MINCORE_MODIFIED (cap := cap) (W := W)).
Abbreviation steps := (Judge.steps (cap := cap) d_view).
Abbreviation decides := (Judge.decides (cap := cap) d_view).
Abbreviation judged := (Judge.judged (cap := cap) d_view).
Abbreviation view := (page_view cap (sd_machine P)).
Abbreviation mb := (sd_mb P).

Definition shows (v : view) : list Z := pm_bits (sd_machine P) <$> pv_pages v.

Definition capstores_ok (v : view) (want : list (bool * string)) : bool :=
  forallb (fun '(i, (b, _)) => Bool.eqb (flag_set (byte_at (shows v) i) CAPSTORE) b) (imap pair want).

Lemma steps_mincore n v : steps (mincore_of mb n) v (fun l v' => l = shows v /\ v' = v).
Proof.
  apply steps_call2. intros w <-. destruct (d_mincore (cap := cap) n w) as (w' & Hr & Hv).
  by eexists _, w'.
Qed.

Lemma decides_capstore v want :
  decides (expect_capstore mb want) v (capstores_ok v want) (fun _ v' => v' = v).
Proof.
  eapply decides_steps; [apply steps_mincore|intros ? ? [-> ->]].
  apply decides_foreach. intros [i [b msg]] _. apply decides_verify.
Qed.

Lemma steps_cap_store off x v : 0 <= off ->
  steps (access (mem_store_cap mb off x)) v (fun _ v' => v' = on_store P psize off x v).
Proof.
  intros Ho. apply steps_access. intros w <-. destruct (d_store off x w Ho) as (w' & Hr & Hv).
  by exists tt, w'.
Qed.

Lemma steps_cap_load off x v : 0 <= off -> pv_slots v !! off = Some x ->
  steps (access (mem_load_cap mb off)) v
    (fun y v' => y = seen P v x /\ v' = on_load P psize off x v).
Proof.
  intros Ho Hx. apply steps_access. intros w <-.
  destruct (d_load (cap := cap) off x w Ho Hx) as (w' & Hr & Hv). by eexists _, w'.
Qed.

Lemma steps_begin v : steps begin_pass v (fun _ v' => v' = on_open P v).
Proof.
  eapply (steps_bind _ _ _ (fun _ v' => v' = on_open P v)); [|intros ? ? ->; by apply steps_ret].
  apply steps_call2. intros w <-. destruct (d_begin (cap := cap) w) as (e & w' & ? & ?). by exists e, w'.
Qed.

Lemma steps_pass v : steps whole_pass v (fun _ v' => v' = on_pass P psize v).
Proof.
  eapply (steps_bind _ _ _ (fun _ v' => v' = on_pass P psize v)); [|intros ? ? ->; by apply steps_ret].
  apply steps_call2. intros w <-. destruct (d_pass (cap := cap) w) as (e & w' & ? & ?). by exists e, w'.
Qed.

(** *** The run of the machine *)

Definition cap_a : cap := cheri_perms_and mb EXCEPT_VMEM.
Definition cap_b : cap := cheri_perms_and (slot_ptr (W := W) mb 1) EXCEPT_VMEM.

Definition stored_view : view :=
  on_store P psize psize cap_null (on_store P psize psize cap_a
    (on_paint P 1 (on_store P psize 16 cap_a (fresh_view P 3)))).

(** What the load in the open pass gives, and the view after it. *)
Definition stopped : cap := seen P (on_open P stored_view) cap_a.
Definition loaded_view : view := on_load P psize 16 cap_a (on_open P stored_view).
Definition pass1_view : view := on_pass P psize (on_store P psize 32 stopped loaded_view).
Definition again_view : view := on_store P psize 16 cap_b pass1_view.
Definition pass2_view : view := on_pass P psize again_view.
Definition taken_cap : cap := sd_revoke P 1 cap_b.
Definition pass3_view : view := on_pass P psize (on_load P psize 16 taken_cap pass2_view).

Definition tf (l : list bool) : list (bool * string) := (fun b => (b, EmptyString)) <$> l.

Definition opening_ok : bool :=
  capstores_ok stored_view (tf [true; true; false]) && check_revoked stopped &&
  capstores_ok loaded_view (tf [true; true]) && capstores_ok pass1_view (tf [true; true]).

Definition passes_ok : bool :=
  negb (check_revoked cap_b) && capstores_ok again_view (tf [true; true]) &&
  check_revoked taken_cap &&
  capstores_ok (on_load P psize 16 taken_cap pass2_view) (tf [true; false]) &&
  capstores_ok pass3_view (tf [false; false]).

Lemma capstores_tf v want : capstores_ok v want = capstores_ok v (tf (fst <$> want)).
Proof.
  unfold capstores_ok. generalize (shows v). intros l.
  assert (forall k, forallb (fun '(i, (b, _)) => Bool.eqb (flag_set (byte_at l i) CAPSTORE) b)
      (imap (fun i => pair (k + i)%nat) want) =
    forallb (fun '(i, (b, _)) => Bool.eqb (flag_set (byte_at l i) CAPSTORE) b)
      (imap (fun i => pair (k + i)%nat) (tf (fst <$> want)))) as H; [|apply (H 0%nat)].
  induction want as [|[b msg] want IH]; intros k; [done|]. simpl. f_equal.
  specialize (IH (S k)).
  rewrite (imap_ext (fun i => pair (S k + i)%nat) ((fun i => pair (k + i)%nat) ∘ S)) in IH
    by (intros; simpl; f_equal; lia).
  rewrite (imap_ext (fun i => pair (S k + i)%nat) ((fun i => pair (k + i)%nat) ∘ S) (tf _)) in IH
    by (intros; simpl; f_equal; lia).
  exact IH.
Qed.

Lemma sizes : ptr_size = 16 /\ psize / ptr_size * ptr_size = psize.
Proof.
  destruct (d_sizes (cap := cap) (W := W)) as (-> & Hm & _). split; [done|].
  pose proof (Z.div_mod psize 16). lia.
Qed.

Lemma decides_opening :
  decides (open_and_load mb (sd_sh P)) (fresh_view P 3) opening_ok (fun _ v' => v' = pass1_view).
Proof.
  destruct sizes as [Hp Hq]. unfold open_and_load, opening_ok. cbv zeta. rewrite Hq, Hp.
  pose proof (d_sizes (cap := cap) (W := W)) as (_ & _ & Hs). fold cap_a. rewrite <- !andb_assoc.
  eapply decides_steps; [by apply steps_cap_store|intros _ ? ->].
  apply (decides_steps _ _ _ _ (fun _ v' => v' = on_paint P 1 (on_store P psize 16 cap_a (fresh_view P 3)))).
  { apply steps_access. intros w <-. destruct (d_paint (cap := cap) 1 w) as (w' & ? & ?). by exists tt, w'. }
  intros _ ? ->.
  eapply decides_steps; [apply steps_cap_store; lia|intros _ ? ->].
  eapply decides_steps; [apply steps_cap_store; lia|intros _ ? ->]. fold stored_view.
  eapply decides_bind; [rewrite <- (capstores_tf _ [(true, "page 0 capstore 1"%string);
    (true, "page 1 capstore 1"%string); (false, "page 2 capstore 1"%string)]); apply decides_capstore|].
  intros _ _ ? ->. eapply decides_steps; [apply steps_begin|intros _ ? ->].
  eapply decides_steps; [apply (steps_cap_load _ cap_a); [done|]|intros ? ? [-> ->]].
  { simpl. rewrite !lookup_insert_ne by lia. apply lookup_insert_eq. }
  fold stopped loaded_view.
  eapply decides_bind; [apply decides_verify|intros _ _ ? ->].
  eapply decides_bind; [rewrite <- (capstores_tf _ [(true, "page 0 capstore 2.0"%string);
    (true, "page 1 capstore 2.0"%string)]); apply decides_capstore|intros _ _ ? ->].
  eapply decides_steps; [by apply steps_cap_store|intros _ ? ->].
  eapply decides_steps; [apply steps_pass|intros _ ? ->]. fold pass1_view.
  rewrite <- (capstores_tf _ [(true, "page 0 capstore 2.1"%string);
    (true, "page 1 capstore 2.1"%string)]). apply decides_capstore.
Qed.

Lemma decides_two_passes : decides (two_passes mb) pass1_view passes_ok (fun _ _ => True).
Proof.
  destruct sizes as [Hp _]. unfold two_passes, passes_ok. cbv zeta. rewrite Hp. fold cap_b.
  rewrite <- !andb_assoc.
  eapply decides_bind; [apply decides_verify|intros _ _ ? ->].
  eapply decides_steps; [by apply steps_cap_store|intros _ ? ->]. fold again_view.
  eapply decides_bind; [rewrite <- (capstores_tf _ [(true, "page 0 capstore 2.2"%string);
    (true, "page 1 capstore 2.2"%string)]); apply decides_capstore|intros _ _ ? ->].
  eapply decides_steps; [apply steps_pass|intros _ ? ->]. fold pass2_view.
  eapply decides_steps; [apply (steps_cap_load _ taken_cap); [done|]|intros ? ? [-> ->]].
  { unfold pass2_view, again_view. simpl. rewrite lookup_fmap, lookup_insert_eq. done. }
  eapply decides_bind; [apply decides_verify|intros _ _ ? ->].
  eapply decides_bind; [rewrite <- (capstores_tf _ [(true, "page 0 capstore 3"%string);
    (false, "page 1 capstore 3"%string)]); apply decides_capstore|intros _ _ ? ->].
  eapply decides_steps; [apply steps_pass|intros _ ? ->]. fold pass3_view.
  eapply decides_mono; [rewrite <- (capstores_tf _ [(false, "page 0 capstore 4"%string);
    (false, "page 1 capstore 4"%string)]); apply decides_capstore|done].
Qed.

(** *** The tests *)

(** What the automaton shows for a fresh page, after a store of data, and after
    a store of the capability to the mapping. *)
Definition capdirty_ok : bool :=
  let bits := pm_bits (sd_machine P) in
  let fresh := pm_fresh (sd_machine P) in
  let data := bits (pm_data (sd_machine P) fresh) in
  let stored := bits (pm_cap (sd_machine P) (cheri_tag_get mb) fresh) in
  (bits fresh =? 0) && flag_set data MODIFIED &&
  Bool.eqb (negb (flag_set data CAPSTORE)) (sd_on_alloc P =? 0) &&
  flag_set stored MODIFIED && flag_set stored CAPSTORE.

Lemma steps_mmap n text v :
  steps (CHERIOSTEST_CHECK_SYSCALL (sys (sys_mmap cap_null (n * psize) PROT_RW MAP_ANON (-1) 0)) text) v
    (fun p v' => p = mb /\ v' = fresh_view P (Z.to_nat n)).
Proof.
  apply steps_call2. intros w _. destruct (d_map (cap := cap) n w) as (w' & ? & ?). by exists mb, w'.
Qed.

Lemma page_of_next : page_of psize psize = 1%nat.
Proof.
  destruct (d_sizes (cap := cap) (W := W)) as (_ & _ & H). unfold page_of.
  by rewrite Z.div_same by lia.
Qed.

Lemma capdirty_judged v :
  judged (ct_func (vm_capdirty (cap := cap) (W := W))) v (capdirty_ok = true).
Proof.
  unfold vm_capdirty, capdirty_ok, CHERIOSTEST. cbn [ct_func]. cbv zeta.
  set (M := sd_machine P). set (f := pm_fresh M).
  eapply judged_bind; [apply (steps_call2 _ _ _ _ (fun x v' => x = sd_on_alloc P))|].
  { intros w _. destruct (d_sysctl (cap := cap) w) as (w' & ? & ?). by eexists _, w'. }
  intros ? v1 ->. eapply judged_bind; [apply steps_mmap|intros ? ? [-> ->]].
  change (Z.to_nat CHERIOSTEST_VM_CAPDIRTY_NPG) with 2%nat.
  eapply judged_bind; [apply steps_mincore|intros ? ? [-> ->]].
  change (byte_at (shows _) 0) with (pm_bits M f). change (byte_at (shows _) 1) with (pm_bits M f).
  apply judged_verify; [intros H0; rewrite H0|intros ->; done].
  apply judged_verify; [intros _|done].
  eapply (judged_bind _ _ _ (fun _ v' => v' = on_data P psize 0 (fresh_view P 2))).
  { apply steps_access. intros w <-. destruct (d_data (cap := cap) 0x42 w) as (w' & ? & ?). by exists tt, w'. }
  intros _ ? ->. eapply judged_bind; [apply steps_mincore|intros ? ? [-> ->]].
  change (byte_at (shows _) 0) with (pm_bits M (pm_data M f)).
  apply judged_verify; [intros H1|intros H1; by rewrite H1, ?andb_false_r].
  apply judged_verify; [intros H2|intros H2; by rewrite H2, ?andb_false_r].
  eapply (judged_bind _ _ _ (fun _ v' => v' = on_store P psize psize mb (on_data P psize 0 (fresh_view P 2)))).
  { apply steps_access. intros w <-. destruct (d_store_next mb w) as (w' & ? & ?). by exists tt, w'. }
  intros _ ? ->. eapply judged_bind; [apply steps_mincore|intros ? ? [-> ->]].
  assert (byte_at (shows (on_store P psize psize mb (on_data P psize 0 (fresh_view P 2)))) 1 =
    pm_bits M (pm_cap M (cheri_tag_get mb) f)) as ->.
  { unfold shows, on_store. cbn [pv_pages]. rewrite page_of_next. done. }
  apply judged_verify; [intros H3|intros H3; by rewrite H3, ?andb_false_r].
  apply judged_verify; [intros H4|intros H4; by rewrite H4, ?andb_false_r].
  eapply judged_bind; [apply (steps_call2 _ _ _ _ (fun _ _ => True))|intros ? ? _].
  { intros w _. destruct (d_unmap (cap := cap) (CHERIOSTEST_VM_CAPDIRTY_NPG * psize) w) as (w' & ?).
    by exists 0, w'. }
  apply judged_success. by rewrite H1, H2, H3, H4.
Qed.

(** C7: on a kernel whose pages are automata, [vm_capdirty] passes exactly when a
    fresh page shows no bit, a store of data shows as modified, and as a store of
    capabilities just where the sysctl says so, and a store of a capability shows
    as both; [cheri_revoke_loadside] exactly when the load in the open pass gives
    a revoked capability, the whole pass takes the second one, and the automata
    show at the six looks of the test the thirteen bits that it asks for, some
    set and some clear: the page that was stored to loses its bit in the pass
    after the next. *)
Theorem page_bits_verdict (v : view) :
  judged (ct_func (vm_capdirty (cap := cap) (W := W))) v (capdirty_ok = true) /\
  judged (ct_func (cheri_revoke_loadside g true)) v (opening_ok = true /\ passes_ok = true) /\
  judged (ct_func (cheri_revoke_loadside g false)) v False.
Proof.
  split; [apply capdirty_judged|]. split; [|apply judged_failure_end; tauto].
  unfold cheri_revoke_loadside, revoke_test, with_skip, CHERIOSTEST. cbn [ct_func].
  eapply judged_bind; [apply steps_mmap|intros ? ? [-> ->]].
  eapply judged_bind; [apply (steps_call2 _ _ _ _ (fun r v' => r = sd_sh P /\ v' = fresh_view P 3))|].
  { intros w Hw. destruct (d_shadow (cap := cap) w) as (w' & Hr & Hv). exists (sd_sh P), w'. by rewrite Hv. }
  intros ? ? [-> ->].
  eapply judged_bind; [apply (steps_call2 _ _ _ _ (fun _ v' => v' = fresh_view P 3))|].
  { intros w Hw. destruct (d_info (cap := cap) w) as (n & w' & Hr & Hv). exists n, w'. by rewrite Hv. }
  intros ? ? ->.
  eapply judged_decides; [apply decides_opening| |tauto]. intros Ho _ ? ->.
  eapply judged_decides; [apply decides_two_passes| |tauto]. intros Hp _ ? _.
  by apply judged_success.
Qed.
End Facts.

(** ** Concrete automata *)

(** The tracker of the comments: a store makes a page dirty, a pass makes a dirty
    page idle, and an idle page clean if nothing that is not revoked is left. *)
Inductive tracked := Absent | Clean | Idle | Dirty.

Definition tracker (on_alloc : bool) : page_machine := {|
  pm_state := tracked;
  pm_fresh := Absent;
  pm_data s := match s with Absent => if on_alloc then Dirty else Clean | _ => s end;
  pm_cap tag s := if tag then Dirty else match s with Absent => Clean | _ => s end;
  pm_open s := s;
  pm_load s := s;
  pm_visit live s := match s with
                     | Dirty => Idle
                     | Idle => if live then Idle else Clean
                     | _ => s
                     end;
  pm_bits s := match s with Absent => 0 | Clean => 4 | _ => 0x44 end;
|}.

(** One that cleans a page in the first pass, and one that never does. *)
Definition hasty : page_machine :=
  let M := tracker false in
  PageMachine tracked Absent (pm_data M) (pm_cap M) id id
    (fun live s => match s with Absent => Absent | _ => if live then Idle else Clean end) (pm_bits M).
Definition lazy : page_machine :=
  let M := tracker false in
  PageMachine tracked Absent (pm_data M) (pm_cap M) id id (fun _ s => s) (pm_bits M).

Section Toy.
Context (M : page_machine) (on_alloc : Z).

Definition toy_side : side_policy scap := {|
  sd_machine := M;
  sd_mb := toy_cap 0x40000000 (3 * 4096) 0 (Z.lor (mask PLoad) (mask PStore));
  sd_sh := toy_cap 0x50000000 64 0 (mask PStore);
  sd_on_alloc := on_alloc;
  sd_revoke paint c := if Z.testbit paint 0 then cheri_tag_clear c else c;
|}.

(** A type of its own for each automaton, so that the instances do not mix. *)
Definition side_world : Type := page_view scap M.

Definition side_offset (c : scap) (off : Z) : Z := cheri_address_get c - 0x40000000 + off.

#[local] Instance side_kernel : Kernel scap side_world := {|
  getpagesize := 4096;
  sys_mmap _ n _ _ _ _ w := (inl (sd_mb toy_side), fresh_view toy_side (Z.to_nat (n / 4096)));
  sys_munmap _ _ w := (inl 0, w);
  sys_mprotect _ _ _ w := (inl 0, w);
  sys_minherit _ _ _ w := (inl 0, w);
  sys_shmget _ _ _ w := (inr 78, w);
  sys_shmat _ _ _ w := (inr 78, w);
  sys_shmdt _ w := (inr 78, w);
  sys_shm_open _ _ _ w := (inr 78, w);
  sys_shm_unlink _ w := (inl 0, w);
  sys_memfd_create _ _ w := (inr 78, w);
  sys_open _ _ w := (inr 78, w);
  sys_mkstemp t w := (inr 78, w);
  sys_unlink _ w := (inl 0, w);
  sys_ftruncate _ _ w := (inl 0, w);
  sys_close _ w := (inl 0, w);
  os_random w := (7, w);
  mem_load_cap c off w :=
    let x := default cap_null (pv_slots w !! side_offset c off) in
    (inl (seen toy_side w x), on_load toy_side 4096 (side_offset c off) x w);
  mem_store_cap c off x w := (inl tt, on_store toy_side 4096 (side_offset c off) x w);
  mem_store_byte c off b w :=
    (inl tt, if cheri_address_get c =? 0x50000000 then on_paint toy_side b w
             else on_data toy_side 4096 (side_offset c off) w);
  stack_local n := toy_cap 0x7000 n 0 0;
|}.

#[local] Instance side_resv : ResvOS scap side_world := {|
  mem_load_int _ w := (inl 0, w);
  cheri_pcc_get := toy_cap 0x8000 0x1000 0 2;
  test_bufferp := toy_cap 0x9000 64 0 2;
  CHERI_ALIGN_SHIFT _ := 0;
  feature_present _ _ := true;
  sysctl_runtime_revocation_default _ := inl 1;
  sysctl_quarantine_unmapped _ := inl 1;
  cheri_revoke_get_shadow_info w := (inl 0, w);
  ENOENT := 2;
|}.

#[local] Instance side_revoke : RevokeOS scap side_world := {|
  sizeof_ptr := 16;
  CHERI_REVOKE_LAST_PASS := 1; CHERI_REVOKE_IGNORE_START := 4; CHERI_REVOKE_TAKE_STATS := 8;
  CHERI_REVOKE_ASYNC := 2;
  sys_cheri_revoke flags _ w :=
    (inl (Epochs 2 2), if Z.testbit flags 0 then on_pass toy_side 4096 w else on_open toy_side w);
  sys_get_shadow_novmem _ w := (inl (sd_sh toy_side), w);
  cri_enqueue _ := 0;
  cri_dequeue _ := 0;
  cri_base_mem_nomap _ := 0;
  cheri_revoke_epoch_clears now epoch := epoch + 2 <=? now;
  caprev_shadow_nomap_set _ _ _ _ w := (0, w);
  caprev_shadow_nomap_clear _ _ _ w := w;
  dump_shadow what _ _ _ _ := what;
  os_srand _ w := w;
  os_rand w := (4, w);
  os_usleep _ w := w;
|}.

#[local] Instance side_pages : PageOS scap side_world := {|
  sys_mincore_vec _ _ w := (inl (pm_bits M <$> pv_pages w), w);
  MINCORE_MODIFIED := 4;
  MINCORE_CAPSTORE := 0x40;
  sysctl_capstore_on_alloc w := (inl on_alloc, w);
|}.

#[local] Instance side_rules : SideRules scap side_world.
Proof.
  refine {| d_policy := toy_side; d_view := fun w => w |}; try done; try (intros; eexists; done);
    try (intros; eexists _, _; done).
  - intros n w. cbn. rewrite Z.div_mul by done. by eexists.
  - intros off x w Ho Hx. cbn [mem_load_cap side_kernel].
    assert (side_offset (sd_mb toy_side) off = off) as -> by done.
    rewrite Hx. by eexists.
Defined.
End Toy.

(** The tracker is accepted by both tests, in both settings of the sysctl by the
    first; the other two by none. *)
Lemma page_bits_verdict_witness :
  judged (cap := scap) (fun w : side_world (tracker true) => w)
    (ct_func (vm_capdirty (KE := side_kernel _ 1) (PO := side_pages _ 1)))
    (PageView [] ∅ 0 false) True /\
  judged (cap := scap) (fun w : side_world (tracker false) => w)
    (ct_func (cheri_revoke_loadside (KE := side_kernel _ 0) (RV := side_resv _)
                (RK := side_revoke _ 0) (PO := side_pages _ 0) toy_config true))
    (PageView [] ∅ 0 false) True /\
  judged (cap := scap) (fun w : side_world hasty => w)
    (ct_func (cheri_revoke_loadside (KE := side_kernel _ 0) (RV := side_resv _)
                (RK := side_revoke _ 0) (PO := side_pages _ 0) toy_config true))
    (PageView [] ∅ 0 false) False /\
  judged (cap := scap) (fun w : side_world lazy => w)
    (ct_func (cheri_revoke_loadside (KE := side_kernel _ 0) (RV := side_resv _)
                (RK := side_revoke _ 0) (PO := side_pages _ 0) toy_config true))
    (PageView [] ∅ 0 false) False.
Proof.
  destruct (page_bits_verdict (SR := side_rules (tracker true) 1) toy_config (PageView [] ∅ 0 false))
    as (H1 & _ & _).
  destruct (page_bits_verdict (SR := side_rules (tracker false) 0) toy_config (PageView [] ∅ 0 false))
    as (_ & H2 & _).
  destruct (page_bits_verdict (SR := side_rules hasty 0) toy_config (PageView [] ∅ 0 false))
    as (_ & H3 & _).
  destruct (page_bits_verdict (SR := side_rules lazy 0) toy_config (PageView [] ∅ 0 false))
    as (_ & H4 & _).
  split; [|split; [|split]].
  - refine (judged_iff _ _ _ _ H1 _). split; [done|]. intros _. by vm_compute.
  - refine (judged_iff _ _ _ _ H2 _). split; [done|]. intros _. split; by vm_compute.
  - refine (judged_iff _ _ _ _ H3 _). split; [|done]. intros [H _]. by vm_compute in H.
  - refine (judged_iff _ _ _ _ H4 _). split; [|done]. intros [_ H]. by vm_compute in H.
Defined.
