(* ===== verification/Channels.v ===== *)
(** * Channels: files and pipes carry no tags (cheriostest_fs.c, cheriostest_ipc.c)

    A capability that is written to a file of tmpfs or to a pipe comes back
    without its tag, and the source keeps it; and a write that blocks in a pipe
    can be interrupted by a signal.  The kernel is described by what becomes of a
    capability on its way. *)

From S2P Require Import Prelude Printf Cheri Perms Harness Runner Toy Registers RunnerFacts Faults Kernel VmTags Judge Aliasing.

(** The calls of the two files on data in memory.  [sys_write_buf] blocks until
    it is done or a handled signal arrives, whose handler does not return. *)
Class ChannelOS (cap W : Type) := {
  sys_statfs_tmp : W -> option (string * Z);        (* f_fstypename, f_type *)
  TMPFS_MAGIC : Z;
  sizeof_cap : Z;
  sys_pwrite_cap : Z -> cap -> W -> (Z + Z) * W;
  sys_pread_cap : Z -> W -> ((Z * cap) + Z) * W;
  os_calloc : Z -> W -> cap * W;
  os_memset0 : cap -> Z -> W -> W;                  (* memset(buffer, 0, sizeof(buffer)) *)
  ch_pipe : W -> ((Z * Z) + Z) * W;
  sys_write_buf : Z -> cap -> Z -> W -> ((Z + Z) + siginfo cap) * W;
  sys_read_buf : Z -> cap -> Z -> W -> (Z + Z) * W;
  os_getpipe_sz : Z -> W -> Z * W;
  sys_alarm : Z -> W -> (Z + Z) * W;
}.

Section Tests.
Context {cap W : Type} {CH : Cheri cap} {LC : Libc cap W} {KE : Kernel cap W} {CO : ChannelOS cap W}.
Context (g : config).

Abbreviation capsz := (sizeof_cap (cap := cap) (W := W)).

(** ** cheriostest_fs.c *)

Definition skip_non_tmpfs_tmp (name : string) (w : W) : option string * W :=
  (match sys_statfs_tmp (cap := cap) w with
   | None => Some "unable to query statfs for /tmp"%string
   | Some (f_fstypename, f_type) =>
       if (if is_freebsd g then String.eqb f_fstypename "tmpfs"
           else f_type =? TMPFS_MAGIC (cap := cap) (W := W)) then None
       else Some "/tmp is not using tmpfs"%string
   end, w).

Definition fs_create_tempfile : test cap W Z :=
  let template := "/tmp/cheriostest.XXXXXXXX"%string in
  f ← CHERIOSTEST_CHECK_SYSCALL2 (sys (sys_mkstemp (cap := cap) template)) "mkstemp %s" [AStr template];
  let '(fd, template) := f in
  _ ← CHERIOSTEST_CHECK_SYSCALL (sys (sys_unlink (cap := cap) template)) "unlink(template)";
  _ ← CHERIOSTEST_CHECK_SYSCALL (sys (sys_ftruncate (cap := cap) fd (getpagesize (cap := cap) (W := W))))
        "ftruncate(fd, getpagesize())";
  mret fd.

Definition tmpfs_rw_nocaps : cheri_test cap W :=
  with_skip skip_non_tmpfs_tmp (CHERIOSTEST "tmpfs_rw_nocaps"
    "check that read(2) and write(2) of tmpfs files do not return tags"
    (fd ← fs_create_tempfile;
     let c := stack_local (cap := cap) (W := W) 4 in
     CHERIOSTEST_VERIFY2 (cheri_tag_get c) "tag set on source" [] ;;
     rv ← CHERIOSTEST_CHECK_SYSCALL (sys (sys_pwrite_cap fd c)) "pwrite(fd, &c, sizeof(c), 0)";
     CHERIOSTEST_CHECK_EQ_SIZE rv capsz "rv" "sizeof(c)" ;;
     r ← CHERIOSTEST_CHECK_SYSCALL (sys (sys_pread_cap fd)) "pread(fd, &d, sizeof(d), 0)";
     let '(rv, d) := r in
     CHERIOSTEST_CHECK_EQ_SIZE rv capsz "rv" "sizeof(d)" ;;
     CHERIOSTEST_VERIFY2 (negb (cheri_tag_get d)) "tag read" [] ;;
     CHERIOSTEST_VERIFY2 (cheri_is_equal_exact (cheri_tag_clear c) d) "untagged value not read" [] ;;
     _ ← CHERIOSTEST_CHECK_SYSCALL (sys (sys_close (cap := cap) fd)) "close(fd)";
     cheriostest_success)).

(** ** cheriostest_ipc.c *)

Definition BUFFER_SIZE : Z := 8192.

(** The buffer, and its size. *)
Definition sleep_buffer (fds : Z * Z) : test cap W (cap * Z) :=
  if is_freebsd g then
    let buffer := stack_local (cap := cap) (W := W) BUFFER_SIZE in
    libcall (fun w => (tt, os_memset0 buffer BUFFER_SIZE w)) ;;
    mret (buffer, BUFFER_SIZE)
  else
    sz ← libcall (os_getpipe_sz (cap := cap) fds.2);
    let buffer_size := u64 (sz * 2) in
    buffer ← libcall (os_calloc buffer_size);
    mret (buffer, buffer_size).

Definition ipc_pipe_sleep_signal : cheri_test cap W :=
  with_signal CT_FLAG_SIGNAL (SIGALRM (cap := cap) (W := W)) 0 0
    (CHERIOSTEST "ipc_pipe_sleep_signal"
       "check that direct write pipe IPC of a capability can be interrupted"
       (fds ← CHERIOSTEST_CHECK_SYSCALL (sys (ch_pipe (cap := cap))) "pipe(fds)";
        r ← sleep_buffer fds;
        let '(buffer, buffer_size) := r in
        access (mem_store_cap buffer 0 buffer) ;;
        _ ← CHERIOSTEST_CHECK_SYSCALL (sys (sys_alarm (cap := cap) 1)) "alarm(1)";
        _ ← CHERIOSTEST_CHECK_SYSCALL
              (access (sys_write_buf (if is_freebsd g then fds.1 else fds.2) buffer buffer_size))
              "write(fds[1], buffer, buffer_size)";
        _ ← try_sys (sys_close (cap := cap) fds.1);
        _ ← try_sys (sys_close (cap := cap) fds.2);
        cheriostest_failure_errx "write didn't block" [])).

Definition ipc_pipe_nocaps : cheri_test cap W :=
  CHERIOSTEST "ipc_pipe_nocaps" "check that read/write of a pipe(2) strips tags"
    (let len := getpagesize (cap := cap) (W := W) in
     buffer ← libcall (os_calloc len);
     buffer2 ← libcall (os_calloc len);
     access (mem_store_cap buffer 0 buffer) ;;
     c ← access (mem_load_cap buffer 0);
     CHERIOSTEST_VERIFY2 (cheri_tag_get c) "pretest: tag missing" [] ;;
     fds ← CHERIOSTEST_CHECK_SYSCALL (sys (ch_pipe (cap := cap))) "pipe(fds)";
     rv ← CHERIOSTEST_CHECK_SYSCALL (access (sys_write_buf fds.2 buffer len)) "write(fds[1], buffer, len)";
     CHERIOSTEST_CHECK_EQ_SIZE rv len "rv" "len" ;;
     rv ← CHERIOSTEST_CHECK_SYSCALL (sys (sys_read_buf fds.1 buffer2 len)) "read(fds[0], buffer2, len)";
     CHERIOSTEST_CHECK_EQ_SIZE rv len "rv" "len" ;;
     c ← access (mem_load_cap buffer 0);
     CHERIOSTEST_VERIFY2 (cheri_tag_get c) "posttest: source tag missing" [] ;;
     d ← access (mem_load_cap buffer2 0);
     CHERIOSTEST_VERIFY2 (negb (cheri_tag_get d)) "posttest: destination tag present" [] ;;
     c ← access (mem_load_cap buffer 0);
     d ← access (mem_load_cap buffer2 0);
     CHERIOSTEST_VERIFY2 (cheri_is_equal_exact (cheri_tag_clear c) d) "untagged value not copied" [] ;;
     _ ← CHERIOSTEST_CHECK_SYSCALL (sys (sys_close (cap := cap) fds.1)) "close(fds[0])";
     _ ← CHERIOSTEST_CHECK_SYSCALL (sys (sys_close (cap := cap) fds.2)) "close(fds[1])";
     cheriostest_success).
End Tests.

(** ** A kernel by what becomes of a capability *)

Record channel_policy (cap : Type) := ChannelPolicy {
  cl_file : cap -> cap;                             (* read back from a file *)
  cl_pipe : cap -> cap;                             (* and from a pipe *)
  cl_source : cap -> cap;                           (* left in the source of a write *)
  cl_buffer : nat -> cap;                           (* what calloc gives *)
  cl_fds : Z * Z;
  cl_blocks : Z -> bool;                            (* a write of that size with no reader *)
}.
Arguments ChannelPolicy {cap}.
Arguments cl_file {cap}. Arguments cl_pipe {cap}. Arguments cl_source {cap}.
Arguments cl_buffer {cap}. Arguments cl_fds {cap}. Arguments cl_blocks {cap}.

Record channel_view (cap : Type) := ChannelView {
  cv_content : option cap;                          (* of the file, or in the pipe *)
  cv_slots : gmap nat cap;                          (* the first slot of each buffer *)
  cv_callocs : nat;
}.
Arguments ChannelView {cap}.
Arguments cv_content {cap}. Arguments cv_slots {cap}. Arguments cv_callocs {cap}.

Section Rules.
Context {cap W : Type} {CH : Cheri cap} {LC : Libc cap W} {KE : Kernel cap W} {CO : ChannelOS cap W}.
Context (g : config).

Abbreviation psize := (getpagesize (cap := cap) (W := W)).
Abbreviation capsz := (sizeof_cap (cap := cap) (W := W)).

Class ChannelRules := {
  cn_policy : channel_policy cap;
  cn_view : W -> channel_view cap;
  cn_sizes : 0 <= capsz < 2 ^ 64 /\ 0 <= psize < 2 ^ 64;
  cn_local : cheri_tag_get (stack_local (cap := cap) (W := W) 4) = true;
  cn_mkstemp t w : exists r w', sys_mkstemp (cap := cap) t w = (inl r, w') /\ cn_view w' = cn_view w;
  cn_unlink t w : exists r w', sys_unlink (cap := cap) t w = (inl r, w') /\ cn_view w' = cn_view w;
  cn_ftruncate fd n w : exists r w', sys_ftruncate (cap := cap) fd n w = (inl r, w') /\
    cn_view w' = cn_view w;
  cn_close fd w : exists r w', sys_close (cap := cap) fd w = (inl r, w') /\ cn_view w' = cn_view w;
  cn_pwrite fd c w : exists w', sys_pwrite_cap fd c w = (inl capsz, w') /\
    cn_view w' = ChannelView (Some (cl_file cn_policy c)) (cv_slots (cn_view w)) (cv_callocs (cn_view w));
  cn_pread fd d w : cv_content (cn_view w) = Some d ->
    exists w', sys_pread_cap fd w = (inl (capsz, d), w') /\ cn_view w' = cn_view w;
  cn_calloc n w : exists w', os_calloc n w = (cl_buffer cn_policy (cv_callocs (cn_view w)), w') /\
    cn_view w' = ChannelView (cv_content (cn_view w)) (cv_slots (cn_view w)) (S (cv_callocs (cn_view w)));
  cn_store i x w : exists w', mem_store_cap (cl_buffer cn_policy i) 0 x w = (inl tt, w') /\
    cn_view w' = ChannelView (cv_content (cn_view w)) (<[i := x]> (cv_slots (cn_view w)))
                   (cv_callocs (cn_view w));
  cn_load i x w : cv_slots (cn_view w) !! i = Some x ->
    exists w', mem_load_cap (cl_buffer cn_policy i) 0 w = (inl x, w') /\ cn_view w' = cn_view w;
  cn_pipe w : exists w', ch_pipe (cap := cap) w = (inl (cl_fds cn_policy), w') /\ cn_view w' = cn_view w;
  cn_write i x w : cv_slots (cn_view w) !! i = Some x ->
    exists w', sys_write_buf (cl_fds cn_policy).2 (cl_buffer cn_policy i) psize w
      = (inl (inl psize), w') /\
    cn_view w' = ChannelView (Some (cl_pipe cn_policy x))
      (<[i := cl_source cn_policy x]> (cv_slots (cn_view w))) (cv_callocs (cn_view w));
  cn_read i d w : cv_content (cn_view w) = Some d ->
    exists w', sys_read_buf (cl_fds cn_policy).1 (cl_buffer cn_policy i) psize w = (inl psize, w') /\
    cn_view w' = ChannelView None (<[i := d]> (cv_slots (cn_view w))) (cv_callocs (cn_view w));
  (* the write that may block *)
  cn_pipe_size : Z;
  cn_getpipe fd w : exists w', os_getpipe_sz (cap := cap) fd w = (cn_pipe_size, w') /\
    cn_view w' = cn_view w;
  cn_alarm_info : siginfo cap;
  cn_alarm w : exists r w', sys_alarm (cap := cap) 1 w = (inl r, w') /\ cn_view w' = cn_view w;
  cn_store_local x w : exists w',
    mem_store_cap (stack_local (cap := cap) (W := W) BUFFER_SIZE) 0 x w = (inl tt, w');
  cn_block fd b n w : n <> psize -> exists w',
    if cl_blocks cn_policy n then sys_write_buf fd b n w = (inr cn_alarm_info, w')
    else exists r, sys_write_buf fd b n w = (inl r, w');
}.

(** The size that [ipc_pipe_sleep_signal] writes. *)
Definition sleep_size `{ChannelRules} : Z :=
  if is_freebsd g then BUFFER_SIZE else u64 (cn_pipe_size * 2).
End Rules.
Arguments ChannelRules cap W {_ _ _}.

Section Facts.
Context {cap W : Type} {CH : Cheri cap} {CL : CheriLaws cap} {LC : Libc cap W} {RO : RunnerOS W}
  {RL : RunnerOSLaws LC RO} {KE : Kernel cap W} {CO : ChannelOS cap W} {CR : ChannelRules cap W}.
Context (g : config) (o : options).
Context (indet_flaky : option string) (indet_fd : Z).

Abbreviation P := (cn_policy (cap := cap) (W := W)).
Abbreviation psize := (getpagesize (cap := cap) (W := W)).
Abbreviation judged := (Judge.judged (cap := cap) cn_view).
Abbreviation steps := (Judge.steps (cap := cap) cn_view).

(** A call of a law with an unknown result, and its view. *)
Ltac law H := intros w Hw; destruct (H w) as (r & w' & Hr & Hv);
  exists r, w'; rewrite Hv, ?Hw; done.

Lemma steps_calloc n v : steps (libcall (os_calloc (cap := cap) n)) v (fun b v' =>
  b = cl_buffer P (cv_callocs v) /\ v' = ChannelView (cv_content v) (cv_slots v) (S (cv_callocs v))).
Proof.
  apply steps_libcall. intros w <-. destruct (cn_calloc (cap := cap) n w) as (w' & Hr & Hv).
  rewrite Hr. by split.
Qed.

Lemma steps_write_buf i x v : cv_slots v !! i = Some x ->
  steps (CHERIOSTEST_CHECK_SYSCALL (access (sys_write_buf (cl_fds P).2 (cl_buffer P i) psize))
    "write(fds[1], buffer, len)") v (fun r v' => r = psize /\ v' =
      ChannelView (Some (cl_pipe P x)) (<[i := cl_source P x]> (cv_slots v)) (cv_callocs v)).
Proof.
  intros Hx s [Hs Hv]. rewrite <- Hv in Hx. destruct (cn_write i x (p_world s) Hx) as (w' & Hr & Hw).
  exists psize, (set_world w' s), (cn_view w'). rewrite Hw, Hv.
  split; [|split; [done|split; [done|by rewrite <- Hv, <- Hw]]].
  unfold CHERIOSTEST_CHECK_SYSCALL, CHERIOSTEST_CHECK_SYSCALL2, access, mbind, eff_bind. by rewrite Hr.
Qed.

Lemma steps_buf_load i x v : cv_slots v !! i = Some x ->
  steps (access (mem_load_cap (cl_buffer P i) 0)) v (fun c v' => c = x /\ v' = v).
Proof.
  intros Hx. apply steps_access. intros w <-. destruct (cn_load i x w Hx) as (w' & ? & ?).
  by exists x, w'.
Qed.

(** The check of both at the end. *)
Lemma stripped_iff (c d : cap) : cheri_tag_get d = false /\ cheri_is_equal_exact (cheri_tag_clear c) d = true
  <-> d = cheri_tag_clear c.
Proof.
  split; [by intros [_ H%equal_exact_eq]|]. intros ->. split; [apply tag_clear_tag|apply equal_exact_refl].
Qed.

Lemma same_size_judged {B} a t1 t2 (k : test cap W B) v Q :
  judged k v Q -> judged (CHERIOSTEST_CHECK_EQ_SIZE a a t1 t2 ;; k) v Q.
Proof. intros Hk. apply judged_verify; [done|]. by rewrite Z.eqb_refl. Qed.

(** The last two checks and the end. *)
Lemma stripped_judged {A} (c d : cap) m1 m2 (k : test cap W A) v :
  judged k v True ->
  judged (CHERIOSTEST_VERIFY2 (negb (cheri_tag_get d)) m1 [] ;;
    CHERIOSTEST_VERIFY2 (cheri_is_equal_exact (cheri_tag_clear c) d) m2 [] ;; k) v
    (d = cheri_tag_clear c).
Proof.
  intros Hk. apply judged_verify.
  - intros Ht%negb_true_iff. apply judged_verify.
    + intros He%equal_exact_eq. eapply judged_iff; [exact Hk|]. by rewrite He.
    + intros He ->. by rewrite equal_exact_refl in He.
  - intros Ht%negb_false_iff ->. by rewrite tag_clear_tag in Ht.
Qed.

Lemma tmpfs_judged v : judged (ct_func (tmpfs_rw_nocaps (cap := cap) (W := W) g)) v
  (cl_file P (stack_local (cap := cap) (W := W) 4) = cheri_tag_clear (stack_local (cap := cap) (W := W) 4)).
Proof.
  unfold tmpfs_rw_nocaps, with_skip, CHERIOSTEST. cbn [ct_func]. set (c := stack_local 4).
  unfold fs_create_tempfile. apply judged_assoc.
  eapply judged_bind; [apply (steps_call2 _ _ _ _ (fun _ v' => v' = v)); law (cn_mkstemp (cap := cap)
    "/tmp/cheriostest.XXXXXXXX")|].
  intros [fd t] ? ->. apply judged_assoc.
  eapply judged_bind; [apply (steps_call2 _ _ _ _ (fun _ v' => v' = v)); law (cn_unlink (cap := cap) t)|].
  intros ? ? ->. apply judged_assoc.
  eapply judged_bind; [apply (steps_call2 _ _ _ _ (fun _ v' => v' = v)); law (cn_ftruncate (cap := cap) fd psize)|].
  intros ? ? ->. apply judged_ret.
  apply judged_verify; [intros _|unfold c; by rewrite cn_local].
  eapply judged_bind; [apply (steps_call2 _ _ _ _ (fun r v' => r = sizeof_cap (cap := cap) (W := W) /\ v' =
    ChannelView (Some (cl_file P c)) (cv_slots v) (cv_callocs v)))|].
  { intros w <-. destruct (cn_pwrite fd c w) as (w' & ? & ?). by eexists _, w'. }
  intros ? ? [-> ->]. apply same_size_judged.
  eapply judged_bind; [apply (steps_call2 _ _ _ _ (fun r v' => r = (sizeof_cap (cap := cap) (W := W), cl_file P c)))|].
  { intros w Hw. destruct (cn_pread fd (cl_file P c) w) as (w' & ? & ?); [by rewrite Hw|]. by eexists _, w'. }
  intros ? v2 ->. apply same_size_judged, stripped_judged.
  eapply judged_bind; [apply (steps_call2 _ _ _ _ (fun _ _ => True))|].
  { intros w _. destruct (cn_close (cap := cap) fd w) as (r & w' & ? & _). by exists r, w'. }
  intros ? ? _. by apply judged_success.
Qed.

(** The buffers of the pipe test. *)
Definition pipe_cap (n : nat) : cap := cl_buffer P n.

Lemma pipe_judged v : let n := cv_callocs v in
  judged (ct_func (ipc_pipe_nocaps (cap := cap) (W := W))) v
    (cheri_tag_get (pipe_cap n) = true /\ cheri_tag_get (cl_source P (pipe_cap n)) = true /\
     cl_pipe P (pipe_cap n) = cheri_tag_clear (cl_source P (pipe_cap n))).
Proof.
  intros n. unfold ipc_pipe_nocaps, CHERIOSTEST. cbn [ct_func]. set (b := pipe_cap n).
  destruct v as [ct sl k]. simpl in n. subst n.
  eapply judged_iff; [|by rewrite <- (stripped_iff (cl_source P b))].
  eapply judged_bind; [apply steps_calloc|intros ? ? [-> ->]]. cbn [cv_content cv_slots cv_callocs].
  eapply judged_bind; [apply steps_calloc|intros ? ? [-> ->]]. cbn [cv_content cv_slots cv_callocs].
  fold (pipe_cap k). fold (pipe_cap (S k)). fold b.
  eapply (judged_bind _ _ _ (fun _ v' => v' = ChannelView ct (<[k := b]> sl) (S (S k)))).
  { apply steps_access. intros w Hw. destruct (cn_store k b w) as (w' & Hr & Hv).
    exists tt, w'. by rewrite Hv, Hw. }
  intros _ ? ->.
  eapply judged_bind; [apply (steps_buf_load k b), lookup_insert_eq|intros ? ? [-> ->]].
  apply judged_verify; [intros Ht|intros Ht [? _]; congruence].
  eapply judged_bind; [apply (steps_call2 _ _ _ _ (fun r v' => r = cl_fds P /\ v' =
    ChannelView ct (<[k := b]> sl) (S (S k))))|].
  { intros w Hw. destruct (cn_pipe (cap := cap) w) as (w' & Hr & Hv). eexists _, w'. by rewrite Hv, Hw. }
  intros ? ? [-> ->].
  eapply judged_bind; [apply (steps_write_buf k b), lookup_insert_eq|intros ? ? [-> ->]].
  cbn [cv_slots cv_callocs]. rewrite insert_insert_eq. apply same_size_judged.
  set (src := cl_source P b). set (d := cl_pipe P b).
  eapply judged_bind; [apply (steps_call2 _ _ _ _ (fun r v' => r = psize /\ v' =
    ChannelView None (<[S k := d]> (<[k := src]> sl)) (S (S k))))|].
  { intros w Hw. destruct (cn_read (cap := cap) (S k) d w) as (w' & Hr & Hv); [by rewrite Hw|].
    exists psize, w'. by rewrite Hv, Hw. }
  intros ? ? [-> ->]. apply same_size_judged.
  assert ((<[S k := d]> (<[k := src]> sl)) !! k = Some src) as Hk
    by (rewrite lookup_insert_ne by lia; apply lookup_insert_eq).
  assert ((<[S k := d]> (<[k := src]> sl)) !! (S k) = Some d) as Hd by apply lookup_insert_eq.
  eapply judged_bind; [by apply (steps_buf_load k src)|intros ? ? [-> ->]].
  apply judged_verify; [intros Hts|intros Hts (_ & ? & _); congruence].
  eapply judged_bind; [by apply (steps_buf_load (S k) d)|intros ? ? [-> ->]].
  apply judged_verify; [intros Htd%negb_true_iff|intros Htd%negb_false_iff (_ & _ & ? & _); congruence].
  eapply judged_bind; [by apply (steps_buf_load k src)|intros ? ? [-> ->]].
  eapply judged_bind; [by apply (steps_buf_load (S k) d)|intros ? ? [-> ->]].
  apply judged_verify; [intros He|intros He (_ & _ & _ & ?); congruence].
  do 2 (eapply judged_bind; [apply (steps_call2 _ _ _ _ (fun _ _ => True)); intros w _;
    match goal with |- context [sys_close ?fd] => destruct (cn_close (cap := cap) fd w) as (r & w' & ? & _) end;
    by exists r, w'|intros ? ? _]).
  by apply judged_success.
Qed.

(** *** The write that blocks *)

Abbreviation size := (sleep_size (cap := cap) (W := W) g).
Abbreviation sleep := (ipc_pipe_sleep_signal (cap := cap) (W := W) g).

(** The body comes to the write, and what follows is the kernel's. *)
Lemma sleep_reaches_write s : exists fd b w text k,
  ct_func sleep s = (CHERIOSTEST_CHECK_SYSCALL (access (sys_write_buf fd b size)) text ≫= k)
                      (set_world w s) /\
  forall (x : Z) s' c, p_ccsp s' = Some c -> declares_failure (k x s').
Proof.
  unfold sleep_size. cbn [ipc_pipe_sleep_signal with_signal CHERIOSTEST ct_func].
  destruct (cn_pipe (cap := cap) (p_world s)) as (w1 & H1 & _).
  rewrite (run_check _ _ _ _ _ _ H1). unfold sleep_buffer.
  assert (forall (x : Z) s' c, p_ccsp s' = Some c ->
    declares_failure ((_ ← try_sys (sys_close (cap := cap) (cl_fds P).1);
      _ ← try_sys (sys_close (cap := cap) (cl_fds P).2);
      cheriostest_failure_errx (A := unit) "write didn't block" []) s')) as Hend.
  { intros _ s' c Hc. destruct (cn_close (cap := cap) (cl_fds P).1 (p_world s')) as (r & wa & Ha & _).
    rewrite (test_bind _ _ _ _ _ (try_sys_run _ s' _ _ Ha)).
    destruct (cn_close (cap := cap) (cl_fds P).2 (p_world (set_world wa s'))) as (r2 & wb & Hb & _).
    rewrite (test_bind _ _ _ _ _ (try_sys_run _ (set_world wa s') _ _ Hb)).
    by apply (failure_errx_declares _ _ _ c). }
  destruct (is_freebsd g).
  - set (w0 := os_memset0 (cap := cap) (stack_local BUFFER_SIZE) BUFFER_SIZE w1).
    destruct (cn_store_local (stack_local BUFFER_SIZE) w0) as (w2 & H2).
    destruct (cn_alarm (cap := cap) w2) as (r & w3 & H3 & _).
    eexists _, _, w3, _, _. split; [|exact Hend].
    rewrite test_assoc. erewrite test_bind by reflexivity.
    erewrite test_bind by reflexivity. cbv beta iota.
    rewrite (run_access _ _ (set_world w0 s) _ _ H2), (run_check _ _ _ (set_world w2 s) _ _ H3).
    reflexivity.
  - destruct (cn_getpipe (cap := cap) (cl_fds P).2 w1) as (w2 & H2 & _).
    destruct (cn_calloc (cap := cap) (u64 (cn_pipe_size * 2)) w2) as (w3 & H3 & _).
    destruct (cn_store (cv_callocs (cn_view w2)) (cl_buffer P (cv_callocs (cn_view w2))) w3)
      as (w4 & H4 & _).
    destruct (cn_alarm (cap := cap) w4) as (r & w5 & H5 & _).
    eexists _, _, w5, _, _. split; [|exact Hend]. rewrite test_assoc.
    assert (libcall (os_getpipe_sz (cap := cap) (cl_fds P).2) (set_world w1 s) =
      (Val cn_pipe_size, set_world w2 s)) as E2 by (unfold libcall; simpl; by rewrite H2).
    rewrite (test_bind _ _ _ _ _ E2), test_assoc.
    assert (libcall (os_calloc (cap := cap) (u64 (cn_pipe_size * 2))) (set_world w2 s) =
      (Val (cl_buffer P (cv_callocs (cn_view w2))), set_world w3 s)) as E3
      by (unfold libcall; simpl; by rewrite H3).
    rewrite (test_bind _ _ _ _ _ E3). erewrite test_bind by reflexivity. cbv beta iota.
    rewrite (run_access _ _ (set_world w3 s) _ _ H4), (run_check _ _ _ (set_world w4 s) _ _ H5).
    reflexivity.
Qed.


Lemma sleep_blocks : size <> psize -> cl_blocks P size = true ->
  faults_with g (ct_func sleep) no_addr (cn_alarm_info (cap := cap) (W := W)).
Proof.
  intros Hn Hb s [Hp Hs]. destruct (sleep_reaches_write s) as (fd & b & w & text & k & He & _).
  destruct (cn_block (cap := cap) fd b size w Hn) as (w' & Hr). rewrite Hb in Hr.
  exists (set_world w' s). split; [rewrite He|split; [exact Hp|done]].
  unfold CHERIOSTEST_CHECK_SYSCALL, CHERIOSTEST_CHECK_SYSCALL2, access, mbind, eff_bind.
  simpl. by rewrite Hr.
Qed.

Lemma sleep_does_not_block : size <> psize -> cl_blocks P size = false -> body_fails g (ct_func sleep).
Proof.
  intros Hn Hb s [Hp _]. destruct (sleep_reaches_write s) as (fd & b & w & text & k & He & Hk).
  destruct (cn_block (cap := cap) fd b size w Hn) as (w' & Hr). rewrite Hb in Hr.
  destruct Hr as (r & Hr). change (declares_failure (ct_func sleep s)). rewrite He. destruct r as [x|e].
  - assert (access (sys_write_buf fd b size) (set_world w s) = (Val (inl x), set_world w' s)) as Ha
      by (unfold access; simpl; by rewrite Hr).
    unfold CHERIOSTEST_CHECK_SYSCALL, CHERIOSTEST_CHECK_SYSCALL2.
    rewrite test_assoc, (test_bind _ _ _ _ _ Ha), (test_bind _ _ _ x (set_world w' s)) by done.
    by apply (Hk x _ child_state_zero).
  - eapply (check_declares _ _ _ _ _ (set_world w' s) e child_state_zero); [|done].
    unfold access. simpl. by rewrite Hr.
Qed.

(** C18: the test of tmpfs passes exactly when a capability comes back from a file
    as its untagged copy; the test of pipes exactly when the source keeps its tag
    and the destination gets the untagged copy of the source; and a run of the
    test of an interrupted write files a pass when the write of its size blocks
    until SIGALRM, and a failure when another signal ends it or when the write
    does not block, whether it then writes or gives an error. *)
Theorem channel_verdict (v : channel_view cap) :
  let c := stack_local (cap := cap) (W := W) 4 in
  let b := cl_buffer P (cv_callocs v) in
  judged (ct_func (tmpfs_rw_nocaps (cap := cap) (W := W) g)) v (cl_file P c = cheri_tag_clear c) /\
  judged (ct_func (ipc_pipe_nocaps (cap := cap) (W := W))) v
    (cheri_tag_get b = true /\ cheri_tag_get (cl_source P b) = true /\
     cl_pipe P b = cheri_tag_clear (cl_source P b)) /\
  (size <> psize -> cl_blocks P size = true -> forall d,
   o_qtrace o = false -> o_debugger_enabled o = false -> runs o sleep ->
   let si := cn_alarm_info (cap := cap) (W := W) in
   handled (cap := cap) (W := W) g (si_signo si) -> 0 <= si_signo si ->
   let t := count_run (expect None (d_tally d)) in
   wp (cheriostest_run_test g o indet_flaky indet_fd sleep) (fun _ d' =>
     (si_signo si = SIGALRM (cap := cap) (W := W) ->
      d_tally d' = file_pass "ipc_pipe_sleep_signal" None None t) /\
     (si_signo si <> SIGALRM (cap := cap) (W := W) -> exists reason,
      d_tally d' = file_fail "ipc_pipe_sleep_signal" reason None None t)) d) /\
  (size <> psize -> cl_blocks P size = false -> forall d,
   o_qtrace o = false -> o_debugger_enabled o = false -> runs o sleep ->
   wp (cheriostest_run_test g o indet_flaky indet_fd sleep) (fun _ d' => exists reason,
     d_tally d' = file_fail "ipc_pipe_sleep_signal" reason None None
                    (count_run (expect None (d_tally d)))) d).
Proof.
  intros c b. split; [apply tmpfs_judged|]. split; [apply pipe_judged|]. split.
  - intros Hn Hb d Hq Hd Hr si Hh H0 t.
    assert (fault_test sleep) as Hf by done.
    assert (expected_signal g sleep no_addr si <-> si_signo si = SIGALRM (cap := cap) (W := W)) as Hiff.
    { unfold expected_signal. simpl. split; [by intros [? _]|]. by intros ->. }
    eapply wpx_mono; [|exact (fault_files_result g o indet_flaky indet_fd sleep no_addr si d
      Hq Hd Hr Hf Hh H0 (sleep_blocks Hn Hb))].
    intros [] d' [H1 H2]. rewrite Hiff in H1, H2. by split.
  - intros Hn Hb d Hq Hd Hr. exact (failure_files_fail g o indet_flaky indet_fd sleep d
      Hq Hd Hr (sleep_does_not_block Hn Hb)).
Qed.
End Facts.

(** ** A concrete kernel *)

(** A tag does not survive the way; a pipe holds 64 kB. *)
Definition toy_channels : channel_policy scap := {|
  cl_file := cheri_tag_clear;
  cl_pipe := cheri_tag_clear;
  cl_source c := c;
  cl_buffer n := toy_cap (0x10000 * (1 + Z.of_nat n)) 4096 0 (Z.lor (mask PLoad) (mask PStore));
  cl_fds := (5, 6);
  cl_blocks n := 0x10000 <? n;
|}.

Definition cworld := channel_view scap.

(** The number of the buffer that a capability points to. *)
Definition buffer_index (c : scap) : nat := Z.to_nat (sc_addr c / 0x10000 - 1).

#[export] Instance chan_kernel : Kernel scap cworld := {|
  getpagesize := 4096;
  sys_mmap _ _ _ _ _ _ w := (inr 12, w);
  sys_munmap _ _ w := (inl 0, w);
  sys_mprotect _ _ _ w := (inl 0, w);
  sys_minherit _ _ _ w := (inl 0, w);
  sys_shmget _ _ _ w := (inr 78, w);
  sys_shmat _ _ _ w := (inr 78, w);
  sys_shmdt _ w := (inr 78, w);
  sys_shm_open _ _ _ w := (inr 78, w);
  sys_shm_unlink _ w := (inl 0, w);
  sys_memfd_create _ _ w := (inr 78, w);
  sys_open _ _ w := (inr 78, w);
  sys_mkstemp t w := (inl (7, t), w);
  sys_unlink _ w := (inl 0, w);
  sys_ftruncate _ _ w := (inl 0, w);
  sys_close _ w := (inl 0, w);
  os_random w := (7, w);
  mem_load_cap c _ w := (inl (default cap_null (cv_slots w !! buffer_index c)), w);
  mem_store_cap c _ x w :=
    (inl tt, ChannelView (cv_content w) (<[buffer_index c := x]> (cv_slots w)) (cv_callocs w));
  mem_store_byte _ _ _ w := (inl tt, w);
  stack_local n := toy_cap 0x7000 n 0 0;
|}.

#[export] Instance chan_os : ChannelOS scap cworld := {|
  sys_statfs_tmp _ := Some ("tmpfs"%string, 0x01021994);
  TMPFS_MAGIC := 0x01021994;
  sizeof_cap := 16;
  sys_pwrite_cap _ c w :=
    (inl 16, ChannelView (Some (cl_file toy_channels c)) (cv_slots w) (cv_callocs w));
  sys_pread_cap _ w := (inl (16, default cap_null (cv_content w)), w);
  os_memset0 _ _ w := w;
  os_calloc _ w := (cl_buffer toy_channels (cv_callocs w),
                    ChannelView (cv_content w) (cv_slots w) (S (cv_callocs w)));
  ch_pipe w := (inl (cl_fds toy_channels), w);
  sys_write_buf _ c n w :=
    if 0x10000 <? n then (inr (Siginfo 14 0 0 cap_null), w)
    else let i := buffer_index c in
         let x := default cap_null (cv_slots w !! i) in
         (inl (inl n), ChannelView (Some (cl_pipe toy_channels x))
            (<[i := cl_source toy_channels x]> (cv_slots w)) (cv_callocs w));
  sys_read_buf _ c n w :=
    (inl n, ChannelView None (<[buffer_index c := default cap_null (cv_content w)]> (cv_slots w))
              (cv_callocs w));
  os_getpipe_sz _ w := (0x10000, w);
  sys_alarm _ w := (inl 0, w);
|}.

Lemma buffer_index_of n : buffer_index (cl_buffer toy_channels n) = n.
Proof.
  unfold buffer_index. simpl. rewrite Z.add_0_r, (Z.mul_comm 0x10000), Z.div_mul by done. lia.
Qed.

#[export] Instance chan_rules : ChannelRules scap cworld.
Proof.
  refine {| cn_policy := toy_channels; cn_view := fun w => w; cn_pipe_size := 0x10000;
    cn_alarm_info := Siginfo 14 0 0 cap_null |}; try done;
    try (intros; eexists; done); try (intros; eexists _, _; done).
  - intros fd d w Hd. cbn [sys_pread_cap chan_os]. rewrite Hd. by eexists.
  - intros i x w. cbn [mem_store_cap chan_kernel]. rewrite buffer_index_of. by eexists.
  - intros i x w Hx. cbn [mem_load_cap chan_kernel]. rewrite buffer_index_of, Hx. by eexists.
  - intros i x w Hx. cbn [sys_write_buf chan_os]. rewrite buffer_index_of, Hx. by eexists.
  - intros i d w Hd. cbn [sys_read_buf chan_os]. rewrite buffer_index_of, Hd. by eexists.
  - intros fd b n w _. cbn [sys_write_buf chan_os cl_blocks toy_channels].
    destruct (0x10000 <? n); by eexists _, _ || by eexists; eexists.
Defined.

Definition chan_view0 : cworld := ChannelView None ∅ 0.

(** The kernel passes all three on Linux; the buffer of CheriBSD is smaller than
    its pipe, the write does not block, and the run files a failure. *)
Lemma channel_verdict_witness :
  judged (cap := scap) (fun w => w) (ct_func (tmpfs_rw_nocaps (W := cworld) toy_config)) chan_view0 True /\
  judged (cap := scap) (fun w => w) (ct_func (ipc_pipe_nocaps (W := cworld))) chan_view0 True /\
  wp (cheriostest_run_test toy_config options0 None 0 (ipc_pipe_sleep_signal (W := cworld) toy_config))
    (fun _ d' => d_tally d' = file_pass "ipc_pipe_sleep_signal" None None (count_run tally0))
    (Driver tally0 child_state_zero [] 0 chan_view0) /\
  wp (cheriostest_run_test toy_freebsd options0 None 0 (ipc_pipe_sleep_signal (W := cworld) toy_freebsd))
    (fun _ d' => exists reason,
     d_tally d' = file_fail "ipc_pipe_sleep_signal" reason None None (count_run tally0))
    (Driver tally0 child_state_zero [] 0 chan_view0).
Proof.
  destruct (channel_verdict (CR := chan_rules) toy_config options0 None 0 chan_view0)
    as (H1 & H2 & H3 & _).
  destruct (channel_verdict (CR := chan_rules) toy_freebsd options0 None 0 chan_view0)
    as (_ & _ & _ & H4).
  split; [|split; [|split]].
  - refine (judged_iff _ _ _ _ H1 _). split; [exact (fun _ => I)|]. intros _. reflexivity.
  - refine (judged_iff _ _ _ _ H2 _). split; [exact (fun _ => I)|]. intros _. split_and!; reflexivity.
  - eapply wpx_mono; [|apply (H3 ltac:(done) ltac:(done)
      (Driver tally0 child_state_zero [] 0 chan_view0) eq_refl eq_refl)].
    + intros [] d' [Hp _]. by apply Hp.
    + by repeat split.
    + unfold handled. apply (bool_decide_unpack _). by vm_compute.
    + simpl. lia.
  - apply (H4 ltac:(done) ltac:(by vm_compute)
      (Driver tally0 child_state_zero [] 0 chan_view0) eq_refl eq_refl). by repeat split.
Defined.
