(* ===== verification/Syscalls.v ===== *)
(** * Syscalls: signals and tracing of children (cheriostest_syscall.c)

    [sig_dfl_ign] sends signals to suspended children under both special
    dispositions, [aio_sival] looks at the value that comes with the signal of an
    asynchronous read, and [ptrace_basic] attaches to a child and kills it.  The
    checks of the first are assertions of assert(3), which end the process by a
    signal. *)

From S2P Require Import Prelude Printf Cheri Harness Runner Toy RunnerFacts Spawn Kernel Judge Paths.

(** Dispositions, as sigaction(2) is given them. *)
Inductive disposition := SIG_DFL | SIG_IGN | HandlerNop.

#[export] Instance disposition_eq_dec : EqDecision disposition.
Proof. solve_decision. Defined.

(** A call on the signal mask, by the signals it adds to the set. *)
Inductive mask_call := GetMask | AddSet (sig : Z) | EmptySet | BlockMask.

(** The calls of the file.  [sys_sigsuspend] returns in a child, or the signal
    that ends it comes; [os_waitpid] gives its result and the status that it
    stores, from the status of the child, if there is one; [sys_suspend_aio] gives its result, errno and the signals
    that were delivered to the handler, with their code and value. *)
Class SyscallOS (cap W : Type) := {
  sg_dfl : cap;                                     (* SIG_DFL and SIG_IGN as pointers *)
  sg_ign : cap;
  assert_info : siginfo cap;                        (* of the SIGABRT of a failed assert(3) *)
  SIGUSR1 : Z;
  SIGURG : Z;
  SIGKILL : Z;
  SIGSTOP : Z;
  SI_ASYNCIO : Z;
  EINTR : Z;
  os_mask : mask_call -> W -> Z * W;
  os_signal_action : Z -> disposition -> W -> Z * W;
  os_kill : Z -> Z -> W -> Z * W;
  sys_sigsuspend : W -> (unit + Z) * W;
  aio_handler : cap;                                (* test_aio_sival_handler *)
  sys_aio_action : Z -> W -> (Z + Z) * W;
  sys_socketpair_fds : W -> ((Z * Z) + Z) * W;
  sys_aio_read : Z -> Z -> cap -> W -> (Z + Z) * W; (* descriptor, signal, value *)
  sys_fd_close : Z -> W -> (Z + Z) * W;
  os_alarm : Z -> W -> W;
  sys_suspend_aio : W -> (Z * Z * list (Z * Z * cap)) * W;
  (* ptrace_basic *)
  sys_pipe_fds : W -> ((Z * Z) + Z) * W;
  sys_getc : Z -> W -> ((Z * Z) + Z) * W;           (* read of one byte: count, byte *)
  sys_putc : Z -> Z -> W -> (Z + Z) * W;
  os_wait_now : Z -> Z -> W -> (Z * Z) * W;         (* WNOHANG | WNOWAIT: result, status *)
  sys_pt_attach : Z -> W -> (Z + Z) * W;
  sys_pt_kill : Z -> W -> (Z + Z) * W;
  os_wait_stopped : Z -> W -> (Z * Z) * W;          (* WTRAPPED, WSTOPPED *)
  os_wait : Z -> W -> (Z * Z) * W;
  os_waitpid : Z -> option Z -> W -> (Z * option Z) * W;
}.

(** sys/wait.h *)
Definition WIFSIGNALED (status : Z) : bool :=
  let t := Z.land status 0x7f in negb (t =? 0) && negb (t =? 0x7f).
Definition WTERMSIG (status : Z) : Z := Z.land status 0x7f.
Definition WSTOPSIG (status : Z) : Z := WEXITSTATUS status.

Section Tests.
Context {cap W : Type} {CH : Cheri cap} {LC : Libc cap W} {FO : ForkOS W}
  {SO : SyscallOS cap W}.
Context (g : config).

Abbreviation USR1 := (SIGUSR1 (cap := cap) (W := W)).
Abbreviation URG := (SIGURG (cap := cap) (W := W)).

(** assert(3): the process is aborted when the condition does not hold. *)
Definition c_assert (b : bool) : test cap W unit :=
  if b then mret tt else raise_fault (assert_info (cap := cap) (W := W)).

(** [res = call; assert(res == 0);] *)
Definition assert_zero (f : W -> Z * W) : test cap W unit :=
  res ← libcall f; c_assert (res =? 0).

Definition sig_dfl_neq_ign : cheri_test cap W :=
  CHERIOSTEST "sig_dfl_neq_ign" "Test SIG_DFL != SIG_IGN"
    (if cheri_address_get (sg_ign (cap := cap) (W := W)) =? cheri_address_get (sg_dfl (cap := cap) (W := W))
     then cheriostest_failure_errx "SIG_{IGN,DFL} conflated" []
     else cheriostest_success).

(** The program of the child is [sigsuspend(&oss); exit(42)]; the status that it
    ends with.  It runs when its parent waits. *)
Definition suspended_child : W -> Z * W := fun w =>
  let '(r, w') := sys_sigsuspend (cap := cap) (as_child w) in
  (match r with inl _ => Z.shiftl 42 8 | inr sig => sig end, as_parent w').

(** fork(2), the signals, waitpid(2) and [assert(res == cpid)]; the status.  When
    fork fails, cpid is -1, the signals go to all processes and there is no child
    to wait for; waitpid(2) then returns -1 as well, the assertion holds, and the
    status is not set. *)
Definition fork_and_signal (sigs : list Z) : test cap W Z :=
  r ← try_sys (sys_fork Fork);
  let cpid := default (-1) r in
  foreach sigs (fun sig => _ ← libcall (os_kill (cap := cap) cpid sig); mret tt) ;;
  st ← (if cpid =? -1 then mret None else st ← libcall suspended_child; mret (Some st));
  w ← libcall (os_waitpid (cap := cap) cpid st);
  let '(res, status) := w in
  c_assert (res =? cpid) ;;
  match status with Some status => mret status | None => undef end.

Definition sig_dfl_ign : cheri_test cap W :=
  CHERIOSTEST "sig_dfl_ign" "Test proper handling of SIG_DFL and SIG_IGN"
    (assert_zero (os_mask (cap := cap) GetMask) ;;
     assert_zero (os_mask (cap := cap) (AddSet USR1)) ;;
     assert_zero (os_mask (cap := cap) (AddSet URG)) ;;
     assert_zero (os_mask (cap := cap) BlockMask) ;;
     assert_zero (os_signal_action (cap := cap) USR1 SIG_IGN) ;;
     assert_zero (os_signal_action (cap := cap) URG HandlerNop) ;;
     status ← fork_and_signal [USR1; URG];
     c_assert (WIFEXITED status) ;;
     c_assert (WEXITSTATUS status =? 42) ;;
     assert_zero (os_signal_action (cap := cap) USR1 SIG_DFL) ;;
     status ← fork_and_signal [USR1];
     c_assert (WIFSIGNALED status) ;;
     c_assert (WTERMSIG status =? USR1) ;;
     cheriostest_success).

(** ** aio_sival *)

(** [res = call; CHERIOSTEST_VERIFY2(res == 0, msg, errno)] *)
Definition verify_zero {A} (f : W -> (A + Z) * W) (msg : string) : test cap W (option A) :=
  r ← try_sys f;
  errno ← gets p_errno;
  CHERIOSTEST_VERIFY2 (match r with Some _ => true | None => false end) msg [AInt errno] ;;
  mret r.

Definition verify_mask (c : mask_call) (text : string) : test cap W unit :=
  r ← libcall (os_mask (cap := cap) c);
  CHERIOSTEST_VERIFY (r =? 0) text.

(** The statics test_aio_sival_signal and test_aio_sival_info after deliveries. *)
Definition handle (st : Z * Z * cap) (l : list (Z * Z * cap)) : Z * Z * cap :=
  foldl (fun _ d => d) st l.

Definition aio_sival : cheri_test cap W :=
  CHERIOSTEST "aio_sival" "Test pointer passing through AIO signals"
    (_ ← verify_zero (sys_aio_action (cap := cap) USR1) "Could not install AIO handler; errno=%d";
     _ ← verify_zero (sys_aio_action (cap := cap) (SIGALRM (cap := cap) (W := W)))
           "Could not install ALRM handler; errno=%d";
     pfd ← verify_zero (sys_socketpair_fds (cap := cap)) "Could not create socketpair; errno=%d";
     let pfd := default (0, 0) pfd in
     _ ← verify_zero (sys_aio_read pfd.1 USR1 (aio_handler (W := W))) "Could not register aio; errno=%d";
     verify_mask EmptySet "sigemptyset(&sigset) == 0" ;;
     verify_mask (AddSet USR1) "sigaddset(&sigset, SIGUSR1) == 0" ;;
     verify_mask (AddSet (SIGALRM (cap := cap) (W := W))) "sigaddset(&sigset, SIGALRM) == 0" ;;
     verify_mask BlockMask "sigprocmask(SIG_BLOCK, &sigset, &osigset) == 0" ;;
     _ ← try_sys (sys_fd_close (cap := cap) pfd.2);
     libcall (fun w => (tt, os_alarm (cap := cap) 2 w)) ;;
     r ← libcall (sys_suspend_aio (cap := cap));
     let '(res, errno, deliveries) := r in
     CHERIOSTEST_VERIFY ((res =? -1) && (errno =? EINTR (cap := cap) (W := W)))
       "sigsuspend(&osigset) == -1 && errno == EINTR" ;;
     _ ← try_sys (sys_fd_close (cap := cap) pfd.1);
     let '(sig, code, value) := handle (0, 0, cap_null) deliveries in
     if sig =? SIGALRM (cap := cap) (W := W) then cheriostest_failure_errx "Test timeout!" []
     else if sig =? 0 then cheriostest_failure_errx "No signal received?" []
     else if sig =? USR1 then
       CHERIOSTEST_VERIFY2 (code =? SI_ASYNCIO (cap := cap) (W := W))
         "Signal not asyncio?  code=%d" [AInt code] ;;
       CHERIOSTEST_VERIFY2 (cheri_address_get value =? cheri_address_get (aio_handler (W := W)))
         "Bad si_value; expected=%#p got=%#p" [APtr (aio_handler (W := W)); APtr value] ;;
       cheriostest_success
     else cheriostest_failure_errx "Bad signal %d" [AInt sig]).

(** ** ptrace_basic *)

Definition char_c : Z := 99.
Definition char_x : Z := 120.

(** The child: it tells that it runs and reads from the end of the pipe that it
    writes to.  The variable c is not set unless this gives a byte. *)
Definition ptrace_basic_child (pfd : Z * Z) : test cap W unit :=
  _ ← try_sys (sys_fd_close (cap := cap) pfd.1);
  res ← try_sys (sys_putc (cap := cap) pfd.2 char_c);
  c_assert (bool_decide (res = Some 1)) ;;
  r ← try_sys (sys_getc (cap := cap) pfd.2);
  (match r with
   | Some (n, c) => if n =? 1 then c_assert (c =? char_x) else undef
   | None => undef
   end) ;;
  report_on_stderr "got exit message, this should not happen!" [] ;;
  _ ← try_sys (sys_fd_close (cap := cap) pfd.2);
  exit 23.

(** The parts of a status, or -1. *)
Definition exitcode_of (status : Z) : Z := if WIFEXITED status then WEXITSTATUS status else -1.
Definition termsig_of (status : Z) : Z := if WIFSIGNALED status then WTERMSIG status else -1.
Definition stopsig_of (status : Z) : Z := if WIFSTOPPED status then WSTOPSIG status else -1.

Definition wait_attached (cpid : Z) : test cap W unit :=
  r ← libcall (os_wait_stopped (cap := cap) cpid);
  let '(res, status) := r in
  if is_freebsd g then
    CHERIOSTEST_CHECK_EQ_INT res cpid "res" "cpid" ;;
    CHERIOSTEST_CHECK_EQ_INT (stopsig_of status) (SIGSTOP (cap := cap) (W := W)) "stopsig" "SIGSTOP"
  else
    CHERIOSTEST_VERIFY2 (WIFSTOPPED status) "Expected WIFSTOPPED(status) != 0" [] ;;
    CHERIOSTEST_VERIFY2 (WSTOPSIG status =? SIGSTOP (cap := cap) (W := W)) "Expected SIGURG" [].

Definition ptrace_basic_parent (cpid : Z) (pfd : Z * Z) : test cap W unit :=
  _ ← try_sys (sys_fd_close (cap := cap) pfd.2);
  r ← try_sys (sys_getc (cap := cap) pfd.1);
  let '(n, c) := default (-1, 0) r in
  CHERIOSTEST_CHECK_EQ "0x%zx" (u64 n) 1 "read(pfd[0], &c, 1)" "1" ;;
  CHERIOSTEST_VERIFY (c =? char_c) "c == 'c'" ;;
  w ← libcall (os_wait_now (cap := cap) cpid 0);
  CHERIOSTEST_CHECK_EQ_INT w.2 0 "status" "0" ;;
  _ ← CHERIOSTEST_CHECK_SYSCALL (sys (sys_pt_attach (cap := cap) cpid))
        "ptrace(PT_ATTACH, cpid, NULL, 0)";
  wait_attached cpid ;;
  _ ← CHERIOSTEST_CHECK_SYSCALL (sys (sys_pt_kill (cap := cap) cpid))
        "ptrace(PT_KILL, cpid, NULL, 0)";
  _ ← try_sys (sys_putc (cap := cap) pfd.1 char_x);
  _ ← try_sys (sys_fd_close (cap := cap) pfd.1);
  r ← libcall (os_wait (cap := cap) cpid);
  let '(res, status) := r in
  CHERIOSTEST_CHECK_EQ_INT res cpid "res" "cpid" ;;
  if termsig_of status =? SIGKILL (cap := cap) (W := W) then cheriostest_success
  else cheriostest_failure_errx
         "Unexpected child exit: status=%#x code=%d termsig=%d stopsig=%d
" [AInt status; AInt (exitcode_of status); AInt (termsig_of status); AInt (stopsig_of status)].

Definition ptrace_basic : cheri_test cap W :=
  (if is_freebsd g
   then with_xfail (Some "ptrace(PT_KILL) does not appear to deliver signal"%string) else id)
    (CHERIOSTEST "ptrace_basic" "Test basic handling of ptrace functionality"
       (pfd ← CHERIOSTEST_CHECK_SYSCALL (sys (sys_pipe_fds (cap := cap))) "pipe(pfd)";
        r ← try_sys (sys_fork Fork);
        let cpid := default (-1) r in
        if negb (cpid =? 0) then ptrace_basic_parent cpid pfd else ptrace_basic_child pfd)).
End Tests.

(** ** A kernel by what it does to suspended and traced processes *)

Inductive pt_phase := PtRunning | PtAttached | PtKilled.

(** Dispositions, blocked signals, signals that wait for the child, the signals
    that have the handler of [aio_sival], and the value of its request. *)
Record sys_view (cap : Type) := SysView {
  y_action : gmap Z disposition;
  y_mask : gset Z;
  y_set : gset Z;                                   (* the set that is being built *)
  y_old : gset Z;                                   (* the mask before SIG_BLOCK *)
  y_pending : list Z;
  y_handled : gset Z;
  y_aio : option (Z * cap);
  y_phase : pt_phase;
}.
Arguments SysView {cap}.
Arguments y_action {cap}. Arguments y_mask {cap}. Arguments y_set {cap}. Arguments y_old {cap}.
Arguments y_pending {cap}. Arguments y_handled {cap}. Arguments y_aio {cap}. Arguments y_phase {cap}.

Section Views.
Context {cap : Type}.
Implicit Types v : sys_view cap.

Definition v_act (sig : Z) (d : disposition) v : sys_view cap :=
  SysView (<[sig := d]> (y_action v)) (y_mask v) (y_set v) (y_old v) (y_pending v) (y_handled v)
    (y_aio v) (y_phase v).
Definition v_mask (c : mask_call) v : sys_view cap :=
  let '(mask, set, old) :=
    match c with
    | GetMask => (y_mask v, y_mask v, y_old v)
    | AddSet sig => (y_mask v, {[sig]} ∪ y_set v, y_old v)
    | EmptySet => (y_mask v, ∅, y_old v)
    | BlockMask => (y_mask v ∪ y_set v, y_set v, y_mask v)
    end in
  SysView (y_action v) mask set old (y_pending v) (y_handled v) (y_aio v) (y_phase v).
Definition v_pending (l : list Z) v : sys_view cap :=
  SysView (y_action v) (y_mask v) (y_set v) (y_old v) l (y_handled v) (y_aio v) (y_phase v).
Definition v_handled (sig : Z) v : sys_view cap :=
  SysView (y_action v) (y_mask v) (y_set v) (y_old v) (y_pending v) ({[sig]} ∪ y_handled v)
    (y_aio v) (y_phase v).
Definition v_aio (sig : Z) (value : cap) v : sys_view cap :=
  SysView (y_action v) (y_mask v) (y_set v) (y_old v) (y_pending v) (y_handled v)
    (Some (sig, value)) (y_phase v).
Definition v_phase (p : pt_phase) v : sys_view cap :=
  SysView (y_action v) (y_mask v) (y_set v) (y_old v) (y_pending v) (y_handled v) (y_aio v) p.
End Views.

(** [sp_wake] says how a child ends its sigsuspend(2), from the dispositions, the
    mask that it suspends with and the signals that wait: it returns, or dies of
    a signal; [None] if it sleeps.  [sp_suspend] gives the result, errno and
    deliveries for an asynchronous read whose peer has closed. *)
Record sys_policy (cap : Type) := SysPolicy {
  sp_wake : gmap Z disposition -> gset Z -> list Z -> option (unit + Z);
  sp_suspend : gset Z -> gset Z -> Z * cap -> Z * Z * list (Z * Z * cap);
  sp_child : Z;
  sp_pipe : Z * Z;
  sp_told : Z + Z;                                  (* the child's write, its read from *)
  sp_wrong_end : (Z * Z) + Z;                       (* the same end, and what is read *)
  sp_hello : (Z * Z) + Z;                           (* from the other end *)
  sp_attach : Z + Z;
  sp_kill : Z + Z;
  sp_waits : list Z -> Z;                           (* waitpid(2), after these signals *)
  sp_status : pt_phase -> Z * Z;                    (* and of the traced child *)
}.
Arguments SysPolicy {cap}.
Arguments sp_pipe {cap}. Arguments sp_told {cap}. Arguments sp_wrong_end {cap}.
Arguments sp_wake {cap}. Arguments sp_suspend {cap}. Arguments sp_child {cap}.
Arguments sp_hello {cap}. Arguments sp_attach {cap}. Arguments sp_kill {cap}.
Arguments sp_status {cap}. Arguments sp_waits {cap}.

(** The wake-up of POSIX: ignored signals are lost, as are those whose default is
    to do nothing; one that is blocked waits. *)
Fixpoint posix_wake (nop_by_default : Z -> bool) (action : gmap Z disposition) (mask : gset Z)
    (pending : list Z) : option (unit + Z) :=
  match pending with
  | [] => None
  | sig :: l =>
      let rest := posix_wake nop_by_default action mask l in
      if bool_decide (sig ∈ mask) then rest
      else match default SIG_DFL (action !! sig) with
           | SIG_IGN => rest
           | HandlerNop => Some (inl tt)
           | SIG_DFL => if nop_by_default sig then rest else Some (inr sig)
           end
  end.

Section Rules.
Context {cap W : Type} {CH : Cheri cap} {LC : Libc cap W} {FO : ForkOS W} {SO : SyscallOS cap W}.

Abbreviation USR1 := (SIGUSR1 (cap := cap) (W := W)).
Abbreviation URG := (SIGURG (cap := cap) (W := W)).
Abbreviation ALRM := (SIGALRM (cap := cap) (W := W)).

Class SyscallRules := {
  y_policy : sys_policy cap;
  y_view : W -> sys_view cap;
  y_numbers : 0 < USR1 < 127 /\ 0 < URG < 127 /\ USR1 <> URG /\ USR1 <> ALRM /\ ALRM <> 0 /\
    0 < SIGSTOP (cap := cap) (W := W) /\ 0 < SIGKILL (cap := cap) (W := W);
  y_child_pid : 0 < sp_child y_policy;
  y_mask_call c w : (os_mask (cap := cap) c w).1 = 0 /\
    y_view (os_mask (cap := cap) c w).2 = v_mask c (y_view w);
  y_sigaction sig d w : (os_signal_action (cap := cap) sig d w).1 = 0 /\
    y_view (os_signal_action (cap := cap) sig d w).2 = v_act sig d (y_view w);
  y_fork w : exists w', sys_fork Fork w = (inl (sp_child y_policy), w') /\
    y_view w' = v_phase PtRunning (v_pending [] (y_view w));
  y_sigkill sig w : y_view (os_kill (cap := cap) (sp_child y_policy) sig w).2 =
    v_pending (y_pending (y_view w) ++ [sig]) (y_view w);
  y_as_child w : y_view (as_child w) = y_view w;
  y_as_parent w : y_view (as_parent w) = y_view w;
  y_fatal a m l sig : Forall (fun x => 0 < x < 127) l ->
    sp_wake y_policy a m l = Some (inr sig) -> 0 < sig < 127;
  y_sigsuspend r w :
    sp_wake y_policy (y_action (y_view w)) (y_old (y_view w)) (y_pending (y_view w)) = Some r ->
    exists w', sys_sigsuspend (cap := cap) w = (r, w') /\ y_view w' = y_view w;
  y_aio_action sig w : exists r w', sys_aio_action (cap := cap) sig w = (inl r, w') /\
    y_view w' = v_handled sig (y_view w);
  y_socketpair w : exists r w', sys_socketpair_fds (cap := cap) w = (inl r, w') /\ y_view w' = y_view w;
  y_aio_read fd sig value w : exists r w', sys_aio_read fd sig value w = (inl r, w') /\
    y_view w' = v_aio sig value (y_view w);
  y_close fd w : exists r w', sys_fd_close (cap := cap) fd w = (inl r, w') /\ y_view w' = y_view w;
  y_alarm n w : y_view (os_alarm (cap := cap) n w) = y_view w;
  y_suspend req w : y_aio (y_view w) = Some req ->
    (sys_suspend_aio w).1 = sp_suspend y_policy (y_handled (y_view w)) (y_old (y_view w)) req /\
    y_view (sys_suspend_aio (cap := cap) w).2 = y_view w;
  y_pipe w : exists w', sys_pipe_fds (cap := cap) w = (inl (sp_pipe y_policy), w') /\
    y_view w' = y_view w;
  y_getc w : exists w', sys_getc (cap := cap) (sp_pipe y_policy).1 w = (sp_hello y_policy, w') /\
    y_view w' = y_view w;
  y_getc_child w : exists w',
    sys_getc (cap := cap) (sp_pipe y_policy).2 w = (sp_wrong_end y_policy, w') /\ y_view w' = y_view w;
  y_putc w : exists w',
    sys_putc (cap := cap) (sp_pipe y_policy).2 char_c w = (sp_told y_policy, w') /\ y_view w' = y_view w;
  y_putc_x w : exists r w',
    sys_putc (cap := cap) (sp_pipe y_policy).1 char_x w = (r, w') /\ y_view w' = y_view w;
  y_attach w : exists w', sys_pt_attach (cap := cap) (sp_child y_policy) w = (sp_attach y_policy, w') /\
    y_view w' = v_phase PtAttached (y_view w);
  y_pt_kill w : exists w', sys_pt_kill (cap := cap) (sp_child y_policy) w = (sp_kill y_policy, w') /\
    y_view w' = v_phase PtKilled (y_view w);
  y_waitpid st w : exists w', os_waitpid (cap := cap) (sp_child y_policy) (Some st) w
    = ((sp_waits y_policy (y_pending (y_view w)), Some st), w') /\ y_view w' = y_view w;
  y_wait_now w : y_phase (y_view w) = PtRunning ->
    (os_wait_now (cap := cap) (sp_child y_policy) 0 w).1 = sp_status y_policy PtRunning /\
    y_view (os_wait_now (cap := cap) (sp_child y_policy) 0 w).2 = y_view w;
  y_wait_stopped w : y_phase (y_view w) = PtAttached ->
    (os_wait_stopped (cap := cap) (sp_child y_policy) w).1 = sp_status y_policy PtAttached /\
    y_view (os_wait_stopped (cap := cap) (sp_child y_policy) w).2 = y_view w;
  y_wait_end w : y_phase (y_view w) = PtKilled ->
    (os_wait (cap := cap) (sp_child y_policy) w).1 = sp_status y_policy PtKilled /\
    y_view (os_wait (cap := cap) (sp_child y_policy) w).2 = y_view w;
}.
End Rules.
Arguments SyscallRules cap W {_ _ _}.

Section Facts.
Context {cap W : Type} {CH : Cheri cap} {LC : Libc cap W} {FO : ForkOS W} {SO : SyscallOS cap W}
  {SR : SyscallRules cap W}.
Context (g : config).

Abbreviation P := (y_policy (cap := cap) (W := W)).
Abbreviation USR1 := (SIGUSR1 (cap := cap) (W := W)).
Abbreviation URG := (SIGURG (cap := cap) (W := W)).
Abbreviation ALRM := (SIGALRM (cap := cap) (W := W)).
Abbreviation judged := (Judge.judged (cap := cap) (W := W) y_view).
Abbreviation steps := (Judge.steps (cap := cap) (W := W) y_view).

(** *** Assertions *)

Lemma judged_assert {B} b (k : test cap W B) v (Q : Prop) :
  (b = true -> judged k v Q) -> (b = false -> ~ Q) -> judged (c_assert b ;; k) v Q.
Proof.
  intros Hk Hf s Hs. destruct b; [by apply Hk|]. split; [|intros HQ; by destruct (Hf eq_refl)].
  by intros [? ?].
Qed.

Lemma judged_zero {B} (f : W -> Z * W) (k : test cap W B) v v' Q :
  (forall w, y_view w = v -> (f w).1 = 0 /\ y_view (f w).2 = v') -> judged k v' Q ->
  judged (assert_zero f ;; k) v Q.
Proof.
  intros Hf Hk. unfold assert_zero. apply judged_assoc. eapply judged_libcall; [exact Hf|].
  by apply judged_assert.
Qed.

Lemma judged_mask {B} c (k : test cap W B) v Q :
  judged k (v_mask c v) Q -> judged (assert_zero (os_mask (cap := cap) c) ;; k) v Q.
Proof. apply judged_zero. intros w <-. apply y_mask_call. Qed.

Lemma judged_action {B} sig d (k : test cap W B) v Q :
  judged k (v_act sig d v) Q -> judged (assert_zero (os_signal_action (cap := cap) sig d) ;; k) v Q.
Proof. apply judged_zero. intros w <-. apply y_sigaction. Qed.

(** *** The suspended child *)

Definition wait_status (r : unit + Z) : Z := match r with inl _ => Z.shiftl 42 8 | inr sig => sig end.

Lemma steps_kills sigs v :
  steps (foreach sigs (fun sig => _ ← libcall (os_kill (cap := cap) (sp_child P) sig); mret tt)) v
    (fun _ v' => v' = v_pending (y_pending v ++ sigs) v).
Proof.
  revert v. induction sigs as [|sig l IH]; intros v.
  - apply steps_ret. rewrite app_nil_r. by destruct v.
  - cbn [foreach]. eapply (steps_bind _ _ _ (fun _ v' => v' = v_pending (y_pending v ++ [sig]) v)).
    + eapply (steps_bind _ _ _ (fun _ v' => v' = v_pending (y_pending v ++ [sig]) v)).
      * apply steps_libcall. intros w <-. apply y_sigkill.
      * intros ? ? ->. by apply steps_ret.
    + intros _ ? ->. eapply steps_mono; [apply IH|]. intros _ ? ->. simpl. by rewrite <- app_assoc.
Qed.

Lemma judged_child {B} sigs r (k : Z -> test cap W B) v (Q : Prop) :
  sp_wake P (y_action v) (y_old v) sigs = Some r ->
  (sp_waits P sigs = sp_child P ->
   judged (k (wait_status r)) (v_phase PtRunning (v_pending sigs v)) Q) ->
  (sp_waits P sigs <> sp_child P -> ~ Q) ->
  judged (fork_and_signal (cap := cap) sigs ≫= k) v Q.
Proof.
  intros Hr Hk HQ. unfold fork_and_signal. apply judged_assoc.
  eapply judged_try.
  { intros w Hw. destruct (y_fork w) as (w' & Hf & Hv). exists w'. rewrite Hw in Hv. by split. }
  cbn [default]. change (id (sp_child P)) with (sp_child P).
  pose proof (y_child_pid (cap := cap) (W := W)) as Hpid.
  rewrite (proj2 (Z.eqb_neq (sp_child P) (-1))) by lia.
  set (v2 := v_phase PtRunning (v_pending sigs v)).
  apply judged_assoc. eapply judged_bind; [apply steps_kills|]. intros [] ? ->.
  apply judged_assoc, judged_assoc.
  apply (judged_libcall _ _ _ (wait_status r) v2).
  { intros w Hw. unfold suspended_child.
    destruct (y_sigsuspend r (as_child w)) as (w' & He & Hv); [by rewrite y_as_child, Hw|].
    rewrite He. split; [by destruct r|]. simpl. by rewrite y_as_parent, Hv, y_as_child, Hw. }
  apply judged_ret, judged_assoc.
  apply (judged_libcall _ _ _ (sp_waits P sigs, Some (wait_status r)) v2).
  { intros w Hw. destruct (y_waitpid (wait_status r) w) as (w' & -> & Hv). rewrite Hw in *. by split. }
  cbv iota beta. apply judged_assoc.
  apply judged_assert; [intros Hb%Z.eqb_eq|intros Hb%Z.eqb_neq; by apply HQ].
  apply judged_ret. by apply Hk.
Qed.

Lemma wait_status_exited r : (forall sig, r = inr sig -> 0 < sig < 127) ->
  WIFEXITED (wait_status r) = true /\ WEXITSTATUS (wait_status r) = 42 <-> r = inl tt.
Proof.
  intros Hsig. destruct r as [[]|sig]; simpl; [by split|]. split; [|done]. intros [H _].
  specialize (Hsig _ eq_refl). unfold WIFEXITED in H. apply Z.eqb_eq in H. change 0x7f with (Z.ones 7) in H.
  rewrite Z.land_ones, Z.mod_small in H; lia.
Qed.

Lemma wait_status_signaled r n : 0 < n < 127 -> (forall sig, r = inr sig -> 0 < sig < 127) ->
  WIFSIGNALED (wait_status r) = true /\ WTERMSIG (wait_status r) = n <-> r = inr n.
Proof.
  intros Hn Hsig. destruct r as [[]|sig]; simpl; [split; [by intros [? _]|done]|].
  specialize (Hsig _ eq_refl). unfold WIFSIGNALED, WTERMSIG. change 0x7f with (Z.ones 7).
  rewrite Z.land_ones, Z.mod_small by lia. change (Z.ones 7) with 127.
  rewrite andb_true_iff, !negb_true_iff, !Z.eqb_neq. split; [|intros [= <-]; lia].
  intros [_ ->]. done.
Qed.

(** The dispositions of the two children. *)
Definition ignoring (v : sys_view cap) : gmap Z disposition :=
  <[URG := HandlerNop]> (<[USR1 := SIG_IGN]> (y_action v)).

Lemma sig_dfl_ign_judged v r1 r2 :
  sp_wake P (ignoring v) (y_mask v) [USR1; URG] = Some r1 ->
  sp_wake P (<[USR1 := SIG_DFL]> (ignoring v)) (y_mask v) [USR1] = Some r2 ->
  judged (ct_func (sig_dfl_ign (cap := cap) (W := W))) v
    ((sp_waits P [USR1; URG] = sp_child P /\ r1 = inl tt) /\
     sp_waits P [USR1] = sp_child P /\ r2 = inr USR1).
Proof.
  intros H1 H2. unfold sig_dfl_ign, CHERIOSTEST. cbn [ct_func].
  pose proof (y_numbers) as (Hu & Hg & _).
  pose proof (wait_status_exited r1) as E1. pose proof (wait_status_signaled r2 _ Hu) as E2.
  eapply judged_iff; [|rewrite <- E1, <- E2; [reflexivity|..];
    intros sig ->; (eapply y_fatal; [|eassumption]); by repeat (apply Forall_nil_2 || apply Forall_cons_2)].
  do 4 apply judged_mask. do 2 apply judged_action.
  eapply judged_child; [exact H1|intros W1|naive_solver].
  apply judged_assert; [intros Ha|intros Ha [[_ [? _]] _]; congruence].
  apply judged_assert; [intros Hb%Z.eqb_eq|intros Hb%Z.eqb_neq [[_ [_ ?]] _]; congruence].
  apply judged_action. eapply judged_child; [exact H2|intros W2|naive_solver].
  apply judged_assert; [intros Hc|intros Hc [_ [_ [? _]]]; congruence].
  apply judged_assert; [intros Hd%Z.eqb_eq|intros Hd%Z.eqb_neq [_ [_ [_ ?]]]; congruence].
  by apply judged_success.
Qed.

(** POSIX wakes the first child by the handler, and kills the second. *)
Lemma posix_wakes nop a m : USR1 ∉ m -> URG ∉ m -> nop USR1 = false ->
  posix_wake nop (<[URG := HandlerNop]> (<[USR1 := SIG_IGN]> a)) m [USR1; URG] = Some (inl tt) /\
  posix_wake nop (<[USR1 := SIG_DFL]> (<[URG := HandlerNop]> (<[USR1 := SIG_IGN]> a))) m [USR1]
    = Some (inr USR1).
Proof.
  intros H1 H2 Hn. pose proof (y_numbers) as (_ & _ & Hne & _). unfold posix_wake.
  rewrite !bool_decide_eq_false_2 by done.
  rewrite lookup_insert_ne, !lookup_insert_eq by done. simpl. by rewrite Hn.
Qed.

(** *** aio_sival *)

Lemma judged_verify_zero {A B} (f : W -> (A + Z) * W) msg (k : option A -> test cap W B) v v' Q :
  (forall w, y_view w = v -> exists r w', f w = (inl r, w') /\ y_view w' = v') ->
  (forall r, judged (k (Some r)) v' Q) -> judged (verify_zero (cap := cap) f msg ≫= k) v Q.
Proof.
  intros Hf Hk. unfold verify_zero. apply judged_assoc.
  eapply (judged_bind _ _ _ (fun r v2 => (exists a, r = Some a) /\ v2 = v')).
  { eapply steps_mono; [apply (steps_try _ _ (fun _ v2 => v2 = v')); exact Hf|].
    intros r v2 (a & -> & ->). by split; [exists a|]. }
  intros ? ? [[a ->] ->]. apply judged_assoc.
  eapply (judged_bind _ _ _ (fun _ v2 => v2 = v')); [by apply steps_gets|]. intros e ? ->.
  apply judged_assoc. apply judged_verify; [intros _|done]. apply judged_ret, Hk.
Qed.

Lemma judged_verify_mask {B} c text (k : test cap W B) v Q :
  judged k (v_mask c v) Q -> judged (verify_mask (cap := cap) c text ;; k) v Q.
Proof.
  intros Hk. unfold verify_mask. apply judged_assoc.
  apply (judged_libcall _ _ _ 0 (v_mask c v)); [intros w <-; apply y_mask_call|].
  by apply judged_verify.
Qed.

Lemma judged_close {B} fd (k : option Z -> test cap W B) v Q :
  (forall r, judged (k r) v Q) -> judged (try_sys (sys_fd_close (cap := cap) fd) ≫= k) v Q.
Proof.
  intros Hk. eapply judged_bind; [apply (steps_try _ _ (fun _ v' => v' = v))|].
  - intros w <-. apply y_close.
  - intros r ? (a & -> & ->). apply Hk.
Qed.

(** A call whose result is dropped. *)
Lemma judged_try_any {A B} (f : W -> (A + Z) * W) (k : option A -> test cap W B) v Q :
  (forall w, y_view w = v -> exists r w', f w = (r, w') /\ y_view w' = v) ->
  (forall r, judged (k r) v Q) -> judged (try_sys f ≫= k) v Q.
Proof.
  intros Hf Hk s [Hs Hv]. destruct (Hf _ Hv) as (r & w' & Hr & Hw).
  pose proof (try_sys_run f s r w' Hr) as Ht.
  destruct r; rewrite (succeeds_bind _ _ _ _ _ Ht); apply Hk; by split.
Qed.

(** The statics after the deliveries are those of the last one. *)
Lemma handle_last st l : handle (cap := cap) st l = default st (last l).
Proof.
  unfold handle. induction l as [|d l IH] using rev_ind; [done|].
  by rewrite foldl_app, last_snoc.
Qed.

(** What the kernel tells about a request for SIGUSR1 with the handler as value. *)
Definition aio_ends (v : sys_view cap) : Z * Z * list (Z * Z * cap) :=
  sp_suspend P ({[ALRM]} ∪ ({[USR1]} ∪ y_handled v)) (y_mask v) (USR1, aio_handler (W := W)).

Definition aio_accepted (e : Z * Z * list (Z * Z * cap)) : Prop :=
  let '(res, errno, l) := e in
  res = -1 /\ errno = EINTR (cap := cap) (W := W) /\
  exists value, last l = Some (USR1, SI_ASYNCIO (cap := cap) (W := W), value) /\
    cheri_address_get value = cheri_address_get (aio_handler (cap := cap) (W := W)).

Lemma aio_statics_judged l v res errno :
  res = -1 /\ errno = EINTR (cap := cap) (W := W) ->
  judged (let '(sig, code, value) := handle (0, 0, cap_null) l in
     if sig =? ALRM then cheriostest_failure_errx (A := unit) "Test timeout!" []
     else if sig =? 0 then cheriostest_failure_errx "No signal received?" []
     else if sig =? USR1 then
       CHERIOSTEST_VERIFY2 (code =? SI_ASYNCIO (cap := cap) (W := W))
         "Signal not asyncio?  code=%d" [AInt code] ;;
       CHERIOSTEST_VERIFY2 (cheri_address_get value =? cheri_address_get (aio_handler (W := W)))
         "Bad si_value; expected=%#p got=%#p" [APtr (aio_handler (W := W)); APtr value] ;;
       cheriostest_success
     else cheriostest_failure_errx "Bad signal %d" [AInt sig]) v (aio_accepted (res, errno, l)).
Proof.
  intros [Hr He]. pose proof y_numbers as (Hu & _ & _ & Ha & _).
  unfold aio_accepted. rewrite handle_last. destruct (last l) as [[[sig code] value]|]; cbv [default from_option id]; cbv iota beta.
  2: { destruct (0 =? ALRM); apply judged_failure_end; naive_solver. }
  destruct (Z.eqb_spec sig ALRM) as [->|H1]; [apply judged_failure_end; naive_solver|].
  destruct (Z.eqb_spec sig 0) as [->|H2]; [apply judged_failure_end; naive_solver lia|].
  destruct (Z.eqb_spec sig USR1) as [->|H3]; [|apply judged_failure_end; naive_solver].
  apply judged_verify; [intros ->%Z.eqb_eq|intros ?%Z.eqb_neq; naive_solver].
  apply judged_verify; [intros ?%Z.eqb_eq|intros ?%Z.eqb_neq; naive_solver].
  apply judged_success. naive_solver.
Qed.

Lemma aio_sival_judged v :
  judged (ct_func (aio_sival (cap := cap) (W := W))) v (aio_accepted (aio_ends v)).
Proof.
  unfold aio_sival, CHERIOSTEST. cbn [ct_func].
  apply (judged_verify_zero _ _ _ _ (v_handled USR1 v)); [intros w <-; apply y_aio_action|intros _].
  set (v1 := v_handled USR1 v).
  apply (judged_verify_zero _ _ _ _ (v_handled ALRM v1)); [intros w <-; apply y_aio_action|intros _].
  set (v2 := v_handled ALRM v1).
  apply (judged_verify_zero _ _ _ _ v2); [intros w <-; apply y_socketpair|intros pfd].
  apply (judged_verify_zero _ _ _ _ (v_aio USR1 (aio_handler (W := W)) v2));
    [intros w <-; apply y_aio_read|intros _].
  do 4 apply judged_verify_mask.
  apply judged_close. intros _.
  set (v3 := v_mask _ _). apply (judged_libcall _ _ _ tt v3).
  { intros w <-. split; [done|]. apply y_alarm. }
  apply (judged_libcall _ _ _ (aio_ends v) v3).
  { intros w Hw. destruct (y_suspend (USR1, aio_handler) w) as [H1 H2]; [by rewrite Hw|].
    rewrite H1, H2, Hw. done. }
  destruct (aio_ends v) as [[res errno] l]. cbv iota beta.
  apply judged_verify.
  - intros [?%Z.eqb_eq ?%Z.eqb_eq]%andb_true_iff. apply judged_close. intros _.
    by apply aio_statics_judged.
  - intros Hf (-> & -> & _). by rewrite !Z.eqb_refl in Hf.
Qed.

(** *** ptrace_basic *)

Definition stopped_ok (r : Z * Z) : Prop :=
  (is_freebsd g = true -> r.1 = sp_child P) /\ WIFSTOPPED r.2 = true /\
  WSTOPSIG r.2 = SIGSTOP (cap := cap) (W := W).

Lemma judged_stopped {B} (k : test cap W B) v r (Q : Prop) :
  y_phase v = PtAttached -> sp_status P PtAttached = r -> (stopped_ok r -> judged k v Q) -> (~ stopped_ok r -> ~ Q) ->
  judged (wait_attached (cap := cap) g (sp_child P) ;; k) v Q.
Proof.
  intros Hph Hr Hk HQ. unfold wait_attached. apply judged_assoc.
  apply (judged_libcall _ _ _ r v).
  { intros w <-. rewrite <- Hr. by apply y_wait_stopped. }
  destruct r as [res status]. pose proof y_numbers as (_ & _ & _ & _ & _ & Hs & _).
  unfold stopped_ok in *. cbn [fst snd] in *. destruct (is_freebsd g); apply judged_assoc.
  - apply judged_verify; [intros He%Z.eqb_eq|intros He%Z.eqb_neq; apply HQ; naive_solver].
    unfold stopsig_of. apply judged_verify.
    + intros Hst%Z.eqb_eq. destruct (WIFSTOPPED status) eqn:Hw; [|lia]. by apply Hk.
    + intros Hst%Z.eqb_neq. apply HQ. intros (_ & Hw & ?). by rewrite Hw in Hst.
  - apply judged_verify; [intros He|intros He; apply HQ; intros (_ & ? & _); congruence].
    apply judged_verify; [intros Hst%Z.eqb_eq; by apply Hk|].
    intros Hst%Z.eqb_neq. apply HQ. naive_solver.
Qed.

(** The answers that the parent accepts. *)
Definition trace_accepted : Prop :=
  (exists n, sp_hello P = inl (n, char_c) /\ u64 n = 1) /\
  (sp_status P PtRunning).2 = 0 /\
  (exists a, sp_attach P = inl a) /\ stopped_ok (sp_status P PtAttached) /\
  (exists a, sp_kill P = inl a) /\
  let '(res, status) := sp_status P PtKilled in
  res = sp_child P /\ WIFSIGNALED status = true /\ WTERMSIG status = SIGKILL (cap := cap) (W := W).

Lemma judged_end v :
  y_phase v = PtKilled ->
  judged (r ← libcall (os_wait (cap := cap) (sp_child P));
    let '(res, status) := r in
    CHERIOSTEST_CHECK_EQ_INT res (sp_child P) "res" "cpid" ;;
    if termsig_of status =? SIGKILL (cap := cap) (W := W) then cheriostest_success (A := unit)
    else cheriostest_failure_errx
           "Unexpected child exit: status=%#x code=%d termsig=%d stopsig=%d
" [AInt status; AInt (exitcode_of status); AInt (termsig_of status); AInt (stopsig_of status)]) v
    (let '(res, status) := sp_status P PtKilled in
     res = sp_child P /\ WIFSIGNALED status = true /\ WTERMSIG status = SIGKILL (cap := cap) (W := W)).
Proof.
  intros Hp. apply (judged_libcall _ _ _ (sp_status P PtKilled) v).
  { intros w <-. by apply y_wait_end. }
  destruct (sp_status P PtKilled) as [res status].
  apply judged_verify; [intros ->%Z.eqb_eq|intros ?%Z.eqb_neq; naive_solver].
  pose proof y_numbers as (_ & _ & _ & _ & _ & _ & Hk). unfold termsig_of.
  destruct (WIFSIGNALED status).
  - destruct (Z.eqb_spec (WTERMSIG status) (SIGKILL (cap := cap) (W := W)));
      [by apply judged_success|apply judged_failure_end; naive_solver].
  - rewrite (proj2 (Z.eqb_neq _ _)) by lia. apply judged_failure_end. naive_solver.
Qed.

Lemma ptrace_parent_judged v : y_phase v = PtRunning ->
  judged (ptrace_basic_parent (cap := cap) g (sp_child P) (sp_pipe P)) v trace_accepted.
Proof.
  intros Hp. unfold ptrace_basic_parent, trace_accepted. apply judged_close. intros _.
  apply (judged_try _ _ _ (sp_hello P) v).
  { intros w <-. destruct (y_getc w) as (w' & H1 & H2). by exists w'. }
  destruct (sp_hello P) as [[n c]|e]; cbn [default];
    [change (id (n, c)) with (n, c)|]; cbv iota beta.
  2: { apply judged_verify; [done|]. intros _. naive_solver. }
  apply judged_verify; [intros Hn%Z.eqb_eq|intros Hn%Z.eqb_neq; naive_solver].
  apply judged_verify; [intros ->%Z.eqb_eq|intros Hc%Z.eqb_neq; naive_solver].
  apply (judged_libcall _ _ _ (sp_status P PtRunning) v).
  { intros w <-. by apply y_wait_now. }
  apply judged_verify; [intros Hw%Z.eqb_eq|intros Hw%Z.eqb_neq; naive_solver].
  apply (judged_call2 _ _ _ _ _ (sp_attach P) (v_phase PtAttached v)).
  { intros w <-. destruct (y_attach w) as (w' & H1 & H2). by exists w'. }
  2: { intros e ->. naive_solver. }
  intros a Ha. eapply judged_stopped; [done|reflexivity| |naive_solver].
  intros Hst. 
  apply (judged_call2 _ _ _ _ _ (sp_kill P) (v_phase PtKilled (v_phase PtAttached v))).
  { intros w <-. destruct (y_pt_kill w) as (w' & H1 & H2). by exists w'. }
  2: { intros e ->. naive_solver. }
  intros b Hb.
  apply judged_try_any; [intros w <-; apply y_putc_x|intros _].
  apply judged_close. intros _.
  eapply judged_iff; [by apply judged_end|]. rewrite Ha, Hb. naive_solver.
Qed.

Lemma ptrace_basic_judged v :
  judged (ct_func (ptrace_basic (cap := cap) (W := W) g)) v trace_accepted.
Proof.
  assert (ct_func (ptrace_basic (cap := cap) (W := W) g) =
    (pfd ← CHERIOSTEST_CHECK_SYSCALL (sys (sys_pipe_fds (cap := cap))) "pipe(pfd)";
     r ← try_sys (sys_fork Fork);
     let cpid := default (-1) r in
     if negb (cpid =? 0) then ptrace_basic_parent g cpid pfd else ptrace_basic_child pfd)) as ->
    by (unfold ptrace_basic; by destruct (is_freebsd g)).
  eapply judged_bind; [apply (steps_call2 _ _ _ _ (fun r v' => r = sp_pipe P /\ v' = v))|].
  { intros w <-. destruct (y_pipe w) as (w' & H1 & H2). by eexists _, w'. }
  intros ? ? [-> ->]. apply (judged_try _ _ _ (inl (sp_child P)) (v_phase PtRunning (v_pending [] v))).
  { intros w <-. destruct (y_fork w) as (w' & H1 & H2). by exists w'. }
  cbn [default]. change (id (sp_child P)) with (sp_child P). cbv zeta.
  pose proof (y_child_pid (cap := cap) (W := W)) as Hpid.
  rewrite (proj2 (Z.eqb_neq (sp_child P) 0)) by lia. by apply ptrace_parent_judged.
Qed.

(** The child reads from the end of the pipe that it wrote to. *)
Lemma child_undefined s e : sp_told P = inl 1 -> sp_wrong_end P = inr e ->
  (ptrace_basic_child (cap := cap) (sp_pipe P) s).1 = Undef.
Proof.
  intros Ht He. unfold ptrace_basic_child.
  destruct (y_close (sp_pipe P).1 (p_world s)) as (r & w1 & H1 & _).
  rewrite (test_bind _ _ _ _ _ (try_sys_run _ s _ _ H1)).
  destruct (y_putc w1) as (w2 & H2 & _). rewrite Ht in H2.
  rewrite (test_bind _ _ _ _ _ (try_sys_run _ (set_world w1 s) _ _ H2)).
  rewrite bool_decide_eq_true_2 by done.
  rewrite (test_bind _ _ (set_world w2 s) tt (set_world w2 s)) by done.
  destruct (y_getc_child w2) as (w3 & H3 & _). rewrite He in H3.
  by rewrite (test_bind _ _ _ _ _ (try_sys_run _ (set_world w2 s) _ _ H3)).
Qed.

(** C4: the test of the two special dispositions passes exactly when they are
    different addresses; the test of suspended children exactly when both calls of
    waitpid(2) return the child, the first child returns from its suspension and
    the second dies of SIGUSR1, which they do on a kernel that follows POSIX; the
    test of asynchronous reads exactly when the last delivery before
    sigsuspend(2) returns is SIGUSR1 with the code and the address that it asked
    for, with or without a tag; the test of ptrace(2) exactly when the child says
    that it runs, stops by SIGSTOP and dies of SIGKILL.  Its child compares a byte that is not set where a pipe cannot be
    read at its write end. *)
Theorem syscall_verdict (v : sys_view cap) :
  judged (ct_func (sig_dfl_neq_ign (cap := cap) (W := W))) v
    (cheri_address_get (sg_ign (cap := cap) (W := W)) <>
     cheri_address_get (sg_dfl (cap := cap) (W := W))) /\
  (forall r1 r2,
   sp_wake P (ignoring v) (y_mask v) [USR1; URG] = Some r1 ->
   sp_wake P (<[USR1 := SIG_DFL]> (ignoring v)) (y_mask v) [USR1] = Some r2 ->
   judged (ct_func (sig_dfl_ign (cap := cap) (W := W))) v
     ((sp_waits P [USR1; URG] = sp_child P /\ r1 = inl tt) /\
      sp_waits P [USR1] = sp_child P /\ r2 = inr USR1)) /\
  (forall nop, sp_wake P = posix_wake nop -> nop USR1 = false ->
   sp_waits P [USR1; URG] = sp_child P -> sp_waits P [USR1] = sp_child P ->
   USR1 ∉ y_mask v -> URG ∉ y_mask v ->
   judged (ct_func (sig_dfl_ign (cap := cap) (W := W))) v True) /\
  judged (ct_func (aio_sival (cap := cap) (W := W))) v (aio_accepted (aio_ends v)) /\
  judged (ct_func (ptrace_basic (cap := cap) (W := W) g)) v trace_accepted /\
  (forall s e, sp_told P = inl 1 -> sp_wrong_end P = inr e ->
   (ptrace_basic_child (cap := cap) (sp_pipe P) s).1 = Undef).
Proof.
  split; [|split; [|split; [|split; [|split]]]].
  - unfold sig_dfl_neq_ign, CHERIOSTEST. cbn [ct_func].
    destruct (Z.eqb_spec (cheri_address_get (sg_ign (cap := cap) (W := W)))
                (cheri_address_get (sg_dfl (cap := cap) (W := W))));
      [by apply judged_failure_end; auto|by apply judged_success].
  - intros r1 r2. apply sig_dfl_ign_judged.
  - intros nop HP Hn W1 W2 H1 H2.
    destruct (posix_wakes nop (y_action v) (y_mask v) H1 H2 Hn) as [E1 E2].
    rewrite <- HP in E1, E2. eapply judged_iff; [by apply (sig_dfl_ign_judged v _ _ E1 E2)|done].
  - apply aio_sival_judged.
  - apply ptrace_basic_judged.
  - apply child_undefined.
Qed.
End Facts.

(** ** A concrete kernel *)

(** The numbers of Linux; the value of a request loses its tag on the way. *)
Definition sig_cap (a : Z) : scap := toy_cap a 16 0 0.

Definition toy_syspolicy : sys_policy scap := {|
  sp_wake := posix_wake (fun sig => sig =? 23);
  sp_suspend handled mask req :=
    (-1, 4, if bool_decide (req.1 ∈ handled) then [(req.1, -4, cheri_tag_clear req.2)] else []);
  sp_child := 42;
  sp_pipe := (3, 4);
  sp_told := inl 1;
  sp_wrong_end := inr 9;
  sp_hello := inl (1, char_c);
  sp_attach := inl 0;
  sp_kill := inl 0;
  sp_waits _ := 42;
  sp_status p := match p with
                 | PtRunning => (0, 0)
                 | PtAttached => (42, Z.lor (Z.shiftl 19 8) 0x7f)
                 | PtKilled => (42, 9)
                 end;
|}.

Definition yworld := sys_view scap.

#[export] Instance sys_fork_os : ForkOS yworld := {|
  sys_fork _ w := (inl 42, v_phase PtRunning (v_pending [] w));
  as_child w := w;
  as_parent w := w;
|}.

#[export] Instance toy_syscalls : SyscallOS scap yworld := {|
  sg_dfl := sig_cap 0;
  sg_ign := sig_cap 1;
  assert_info := Siginfo 6 0 0 cap_null;
  SIGUSR1 := 10;
  SIGURG := 23;
  SIGKILL := 9;
  SIGSTOP := 19;
  SI_ASYNCIO := -4;
  EINTR := 4;
  os_mask c w := (0, v_mask c w);
  os_signal_action sig d w := (0, v_act sig d w);
  os_kill pid sig w := (0, v_pending (y_pending w ++ [sig]) w);
  sys_sigsuspend w :=
    (default (inl tt) (sp_wake toy_syspolicy (y_action w) (y_old w) (y_pending w)), w);
  aio_handler := sig_cap 0x40000;
  sys_aio_action sig w := (inl 0, v_handled sig w);
  sys_socketpair_fds w := (inl (3, 4), w);
  sys_aio_read _ sig value w := (inl 0, v_aio sig value w);
  sys_fd_close _ w := (inl 0, w);
  os_alarm _ w := w;
  sys_suspend_aio w :=
    (match y_aio w with
     | Some req => sp_suspend toy_syspolicy (y_handled w) (y_old w) req
     | None => (-1, 4, [])
     end, w);
  sys_pipe_fds w := (inl (3, 4), w);
  sys_getc fd w := (if fd =? 3 then sp_hello toy_syspolicy else sp_wrong_end toy_syspolicy, w);
  sys_putc fd c w := (if fd =? 4 then inl 1 else inr 9, w);
  os_wait_now _ _ w := (sp_status toy_syspolicy (y_phase w), w);
  sys_pt_attach _ w := (inl 0, v_phase PtAttached w);
  sys_pt_kill _ w := (inl 0, v_phase PtKilled w);
  os_wait_stopped _ w := (sp_status toy_syspolicy (y_phase w), w);
  os_wait _ w := (sp_status toy_syspolicy (y_phase w), w);
  os_waitpid pid st w := ((match st with Some _ => pid | None => -1 end, st), w);
|}.

(** A signal that kills is one of those that were sent. *)
Lemma posix_wake_fatal nop a m l sig : posix_wake nop a m l = Some (inr sig) -> sig ∈ l.
Proof.
  induction l as [|x l IH]; [done|]. simpl. case_bool_decide; [intros ?; right; auto|].
  destruct (default _ _); [destruct (nop x)|..]; intros Hw; simplify_eq;
    by (left || (right; apply IH)).
Qed.

#[export] Instance toy_sysrules : SyscallRules scap yworld.
Proof.
  refine {| y_policy := toy_syspolicy; y_view w := w |}; try done;
    try (intros; eexists; done); try (intros; eexists _, _; done).
  - intros a m l sig Hl H%posix_wake_fatal. by eapply Forall_forall in Hl.
  - intros r w Hr. exists w. cbn [sys_sigsuspend toy_syscalls]. by rewrite Hr.
  - intros req w Hr. cbn [sys_suspend_aio toy_syscalls]. by rewrite Hr.
  - intros w Hph. cbn [os_wait_now toy_syscalls]. by rewrite Hph.
  - intros w Hph. cbn [os_wait_stopped toy_syscalls]. by rewrite Hph.
  - intros w Hph. cbn [os_wait toy_syscalls]. by rewrite Hph.
Defined.

Definition sys_view0 : yworld := SysView ∅ ∅ ∅ ∅ [] ∅ None PtRunning.

(** On this kernel all four pass, the lost tag of the value included; the child of
    [ptrace_basic] does not block. *)
Lemma syscall_verdict_witness :
  judged (cap := scap) (fun w => w) (ct_func (sig_dfl_neq_ign (W := yworld))) sys_view0 True /\
  judged (cap := scap) (fun w => w) (ct_func (sig_dfl_ign (W := yworld))) sys_view0 True /\
  judged (cap := scap) (fun w => w) (ct_func (aio_sival (W := yworld))) sys_view0 True /\
  judged (cap := scap) (fun w => w) (ct_func (ptrace_basic (W := yworld) toy_config)) sys_view0 True /\
  (ptrace_basic_child (W := yworld) (3, 4)
     (Proc (Some child_state_zero) 0 ∅ "" "" 0 sys_view0)).1 = Undef.
Proof.
  destruct (syscall_verdict (SR := toy_sysrules) toy_config sys_view0)
    as (H1 & _ & H2 & H3 & H4 & H5).
  split; [|split; [|split; [|split]]].
  - refine (judged_iff _ _ _ _ H1 _). by split.
  - refine (H2 (fun sig => sig =? 23) eq_refl eq_refl eq_refl eq_refl _ _).
    + exact (not_elem_of_empty (C := gset Z) 10).
    + exact (not_elem_of_empty (C := gset Z) 23).
  - refine (judged_iff _ _ _ _ H3 _). split; [exact (fun _ => I)|]. intros _.
    split; [done|]. split; [done|]. exists (cheri_tag_clear (sig_cap 0x40000)).
    split; [|reflexivity]. cbn [sp_suspend toy_syspolicy y_policy toy_sysrules fst].
    rewrite bool_decide_eq_true_2; [reflexivity|]. apply elem_of_union_r, elem_of_union_l.
    exact (proj2 (elem_of_singleton (C := gset Z) 10 10) eq_refl).
  - refine (judged_iff _ _ _ _ H4 _). split; [exact (fun _ => I)|]. intros _.
    split; [by exists 1|]. split; [done|]. split; [by exists 0|].
    split; [by split|]. split; [by exists 0|]. done.
  - by apply (H5 _ 9).
Defined.
